(** * uber_analysis: a shallow embedding of the scrapers and their properties

    The repository holds several generations of one scraper:
    - [uber_scraper_weekloop_2026-02-15.py]: the asynchronous scraper with the
      fare-line parser, the checkpoint file of visited trips and the CSV of
      thirteen columns;
    - [uber_scraper_merged.py]: the backward walk over weeks (Previous button);
    - [uber_scraper_main.py]: the forward walk driven by a week cursor;
    - [uber_scraper_weekloop_test.py]: the navigation-only week loop.

    Part I embeds the code, one module per concern.  Part II states and proves
    the properties.

    Conventions.  A Python [str] is a list of Unicode code points and a
    JavaScript string a list of UTF-16 code units, both as [N].  The file
    system is explicit state.  The browser is an oracle: what a page shows is
    an input of the model.  A Python [float] is a binary64 number of IEEE 754,
    with its rounding, its infinities and nan, as [SpecFloat] of the Standard
    Library specifies it. *)

From Stdlib Require Import ZArith NArith QArith Lia List Bool String Ascii SpecFloat.
From stdpp Require Import base list gmap.

Set Default Proof Using "Type*".

Open Scope N_scope.
Open Scope list_scope.

(* ===================================================================== *)
(** * Part I: the embedding                                               *)
(* ===================================================================== *)

(** ** Text *)

Module Text.

(** A character: a code point (Python) or a UTF-16 code unit (JavaScript). *)
Abbreviation char := N.

Abbreviation text := (list N).

(** An ASCII literal of the source as text. *)
Definition str (s : string) : text :=
  map N_of_ascii (list_ascii_of_string s).

(** The non-ASCII characters the sources use in literals. *)
Definition times_sign : char := 215%N.      (* U+00D7, the multiplication sign *)
Definition en_dash : char := 8211%N.        (* U+2013 *)
Definition bullet : char := 8226%N.         (* U+2022 *)

Definition in_range (lo hi c : char) : bool :=
  ((lo <=? c) && (c <=? hi))%N.

(** ['0'..'9'], ['a'..'z'], ['A'..'Z'] as code tests. *)
Definition ascii_digit (c : char) : bool := in_range 48 57 c.
Definition ascii_upper (c : char) : bool := in_range 65 90 c.
Definition ascii_lower (c : char) : bool := in_range 97 122 c.

Definition char_eqb (a b : char) : bool := (a =? b)%N.

Fixpoint text_eqb (a b : text) : bool :=
  match a, b with
  | [], [] => true
  | x :: a', y :: b' => char_eqb x y && text_eqb a' b'
  | _, _ => false
  end.

(** [needle in hay] of Python, [hay.includes(needle)] of JavaScript. *)
Fixpoint starts_with (needle hay : text) : bool :=
  match needle, hay with
  | [], _ => true
  | x :: n', y :: h' => char_eqb x y && starts_with n' h'
  | _ :: _, [] => false
  end.

Fixpoint includes (needle hay : text) : bool :=
  starts_with needle hay ||
  match hay with
  | [] => false
  | _ :: h' => includes needle h'
  end.

(** Decimal rendering of a natural number, as [str(n)] and [`${n}`] give it. *)
Fixpoint digits_fuel (fuel : nat) (n : N) (acc : text) : text :=
  match fuel with
  | O => acc
  | S f =>
      let acc' := (48 + n mod 10)%N :: acc in
      if (n <? 10)%N then acc' else digits_fuel f (n / 10)%N acc'
  end.

Definition decimal (n : N) : text :=
  digits_fuel (S (N.to_nat (N.log2 n))) n [].

(** The value of a run of ASCII digits, most significant first. *)
Definition digit_val (c : char) : N := (c - 48)%N.

Definition number_of (ds : list N) : N :=
  fold_left (fun acc d => (10 * acc + d)%N) ds 0%N.

(** [s.strip()] for a given notion of white space: both ends trimmed. *)
Fixpoint lstrip (sp : char -> bool) (s : text) : text :=
  match s with
  | x :: s' => if sp x then lstrip sp s' else s
  | [] => []
  end.

Definition strip (sp : char -> bool) (s : text) : text :=
  rev (lstrip sp (rev (lstrip sp s))).

End Text.

(** ** The Unicode character database, as Python consults it

    [\d], [\s], [str.strip], [float], [int] and the IGNORECASE flag of [re] read
    the Unicode character database.  Its Latin-1 block is written out below;
    the rest of the database is not part of the repository and is a parameter
    of the model ([beyond_latin1]), so that nothing proved depends on it. *)

Module Unicode.
Import Text.

Class beyond_latin1 : Type := {
  ext_decimal : char -> option N;   (* digit value of a character of category Nd *)
  ext_space : char -> bool;         (* white space *)
  ext_lower : char -> char          (* simple lower-case mapping *)
}.

(** A database with nothing beyond Latin-1: enough to run the model on Latin-1
    text, where the parameter is never consulted. *)
Definition latin1_only : beyond_latin1 :=
  {| ext_decimal := fun _ => None; ext_space := fun _ => false; ext_lower := fun c => c |}.

Definition is_latin1 (c : char) : bool := c <? 256.

Section Database.
Context {U : beyond_latin1}.

(** Digit value of a decimal digit (category Nd): in Latin-1 only ['0'..'9']. *)
Definition decimal_value (c : char) : option N :=
  if is_latin1 c then (if ascii_digit c then Some (c - 48) else None)
  else ext_decimal c.

Definition is_decimal (c : char) : bool :=
  match decimal_value c with Some _ => true | None => false end.

(** White space: in Latin-1 the characters 9-13, 28-32, 133 and 160. *)
Definition is_space (c : char) : bool :=
  if is_latin1 c
  then in_range 9 13 c || in_range 28 32 c || (c =? 133) || (c =? 160)
  else ext_space c.

(** Lower case: in Latin-1, ['A'..'Z'] and U+00C0..U+00DE except the
    multiplication sign U+00D7 move up by 32. *)
Definition to_lower (c : char) : char :=
  if is_latin1 c
  then (if ascii_upper c || (in_range 192 222 c && negb (c =? 215)) then c + 32 else c)
  else ext_lower c.

End Database.
End Unicode.

(** ** Regular expressions: a backtracking matcher

    Both [re] of Python and the regular expressions of JavaScript are
    backtracking matchers: alternatives are tried left to right, a greedy
    repetition tries the longest run first, a lazy one the shortest, and the
    first success wins.  The matcher below does the same on the fragment the
    sources use.  A pattern of the source is written as a term of [regex]. *)

Module Regex.
Import Text.

Inductive regex : Type :=
| Eps                                   (* the empty pattern *)
| One (p : char -> bool)                (* one character of a class *)
| Cat (r1 r2 : regex)                   (* r1 r2 *)
| Alt (r1 r2 : regex)                   (* r1|r2 *)
| Rep (greedy : bool) (r : regex)       (* r* and r*? *)
| Grp (i : nat) (r : regex)             (* the capturing group number i *)
| Bol                                   (* ^ *)
| Eol.                                  (* $ (no multi-line flag) *)

(** Captures, latest first. *)
Definition caps : Type := list (nat * text).

(** A match: the text left after it, and the captures. *)
Definition found : Type := (text * caps)%type.

(** What a pattern consumed between two suffixes of the subject. *)
Definition consumed (s s' : text) : text :=
  take (length s - length s')%nat s.

(** What is left to do after a part of the pattern has matched: whether the
    subject is still whole, the rest of the subject, the captures so far. *)
Definition cont : Type := bool -> text -> caps -> option found.

(** The rounds of a repetition whose body is matched by [step] and which is
    followed by [k].  A greedy repetition tries one more round before it tries
    what follows; a lazy one tries what follows first.  A round that consumes
    nothing is dropped, so [length s] rounds are enough. *)
Fixpoint rounds (step : cont -> cont) (greedy : bool) (k : cont) (fuel : nat)
    (b : bool) (s : text) (c : caps) {struct fuel} : option found :=
  match fuel with
  | O => k b s c
  | S fuel' =>
      let again :=
        step (fun b' s' c' =>
                if (length s' <? length s)%nat
                then rounds step greedy k fuel' b' s' c' else None)
             b s c in
      if greedy
      then match again with Some m => Some m | None => k b s c end
      else match k b s c with Some m => Some m | None => again end
  end.

(** [run r k b s c]: match [r] at the head of [s], then continue with [k].
    [b] tells whether [s] is the whole subject (for [^]). *)
Fixpoint run (r : regex) (k : cont) (b : bool) (s : text) (c : caps) {struct r}
  : option found :=
  match r with
  | Eps => k b s c
  | One p =>
      match s with
      | x :: s' => if p x then k false s' c else None
      | [] => None
      end
  | Cat r1 r2 => run r1 (run r2 k) b s c
  | Alt r1 r2 =>
      match run r1 k b s c with
      | Some m => Some m
      | None => run r2 k b s c
      end
  | Rep greedy r1 => rounds (run r1) greedy k (length s) b s c
  | Grp i r1 => run r1 (fun b' s' c' => k b' s' ((i, consumed s s') :: c')) b s c
  | Bol => if b then k b s c else None
  | Eol => match s with [] => k b s c | _ :: _ => None end
  end.

Definition accept : cont := fun _ s c => Some (s, c).

(** A match that starts at the head of [s]. *)
Definition match_here (r : regex) (b : bool) (s : text) : option found :=
  run r accept b s [].

(** The leftmost match: [re.search], [String.prototype.match] without [g]. *)
Fixpoint search_from (r : regex) (b : bool) (s : text) : option found :=
  match match_here r b s with
  | Some m => Some m
  | None =>
      match s with
      | [] => None
      | _ :: s' => search_from r false s'
      end
  end.

Definition search (r : regex) (s : text) : option found := search_from r true s.

(** The text of group [i] of a match. *)
Fixpoint group (i : nat) (c : caps) : option text :=
  match c with
  | [] => None
  | (j, w) :: c' => if (i =? j)%nat then Some w else group i c'
  end.

(** The declarative reading of a pattern: [consumes r s s'] when [r] can match
    at the head of [s] and leave [s'].  Anchors are not checked and captures
    are not recorded, so every match the matcher finds is one of these, and
    not conversely. *)
Inductive consumes : regex -> text -> text -> Prop :=
| consumes_eps s : consumes Eps s s
| consumes_one p x s : p x = true -> consumes (One p) (x :: s) s
| consumes_cat r1 r2 s s1 s2 :
    consumes r1 s s1 -> consumes r2 s1 s2 -> consumes (Cat r1 r2) s s2
| consumes_alt_l r1 r2 s s' : consumes r1 s s' -> consumes (Alt r1 r2) s s'
| consumes_alt_r r1 r2 s s' : consumes r2 s s' -> consumes (Alt r1 r2) s s'
| consumes_rep_done g r s : consumes (Rep g r) s s
| consumes_rep_more g r s s1 s2 :
    consumes r s s1 -> consumes (Rep g r) s1 s2 -> consumes (Rep g r) s s2
| consumes_grp i r s s' : consumes r s s' -> consumes (Grp i r) s s'
| consumes_bol s : consumes Bol s s
| consumes_eol s : consumes Eol s s.

(** Whether a pattern holds the group [i]. *)
Fixpoint has_group (i : nat) (r : regex) : bool :=
  match r with
  | Eps | One _ | Bol | Eol => false
  | Cat r1 r2 | Alt r1 r2 => has_group i r1 || has_group i r2
  | Rep _ r1 => has_group i r1
  | Grp j r1 => (i =? j)%nat || has_group i r1
  end.

(** Whether every match of a pattern sets the group [i]: the group is on the
    way of every alternative, and not inside a repetition. *)
Fixpoint sets_group (i : nat) (r : regex) : bool :=
  match r with
  | Eps | One _ | Rep _ _ | Bol | Eol => false
  | Cat r1 r2 => sets_group i r1 || sets_group i r2
  | Alt r1 r2 => sets_group i r1 && sets_group i r2
  | Grp j r1 => (i =? j)%nat || sets_group i r1
  end.

(** Whether a pattern is free of [^] and [$]. *)
Fixpoint anchor_free (r : regex) : bool :=
  match r with
  | Eps | One _ => true
  | Cat r1 r2 | Alt r1 r2 => anchor_free r1 && anchor_free r2
  | Rep _ r1 | Grp _ r1 => anchor_free r1
  | Bol | Eol => false
  end.

(** Derived forms. *)
Definition plus (r : regex) : regex := Cat r (Rep true r).       (* r+ *)
Definition star (r : regex) : regex := Rep true r.               (* r* *)
Definition lazy_plus (r : regex) : regex := Cat r (Rep false r). (* r+? *)
Definition opt (r : regex) : regex := Alt r Eps.                 (* r? *)

Fixpoint seq (rs : list regex) : regex :=
  match rs with
  | [] => Eps
  | [r] => r
  | r :: rs' => Cat r (seq rs')
  end.

(** A literal, compared exactly. *)
Definition chr (c : char) : regex := One (char_eqb c).
Definition lit (s : text) : regex := seq (map chr s).

End Regex.

(** ** Python: exceptions, and the pieces of [re] and [float] the code uses *)

Module Py.
Import Text Unicode Regex.

Inductive exn : Type :=
| ValueError        (* float() or strptime() on malformed text, a date out of range *)
| TypeError         (* float(None) *)
| OverflowError     (* date arithmetic past datetime.max *)
| BrowserError      (* any exception of the browser driver *)
| ScriptError.      (* a JavaScript exception inside page.evaluate *)

Inductive outcome (A : Type) : Type :=
| Returned (a : A)
| Raised (e : exn).
Arguments Returned {A} a.
Arguments Raised {A} e.

Definition bind {A B : Type} (x : outcome A) (f : A -> outcome B) : outcome B :=
  match x with
  | Returned a => f a
  | Raised e => Raised e
  end.

Notation "x <- e1 ;; e2" := (bind e1 (fun x => e2))
  (at level 100, e1 at next level, right associativity).

(** A [float]: a binary64 number, that is a zero or an infinity with its
    sign, nan, or [(-1)**s * m * 2**e] with [m] of at most 53 bits. *)
Abbreviation float := spec_float.

Definition prec : Z := 53.
Definition emax : Z := 1024.

#[global] Instance float_eq_dec : EqDecision float.
Proof. solve_decision. Defined.

(** [0.0]. *)
Definition float_zero : float := S754_zero false.

(** [a + b], [a == b], [a < b] and [a <= b] of IEEE 754; the sum is rounded to
    the nearest float, ties to even. *)
Definition float_add (a b : float) : float := SFadd prec emax a b.
Definition float_eq (a b : float) : bool := SFeqb a b.
Definition float_lt (a b : float) : bool := SFltb a b.
Definition float_le (a b : float) : bool := SFleb a b.

(** Truthiness of a float ([if x:], which is [x != 0.0]) and [x > 0]. *)
Definition float_truthy (a : float) : bool := negb (float_eq a float_zero).
Definition float_pos (a : float) : bool := float_lt float_zero a.

(** [math.ldexp(m, e)], the float nearest to [m * 2**e]: a way to write a float
    down, exact when [m] has at most 53 bits and the result is in range. *)
Definition ldexp (m e : Z) : float := binary_normalize prec emax m e false.

(** The number a float holds, in lowest terms; none for an infinity or nan. *)
Definition exact (x : float) : option Q :=
  match x with
  | S754_zero _ => Some (0 # 1)%Q
  | S754_finite s m e =>
      Some (Qred (inject_Z (if s then Z.neg m else Z.pos m) * Qpower (2 # 1) e))%Q
  | S754_infinity _ | S754_nan => None
  end.

(** A float without the sign bit that is not nan: [0.0], a positive number
    or [inf]. *)
Definition unsigned (x : float) : Prop :=
  match x with
  | S754_zero false | S754_finite false _ _ | S754_infinity false => True
  | _ => False
  end.

(** A natural number as the operand of a division: the integer itself, however
    long (mantissa [n], exponent 0), not yet rounded. *)
Definition operand (n : N) : float :=
  match n with
  | N0 => S754_zero false
  | Npos p => S754_finite false p 0
  end.

Section Flavour.
Context {U : beyond_latin1}.

(** [\d] and [\s] of a [str] pattern. *)
Definition d : regex := One is_decimal.
Definition ws : regex := One is_space.

(** A cased literal under [re.IGNORECASE]: the subject's character is lowered
    and compared with the lowered literal; dotless i (U+0131) counts as [i] and
    long s (U+017F) as [s].  [c] is the literal in lower case. *)
Definition same_letter (c x : char) : bool :=
  let lx := to_lower x in
  (lx =? c) || ((c =? 105) && (lx =? 305)) || ((c =? 115) && (lx =? 383)).

Definition letter (c : char) : regex := One (same_letter c).
Definition word (s : text) : regex := seq (map letter s).

(** Four consecutive characters that IGNORECASE reads as the letters of [w]. *)
Fixpoint spells_here (w s : text) : bool :=
  match w, s with
  | [], _ => true
  | c :: w', x :: s' => same_letter c x && spells_here w' s'
  | _ :: _, [] => false
  end.

Fixpoint spells (w s : text) : bool :=
  spells_here w s ||
  match s with
  | [] => false
  | _ :: s' => spells w s'
  end.

(** [float(s)] for [s] made of decimal digits and full stops, which is all a
    group [[\d\.]+] can hold: a numeral with at most one full stop and at
    least one digit; anything else is a ValueError ([None]).  The float is the
    one nearest to the number written, ties to even: [inf] when that number is
    beyond the range, [0.0] when it is below half the smallest float. *)
Fixpoint digits_of (s : text) : option (list N) :=
  match s with
  | [] => Some []
  | x :: s' =>
      match decimal_value x, digits_of s' with
      | Some v, Some vs => Some (v :: vs)
      | _, _ => None
      end
  end.

Fixpoint split_stop (s : text) : text * option text :=
  match s with
  | [] => ([], None)
  | x :: s' =>
      if x =? 46 then ([], Some s')
      else let '(a, b) := split_stop s' in (x :: a, b)
  end.

(** The float of the numeral with the digits [ip] before and [fp] after the
    full stop: the quotient of the number all the digits write by the power of
    ten, rounded once ([SFdiv] rounds the exact quotient of its operands). *)
Definition ratio (ip fp : list N) : float :=
  SFdiv prec emax (operand (number_of (ip ++ fp)))
                  (operand (10 ^ N.of_nat (length fp))).

Definition float_of_numeral (s : text) : option float :=
  let '(a, b) := split_stop s in
  match digits_of a, digits_of (default [] b) with
  | Some ip, Some fp =>
      match ip, fp with
      | [], [] => None
      | _, _ => Some (ratio ip fp)
      end
  | _, _ => None
  end.

(** [float(m.group(i))]. *)
Definition float_of_group (g : option text) : outcome float :=
  match g with
  | None => Raised TypeError
  | Some s =>
      match float_of_numeral s with
      | Some q => Returned q
      | None => Raised ValueError
      end
  end.

End Flavour.
End Py.

(** ** The fare-line parser ([uber_scraper_weekloop_2026-02-15.py]) *)

Module FareParser.
Import Text Unicode Regex Py.

Section Parser.
Context {U : beyond_latin1}.

(** The class [[\d\.]]. *)
Definition num_char (c : char) : bool := is_decimal c || (c =? 46).

(** [([\d\.]+)\s*mile\s*×\s*\$([\d\.]+)/mile] with [re.IGNORECASE]. *)
Definition mile_re : regex :=
  seq [ Grp 1 (plus (One num_char)); star ws; word (str "mile"); star ws;
        chr times_sign; star ws; chr 36; Grp 2 (plus (One num_char));
        chr 47; word (str "mile") ].

(** [([\d\.]+)\s*min(?:ute)?\s*×\s*\$([\d\.]+)/min] with [re.IGNORECASE]. *)
Definition minute_re : regex :=
  seq [ Grp 1 (plus (One num_char)); star ws; word (str "min");
        opt (word (str "ute")); star ws;
        chr times_sign; star ws; chr 36; Grp 2 (plus (One num_char));
        chr 47; word (str "min") ].

(** The result: a [dict] with a subset of the keys miles, rate_per_mile,
    minutes, rate_per_minute. *)
Definition parse_fare_line (item_label : text) (txt : text) : outcome (gmap string float) :=
  let result : gmap string float := ∅ in
  result <-
    match search mile_re txt with
    | Some (_, c) =>
        miles <- float_of_group (group 1 c) ;;
        rate_per_mile <- float_of_group (group 2 c) ;;
        Returned (<["rate_per_mile"%string := rate_per_mile]>
                    (<["miles"%string := miles]> result))
    | None => Returned result
    end ;;
  match search minute_re txt with
  | Some (_, c) =>
      minutes <- float_of_group (group 1 c) ;;
      rate_per_minute <- float_of_group (group 2 c) ;;
      Returned (<["rate_per_minute"%string := rate_per_minute]>
                  (<["minutes"%string := minutes]> result))
  | None => Returned result
  end.

End Parser.
End FareParser.

(** ** The checkpointed scraper ([uber_scraper_weekloop_2026-02-15.py]) *)

Module Scraper.
Import Text Unicode Regex Py FareParser.

(** [fare_breakdown]: a [dict] from label to value and detail, in insertion
    order (the order [json.dumps] writes). *)
Definition breakdown : Type := list (text * (option float * text)).

Fixpoint dict_set {V : Type} (k : text) (v : V) (d : list (text * V)) : list (text * V) :=
  match d with
  | [] => [(k, v)]
  | (k', v') :: d' => if text_eqb k k' then (k, v) :: d' else (k', v') :: dict_set k v d'
  end.

(** A cell handed to [csv.writer.writerow]. *)
Inductive cell : Type :=
| CStr (s : text)
| CNum (x : option float)          (* a float, or None *)
| CJson (d : breakdown).           (* json.dumps(fare_breakdown) *)

(** The two files: VISITED_FILENAME as the text Python reads back, CSV_FILENAME
    as the records written so far.  [None]: the file does not exist. *)
Record files : Type := {
  visited_jsonl : option text;
  uber_trips_csv : option (list (list cell))
}.

(** What the browser shows on a trip page: the result of each query of
    scrape_trip_details. *)
Record page : Type := {
  trip_date : option text;
  pickup_time : option text;
  dropoff_time : option text;
  trip_type : option text;
  pickup_location : option text;
  dropoff_location : option text;
  fare_item_labels : list text;
  fare_item_values : list text;
  fare_item_details : list text
}.

(** The running aggregates of the loop over fare items. *)
Record aggregates : Type := {
  fare_breakdown : breakdown;
  total_fare : float;
  distance_miles : option float;
  total_trip_minutes : option float;
  rate_per_mile : option float;
  rate_per_minute : option float
}.

Definition csv_header : list cell :=
  map (fun s => CStr (str s))
    [ "ride_id"; "date_local"; "pickup_time_local"; "dropoff_time_local";
      "event_type"; "distance_miles"; "total_trip_time_minutes";
      "pickup_location"; "dropoff_location"; "fare_breakdown_json";
      "rate_per_mile"; "rate_per_minute"; "total_fare" ]%string.

(** [s.split(sep)[-1]] and [s.split(sep)[0]]. *)
Fixpoint last_segment (sep : char) (s : text) : text :=
  match s with
  | [] => []
  | x :: s' =>
      if existsb (char_eqb sep) s then last_segment sep s' else s
  end.

Fixpoint first_segment (sep : char) (s : text) : text :=
  match s with
  | [] => []
  | x :: s' => if char_eqb sep x then [] else x :: first_segment sep s'
  end.

Definition trip_id_of (trip_link : text) : text :=
  first_segment 63 (last_segment 47 trip_link).

(** Text-mode reading: \r\n and \r become \n.  [pending_cr] tells that the
    character before was a \r, whose \n has been written already. *)
Fixpoint universal_newlines (pending_cr : bool) (s : text) : text :=
  match s with
  | [] => []
  | x :: s' =>
      if x =? 13 then 10 :: universal_newlines true s'
      else if (x =? 10) && pending_cr then universal_newlines false s'
      else x :: universal_newlines false s'
  end.

(** The lines of a text, each with its terminator dropped (it is white space,
    and the caller strips). *)
Fixpoint lines_from (cur : text) (s : text) : list text :=
  match s with
  | [] => match cur with [] => [] | _ => [rev cur] end
  | x :: s' => if x =? 10 then rev cur :: lines_from [] s' else lines_from (x :: cur) s'
  end.

Definition lines (s : text) : list text := lines_from [] (universal_newlines false s).

(** [(x or 0.0)]. *)
Definition or_zero (x : option float) : float :=
  match x with
  | Some v => if float_truthy v then v else float_zero
  | None => float_zero
  end.

Fixpoint zip3 {A B C : Type} (la : list A) (lb : list B) (lc : list C) : list (A * B * C) :=
  match la, lb, lc with
  | a :: la', b :: lb', c :: lc' => (a, b, c) :: zip3 la' lb' lc'
  | _, _, _ => []
  end.

Section Run.
Context {U : beyond_latin1}.

(** [float] on arbitrary text, [None] for a ValueError.  The built-in is not
    part of the repository; the scraper calls it on a fare value under
    [try ... except ValueError]. *)
Variable float_of_text : text -> option float.

(** The browser: what opening a trip link and querying the page gives, or the
    exception of the first browser call that fails. *)
Variable browse : text -> outcome page.

Definition fetch_visited (fs : files) : gset text :=
  match visited_jsonl fs with
  | None => ∅
  | Some content =>
      fold_left
        (fun (visited : gset text) line =>
           let trip_id := strip is_space line in
           match trip_id with
           | [] => visited
           | _ :: _ => visited ∪ {[ trip_id ]}
           end)
        (lines content) ∅
  end.

Definition append_visited (trip_id : text) (fs : files) : files :=
  {| visited_jsonl := Some (default [] (visited_jsonl fs) ++ trip_id ++ [10]);
     uber_trips_csv := uber_trips_csv fs |}.

Definition write_csv_header_if_needed (fs : files) : files :=
  match uber_trips_csv fs with
  | None => {| visited_jsonl := visited_jsonl fs; uber_trips_csv := Some [csv_header] |}
  | Some _ => fs
  end.

Definition append_trip_row (row : list cell) (fs : files) : files :=
  {| visited_jsonl := visited_jsonl fs;
     uber_trips_csv := Some (default [] (uber_trips_csv fs) ++ [row]) |}.

(** One round of the loop over [zip(labels, values, details)]. *)
Definition fare_item (a : aggregates) (item : text * text * text) : outcome aggregates :=
  let '(lbl, val_str, detail) := item in
  let val_clean :=
    strip is_space (filter (fun c => negb (c =? 44)) (filter (fun c => negb (c =? 36)) val_str)) in
  let val := match val_clean with [] => None | _ :: _ => float_of_text val_clean end in
  let fare_breakdown := dict_set lbl (val, detail) (fare_breakdown a) in
  let total_fare :=
    match val with Some v => float_add (total_fare a) v | None => total_fare a end in
  parsed <- parse_fare_line lbl detail ;;
  let distance_miles :=
    match parsed !! "miles"%string with
    | Some v => Some (float_add (or_zero (distance_miles a)) v)
    | None => distance_miles a
    end in
  let total_trip_minutes :=
    match parsed !! "minutes"%string with
    | Some v => Some (float_add (or_zero (total_trip_minutes a)) v)
    | None => total_trip_minutes a
    end in
  let rate_per_mile :=
    match parsed !! "rate_per_mile"%string with
    | Some r =>
        if float_truthy r && (bool_decide (rate_per_mile a = None) || float_pos r)
        then Some r else rate_per_mile a
    | None => rate_per_mile a
    end in
  let rate_per_minute :=
    match parsed !! "rate_per_minute"%string with
    | Some r =>
        if float_truthy r && (bool_decide (rate_per_minute a = None) || float_pos r)
        then Some r else rate_per_minute a
    | None => rate_per_minute a
    end in
  Returned {| fare_breakdown := fare_breakdown; total_fare := total_fare;
              distance_miles := distance_miles; total_trip_minutes := total_trip_minutes;
              rate_per_mile := rate_per_mile; rate_per_minute := rate_per_minute |}.

Definition no_fares : aggregates :=
  {| fare_breakdown := []; total_fare := float_zero; distance_miles := None;
     total_trip_minutes := None; rate_per_mile := None; rate_per_minute := None |}.

Fixpoint fare_items (a : aggregates) (items : list (text * text * text)) : outcome aggregates :=
  match items with
  | [] => Returned a
  | item :: items' => a' <- fare_item a item ;; fare_items a' items'
  end.

Definition stripped (x : option text) : text :=
  match x with
  | Some s => match s with [] => [] | _ :: _ => strip is_space s end
  | None => []
  end.

Definition trip_row (trip_id : text) (pg : page) (a : aggregates) : list cell :=
  [ CStr trip_id;
    CStr (stripped (trip_date pg));
    CStr (stripped (pickup_time pg));
    CStr (stripped (dropoff_time pg));
    CStr (strip is_space (default [] (trip_type pg)));
    CNum (distance_miles a);
    CNum (total_trip_minutes a);
    CStr (strip is_space (default [] (pickup_location pg)));
    CStr (strip is_space (default [] (dropoff_location pg)));
    CJson (fare_breakdown a);
    CNum (rate_per_mile a);
    CNum (rate_per_minute a);
    CNum (Some (total_fare a)) ].

(** The body of [try] in scrape_trip_details up to the row: the page is
    opened and queried, the fare items are folded, the row is built. *)
Definition scraped (trip_link : text) : outcome (list cell) :=
  pg <- browse trip_link ;;
  a <- fare_items no_fares
         (zip3 (fare_item_labels pg) (fare_item_values pg) (fare_item_details pg)) ;;
  Returned (trip_row (trip_id_of trip_link) pg a).

(** scrape_trip_details: the in-memory set [visited] is threaded through to
    show what the call does to it.  The page is the one thing that fails
    here; [Failing.scrape_trip_details] below lets the tab, the two files,
    print and page.close fail as well. *)
Definition scrape_trip_details (trip_link : text) (visited : gset text) (fs : files)
  : outcome unit * gset text * files :=
  let trip_id := trip_id_of trip_link in
  if bool_decide (trip_id ∈ visited) then (Returned tt, visited, fs)
  else
    match scraped trip_link with
    | Returned row =>
        let fs := append_trip_row row fs in
        let fs := append_visited trip_id fs in
        (Returned tt, visited, fs)
    | Raised e => (Raised e, visited, fs)
    end.

(** The loop [for link in trip_links] of scrape_all_trips, with its
    [except Exception] around each call. *)
Fixpoint scrape_links (links : list text) (visited : gset text) (fs : files)
  : gset text * files :=
  match links with
  | [] => (visited, fs)
  | link :: links' =>
      let '(_, visited, fs) := scrape_trip_details link visited fs in
      scrape_links links' visited fs
  end.

(** scrape_all_trips: [weeks] are the link lists of the activity pages the
    loop sees, one per round, until no Previous button is shown. *)
Fixpoint scrape_weeks (weeks : list (list text)) (visited : gset text) (fs : files)
  : gset text * files :=
  match weeks with
  | [] => (visited, fs)
  | trip_links :: weeks' =>
      let '(visited, fs) := scrape_links trip_links visited fs in
      scrape_weeks weeks' visited fs
  end.

Definition scrape_all_trips (weeks : list (list text)) (fs : files) : files :=
  let visited := fetch_visited fs in
  let fs := write_csv_header_if_needed fs in
  snd (scrape_weeks weeks visited fs).

End Run.
End Scraper.


(** ** The trip record and the CSV ledger ([uber_scraper_merged.py],
       [uber_scraper_main.py]) *)

Module Trip.
Import Text.

(** The object extract_trip_data returns: twenty-six strings. *)
Record trip : Type := {
  date : text; time : text; rideType : text; distancePay : text; timePay : text;
  surge : text; promotion : text; base : text; fare : text; tip : text;
  minFare : text; waitTime : text; regionFee : text; airportFee : text;
  insuranceFee : text; uberFee : text; points : text; city : text;
  pickup : text; dropoff : text; distance : text; durationMin : text;
  perMile : text; perMin : text; totalEarnings : text; customerFare : text
}.

End Trip.

Module Csv.
Import Text.

Definition HEADERS : list text :=
  map str
    [ "Date"; "Time"; "Ride Type"; "Distance Pay"; "Time Pay"; "Surge"; "Promotion";
      "Base"; "Fare (subtotal)"; "Tip"; "Minimum Fare Supplement"; "Wait Time Pay";
      "Region/City Fee"; "Airport Fee"; "Insurance & Operational Fee"; "Uber Service Fee";
      "Points Earned"; "City"; "Pickup Address"; "Dropoff Address"; "Distance (mi)";
      "Duration (min)"; "$/mile"; "$/min"; "Total Earnings"; "Total Customer Fare" ]%string.

(** The files of the disk by path; a CSV file is the list of the records
    written to it, a record the list of its fields. *)
Definition disk : Type := gmap text (list (list text)).

(** The list save_csv hands to [writerow] for one trip. *)
Definition row_of (t : Trip.trip) : list text :=
  [ Trip.date t; Trip.time t; Trip.rideType t; Trip.distancePay t; Trip.timePay t;
    Trip.surge t; Trip.promotion t; Trip.base t; Trip.fare t; Trip.tip t; Trip.minFare t;
    Trip.waitTime t; Trip.regionFee t; Trip.airportFee t; Trip.insuranceFee t; Trip.uberFee t;
    Trip.points t; Trip.city t; Trip.pickup t; Trip.dropoff t; Trip.distance t;
    Trip.durationMin t; Trip.perMile t; Trip.perMin t; Trip.totalEarnings t;
    Trip.customerFare t ].

Definition save_csv (trips : list Trip.trip) (path : text) (d : disk) : disk :=
  match trips with
  | [] => d
  | _ :: _ =>
      let exists_ := bool_decide (is_Some (d !! path)) in
      let f := default [] (d !! path) in
      let f := if exists_ then f else f ++ [HEADERS] in
      <[path := f ++ map row_of trips]> d
  end.

(** A number of save_csv calls on one path, in order; a process run makes
    some of them and the disk carries over to the next run. *)
Fixpoint save_all (calls : list (list Trip.trip)) (path : text) (d : disk) : disk :=
  match calls with
  | [] => d
  | trips :: calls' => save_all calls' path (save_csv trips path d)
  end.

End Csv.

(** ** The backward walk ([uber_scraper_merged.py], [uber_scraper_weekloop_test.py]) *)

Module Backward.
Import Text Unicode Py Csv.

(** What one round of [while True] meets: the browser's answers and the
    operator's.  At most one prompt is shown per round. *)
Record round : Type := {
  challenge : bool;                    (* check_for_security_challenge at the top *)
  reload : outcome unit;               (* page.goto and the wait after a challenge *)
  urls : outcome (list text);          (* click_load_more, then get_trip_urls *)
  visit : text -> outcome Trip.trip;   (* opening one trip, extract_trip_data *)
  activities : outcome unit;           (* back to the activities page *)
  previous : bool;                     (* click_previous_week *)
  answer : text;                       (* the operator's line at this round's prompt *)
  recover : outcome unit               (* page.goto and the wait of the skip branch *)
}.

Record state : Type := {
  week_num : N;
  empty_streak : N;
  total : N;
  files : disk
}.

Inductive status : Type :=
| Running                (* the loop goes round again *)
| Finished               (* break *)
| Crashed (e : exn).     (* an exception left main *)

(** The trips of a week: each URL is tried, a failing one is skipped. *)
Fixpoint extracted (visit : text -> outcome Trip.trip) (us : list text) : list Trip.trip :=
  match us with
  | [] => []
  | url :: us' =>
      match visit url with
      | Returned t => t :: extracted visit us'
      | Raised _ => extracted visit us'
      end
  end.

Definition is_empty {A : Type} (l : list A) : bool :=
  match l with [] => true | _ :: _ => false end.

Section Loop.
Context {U : beyond_latin1}.

(** [resp.lower() == 'stop']. *)
Definition lower_is_stop (resp : text) : bool :=
  text_eqb (map to_lower resp) (str "stop").

(** The body of [try] in main: [Returned true] is [break]; the state is the
    one reached when the body ends or raises. *)
Definition try_week (output : text) (r : round) (st : state) : outcome bool * state :=
  match (if challenge r then reload r else Returned tt) with
  | Raised e => (Raised e, st)
  | Returned _ =>
      match urls r with
      | Raised e => (Raised e, st)
      | Returned us =>
          let streak := if is_empty us then empty_streak st + 1 else 0 in
          let st := {| week_num := week_num st; empty_streak := streak;
                       total := total st; files := files st |} in
          if is_empty us && (3 <=? streak) then (Returned true, st)
          else
            let trips := extracted (visit r) us in
            let st :=
              if is_empty trips then st
              else {| week_num := week_num st; empty_streak := empty_streak st;
                      total := total st + N.of_nat (length trips);
                      files := save_csv trips output (files st) |} in
            match activities r with
            | Raised e => (Raised e, st)
            | Returned _ =>
                if previous r then (Returned false, st)
                else (Returned (lower_is_stop (answer r)), st)
            end
      end
  end.

(** One round of the loop of main, with its [except Exception]. *)
Definition week (output : text) (r : round) (st : state) : status * state :=
  let st := {| week_num := week_num st + 1; empty_streak := empty_streak st;
               total := total st; files := files st |} in
  match try_week output r st with
  | (Returned true, st) => (Finished, st)
  | (Returned false, st) => (Running, st)
  | (Raised _, st) =>
      if text_eqb (answer r) (str "stop") then (Finished, st)
      else if text_eqb (answer r) (str "skip") then
        match recover r with
        | Returned _ => (Running, st)
        | Raised e => (Crashed e, st)
        end
      else (Running, {| week_num := week_num st - 1; empty_streak := empty_streak st;
                        total := total st; files := files st |})
  end.

(** The loop over the rounds the browser offers; the rounds never reached are
    returned. *)
Fixpoint main_loop (output : text) (script : list round) (st : state)
  : status * state * list round :=
  match script with
  | [] => (Running, st, [])
  | r :: script' =>
      match week output r st with
      | (Running, st') => main_loop output script' st'
      | (s, st') => (s, st', script')
      end
  end.

(** The state main starts the loop in: [total] is the number of rows
    get_last_date counted. *)
Definition start (rows : N) (d : disk) : state :=
  {| week_num := 0; empty_streak := 0; total := rows; files := d |}.

(** The navigation test ([uber_scraper_weekloop_test.py]): no scraping and no
    [try]; an exception leaves main. *)
Definition test_week (r : round) (wn_es : N * N) : status * (N * N) :=
  let '(week_num, empty_streak) := wn_es in
  let week_num := week_num + 1 in
  match (if challenge r then reload r else Returned tt) with
  | Raised e => (Crashed e, (week_num, empty_streak))
  | Returned _ =>
      match urls r with
      | Raised e => (Crashed e, (week_num, empty_streak))
      | Returned us =>
          let empty_streak := if is_empty us then empty_streak + 1 else 0 in
          if is_empty us && (3 <=? empty_streak) then (Finished, (week_num, empty_streak))
          else if previous r then (Running, (week_num, empty_streak))
          else if lower_is_stop (answer r) then (Finished, (week_num, empty_streak))
          else (Running, (week_num, empty_streak))
      end
  end.

Fixpoint test_loop (script : list round) (wn_es : N * N) : status * (N * N) * list round :=
  match script with
  | [] => (Running, wn_es, [])
  | r :: script' =>
      match test_week r wn_es with
      | (Running, st') => test_loop script' st'
      | (s, st') => (s, st', script')
      end
  end.

End Loop.
End Backward.

(** ** Dates: the arithmetic of Python's [datetime] *)

Module Calendar.
Import Text Py.
Local Open Scope Z_scope.

(** A naive [datetime]: the civil date, and the time of day in microseconds
    since midnight (hour, minute, second and microsecond in one number; the
    order of the four is the order of the number). *)
Record datetime : Type := {
  year : Z;
  month : Z;
  day : Z;
  tod : Z
}.

Definition MINYEAR : Z := 1.
Definition MAXYEAR : Z := 9999.
Definition MAXORDINAL : Z := 3652059.   (* date.max.toordinal() *)

Definition is_leap (y : Z) : bool :=
  (y mod 4 =? 0) && (negb (y mod 100 =? 0) || (y mod 400 =? 0)).

Definition days_before_year (y : Z) : Z :=
  let y := y - 1 in y * 365 + y / 4 - y / 100 + y / 400.

(** _DAYS_IN_MONTH and _DAYS_BEFORE_MONTH, from index 1. *)
Definition DAYS_IN_MONTH : list Z := [31; 28; 31; 30; 31; 30; 31; 31; 30; 31; 30; 31].
Definition DAYS_BEFORE_MONTH : list Z := [0; 31; 59; 90; 120; 151; 181; 212; 243; 273; 304; 334].

Definition table (t : list Z) (m : Z) : Z := nth (Z.to_nat (m - 1)) t 0.

Definition days_in_month (y m : Z) : Z :=
  if (m =? 2) && is_leap y then 29 else table DAYS_IN_MONTH m.

Definition days_before_month (y m : Z) : Z :=
  table DAYS_BEFORE_MONTH m + (if (2 <? m) && is_leap y then 1 else 0).

Definition ymd2ord (y m d : Z) : Z :=
  days_before_year y + days_before_month y m + d.

Definition ord2ymd (n : Z) : Z * Z * Z :=
  let n := n - 1 in
  let n400 := n / 146097 in
  let n := n mod 146097 in
  let y := n400 * 400 + 1 in
  let n100 := n / 36524 in
  let n := n mod 36524 in
  let n4 := n / 1461 in
  let n := n mod 1461 in
  let n1 := n / 365 in
  let n := n mod 365 in
  let y := y + n100 * 100 + n4 * 4 + n1 in
  if (n1 =? 4) || (n100 =? 4) then (y - 1, 12, 31)
  else
    let leapyear := (n1 =? 3) && (negb (n4 =? 24) || (n100 =? 3)) in
    let m := Z.shiftr (n + 50) 5 in
    let preceding := table DAYS_BEFORE_MONTH m + (if (2 <? m) && leapyear then 1 else 0) in
    if n <? preceding then
      let m := m - 1 in
      let preceding :=
        preceding - (table DAYS_IN_MONTH m + (if (m =? 2) && leapyear then 1 else 0)) in
      (y, m, n - preceding + 1)
    else (y, m, n - preceding + 1).

(** The check of the [datetime] constructor. *)
Definition valid_date (y m d : Z) : bool :=
  (MINYEAR <=? y) && (y <=? MAXYEAR) && (1 <=? m) && (m <=? 12) &&
  (1 <=? d) && (d <=? days_in_month y m).

Definition valid (a : datetime) : bool :=
  valid_date (year a) (month a) (day a) && (0 <=? tod a) && (tod a <? 86400000000).

Definition make (y m d t : Z) : outcome datetime :=
  if valid_date y m d then Returned {| year := y; month := m; day := d; tod := t |}
  else Raised ValueError.

Definition toordinal (a : datetime) : Z := ymd2ord (year a) (month a) (day a).

(** [a.weekday()]: Monday is 0. *)
Definition weekday (a : datetime) : Z := (toordinal a + 6) mod 7.

(** [a + timedelta(days=k)], [k] of either sign. *)
Definition add_days (a : datetime) (k : Z) : outcome datetime :=
  let days := toordinal a + k in
  if (0 <? days) && (days <=? MAXORDINAL) then
    let '(y, m, d) := ord2ymd days in
    Returned {| year := y; month := m; day := d; tod := tod a |}
  else Raised OverflowError.

(** [a > b] on naive datetimes: the components compared in order. *)
Definition gt (a b : datetime) : bool :=
  match year a ?= year b with
  | Gt => true
  | Lt => false
  | Eq =>
      match month a ?= month b with
      | Gt => true
      | Lt => false
      | Eq =>
          match day a ?= day b with
          | Gt => true
          | Lt => false
          | Eq => tod b <? tod a
          end
      end
  end.

(** [a.replace(year=y)]. *)
Definition replace_year (a : datetime) (y : Z) : outcome datetime :=
  make y (month a) (day a) (tod a).

(** [strftime('%b')] in the C locale. *)
Definition month_abbr : list string :=
  [ "Jan"; "Feb"; "Mar"; "Apr"; "May"; "Jun"; "Jul"; "Aug"; "Sep"; "Oct"; "Nov"; "Dec" ]%string.

Definition strftime_b (a : datetime) : text :=
  str (nth (Z.to_nat (month a - 1)) month_abbr ""%string).

End Calendar.

(** ** The forward walk ([uber_scraper_main.py]) *)

Module Forward.
Import Text Unicode Regex Py Csv Calendar.

Definition get_monday (d : datetime) : outcome datetime :=
  add_days d (- weekday d).

Definition format_date (a : datetime) : text :=
  strftime_b a ++ str " " ++ decimal (Z.to_N (day a)) ++ str ", " ++ decimal (Z.to_N (year a)).

Definition format_week_range (monday : datetime) : outcome text :=
  end_ <- add_days monday 7 ;;
  Returned (format_date monday ++ str " " ++ [en_dash] ++ str " " ++ format_date end_).

Section Prompt.
Context {U : beyond_latin1}.

(** *** [datetime.strptime], as [_strptime] does it: the format becomes a
    pattern, the pattern must match at the start of the text and use it up,
    the groups become numbers, and the constructor checks the date. *)

(** A group is numbered by the code of its directive letter. *)
Definition dgroup (c : char) (r : regex) : regex := Grp (N.to_nat c) r.

Definition range (lo hi : char) : regex := One (in_range lo hi).

Definition month_names : list text :=
  map str [ "jan"; "feb"; "mar"; "apr"; "may"; "jun";
            "jul"; "aug"; "sep"; "oct"; "nov"; "dec" ]%string.

Fixpoint alternatives (rs : list regex) : regex :=
  match rs with
  | [] => Eps
  | [r] => r
  | r :: rs' => Alt r (alternatives rs')
  end.

(** The pattern of a directive: [%d] is [3[0-1]|[1-2]\\d|0[1-9]|[1-9]| [1-9]],
    [%m] is [1[0-2]|0[1-9]|[1-9]], [%y] is [\\d\\d], [%Y] is [\\d\\d\\d\\d] and
    [%b] the month names.  The source uses no other directive. *)
Definition directive (c : char) : regex :=
  if c =? 100 then
    dgroup c (alternatives
      [ Cat (chr 51) (range 48 49); Cat (range 49 50) d; Cat (chr 48) (range 49 57);
        range 49 57; Cat (chr 32) (range 49 57) ])
  else if c =? 109 then
    dgroup c (alternatives
      [ Cat (chr 49) (range 48 50); Cat (chr 48) (range 49 57); range 49 57 ])
  else if c =? 121 then dgroup c (seq [d; d])
  else if c =? 89 then dgroup c (seq [d; d; d; d])
  else if c =? 98 then dgroup c (alternatives (map word month_names))
  else Eps.

(** The format read left to right: [%x] is a directive, a blank stands for
    [\\s+], any other character for itself.  (The formats of the source hold
    single blanks.) *)
Fixpoint format_regex (after_percent : bool) (fmt : text) : regex :=
  match fmt with
  | [] => Eps
  | c :: fmt' =>
      if after_percent then Cat (directive c) (format_regex false fmt')
      else if c =? 37 then format_regex true fmt'
      else if c =? 32 then Cat (plus ws) (format_regex false fmt')
      else Cat (chr c) (format_regex false fmt')
  end.

(** [int(s)] on the text of a group: decimal digits, white space around them
    dropped. *)
Definition int_of (s : text) : option Z :=
  match strip is_space s with
  | [] => None
  | s' => option_map (fun ds => Z.of_N (number_of ds)) (digits_of s')
  end.

Fixpoint index_of (s : text) (l : list text) (i : Z) : option Z :=
  match l with
  | [] => None
  | x :: l' => if text_eqb s x then Some i else index_of s l' (i + 1)%Z
  end.

Definition group_of (c : char) (cs : caps) : option text := group (N.to_nat c) cs.

Definition strptime (data_string fmt : text) : outcome datetime :=
  match match_here (format_regex false fmt) true data_string with
  | None => Raised ValueError                  (* does not match the format *)
  | Some (_ :: _, _) => Raised ValueError      (* unconverted data remains *)
  | Some ([], cs) =>
      let year :=
        match group_of 89 cs, group_of 121 cs with
        | Some s, _ => int_of s
        | None, Some s =>
            option_map (fun y => if (y <=? 68)%Z then (y + 2000)%Z else (y + 1900)%Z) (int_of s)
        | None, None => Some 1900%Z
        end in
      let month :=
        match group_of 109 cs, group_of 98 cs with
        | Some s, _ => int_of s
        | None, Some s => index_of (map to_lower s) month_names 1%Z
        | None, None => Some 1%Z
        end in
      let day :=
        match group_of 100 cs with
        | Some s => int_of s
        | None => Some 1%Z
        end in
      match year, month, day with
      | Some y, Some m, Some d => make y m d 0
      | _, _, _ => Raised ValueError
      end
  end.

(** *** The start-date prompt of main *)

Definition formats : list text :=
  map str [ "%b %d, %Y"; "%b %d %Y"; "%b %d"; "%Y-%m-%d";
            "%m/%d/%Y"; "%m/%d/%y"; "%m-%d-%Y" ]%string.

(** The loop [for fmt in [...]]: [parsed] is the variable of that name. *)
Fixpoint try_formats (fmts : list text) (inp : text) (now : datetime)
    (parsed : option datetime) : option datetime :=
  match fmts with
  | [] => parsed
  | fmt :: fmts' =>
      match strptime inp fmt with
      | Raised _ => try_formats fmts' inp now parsed
      | Returned p =>
          if negb (includes (str "%Y") fmt) && negb (includes (str "%y") fmt) then
            match replace_year p (year now) with
            | Returned p' => Some p'
            | Raised _ => try_formats fmts' inp now (Some p)
            end
          else Some p
      end
  end.

(** [week_date] before it is snapped: [inp] is the operator's line, [now] the
    clock when it is handled (one path reads the clock once). *)
Definition start_date (inp : text) (now : datetime) : datetime :=
  match inp with
  | [] => now
  | _ :: _ =>
      let inp := strip is_space inp in
      match try_formats formats inp now None with
      | Some parsed => parsed
      | None => now
      end
  end.

(** [week_date] as main hands it to navigate_to_week. *)
Definition start_week (inp : text) (now : datetime) : outcome datetime :=
  get_monday (start_date inp now).

End Prompt.

(** *** The week loop of main *)

(** What the browser is asked to do, in order; each action carries the week
    cursor it is done for. *)
Inductive event : Type :=
| Navigated (w : datetime)                 (* navigate_to_week *)
| Loaded (w : datetime)                    (* click_load_more, get_trip_urls *)
| Visited (w : datetime) (url : text)      (* a trip page opened and extracted *)
| Saved (w : datetime) (n : nat).          (* save_csv of n trips *)

Record round : Type := {
  now_top : datetime;                  (* datetime.now() of the check at the top *)
  challenge : bool;
  renavigate : outcome unit;           (* the browser's part of navigate_to_week after a challenge *)
  urls : outcome (list text);
  visit : text -> outcome Trip.trip;
  now_next : datetime;                 (* datetime.now() of the check after advancing *)
  navigate : outcome unit;             (* back to activities, then the browser's part of navigate_to_week *)
  answer : text
}.

Record state : Type := {
  week_date : datetime;
  week_num : N;
  empty : N;
  total : N;
  files : disk;
  log : list event                     (* latest first *)
}.

Inductive status : Type :=
| Running
| Finished
| Crashed (e : exn).

Definition with_log (st : state) (es : list event) : state :=
  {| week_date := week_date st; week_num := week_num st; empty := empty st;
     total := total st; files := files st; log := es ++ log st |}.

Definition with_week_date (st : state) (w : datetime) : state :=
  {| week_date := w; week_num := week_num st; empty := empty st;
     total := total st; files := files st; log := log st |}.

Definition with_week_num (st : state) (n : N) : state :=
  {| week_date := week_date st; week_num := n; empty := empty st;
     total := total st; files := files st; log := log st |}.

(** navigate_to_week: the range is formatted, then typed into the page. *)
Definition navigate_to_week (browser : outcome unit) (st : state) : outcome unit * state :=
  match format_week_range (week_date st) with
  | Raised e => (Raised e, st)
  | Returned _ =>
      let st := with_log st [Navigated (week_date st)] in
      (browser, st)
  end.

Fixpoint visits (w : datetime) (visit : text -> outcome Trip.trip) (us : list text)
  : list Trip.trip * list event :=
  match us with
  | [] => ([], [])
  | url :: us' =>
      let '(ts, es) := visits w visit us' in
      match visit url with
      | Returned t => (t :: ts, es ++ [Visited w url])
      | Raised _ => (ts, es ++ [Visited w url])
      end
  end.

(** The body of [try]: [Returned true] is [break]. *)
Definition try_week (output : text) (r : round) (st : state) : outcome bool * state :=
  match (if challenge r then navigate_to_week (renavigate r) st else (Returned tt, st)) with
  | (Raised e, st) => (Raised e, st)
  | (Returned _, st) =>
      let st := with_log st [Loaded (week_date st)] in
      match urls r with
      | Raised e => (Raised e, st)
      | Returned us =>
          let streak := if Backward.is_empty us then empty st + 1 else 0 in
          let st := {| week_date := week_date st; week_num := week_num st; empty := streak;
                       total := total st; files := files st; log := log st |} in
          if Backward.is_empty us && (3 <=? streak) then (Returned true, st)
          else
            let '(trips, es) := visits (week_date st) (visit r) us in
            let st := with_log st es in
            let st :=
              if Backward.is_empty trips then st
              else {| week_date := week_date st; week_num := week_num st; empty := empty st;
                      total := total st + N.of_nat (length trips);
                      files := save_csv trips output (files st);
                      log := Saved (week_date st) (length trips) :: log st |} in
            match add_days (week_date st) 7 with
            | Raised e => (Raised e, st)
            | Returned next =>
                let st := with_week_date st next in
                if gt (week_date st) (now_next r) then (Returned true, st)
                else
                  match navigate_to_week (navigate r) st with
                  | (Raised e, st) => (Raised e, st)
                  | (Returned _, st) => (Returned false, st)
                  end
            end
      end
  end.

(** One round of [while True]. *)
Definition week (output : text) (r : round) (st : state) : status * state :=
  let st := with_week_num st (week_num st + 1) in
  match format_week_range (week_date st) with      (* the print at the top *)
  | Raised e => (Crashed e, st)
  | Returned _ =>
      if gt (week_date st) (now_top r) then (Finished, st)
      else
        match try_week output r st with
        | (Returned true, st) => (Finished, st)
        | (Returned false, st) => (Running, st)
        | (Raised _, st) =>
            if text_eqb (answer r) (str "stop") then (Finished, st)
            else if text_eqb (answer r) (str "skip") then
              match add_days (week_date st) 7 with
              | Returned next => (Running, with_week_date st next)
              | Raised e => (Crashed e, st)
              end
            else (Running, with_week_num st (week_num st - 1))
        end
  end.

Fixpoint main_loop (output : text) (script : list round) (st : state)
  : status * state * list round :=
  match script with
  | [] => (Running, st, [])
  | r :: script' =>
      match week output r st with
      | (Running, st') => main_loop output script' st'
      | (s, st') => (s, st', script')
      end
  end.

End Forward.

(** ** Trip extraction: the script of extract_trip_data
       ([uber_scraper_merged.py], [uber_scraper_main.py]) *)

Module Extract.
Import Text Regex Py.
Import Trip.

(** *** The page, as the script queries it *)

Record element : Type := {
  textContent : text;
  children : nat                       (* children.length *)
}.

Record document : Type := {
  header_span : option text;   (* textContent of the first '[class*=trip] span, [class*=list] span' *)
  all : list element;          (* document.querySelectorAll('*'), in document order *)
  innerText : text;            (* document.body.innerText *)
  li : list text;              (* textContent of every li, in document order *)
  heading : option text        (* textContent of the first 'h1, h2, [class*=heading]' *)
}.

(** *** JavaScript strings and patterns *)

(** White space and line terminators: [\s] and what [trim] removes. *)
Definition js_space (c : char) : bool :=
  in_range 9 13 c || (c =? 32) || (c =? 160) || (c =? 5760) || in_range 8192 8202 c ||
  (c =? 8232) || (c =? 8233) || (c =? 8239) || (c =? 8287) || (c =? 12288) || (c =? 65279).

(** [.]: anything but a line terminator. *)
Definition js_dot (c : char) : bool :=
  negb ((c =? 10) || (c =? 13) || (c =? 8232) || (c =? 8233)).

Definition trim (s : text) : text := strip js_space s.

Definition d : regex := One ascii_digit.          (* \d *)
Definition ws : regex := One js_space.            (* \s *)
Definition dot : regex := One js_dot.             (* . *)
Definition other_than (c : char) : regex := One (fun x => negb (x =? c)).   (* [^c] *)

(** A letter under the [i] flag: characters are compared by their upper case,
    and no character outside ASCII is mapped into ASCII.  [c] is the lower-case
    letter. *)
Definition letter_i (c : char) : regex := One (fun x => (x =? c) || (x =? c - 32)).
Definition lit_i (s : text) : regex :=
  seq (map (fun c => if ascii_lower c then letter_i c else chr c) s).

(** [\$] and then, as group 1, [\d+\.?\d*]: the pattern of an amount. *)
Definition amount : regex :=
  seq [chr 36; Grp 1 (seq [plus d; opt (chr 46); star d])].

(** [(.+?)\s*•\s*(.+?)\s*•\s*(.+)] *)
Definition header_re : regex :=
  seq [ Grp 1 (lazy_plus dot); star ws; chr bullet; star ws;
        Grp 2 (lazy_plus dot); star ws; chr bullet; star ws; Grp 3 (plus dot) ].

(** [^\d+\.\d+\s*mi$] *)
Definition distance_re : regex :=
  seq [Bol; plus d; chr 46; plus d; star ws; lit (str "mi"); Eol].

(** [,\s*([^,]+),\s*[A-Z]{2},\s*US] *)
Definition city_re : regex :=
  seq [ chr 44; star ws; Grp 1 (plus (other_than 44)); chr 44; star ws;
        One ascii_upper; One ascii_upper; chr 44; star ws; lit (str "US") ].

(** [^\d+\s*points?\s*earned$] and [(\d+)] *)
Definition points_re : regex :=
  seq [ Bol; plus d; star ws; lit (str "point"); opt (chr 115); star ws;
        lit (str "earned"); Eol ].
Definition number_re : regex := Grp 1 (plus d).

(** [\$(\d+\.\d+)\/mile] and [\$(\d+\.\d+)\/min] *)
Definition per_re (unit : text) : regex :=
  seq [chr 36; Grp 1 (seq [plus d; chr 46; plus d]); chr 47; lit unit].

(** [^Fare\s*\$], and [Fare\s*\$] with the group of an amount after it. *)
Definition fare_head_re : regex := seq [Bol; lit (str "Fare"); star ws; chr 36].
Definition fare_re : regex :=
  seq [lit (str "Fare"); star ws; chr 36; Grp 1 (seq [plus d; opt (chr 46); star d])].

(** [Region or City Fee[^-]*-] and then an amount, and its like: a label,
    anything up to a hyphen, the amount. *)
Definition fee_re (label : regex) : regex :=
  seq [label; star (other_than 45); chr 45; amount].

(** [Uber Service Fee[^$]*] and then an amount, and its like. *)
Definition charge_re (label : text) : regex :=
  seq [lit label; star (other_than 36); amount].

(** An amount and then [\s*tip included]. *)
Definition tip_included_re : regex :=
  seq [amount; star ws; lit (str "tip included")].

(** [(\d+)\s*min\s*(\d+)\s*sec] *)
Definition duration_re : regex :=
  seq [ Grp 1 (plus d); star ws; lit (str "min"); star ws;
        Grp 2 (plus d); star ws; lit (str "sec") ].

(** [s.match(re)]: the groups of the leftmost match, or null. *)
Definition js_match (r : regex) (s : text) : option caps :=
  option_map snd (search r s).

(** [m ? m[i] : dflt], a group that took no part reading as [dflt]. *)
Definition group_or (dflt : text) (i : nat) (m : option caps) : text :=
  match m with
  | Some c => default dflt (group i c)
  | None => dflt
  end.

Definition matches (r : regex) (s : text) : bool :=
  match search r s with Some _ => true | None => false end.

(** [s.replace(needle, '')]: the first occurrence removed. *)
Fixpoint remove_first (needle s : text) : text :=
  if starts_with needle s then drop (length needle) s
  else match s with
       | [] => []
       | x :: s' => x :: remove_first needle s'
       end.

(** [a.filter((v, i, a) => a.indexOf(v) === i)]: first occurrences only. *)
Fixpoint dedup_from (seen : list text) (l : list text) : list text :=
  match l with
  | [] => []
  | v :: l' =>
      if existsb (text_eqb v) seen then dedup_from seen l'
      else v :: dedup_from (v :: seen) l'
  end.

Definition is_leaf (el : element) : bool := (children el =? 0)%nat.

(** *** The line items: the variables the [forEach] assigns *)

Record items : Type := {
  i_base : text; i_distancePay : text; i_timePay : text; i_surge : text;
  i_promotion : text; i_minFare : text; i_waitTime : text; i_fare : text;
  i_totalEarnings : text; i_tip : text
}.

Definition zero : text := str "0".

Definition no_items : items :=
  {| i_base := zero; i_distancePay := zero; i_timePay := zero; i_surge := zero;
     i_promotion := zero; i_minFare := zero; i_waitTime := zero; i_fare := zero;
     i_totalEarnings := zero; i_tip := zero |}.

Definition has (needle : string) (s : text) : bool := includes (str needle) s.

(** One call of the [forEach] callback. *)
Definition item (v : items) (txt : text) : items :=
  let value := group_or zero 1 (js_match amount txt) in
  {| i_base := if has "Base" txt && negb (has "Fare" txt) then value else i_base v;
     i_distancePay :=
       if has "Distance" txt && has "mile" txt then value else i_distancePay v;
     i_timePay := if has "Time" txt && has "minute" txt then value else i_timePay v;
     i_surge := if has "Surge" txt then value else i_surge v;
     i_promotion := if has "Promotion" txt then value else i_promotion v;
     i_minFare := if has "Minimum Fare" txt then value else i_minFare v;
     i_waitTime := if has "Wait Time" txt then value else i_waitTime v;
     i_fare :=
       if matches fare_head_re txt ||
          (has "Fare" txt && negb (has "customer" txt) && negb (has "Minimum" txt))
       then match js_match fare_re txt with
            | Some c => default (i_fare v) (group 1 c)
            | None => i_fare v
            end
       else i_fare v;
     i_totalEarnings :=
       if has "Your earnings" txt && negb (has "Total" txt) then value else i_totalEarnings v;
     i_tip := if has "Tip" txt && negb (has "included" txt) then value else i_tip v |}.

Section Script.

(** [(parseInt(min) + parseInt(sec)/60).toFixed(2)]: floating point, outside
    the model; the text it yields is a parameter. *)
Variable minutes_to_fixed : text -> text -> text.

(** The script run by [page.evaluate]. *)
Definition extract_trip_data (doc : document) : outcome trip :=
  let headerText := default [] (header_span doc) in
  let headerMatch := js_match header_re headerText in
  let rideType := trim (group_or [] 1 headerMatch) in
  let date := trim (group_or [] 2 headerMatch) in
  let time := trim (group_or [] 3 headerMatch) in
  let durationEl :=
    find (fun el => has "min" (textContent el) && has "sec" (textContent el) && is_leaf el)
         (all doc) in
  let duration := match durationEl with Some el => trim (textContent el) | None => [] end in
  let distanceEl :=
    find (fun el => matches distance_re (textContent el) && is_leaf el) (all doc) in
  let distance :=
    match distanceEl with
    | Some el => trim (remove_first (str " mi") (textContent el))
    | None => []
    end in
  let addresses :=
    dedup_from []
      (map (fun el => trim (textContent el))
           (filter (fun el => has ", US" (textContent el) && is_leaf el) (all doc))) in
  let pickup := nth 0 addresses [] in
  let dropoff := nth 1 addresses [] in
  let city := trim (group_or [] 1 (js_match city_re pickup)) in
  let pointsEl :=
    find (fun el => matches points_re (textContent el) && is_leaf el) (all doc) in
  points <-
    match pointsEl with
    | Some el =>
        match js_match number_re (textContent el) with
        | Some c => match group 1 c with
                    | Some g => Returned g
                    | None => Raised ScriptError
                    end
        | None => Raised ScriptError              (* null[1] *)
        end
    | None => Returned zero
    end ;;
  let allText := innerText doc in
  let perMile := group_or zero 1 (js_match (per_re (str "mile")) allText) in
  let perMin := group_or zero 1 (js_match (per_re (str "min")) allText) in
  let v := fold_left item (li doc) no_items in
  let regionFee :=
    group_or zero 1 (js_match (fee_re (lit (str "Region or City Fee"))) allText) in
  let airportFee :=
    group_or zero 1 (js_match (fee_re (lit (str "Airport Fee"))) allText) in
  let insuranceFee :=
    group_or zero 1 (js_match (fee_re (lit_i (str "insurance and operational"))) allText) in
  let uberFee := group_or zero 1 (js_match (charge_re (str "Uber Service Fee")) allText) in
  let customerFare :=
    group_or zero 1 (js_match (charge_re (str "Total customer fare")) allText) in
  let totalEarnings :=
    match heading doc with
    | Some t =>
        if has "$" t
        then match js_match amount t with
             | Some c => default (i_totalEarnings v) (group 1 c)
             | None => i_totalEarnings v
             end
        else i_totalEarnings v
    | None => i_totalEarnings v
    end in
  let tip :=
    if text_eqb (i_tip v) zero
    then match js_match tip_included_re allText with
         | Some c => default (i_tip v) (group 1 c)
         | None => i_tip v
         end
    else i_tip v in
  let durMatch := js_match duration_re duration in
  let durationMin :=
    match durMatch with
    | Some c => minutes_to_fixed (default [] (group 1 c)) (default [] (group 2 c))
    | None => zero
    end in
  Returned
    {| Trip.date := date; Trip.time := time; Trip.rideType := rideType;
       Trip.distancePay := i_distancePay v; Trip.timePay := i_timePay v;
       Trip.surge := i_surge v; Trip.promotion := i_promotion v; Trip.base := i_base v;
       Trip.fare := i_fare v; Trip.tip := tip; Trip.minFare := i_minFare v;
       Trip.waitTime := i_waitTime v; Trip.regionFee := regionFee;
       Trip.airportFee := airportFee; Trip.insuranceFee := insuranceFee;
       Trip.uberFee := uberFee; Trip.points := points; Trip.city := city;
       Trip.pickup := pickup; Trip.dropoff := dropoff; Trip.distance := distance;
       Trip.durationMin := durationMin; Trip.perMile := perMile; Trip.perMin := perMin;
       Trip.totalEarnings := totalEarnings; Trip.customerFare := customerFare |}.

End Script.
End Extract.

(** ** Vocabulary of the properties *)

Module Spec.
Import Text Py Csv.

(** The column order that section 6 of the specification fixes for the CSV
    ledger, written from its words. *)
Definition columns_of_section_6 : list text :=
  map str
    [ "Date"; "Time"; "Ride Type"; "Distance Pay"; "Time Pay"; "Surge"; "Promotion";
      "Base"; "Fare (subtotal)"; "Tip"; "Minimum Fare Supplement"; "Wait Time Pay";
      "Region/City Fee"; "Airport Fee"; "Insurance & Operational Fee";
      "Uber Service Fee"; "Points Earned"; "City"; "Pickup Address"; "Dropoff Address";
      "Distance (mi)"; "Duration (min)"; "$/mile"; "$/min"; "Total Earnings";
      "Total Customer Fare" ]%string.

(** A numeral in positional notation, as an f-string writes a non-negative
    int, a Decimal without exponent, or a float that is 0.0 or between 0.0001
    and 1e16 (a float outside is written with an exponent): the digits of the
    integer part and, after a full stop, the digits of the fraction, if any.
    Digits are given by value. *)
Definition digit_chars (ds : list N) : text := map (fun d => 48 + d) ds.

Definition numeral (ip fp : list N) : text :=
  digit_chars ip ++ match fp with [] => [] | _ :: _ => 46 :: digit_chars fp end.

Definition digits (ds : list N) : Prop := Forall (fun d => d < 10) ds.

(** The leftmost match of the pattern [re] in [txt] has a number group that
    [float] does not read: more than one full stop, or no digit. *)
Definition unreadable {U : Unicode.beyond_latin1} (re : Regex.regex) (txt : text) : Prop :=
  exists rest c s,
    Regex.search re txt = Some (rest, c) /\
    (Regex.group 1 c = Some s \/ Regex.group 2 c = Some s) /\
    Py.float_of_numeral s = None.

(** [f"{m} mile × ${r}/mile"] and [f"{m} min × ${r}/min"]. *)
Definition mile_line (m r : text) : text :=
  m ++ str " mile " ++ [times_sign] ++ str " $" ++ r ++ str "/mile".

Definition minute_line (m r : text) : text :=
  m ++ str " min " ++ [times_sign] ++ str " $" ++ r ++ str "/min".

(** A trip identifier the checkpoint file can hold on a line of its own: not
    empty, no white space at either end, no line break inside. *)
Definition plain_id {U : Unicode.beyond_latin1} (x : text) : Prop :=
  x <> [] /\ strip Unicode.is_space x = x /\ Forall (fun c => c <> 10 /\ c <> 13) x.

(** The checkpoint file is absent, empty, or ends with a newline (as it does
    when only append_visited has written it). *)
Definition whole_lines (fs : Scraper.files) : Prop :=
  match Scraper.visited_jsonl fs with
  | None => True
  | Some content => content = [] \/ exists before, content = before ++ [10]
  end.

(** The records of the CSV file, none when it is absent. *)
Definition records (fs : Scraper.files) : list (list Scraper.cell) :=
  default [] (Scraper.uber_trips_csv fs).

(** A round of the backward walk in which nothing goes wrong: no exception,
    and the Previous button is there. *)
Definition uneventful (r : Backward.round) (us : list text) : Prop :=
  (if Backward.challenge r then Backward.reload r else Returned tt) = Returned tt /\
  Backward.urls r = Returned us /\
  Backward.activities r = Returned tt /\
  Backward.previous r = true.

(** The week cursor an action of the forward walk is done for. *)
Definition cursor (e : Forward.event) : Calendar.datetime :=
  match e with
  | Forward.Navigated w => w
  | Forward.Loaded w => w
  | Forward.Visited w _ => w
  | Forward.Saved w _ => w
  end.

(** An action of round [r] is not ahead of the clock: its cursor is not after
    the reading at the top of the round or, for the navigation that follows an
    advance, not after the reading taken after the advance. *)
Definition not_ahead (r : Forward.round) (e : Forward.event) : Prop :=
  match e with
  | Forward.Navigated w =>
      Calendar.gt w (Forward.now_top r) = false \/
      Calendar.gt w (Forward.now_next r) = false
  | _ => Calendar.gt (cursor e) (Forward.now_top r) = false
  end.

(** No childless element of the page has a text that [P] recognises. *)
Definition no_leaf (P : text -> bool) (doc : Extract.document) : Prop :=
  Forall (fun el => Extract.is_leaf el = true -> P (Extract.textContent el) = false)
         (Extract.all doc).

(** No list item of the page has a text that [P] recognises. *)
Definition no_item (P : text -> bool) (doc : Extract.document) : Prop :=
  Forall (fun t => P t = false) (Extract.li doc).

Local Open Scope Z_scope.

(** The month and day of the day numbered [n] (from 0) of a year, as the tail
    of ord2ymd finds them. *)
Definition month_day (leapyear : bool) (n : Z) : Z * Z :=
  let m := Z.shiftr (n + 50) 5 in
  let preceding := Calendar.table Calendar.DAYS_BEFORE_MONTH m + (if (2 <? m) && leapyear then 1 else 0) in
  if n <? preceding then
    let m := m - 1 in
    let preceding :=
      preceding - (Calendar.table Calendar.DAYS_IN_MONTH m + (if (m =? 2) && leapyear then 1 else 0)) in
    (m, n - preceding + 1)
  else (m, n - preceding + 1).

Definition month_day_ok (leapyear : bool) (n : Z) : bool :=
  let '(m, d) := month_day leapyear n in
  (1 <=? m) && (m <=? 12) && (1 <=? d) &&
  (d <=? (if (m =? 2) && leapyear then 29 else Calendar.table Calendar.DAYS_IN_MONTH m)) &&
  (Calendar.table Calendar.DAYS_BEFORE_MONTH m + (if (2 <? m) && leapyear then 1 else 0) + d =? n + 1).


(** The formats of the start-date prompt that name a year. *)
Definition has_year (fmt : text) : bool :=
  includes (str "%Y") fmt || includes (str "%y") fmt.

(** The first format, in the order given, that parses the text; a format
    without a year takes the year of the clock. *)
Fixpoint first_that_parses {U : Unicode.beyond_latin1} (fmts : list text) (inp : text)
    (now : Calendar.datetime) : option Calendar.datetime :=
  match fmts with
  | [] => None
  | fmt :: fmts' =>
      match Forward.strptime inp fmt with
      | Returned p =>
          Some (if has_year fmt then p
                else {| Calendar.year := Calendar.year now; Calendar.month := Calendar.month p;
                        Calendar.day := Calendar.day p; Calendar.tod := Calendar.tod p |})
      | Raised _ => first_that_parses fmts' inp now
      end
  end.

End Spec.

(** ** Sample data, for running the model on concrete inputs *)

Module Sample.
Import Text Py Csv.

Definition a_trip (day_ fare_ : string) : Trip.trip :=
  {| Trip.date := str day_; Trip.time := str "3:15 PM"; Trip.rideType := str "UberX";
     Trip.distancePay := str "3.39"; Trip.timePay := str "1.25"; Trip.surge := str "0";
     Trip.promotion := str "0"; Trip.base := str "2.00"; Trip.fare := str fare_;
     Trip.tip := str "0"; Trip.minFare := str "0"; Trip.waitTime := str "0";
     Trip.regionFee := str "0"; Trip.airportFee := str "0"; Trip.insuranceFee := str "0";
     Trip.uberFee := str "3.10"; Trip.points := str "3"; Trip.city := str "Portland";
     Trip.pickup := str "123 Main St, Portland, OR, US";
     Trip.dropoff := str "9 Oak Ave, Salem, OR, US"; Trip.distance := str "3.42";
     Trip.durationMin := str "12.50"; Trip.perMile := str "0.99"; Trip.perMin := str "0.25";
     Trip.totalEarnings := str fare_; Trip.customerFare := str "20.00" |}.

Definition output : text := str "uber_rides.csv".

(** A round of the backward walk that shows the given trip links, every one of
    which extracts to the same record. *)
Definition a_week (us : list text) : Backward.round :=
  {| Backward.challenge := false; Backward.reload := Returned tt;
     Backward.urls := Returned us;
     Backward.visit := fun _ => Returned (a_trip "Jul 1, 2024" "12.50");
     Backward.activities := Returned tt; Backward.previous := true;
     Backward.answer := []; Backward.recover := Returned tt |}.

Definition five_links : list text :=
  map (fun s => str "https://drivers.uber.com/earnings/trips/" ++ str s)
      ["t1"; "t2"; "t3"; "t4"; "t5"]%string.

(** A trip page with two distance items, whatever the link. *)
Definition a_page : Scraper.page :=
  {| Scraper.trip_date := Some (str " Jul 1, 2024 ");
     Scraper.pickup_time := Some (str "3:15 PM");
     Scraper.dropoff_time := Some (str "3:40 PM");
     Scraper.trip_type := Some (str "UberX");
     Scraper.pickup_location := Some (str "123 Main St, Portland, OR, US");
     Scraper.dropoff_location := Some (str "9 Oak Ave, Salem, OR, US");
     Scraper.fare_item_labels := [str "Distance"; str "Distance"];
     Scraper.fare_item_values := [str "$1.49"; str "$2.20"];
     Scraper.fare_item_details :=
       [ str "1.5 mile " ++ [times_sign] ++ str " $0.99/mile";
         str "2.0 mile " ++ [times_sign] ++ str " $1.10/mile" ] |}.

Definition a_browser : text -> outcome Scraper.page := fun _ => Returned a_page.

(** [float] on the fare values of [a_page]: plain numerals. *)
Definition plain_float : text -> option float :=
  @Py.float_of_numeral Unicode.latin1_only.

Definition no_files : Scraper.files :=
  {| Scraper.visited_jsonl := None; Scraper.uber_trips_csv := None |}.

(** A trip link that ends with a slash: its identifier is empty. *)
Definition a_link_without_id : text := str "https://drivers.uber.com/earnings/trips/".

Definition a_link : text := str "https://drivers.uber.com/earnings/trips/abc-123?x=1".

(** A reading of the clock: Tuesday 2026-11-03, one o'clock at night. *)
Definition a_clock : Calendar.datetime :=
  {| Calendar.year := 2026; Calendar.month := 11; Calendar.day := 3;
     Calendar.tod := 3600000000 |}.

(** A trip page that shows a header, one address and one fare item, and
    neither a duration nor points. *)
Definition a_bare_page : Extract.document :=
  {| Extract.header_span := Some (str "UberX " ++ [bullet] ++ str " Jul 1, 2024 " ++ [bullet] ++ str " 3:15 PM");
     Extract.all :=
       [ {| Extract.textContent := str "Trip details"; Extract.children := 2 |};
         {| Extract.textContent := str "123 Main St, Portland, OR, US"; Extract.children := 0 |};
         {| Extract.textContent := str "Base $2.00"; Extract.children := 0 |} ];
     Extract.innerText := str "Trip details 123 Main St, Portland, OR, US Base $2.00";
     Extract.li := [str "Base $2.00"];
     Extract.heading := Some (str "$2.00") |}.

(** toFixed(2), on the one duration the samples show. *)
Definition fixed : text -> text -> text := fun _ _ => str "12.50".

(** A round of the forward walk at the given reading of the clock, showing
    the given trip links. *)
Definition a_forward_week (now : Calendar.datetime) (us : list text) : Forward.round :=
  {| Forward.now_top := now; Forward.challenge := false;
     Forward.renavigate := Returned tt; Forward.urls := Returned us;
     Forward.visit := fun _ => Returned (a_trip "Jul 1, 2024" "12.50");
     Forward.now_next := now; Forward.navigate := Returned tt; Forward.answer := [] |}.

(** The forward walk before its first round, the cursor on the given day. *)
Definition a_start (w : Calendar.datetime) : Forward.state :=
  {| Forward.week_date := w; Forward.week_num := 0; Forward.empty := 0;
     Forward.total := 0; Forward.files := ∅; Forward.log := [] |}.

(** The Monday after [a_clock]. *)
Definition next_monday : Calendar.datetime :=
  {| Calendar.year := 2026; Calendar.month := 11; Calendar.day := 9; Calendar.tod := 0 |}.

End Sample.


(* ===================================================================== *)
(** * Part I, continued: the rest of the code                             *)
(* ===================================================================== *)

(** ** Shapes of text *)

Module Shape.
Import Text.

(** A text that does not start with a character of the class [sp]. *)
Definition bare_head (sp : char -> bool) (s : text) : Prop :=
  match s with [] => True | x :: _ => sp x = false end.

(** [f"{m} minute × ${r}/min"]: the time line with the unit written out. *)
Definition long_minute_line (m r : text) : text :=
  m ++ str " minute " ++ [times_sign] ++ str " $" ++ r ++ str "/min".


End Shape.

(** ** Readings of the checkpointed scraper's files *)

Module Rows.
Import Text Scraper.

(** The trip identifier a CSV row starts with, as scrape_trip_details builds
    the row; the checkpoint line it goes with is the identifier and a newline. *)
Definition ride_id (row : list cell) : text :=
  match row with
  | CStr trip_id :: _ => trip_id
  | _ => []
  end.

Definition checkpoint_line (row : list cell) : text := ride_id row ++ [10].

(** The text of the checkpoint file, empty when the file is absent. *)
Definition checkpoint (fs : files) : text := default [] (visited_jsonl fs).

End Rows.

(** ** The checkpointed scraper in an environment that fails

    [Scraper.scrape_trip_details] lets the page fail and takes the rest of the
    environment to work.  Here the other calls of scrape_trip_details that
    reach outside the program can fail too. *)

Module Failing.
Import Text Unicode Py FareParser Scraper.

(** What the environment answers to one call of scrape_trip_details, beside
    the page that [browse] gives.  A file that cannot be opened for appending
    is left as it was; a write cut short is outside the model. *)
Record answers : Type := {
  new_page : outcome unit;       (* context.new_page(), before the try *)
  open_csv : outcome unit;       (* CSV_FILENAME.open("a") of append_trip_row *)
  open_visited : outcome unit;   (* VISITED_FILENAME.open("a") of append_visited *)
  printed : outcome unit;        (* print(f"Scraped trip {trip_id}") *)
  closed : outcome unit          (* page.close() of the finally clause *)
}.

(** An environment in which nothing but the page fails. *)
Definition working : answers :=
  {| new_page := Returned tt; open_csv := Returned tt; open_visited := Returned tt;
     printed := Returned tt; closed := Returned tt |}.

(** [try: body finally: closing]: an exception of the finally clause replaces
    what the body returned or raised. *)
Definition finally {A : Type} (body : outcome A) (closing : outcome unit) : outcome A :=
  match closing with
  | Raised e => Raised e
  | Returned _ => body
  end.

Section Run.
Context {U : beyond_latin1}.
Variable float_of_text : text -> option float.
Variable browse : text -> outcome page.

(** The body of [try] in scrape_trip_details: what it returns or raises, and
    the files as it leaves them. *)
Definition tried (trip_link : text) (w : answers) (fs : files) : outcome unit * files :=
  match scraped float_of_text browse trip_link with
  | Raised e => (Raised e, fs)
  | Returned row =>
      match open_csv w with
      | Raised e => (Raised e, fs)
      | Returned _ =>
          let fs := append_trip_row row fs in
          match open_visited w with
          | Raised e => (Raised e, fs)
          | Returned _ =>
              let fs := append_visited (trip_id_of trip_link) fs in
              (printed w, fs)
          end
      end
  end.

Definition scrape_trip_details (trip_link : text) (w : answers) (visited : gset text)
    (fs : files) : outcome unit * gset text * files :=
  let trip_id := trip_id_of trip_link in
  if bool_decide (trip_id ∈ visited) then (Returned tt, visited, fs)
  else
    match new_page w with
    | Raised e => (Raised e, visited, fs)
    | Returned _ =>
        let '(body, fs) := tried trip_link w fs in
        (finally body (closed w), visited, fs)
    end.

(** The loop [for link in trip_links] of scrape_all_trips, with its
    [except Exception] around each call; every link comes with what the
    environment answers to its call. *)
Fixpoint scrape_links (links : list (text * answers)) (visited : gset text) (fs : files)
  : gset text * files :=
  match links with
  | [] => (visited, fs)
  | (link, w) :: links' =>
      let '(_, visited, fs) := scrape_trip_details link w visited fs in
      scrape_links links' visited fs
  end.

Fixpoint scrape_weeks (weeks : list (list (text * answers))) (visited : gset text)
    (fs : files) : gset text * files :=
  match weeks with
  | [] => (visited, fs)
  | trip_links :: weeks' =>
      let '(visited, fs) := scrape_links trip_links visited fs in
      scrape_weeks weeks' visited fs
  end.

Definition scrape_all_trips (weeks : list (list (text * answers))) (fs : files) : files :=
  let visited := fetch_visited fs in
  let fs := write_csv_header_if_needed fs in
  snd (scrape_weeks weeks visited fs).

End Run.

(** Every call of a run can open the checkpoint file. *)
Definition marks_can_be_written (weeks : list (list (text * answers))) : Prop :=
  Forall (Forall (fun lw => open_visited (snd lw) = Returned tt)) weeks.

End Failing.

(** ** Sums and last values, to state what the loop over the fare items
    computes *)

Module Totals.
Import Text Unicode Py FareParser Scraper.

(** The floats of [l] added to [acc] one after the other, each sum rounded:
    [for x in l: acc += x]. *)
Definition float_sum (acc : float) (l : list float) : float := fold_left float_add l acc.

(** The values the dicts hold under a key, in order. *)
Fixpoint collect (k : string) (ds : list (gmap string float)) : list float :=
  match ds with
  | [] => []
  | d :: ds' =>
      match d !! k with
      | Some v => v :: collect k ds'
      | None => collect k ds'
      end
  end.

(** The last of the rates that is not zero, [prev] when there is none. *)
Fixpoint last_not_zero (rs : list float) (prev : option float) : option float :=
  match rs with
  | [] => prev
  | r :: rs' => last_not_zero rs' (if float_truthy r then Some r else prev)
  end.

(** [prev] with the floats [ms] added one after the other, starting from
    [prev or 0.0]; [prev] itself when there is none to add. *)
Definition added (prev : option float) (ms : list float) : option float :=
  match ms with
  | [] => prev
  | _ :: _ => Some (float_sum (or_zero prev) ms)
  end.

(** The floats [ms] added up one after the other from [0.0], None when there
    is none to add. *)
Definition summed (ms : list float) : option float := added None ms.

(** None, or a float without sign. *)
Definition unsigned_or_none (x : option float) : Prop :=
  match x with
  | None => True
  | Some v => unsigned v
  end.

(** [d.get(k)] on a dict kept as a list of entries. *)
Fixpoint dict_get {V : Type} (k : text) (d : list (text * V)) : option V :=
  match d with
  | [] => None
  | (k', v) :: d' => if text_eqb k k' then Some v else dict_get k d'
  end.

(** The last of the items that has the label [lbl]. *)
Fixpoint last_with_label (lbl : text) (items : list (text * text * text))
  : option (text * text * text) :=
  match items with
  | [] => None
  | item :: items' =>
      match last_with_label lbl items' with
      | Some later => Some later
      | None => if text_eqb lbl (fst (fst item)) then Some item else None
      end
  end.


Section Items.
Context {U : beyond_latin1}.
Variable float_of_text : text -> option float.

(** The detail of a fare item parses into the dict [d]. *)
Definition parses (item : text * text * text) (d : gmap string float) : Prop :=
  parse_fare_line (fst (fst item)) (snd item) = Returned d.

(** The value of a fare item as the loop reads it. *)
Definition fare_value (item : text * text * text) : option float :=
  let val_str := snd (fst item) in
  let val_clean :=
    strip is_space (filter (fun c => negb (c =? 44)) (filter (fun c => negb (c =? 36)) val_str)) in
  match val_clean with [] => None | _ :: _ => float_of_text val_clean end.

Fixpoint fare_values (items : list (text * text * text)) : list float :=
  match items with
  | [] => []
  | item :: items' =>
      match fare_value item with
      | Some v => v :: fare_values items'
      | None => fare_values items'
      end
  end.

End Items.
End Totals.

(** ** More sample data *)

Module Sample2.
Import Text Py Scraper.

(** The fare items of [Sample.a_page]. *)
Definition two_fare_items : list (text * text * text) :=
  zip3 (fare_item_labels Sample.a_page) (fare_item_values Sample.a_page)
       (fare_item_details Sample.a_page).

(** The dict of a distance item. *)
Definition distance_dict (miles rate : float) : gmap string float :=
  <["rate_per_mile"%string := rate]> (<["miles"%string := miles]> ∅).

(** A round of the backward walk whose page shows no trip list: loading
    raises, and the operator answers the prompt as given. *)
Definition a_failed_week (answer_ : string) (recover_ : outcome unit) : Backward.round :=
  {| Backward.challenge := false; Backward.reload := Returned tt;
     Backward.urls := Raised BrowserError;
     Backward.visit := fun _ => Raised BrowserError;
     Backward.activities := Returned tt; Backward.previous := true;
     Backward.answer := str answer_; Backward.recover := recover_ |}.

(** A round of the backward walk that scrapes its links and then cannot go
    back to the activities page; the operator presses Enter. *)
Definition a_week_lost_after_saving (us : list text) : Backward.round :=
  {| Backward.challenge := false; Backward.reload := Returned tt;
     Backward.urls := Returned us;
     Backward.visit := fun _ => Returned (Sample.a_trip "Jul 1, 2024" "12.50");
     Backward.activities := Raised BrowserError; Backward.previous := true;
     Backward.answer := []; Backward.recover := Returned tt |}.

(** A round of the forward walk that scrapes its links and then cannot type
    the next week into the page; the operator answers skip. *)
Definition a_forward_week_lost (now : Calendar.datetime) (us : list text) : Forward.round :=
  {| Forward.now_top := now; Forward.challenge := false;
     Forward.renavigate := Returned tt; Forward.urls := Returned us;
     Forward.visit := fun _ => Returned (Sample.a_trip "Jul 1, 2024" "12.50");
     Forward.now_next := now; Forward.navigate := Raised BrowserError;
     Forward.answer := str "skip" |}.

(** Monday 2026-10-19 and the two Mondays after it. *)
Definition a_monday : Calendar.datetime :=
  {| Calendar.year := 2026; Calendar.month := 10; Calendar.day := 19; Calendar.tod := 0 |}.

Definition a_monday_later : Calendar.datetime :=
  {| Calendar.year := 2026; Calendar.month := 10; Calendar.day := 26; Calendar.tod := 0 |}.

Definition two_mondays_later : Calendar.datetime :=
  {| Calendar.year := 2026; Calendar.month := 11; Calendar.day := 2; Calendar.tod := 0 |}.


(** A trip page that shows its pick-up address twice and then a drop-off
    address. *)
Definition a_page_of_a_ride : Extract.document :=
  {| Extract.header_span :=
       Some (str "UberX " ++ [bullet] ++ str " Jul 1, 2024 " ++ [bullet] ++ str " 3:15 PM");
     Extract.all :=
       [ {| Extract.textContent := str "123 Main St, Portland, OR, US"; Extract.children := 0 |};
         {| Extract.textContent := str "123 Main St, Portland, OR, US"; Extract.children := 0 |};
         {| Extract.textContent := str "9 Oak Ave, Salem, OR, US"; Extract.children := 0 |} ];
     Extract.innerText :=
       str "123 Main St, Portland, OR, US 123 Main St, Portland, OR, US 9 Oak Ave, Salem, OR, US";
     Extract.li := [];
     Extract.heading := None |}.


(** A trip page that shows its distance with the unit right after the
    number. *)
Definition a_page_of_a_short_ride : Extract.document :=
  {| Extract.header_span := None;
     Extract.all :=
       [ {| Extract.textContent := str "Trip 3.42mi"; Extract.children := 1 |};
         {| Extract.textContent := str "3.42mi"; Extract.children := 0 |} ];
     Extract.innerText := str "Trip 3.42mi"; Extract.li := [];
     Extract.heading := None |}.

(** A trip page with two surge items, the second without an amount. *)
Definition a_page_with_two_surges : Extract.document :=
  {| Extract.header_span := None; Extract.all := [];
     Extract.innerText := str "Surge $1.50 Surge";
     Extract.li := [str "Surge $1.50"; str "Surge"];
     Extract.heading := None |}.

(** A trip page whose header shows the ride type and the date only. *)
Definition a_page_of_a_ride_without_time : Extract.document :=
  {| Extract.header_span := Some (str "UberX " ++ [bullet] ++ str " Jul 1, 2024");
     Extract.all := []; Extract.innerText := str "UberX"; Extract.li := [];
     Extract.heading := None |}.


End Sample2.

(** ** Dates as text *)

Module Dates.
Import Text Unicode Regex Py Calendar Forward.
Local Open Scope Z_scope.

(** A date as [strptime] returns it: at midnight. *)
Definition at_midnight (a : datetime) : datetime :=
  {| year := year a; month := month a; day := day a; tod := 0 |}.

(** [%d] of strftime: two digits. *)
Definition two_digits (n : Z) : text :=
  if n <? 10 then 48%N :: decimal (Z.to_N n) else decimal (Z.to_N n).

Section Patterns.
Context {U : beyond_latin1}.

(** The alternatives of [%d] and the digits of [%Y], as [directive] has them. *)
Definition day_pattern : regex :=
  alternatives
    [ Cat (chr 51) (range 48 49); Cat (range 49 50) d; Cat (chr 48) (range 49 57);
      range 49 57; Cat (chr 32) (range 49 57) ].

Definition year_pattern : regex := seq [d; d; d; d].

Definition month_pattern : regex := alternatives (map word month_names).

End Patterns.
End Dates.

(** ** Resuming from the CSV file: get_last_date
       ([uber_scraper_merged.py], [uber_scraper_main.py])

    The file is read as the records written to it ([Csv.disk]); a file that
    cannot be opened, decoded or parsed, for which the source answers
    [(None, 0)], is outside the model. *)

Module LastDate.
Import Text Unicode Regex Py Calendar Forward Csv Dates.

(** [row.get(key)] on the dict [csv.DictReader] makes of a record: the fields
    are paired with the field names by position, a later field of the same
    name replacing an earlier one, and a name the record has no field for is
    set to None after that. *)
Fixpoint row_get (key : text) (fieldnames row : list text) (found : option text)
  : option text :=
  match fieldnames, row with
  | f :: fieldnames', v :: row' =>
      row_get key fieldnames' row' (if text_eqb f key then Some v else found)
  | _ :: _, [] => if existsb (text_eqb key) fieldnames then None else found
  | [], _ => found
  end.

(** [max(dates)]: the first of the greatest. *)
Definition latest (dt : datetime) (dts : list datetime) : datetime :=
  fold_left (fun best x => if gt x best then x else best) dts dt.

Section Read.
Context {U : beyond_latin1}.

(** [%Y] of the platform's strftime for a year below 1000: the C library
    decides whether zeros are put before it. *)
Variable short_year : Z -> text.

(** [strftime("%b %d, %Y")]. *)
Definition strftime_b_d_Y (a : datetime) : text :=
  strftime_b a ++ str " " ++ two_digits (day a) ++ str ", " ++
  (if (1000 <=? year a)%Z then decimal (Z.to_N (year a)) else short_year (year a)).

(** The body of [for row in reader]; DictReader passes over a record without
    fields. *)
Definition read_row (fieldnames : list text) (acc : list datetime * N) (row : list text)
  : list datetime * N :=
  let '(dates, count) := acc in
  match row with
  | [] => (dates, count)
  | _ :: _ =>
      let count := count + 1 in
      match row_get (str "Date") fieldnames row None with
      | Some (c :: s) =>
          match strptime (c :: s) (str "%b %d, %Y") with
          | Returned dt => (dates ++ [dt], count)
          | Raised _ => (dates, count)
          end
      | _ => (dates, count)
      end
  end.

(** The date the body of the loop appends for a record, if it appends one:
    the Date field, when it is there and not empty and strptime reads it. *)
Definition date_of (fieldnames row : list text) : option datetime :=
  match row_get (str "Date") fieldnames row None with
  | Some (c :: s) =>
      match strptime (c :: s) (str "%b %d, %Y") with
      | Returned dt => Some dt
      | Raised _ => None
      end
  | _ => None
  end.

(** get_last_date: the first record names the fields. *)
Definition get_last_date (path : text) (d : disk) : option text * N :=
  match d !! path with
  | None => (None, 0)
  | Some [] => (None, 0)
  | Some (fieldnames :: rows) =>
      let '(dates, count) := fold_left (read_row fieldnames) rows ([], 0) in
      match dates with
      | dt :: dts => (Some (strftime_b_d_Y (latest dt dts)), count)
      | [] => (None, count)
      end
  end.

End Read.
End LastDate.

(** ** get_last_date and the limit of the csv reader *)

Module Limit.
Import Text Unicode Csv.

(** [csv.field_size_limit()]: the reader raises on a field of more
    characters. *)
Definition field_size_limit : N := 131072.

(** The reader reads the record without raising. *)
Definition fits (row : list text) : bool :=
  forallb (fun field => N.of_nat (length field) <=? field_size_limit) row.

(** The reader reads the whole file at [path], if there is one. *)
Definition readable (path : text) (d : disk) : bool :=
  forallb fits (default [] (d !! path)).

Section Read.
Context {U : beyond_latin1}.
Variable short_year : Z -> text.

(** get_last_date with its outer [except]: [LastDate.get_last_date] is the
    body of the [try]; the reader leaves it with an exception at a record that
    does not fit, and the function then returns (None, 0). *)
Definition get_last_date (path : text) (d : disk) : option text * N :=
  if readable path d then LastDate.get_last_date short_year path d else (None, 0).

End Read.


End Limit.

(** ** The trip list and the amounts of a trip page *)

Module Pages.
Import Text Regex Extract.

(** get_trip_urls: the [href] of every link to a trip, in document order,
    the first occurrence of each only. *)
Definition get_trip_urls (hrefs : list text) : list text := dedup_from [] hrefs.

(** What is left of a text after its leading digits. *)
Fixpoint skip_digits (s : text) : text :=
  match s with
  | x :: s' => if ascii_digit x then skip_digits s' else s
  | [] => []
  end.

(** A text of the shape [\d+\.?\d*]: digits, then possibly a full stop and
    digits. *)
Definition is_amount (g : text) : bool :=
  match g with
  | x :: _ =>
      ascii_digit x &&
      match skip_digits g with
      | [] => true
      | y :: rest => (y =? 46) && forallb ascii_digit rest
      end
  | [] => false
  end.

(** Every capture recorded satisfies [Q]. *)
Definition caps_hold (Q : nat -> text -> Prop) (c : caps) : Prop :=
  forall i g, In (i, g) c -> Q i g.

(** Every group of a pattern consumes only texts that satisfy [Q]. *)
Fixpoint groups_hold (Q : nat -> text -> Prop) (r : regex) : Prop :=
  match r with
  | Eps | One _ | Bol | Eol => True
  | Cat r1 r2 | Alt r1 r2 => groups_hold Q r1 /\ groups_hold Q r2
  | Rep _ r1 => groups_hold Q r1
  | Grp i r1 =>
      groups_hold Q r1 /\ forall s s', consumes r1 s s' -> Q i (consumed s s')
  end.

(** Group 1, when it is set, is an amount. *)
Definition amount_in_group_1 (i : nat) (g : text) : Prop :=
  i = 1%nat -> is_amount g = true.

(** The columns of a trip that hold amounts and numbers. *)
Definition amounts_of (t : Trip.trip) : list text :=
  [ Trip.distancePay t; Trip.timePay t; Trip.surge t; Trip.promotion t; Trip.base t;
    Trip.fare t; Trip.tip t; Trip.minFare t; Trip.waitTime t; Trip.regionFee t;
    Trip.airportFee t; Trip.insuranceFee t; Trip.uberFee t; Trip.points t;
    Trip.perMile t; Trip.perMin t; Trip.totalEarnings t; Trip.customerFare t ].

(** The variables of the [forEach], as a list. *)
Definition items_of (v : items) : list text :=
  [ i_base v; i_distancePay v; i_timePay v; i_surge v; i_promotion v; i_minFare v;
    i_waitTime v; i_fare v; i_totalEarnings v; i_tip v ].

(** A character a lazy group of the header pattern passes over: not a line
    terminator and not the bullet. *)
Definition inner_char (x : char) : bool := js_dot x && negb (x =? bullet).

(** A text that is not empty and does not start with white space. *)
Definition starts_bare (s : text) : bool :=
  match s with [] => false | x :: _ => negb (js_space x) end.

(** A field of the header before a bullet: no white space at either end, no
    bullet and no line break inside. *)
Definition is_field (f : text) : bool :=
  starts_bare f && starts_bare (rev f) && forallb inner_char f.

(** The field after the last bullet: it runs to the end of the line. *)
Definition is_last_field (f : text) : bool := starts_bare f && forallb js_dot f.

(** Three fields with a bullet between them, white space around the bullets. *)
Definition header_line (ty sp1 sp2 dt sp3 sp4 tm : text) : text :=
  ty ++ sp1 ++ [bullet] ++ sp2 ++ dt ++ sp3 ++ [bullet] ++ sp4 ++ tm.

(** A text without a comma. *)
Definition no_comma (s : text) : bool := forallb (fun x => negb (x =? 44)) s.

(** The name of a city in an address: no white space at either end and no
    comma. *)
Definition is_city (c : text) : bool :=
  starts_bare c && starts_bare (rev c) && no_comma c.

(** An address of the United States: street, city, the two letters of the
    state and the country, commas between them. *)
Definition address_line (street sp1 city sp2 : text) (a b : char) (sp3 tail : text) : text :=
  street ++ str "," ++ sp1 ++ city ++ str "," ++ sp2 ++ [a; b] ++ str "," ++ sp3 ++
  str "US" ++ tail.

(** Digits, one at least. *)
Definition is_digits (s : text) : bool :=
  match s with [] => false | _ :: _ => forallb ascii_digit s end.

(** The text of a distance: a number with a full stop, white space or none,
    and the unit. *)
Definition distance_text (ip fp sp : text) : text :=
  ip ++ str "." ++ fp ++ sp ++ str "mi".

(** The test the script searches the distance element with. *)
Definition is_distance_element (el : element) : bool :=
  matches distance_re (textContent el) && is_leaf el.

(** [valueMatch ? valueMatch[1] : '0']: the first amount of a line item. *)
Definition value_of (txt : text) : text := group_or zero 1 (js_match amount txt).

(** The last text of a list that passes a test, and its amount; ['0'] is
    [dflt] when there is none. *)
Definition last_value (test : text -> bool) (dflt : text) (l : list text) : text :=
  match find test (rev l) with
  | Some txt => value_of txt
  | None => dflt
  end.

End Pages.


(* ===================================================================== *)
(** * Part II: the properties                                             *)
(* ===================================================================== *)

(** ** The matcher *)

Section Matcher.
Import Text Regex.

(** Every match of the matcher is a match of the declarative reading. *)
Lemma rounds_sound (step : cont -> cont) (r : regex) (greedy : bool) (k : cont) :
  (forall k' b s c m, step k' b s c = Some m ->
     exists b' s' c', consumes r s s' /\ k' b' s' c' = Some m) ->
  forall fuel b s c m,
    rounds step greedy k fuel b s c = Some m ->
    exists b' s' c', consumes (Rep greedy r) s s' /\ k b' s' c' = Some m.
Proof.
  intros Hstep. induction fuel as [|fuel IH]; intros b s c m H.
  - simpl in H. exists b, s, c. split; [constructor | exact H].
  - cbn [rounds] in H.
    assert (Hagain : forall m',
      step (fun b' s' c' =>
              if (length s' <? length s)%nat
              then rounds step greedy k fuel b' s' c' else None) b s c = Some m' ->
      exists b' s' c', consumes (Rep greedy r) s s' /\ k b' s' c' = Some m').
    { intros m' Hm'. apply Hstep in Hm' as (b1 & s1 & c1 & Hc1 & Hk1).
      destruct (length s1 <? length s)%nat; [|discriminate].
      apply IH in Hk1 as (b2 & s2 & c2 & Hc2 & Hk2).
      exists b2, s2, c2. split; [|exact Hk2].
      eapply consumes_rep_more; eassumption. }
    destruct greedy.
    + destruct (step _ b s c) as [m1|] eqn:E.
      * inversion H; subst. apply Hagain. reflexivity.
      * exists b, s, c. split; [constructor | exact H].
    + destruct (k b s c) as [m1|] eqn:E.
      * inversion H; subst. exists b, s, c. split; [constructor | exact E].
      * apply Hagain. exact H.
Qed.

Lemma run_sound (r : regex) :
  forall k b s c m,
    run r k b s c = Some m ->
    exists b' s' c', consumes r s s' /\ k b' s' c' = Some m.
Proof.
  induction r as [| p | r1 IH1 r2 IH2 | r1 IH1 r2 IH2 | g r1 IH1 | i r1 IH1 | |];
    intros k b s c m H; cbn [run] in H.
  - exists b, s, c. split; [constructor | exact H].
  - destruct s as [|x s]; [discriminate|].
    destruct (p x) eqn:Hp; [|discriminate].
    exists false, s, c. split; [constructor; exact Hp | exact H].
  - apply IH1 in H as (b1 & s1 & c1 & Hc1 & H).
    apply IH2 in H as (b2 & s2 & c2 & Hc2 & H).
    exists b2, s2, c2. split; [econstructor; eassumption | exact H].
  - destruct (run r1 k b s c) as [m1|] eqn:E.
    + inversion H; subst. apply IH1 in E as (b1 & s1 & c1 & Hc1 & E).
      exists b1, s1, c1. split; [apply consumes_alt_l; exact Hc1 | exact E].
    + apply IH2 in H as (b1 & s1 & c1 & Hc1 & H).
      exists b1, s1, c1. split; [apply consumes_alt_r; exact Hc1 | exact H].
  - eapply rounds_sound; [|exact H]. intros k' b0 s0 c0 m0. apply IH1.
  - apply IH1 in H as (b1 & s1 & c1 & Hc1 & H).
    exists b1, s1, ((i, consumed s s1) :: c1). split; [constructor; exact Hc1 | exact H].
  - destruct b; [|discriminate]. exists true, s, c. split; [constructor | exact H].
  - destruct s; [|discriminate]. exists b, [], c. split; [constructor | exact H].
Qed.

(** What is left after a match is a suffix of the subject. *)
Lemma consumes_suffix (r : regex) (s s' : text) :
  consumes r s s' -> exists w, s = w ++ s'.
Proof.
  induction 1 as [s | p x s Hp | r1 r2 s s1 s2 _ [w1 ->] _ [w2 ->]
                 | r1 r2 s s' _ IH | r1 r2 s s' _ IH | g r s
                 | g r s s1 s2 _ [w1 ->] _ [w2 ->] | i r s s' _ IH | s | s].
  - exists []. reflexivity.
  - exists [x]. reflexivity.
  - exists (w1 ++ w2). rewrite <- app_assoc. reflexivity.
  - exact IH.
  - exact IH.
  - exists []. reflexivity.
  - exists (w1 ++ w2). rewrite <- app_assoc. reflexivity.
  - exact IH.
  - exists []. reflexivity.
  - exists []. reflexivity.
Qed.

(** A search that succeeds found a match at the head of a suffix. *)
Lemma search_from_sound (r : regex) :
  forall s b m,
    search_from r b s = Some m ->
    exists pre t, s = pre ++ t /\ consumes r t (fst m).
Proof.
  induction s as [|x s IH]; intros b m H; cbn [search_from] in H.
  - destruct (match_here r b []) as [m1|] eqn:E; [|discriminate].
    inversion H; subst. apply run_sound in E as (b' & s' & c' & Hc & Hacc).
    inversion Hacc; subst. exists [], []. split; [reflexivity | exact Hc].
  - destruct (match_here r b (x :: s)) as [m1|] eqn:E.
    + inversion H; subst. apply run_sound in E as (b' & s' & c' & Hc & Hacc).
      inversion Hacc; subst. exists [], (x :: s). split; [reflexivity | exact Hc].
    + apply IH in H as (pre & t & -> & Hc).
      exists (x :: pre), t. split; [reflexivity | exact Hc].
Qed.

Lemma rounds_greedy_step (step : cont -> cont) (k : cont) (fuel : nat)
    (b : bool) (s : text) (c : caps) :
  rounds step true k (S fuel) b s c =
    match step (fun b' s' c' =>
                  if (length s' <? length s)%nat
                  then rounds step true k fuel b' s' c' else None) b s c with
    | Some m => Some m
    | None => k b s c
    end.
Proof. reflexivity. Qed.

Lemma run_one_hit (p : char -> bool) (k : cont) (b : bool) (x : char) (s : text) (c : caps) :
  p x = true -> run (One p) k b (x :: s) c = k false s c.
Proof. intros Hp. cbn [run]. rewrite Hp. reflexivity. Qed.

Lemma run_one_miss (p : char -> bool) (k : cont) (b : bool) (s : text) (c : caps) :
  match s with [] => True | y :: _ => p y = false end ->
  run (One p) k b s c = None.
Proof. intros Hp. cbn [run]. destruct s as [|y s]; [reflexivity|]. rewrite Hp. reflexivity. Qed.

(** A greedy run over a class: when the subject starts with characters of
    the class, followed by none, and what follows succeeds there, that is the
    match. *)
Lemma rounds_greedy_class (p : char -> bool) (k : cont) (rest : text) (m : found) :
  match rest with [] => True | y :: _ => p y = false end ->
  forall ds fuel b c,
    Forall (fun x => p x = true) ds ->
    (length (ds ++ rest) <= fuel)%nat ->
    k (match ds with [] => b | _ :: _ => false end) rest c = Some m ->
    rounds (run (One p)) true k fuel b (ds ++ rest) c = Some m.
Proof.
  intros Hrest. induction ds as [|x ds IH]; intros fuel b c Hds Hfuel Hk.
  - cbn [app]. destruct fuel as [|fuel]; [exact Hk|].
    rewrite rounds_greedy_step, (run_one_miss p _ b rest c Hrest). exact Hk.
  - inversion Hds as [|? ? Hx Hds']; subst.
    destruct fuel as [|fuel]; [simpl in Hfuel; lia|].
    cbn [app]. rewrite rounds_greedy_step, (run_one_hit p _ b x _ c Hx).
    replace (length (ds ++ rest) <? length (x :: ds ++ rest))%nat with true
      by (symmetry; apply Nat.ltb_lt; simpl; lia).
    rewrite (IH fuel false c Hds').
    + reflexivity.
    + simpl in Hfuel. lia.
    + destruct ds; exact Hk.
Qed.

Lemma consumed_app (w s : text) : consumed (w ++ s) s = w.
Proof.
  unfold consumed. rewrite length_app.
  replace (length w + length s - length s)%nat with (length w) by lia.
  apply take_app_length.
Qed.

(** One or more characters of a class in a group: the group holds the whole
    run. *)
Lemma run_group_of_class (i : nat) (p : char -> bool) (k : cont)
    (x : char) (ds rest : text) (b : bool) (c : caps) (m : found) :
  Forall (fun x => p x = true) (x :: ds) ->
  match rest with [] => True | y :: _ => p y = false end ->
  k false rest ((i, x :: ds) :: c) = Some m ->
  run (Grp i (plus (One p))) k b ((x :: ds) ++ rest) c = Some m.
Proof.
  intros Hds Hrest Hk. inversion Hds as [|? ? Hx Hds']; subst.
  change (run (Grp i (plus (One p))) k b ((x :: ds) ++ rest) c)
    with (run (One p)
            (run (Rep true (One p))
               (fun b' s' c' => k b' s' ((i, consumed ((x :: ds) ++ rest) s') :: c')))
            b (x :: ds ++ rest) c).
  rewrite (run_one_hit p _ b x _ c Hx).
  change (run (Rep true (One p)) ?k0 false (ds ++ rest) c)
    with (rounds (run (One p)) true k0 (length (ds ++ rest)) false (ds ++ rest) c).
  apply (rounds_greedy_class p _ rest m Hrest ds); [exact Hds' | lia |].
  rewrite consumed_app. destruct ds; exact Hk.
Qed.

(** Zero or more characters of a class. *)
Lemma run_star_of_class (p : char -> bool) (k : cont)
    (ds rest : text) (b : bool) (c : caps) (m : found) :
  Forall (fun x => p x = true) ds ->
  match rest with [] => True | y :: _ => p y = false end ->
  k (match ds with [] => b | _ :: _ => false end) rest c = Some m ->
  run (star (One p)) k b (ds ++ rest) c = Some m.
Proof.
  intros Hds Hrest Hk.
  change (run (star (One p)) k b (ds ++ rest) c)
    with (rounds (run (One p)) true k (length (ds ++ rest)) b (ds ++ rest) c).
  apply (rounds_greedy_class p k rest m Hrest ds); [exact Hds | lia | exact Hk].
Qed.

Lemma run_star_of_class_some (p : char -> bool) (k : cont)
    (x : char) (ds rest : text) (b : bool) (c : caps) (m : found) :
  Forall (fun x => p x = true) (x :: ds) ->
  match rest with [] => True | y :: _ => p y = false end ->
  k false rest c = Some m ->
  run (star (One p)) k b ((x :: ds) ++ rest) c = Some m.
Proof. intros Hds Hrest Hk. apply run_star_of_class; assumption. Qed.

(** A group the pattern does not hold is not set by matching it. *)
Lemma rounds_keeps_group (i : nat) (step : cont -> cont) (greedy : bool) (k : cont) :
  (forall k', (forall b s c m, group i c = None -> k' b s c = Some m -> group i (snd m) = None) ->
     forall b s c m, group i c = None -> step k' b s c = Some m -> group i (snd m) = None) ->
  (forall b s c m, group i c = None -> k b s c = Some m -> group i (snd m) = None) ->
  forall fuel b s c m,
    group i c = None -> rounds step greedy k fuel b s c = Some m -> group i (snd m) = None.
Proof.
  intros Hstep Hk. induction fuel as [|fuel IH]; intros b s c m Hc H.
  - exact (Hk _ _ _ _ Hc H).
  - cbn [rounds] in H.
    assert (Hagain : forall m',
      step (fun b' s' c' =>
              if (length s' <? length s)%nat
              then rounds step greedy k fuel b' s' c' else None) b s c = Some m' ->
      group i (snd m') = None).
    { intros m'. apply Hstep; [|exact Hc].
      intros b1 s1 c1 m1 Hc1 H1. destruct (length s1 <? length s)%nat; [|discriminate].
      exact (IH _ _ _ _ Hc1 H1). }
    destruct greedy.
    + destruct (step _ b s c) as [m1|] eqn:E.
      * inversion H; subst. apply Hagain. reflexivity.
      * exact (Hk _ _ _ _ Hc H).
    + destruct (k b s c) as [m1|] eqn:E.
      * inversion H; subst. exact (Hk _ _ _ _ Hc E).
      * apply Hagain. exact H.
Qed.

Lemma run_keeps_group (i : nat) (r : regex) :
  has_group i r = false ->
  forall k,
    (forall b s c m, group i c = None -> k b s c = Some m -> group i (snd m) = None) ->
    forall b s c m, group i c = None -> run r k b s c = Some m -> group i (snd m) = None.
Proof.
  induction r as [| p | r1 IH1 r2 IH2 | r1 IH1 r2 IH2 | g r1 IH1 | j r1 IH1 | |];
    cbn [has_group]; intros Hno k Hk b s c m Hc H; cbn [run] in H.
  - exact (Hk _ _ _ _ Hc H).
  - destruct s as [|x s]; [discriminate|]. destruct (p x); [|discriminate].
    exact (Hk _ _ _ _ Hc H).
  - apply orb_false_iff in Hno as [Hn1 Hn2].
    refine (IH1 Hn1 _ _ b s c m Hc H). intros b1 s1 c1 m1 Hc1 H1.
    exact (IH2 Hn2 k Hk _ _ _ _ Hc1 H1).
  - apply orb_false_iff in Hno as [Hn1 Hn2].
    destruct (run r1 k b s c) as [m1|] eqn:E.
    + inversion H; subst. exact (IH1 Hn1 k Hk _ _ _ _ Hc E).
    + exact (IH2 Hn2 k Hk _ _ _ _ Hc H).
  - refine (rounds_keeps_group i (run r1) g k _ Hk _ b s c m Hc H).
    intros k' Hk'. exact (IH1 Hno k' Hk').
  - apply orb_false_iff in Hno as [Hij Hn1].
    refine (IH1 Hn1 _ _ b s c m Hc H). intros b1 s1 c1 m1 Hc1 H1.
    refine (Hk _ _ _ _ _ H1). cbn [group]. rewrite Hij. exact Hc1.
  - destruct b; [|discriminate]. exact (Hk _ _ _ _ Hc H).
  - destruct s; [|discriminate]. exact (Hk _ _ _ _ Hc H).
Qed.

Lemma match_here_keeps_group (i : nat) (r : regex) (b : bool) (s : text) (m : found) :
  has_group i r = false -> match_here r b s = Some m -> group i (snd m) = None.
Proof.
  intros Hno H. unfold match_here in H.
  refine (run_keeps_group i r Hno accept _ b s [] m eq_refl H).
  intros b1 s1 c1 m1 Hc1 H1. inversion H1; subst. exact Hc1.
Qed.

(** A match ends in the continuation, called on the captures it started with
    and those it has added. *)
Lemma rounds_reaches (step : cont -> cont) (greedy : bool) (k : cont) :
  (forall k' b s c m, step k' b s c = Some m ->
     exists b' s' ext, k' b' s' (ext ++ c) = Some m) ->
  forall fuel b s c m,
    rounds step greedy k fuel b s c = Some m ->
    exists b' s' ext, k b' s' (ext ++ c) = Some m.
Proof.
  intros Hstep. induction fuel as [|fuel IH]; intros b s c m H.
  - exists b, s, []. exact H.
  - cbn [rounds] in H.
    assert (Hagain : forall m',
      step (fun b' s' c' =>
              if (length s' <? length s)%nat
              then rounds step greedy k fuel b' s' c' else None) b s c = Some m' ->
      exists b' s' ext, k b' s' (ext ++ c) = Some m').
    { intros m' Hm'. apply Hstep in Hm' as (b1 & s1 & ext1 & Hk1).
      destruct (length s1 <? length s)%nat; [|discriminate].
      apply IH in Hk1 as (b2 & s2 & ext2 & Hk2).
      exists b2, s2, (ext2 ++ ext1). rewrite <- app_assoc. exact Hk2. }
    destruct greedy.
    + destruct (step _ b s c) as [m1|] eqn:E.
      * inversion H; subst. apply Hagain. reflexivity.
      * exists b, s, []. exact H.
    + destruct (k b s c) as [m1|] eqn:E.
      * inversion H; subst. exists b, s, []. exact E.
      * apply Hagain. exact H.
Qed.

Lemma run_reaches (r : regex) :
  forall k b s c m,
    run r k b s c = Some m ->
    exists b' s' ext, k b' s' (ext ++ c) = Some m.
Proof.
  induction r as [| p | r1 IH1 r2 IH2 | r1 IH1 r2 IH2 | g r1 IH1 | i r1 IH1 | |];
    intros k b s c m H; cbn [run] in H.
  - exists b, s, []. exact H.
  - destruct s as [|x s]; [discriminate|].
    destruct (p x); [|discriminate]. exists false, s, []. exact H.
  - apply IH1 in H as (b1 & s1 & ext1 & H).
    apply IH2 in H as (b2 & s2 & ext2 & H).
    exists b2, s2, (ext2 ++ ext1). rewrite <- app_assoc. exact H.
  - destruct (run r1 k b s c) as [m1|] eqn:E.
    + inversion H; subst. exact (IH1 _ _ _ _ _ E).
    + exact (IH2 _ _ _ _ _ H).
  - eapply rounds_reaches; [|exact H]. intros k' b0 s0 c0 m0. apply IH1.
  - apply IH1 in H as (b1 & s1 & ext1 & H).
    exists b1, s1, ((i, consumed s s1) :: ext1). exact H.
  - destruct b; [|discriminate]. exists true, s, []. exact H.
  - destruct s; [|discriminate]. exists b, [], []. exact H.
Qed.

Lemma group_kept (i : nat) (ext c : caps) : is_Some (group i c) -> is_Some (group i (ext ++ c)).
Proof.
  intros Hc. induction ext as [|[j w] ext IH]; [exact Hc|].
  cbn [app group]. destruct (i =? j)%nat; [eexists; reflexivity | exact IH].
Qed.

(** A group on the way of every alternative is set when the continuation is
    called. *)
Lemma run_sets_group (i : nat) (r : regex) :
  sets_group i r = true ->
  forall k b s c m,
    run r k b s c = Some m ->
    exists b' s' c', k b' s' c' = Some m /\ is_Some (group i c').
Proof.
  induction r as [| p | r1 IH1 r2 IH2 | r1 IH1 r2 IH2 | g r1 IH1 | j r1 IH1 | |];
    cbn [sets_group]; intros Hset k b s c m H; try discriminate; cbn [run] in H.
  - destruct (sets_group i r1) eqn:H1.
    + apply (IH1 eq_refl) in H as (b1 & s1 & c1 & H & Hc1).
      apply run_reaches in H as (b2 & s2 & ext & H).
      exists b2, s2, (ext ++ c1). split; [exact H | apply group_kept, Hc1].
    + apply run_reaches in H as (b1 & s1 & ext & H).
      exact (IH2 Hset _ _ _ _ _ H).
  - apply andb_true_iff in Hset as [H1 H2].
    destruct (run r1 k b s c) as [m1|] eqn:E.
    + inversion H; subst. exact (IH1 H1 _ _ _ _ _ E).
    + exact (IH2 H2 _ _ _ _ _ H).
  - destruct (i =? j)%nat eqn:Hij.
    + apply run_reaches in H as (b1 & s1 & ext & H).
      eexists _, _, _. split; [exact H|]. cbn [group]. rewrite Hij. eexists; reflexivity.
    + apply (IH1 Hset) in H as (b1 & s1 & c1 & H & Hc1).
      eexists _, _, _. split; [exact H|]. cbn [group]. rewrite Hij. exact Hc1.
Qed.

Lemma search_sets_group (i : nat) (r : regex) (s rest : text) (c : caps) :
  sets_group i r = true -> search r s = Some (rest, c) -> is_Some (group i c).
Proof.
  intros Hset. unfold search. generalize true.
  induction s as [|x s IH]; intros b H; cbn [search_from] in H.
  - destruct (match_here r b []) as [m1|] eqn:E; [|discriminate].
    inversion H; subst. apply (run_sets_group i r Hset) in E as (b' & s' & c' & Hacc & Hc).
    inversion Hacc; subst. exact Hc.
  - destruct (match_here r b (x :: s)) as [m1|] eqn:E.
    + inversion H; subst. apply (run_sets_group i r Hset) in E as (b' & s' & c' & Hacc & Hc).
      inversion Hacc; subst. exact Hc.
    + exact (IH _ H).
Qed.

(** A repetition followed by something that always succeeds succeeds. *)
Lemma rounds_total (step : cont -> cont) (greedy : bool) (k : cont) :
  (forall b s c, exists m, k b s c = Some m) ->
  forall fuel b s c, exists m, rounds step greedy k fuel b s c = Some m.
Proof.
  intros Hk fuel b s c. destruct fuel as [|fuel]; cbn [rounds]; [apply Hk|].
  destruct (Hk b s c) as [m Hm]. destruct greedy.
  - destruct (step _ b s c) as [m1|]; [exists m1; reflexivity | exists m; exact Hm].
  - rewrite Hm. exists m. reflexivity.
Qed.

(** A pattern without anchors that matches keeps matching when text is added
    after the subject: on continuations first. *)
Lemma rounds_extends (step : cont -> cont) (greedy : bool) (k k' : cont) (after : text) :
  (forall k1 k1' : cont,
      (forall b b' s c c', k1 b s c <> None -> k1' b' (s ++ after) c' <> None) ->
      forall b b' s c c', step k1 b s c <> None -> step k1' b' (s ++ after) c' <> None) ->
  (forall b b' s c c', k b s c <> None -> k' b' (s ++ after) c' <> None) ->
  forall n n', (n <= n')%nat ->
    forall b b' s c c',
      rounds step greedy k n b s c <> None ->
      rounds step greedy k' n' b' (s ++ after) c' <> None.
Proof.
  intros Hstep Hk. induction n as [|n IH]; intros n' Hn b b' s c c' H.
  - cbn [rounds] in H. pose proof (Hk b b' s c c' H) as Hk'.
    destruct n' as [|n']; [exact Hk'|]. cbn [rounds].
    destruct greedy.
    + destruct (step _ b' (s ++ after) c'); [discriminate | exact Hk'].
    + destruct (k' b' (s ++ after) c'); [discriminate | contradiction].
  - destruct n' as [|n']; [lia|]. cbn [rounds] in H |- *.
    set (KL := fun b1 s1 c1 =>
                 if (length s1 <? length s)%nat
                 then rounds step greedy k n b1 s1 c1 else None) in H.
    set (KR := fun b1 s1 c1 =>
                 if (length s1 <? length (s ++ after))%nat
                 then rounds step greedy k' n' b1 s1 c1 else None).
    assert (HK : forall b1 b1' s1 c1 c1',
               KL b1 s1 c1 <> None -> KR b1' (s1 ++ after) c1' <> None).
    { intros b1 b1' s1 c1 c1'. unfold KL, KR. rewrite !length_app.
      destruct (length s1 <? length s)%nat eqn:Hlt; [|congruence].
      apply Nat.ltb_lt in Hlt.
      replace (length s1 + length after <? length s + length after)%nat with true
        by (symmetry; apply Nat.ltb_lt; lia).
      apply IH. lia. }
    pose proof (Hstep KL KR HK b b' s c c') as Hagain.
    pose proof (Hk b b' s c c') as Hk'.
    destruct greedy.
    + destruct (step KL b s c).
      * destruct (step KR b' (s ++ after) c'); [discriminate|].
        exfalso. apply Hagain; [discriminate | reflexivity].
      * destruct (step KR b' (s ++ after) c'); [discriminate | exact (Hk' H)].
    + destruct (k b s c).
      * destruct (k' b' (s ++ after) c'); [discriminate|].
        exfalso. apply Hk'; [discriminate | reflexivity].
      * destruct (k' b' (s ++ after) c'); [discriminate | exact (Hagain H)].
Qed.

Lemma run_extends (after : text) (r : regex) :
  anchor_free r = true ->
  forall k k' : cont,
    (forall b b' s c c', k b s c <> None -> k' b' (s ++ after) c' <> None) ->
    forall b b' s c c', run r k b s c <> None -> run r k' b' (s ++ after) c' <> None.
Proof.
  induction r as [|p|r1 IH1 r2 IH2|r1 IH1 r2 IH2|g r1 IH1|i r1 IH1| |];
    cbn [anchor_free]; intros Hfree k k' Hk b b' s c c' H; try discriminate.
  - exact (Hk _ _ _ _ _ H).
  - destruct s as [|x s]; cbn [run app] in H |- *; [congruence|].
    destruct (p x); [exact (Hk _ _ _ _ _ H) | congruence].
  - apply andb_true_iff in Hfree as [H1 H2]. cbn [run] in H |- *.
    refine (IH1 H1 (run r2 k) (run r2 k') _ b b' s c c' H).
    intros b1 b1' s1 c1 c1'. apply (IH2 H2 k k' Hk).
  - apply andb_true_iff in Hfree as [H1 H2]. cbn [run] in H |- *.
    pose proof (IH1 H1 k k' Hk b b' s c c') as Hl.
    pose proof (IH2 H2 k k' Hk b b' s c c') as Hr.
    destruct (run r1 k b s c).
    + destruct (run r1 k' b' (s ++ after) c'); [discriminate|].
      exfalso. apply Hl; [discriminate | reflexivity].
    + destruct (run r1 k' b' (s ++ after) c'); [discriminate | exact (Hr H)].
  - cbn [run] in H |- *.
    refine (rounds_extends (run r1) g k k' after _ Hk _ _ _ b b' s c c' H).
    + intros k1 k1' Hk1. apply (IH1 Hfree k1 k1' Hk1).
    + rewrite length_app. lia.
  - cbn [run] in H |- *.
    refine (IH1 Hfree _ _ _ b b' s c c' H).
    intros b1 b1' s1 c1 c1'. apply Hk.
Qed.

Lemma match_here_extends (r : regex) (b b' : bool) (s after : text) :
  anchor_free r = true ->
  match_here r b s <> None -> match_here r b' (s ++ after) <> None.
Proof.
  intros Hfree. unfold match_here.
  apply (run_extends after r Hfree accept accept). discriminate.
Qed.

Lemma search_from_extends (r : regex) :
  anchor_free r = true ->
  forall before s after b b',
    search_from r b s <> None -> search_from r b' (before ++ s ++ after) <> None.
Proof.
  intros Hfree.
  assert (Hafter : forall s after b b',
             search_from r b s <> None -> search_from r b' (s ++ after) <> None).
  { induction s as [|x s IH]; intros after b b' H.
    - pose proof (match_here_extends r b b' [] after Hfree) as Hm.
      cbn [search_from] in H. cbn [app] in *.
      destruct (match_here r b []); [|congruence].
      destruct after; cbn [search_from];
        destruct (match_here r b' _); try discriminate; exfalso; apply Hm; congruence.
    - pose proof (match_here_extends r b b' (x :: s) after Hfree) as Hm.
      cbn [search_from app] in H, Hm |- *.
      destruct (match_here r b (x :: s)).
      + destruct (match_here r b' (x :: s ++ after)); [discriminate|].
        exfalso. apply Hm; congruence.
      + destruct (match_here r b' (x :: s ++ after)); [discriminate|].
        apply (IH after false false H). }
  induction before as [|x before IH]; intros s after b b' H.
  - apply (Hafter s after b b' H).
  - cbn [app search_from]. destruct (match_here r b' _); [discriminate|].
    apply (IH s after b false H).
Qed.

(** What [strip] returns is a part of its argument. *)
Lemma strip_inside (sp : char -> bool) (s : text) :
  exists before after, s = before ++ strip sp s ++ after.
Proof.
  assert (Hl : forall t, exists before, t = before ++ lstrip sp t).
  { induction t as [|x t [before IH]]; [exists []; reflexivity|].
    cbn [lstrip]. destruct (sp x).
    - exists (x :: before). cbn [app]. congruence.
    - exists []. reflexivity. }
  destruct (Hl s) as [before Hbefore].
  destruct (Hl (rev (lstrip sp s))) as [after Hafter].
  exists before, (rev after). unfold strip.
  rewrite <- rev_app_distr, <- Hafter, rev_involutive. exact Hbefore.
Qed.

(** A pattern that starts with [^] matches at the start of the subject or
    nowhere. *)
Lemma search_from_bol_later (r : regex) (s : text) :
  search_from (Cat Bol r) false s = None.
Proof. induction s as [|x s IH]; cbn; [reflexivity | exact IH]. Qed.

Lemma search_bol (r : regex) (s : text) :
  search (Cat Bol r) s = match_here (Cat Bol r) true s.
Proof.
  unfold search. destruct s as [|x s]; cbn [search_from];
    destruct (match_here (Cat Bol r) true _); try reflexivity.
  apply search_from_bol_later.
Qed.

(** Every text is a run of characters of a class and then a rest that does
    not start with one. *)
Lemma class_prefix (p : char -> bool) (s : text) :
  exists ds rest,
    s = ds ++ rest /\ Forall (fun x => p x = true) ds /\
    match rest with [] => True | y :: _ => p y = false end.
Proof.
  induction s as [|x s (ds & rest & -> & Hds & Hrest)].
  - exists [], []. repeat split. constructor.
  - destruct (p x) eqn:Hx.
    + exists (x :: ds), rest. repeat split; [constructor; assumption | exact Hrest].
    + exists [], (x :: ds ++ rest). repeat split; [constructor | exact Hx].
Qed.

End Matcher.

(** ** Floats *)

Section Floats.
Import Text Unicode Py.
Local Open Scope Z_scope.

Lemma shr_1_not_negative (mrs : shr_record) : 0 <= shr_m mrs -> 0 <= shr_m (shr_1 mrs).
Proof.
  destruct mrs as [m r s]. cbn [shr_m]. intros Hm.
  destruct m as [|[p|p|]|p]; cbn [shr_1 shr_m]; lia.
Qed.

Lemma iter_shr_1_not_negative (p : positive) :
  forall mrs, 0 <= shr_m mrs -> 0 <= shr_m (SpecFloat.iter_pos shr_1 p mrs).
Proof.
  induction p as [p IH|p IH|]; intros mrs Hm; cbn [SpecFloat.iter_pos].
  - apply IH, IH, shr_1_not_negative, Hm.
  - apply IH, IH, Hm.
  - apply shr_1_not_negative, Hm.
Qed.

Lemma shr_fexp_not_negative (m e : Z) (l : location) :
  0 <= m -> 0 <= shr_m (fst (shr_fexp prec emax m e l)).
Proof.
  intros Hm. unfold shr_fexp, shr.
  assert (H0 : 0 <= shr_m (shr_record_of_loc m l)).
  { destruct l as [|[| |]]; exact Hm. }
  destruct (fexp prec emax (Zdigits2 m + e) - e) as [|p|p]; cbn [fst]; try exact H0.
  apply iter_shr_1_not_negative, H0.
Qed.

Lemma round_nearest_even_not_negative (m : Z) (l : location) :
  0 <= m -> 0 <= round_nearest_even m l.
Proof.
  intros Hm. destruct l as [|[| |]]; cbn [round_nearest_even]; try lia.
  destruct (Z.even m); lia.
Qed.

(** Rounding a number that is not negative gives a float without sign. *)
Lemma binary_round_aux_unsigned (m e : Z) (l : location) :
  0 <= m -> unsigned (binary_round_aux prec emax false m e l).
Proof.
  intros Hm. unfold binary_round_aux.
  pose proof (shr_fexp_not_negative m e l Hm) as H1.
  destruct (shr_fexp prec emax m e l) as [mrs1 e1]. cbn [fst] in H1.
  pose proof (shr_fexp_not_negative _ e1 loc_Exact
                (round_nearest_even_not_negative _ (loc_of_shr_record mrs1) H1)) as H2.
  destruct (shr_fexp prec emax _ e1 loc_Exact) as [mrs2 e2]. cbn [fst] in H2.
  destruct (shr_m mrs2) as [|p|p]; [exact I | | lia].
  destruct (e2 <=? emax - prec); exact I.
Qed.

Lemma ratio_unsigned (ip fp : list N) : unsigned (ratio ip fp).
Proof.
  unfold ratio, operand.
  destruct (10 ^ N.of_nat (length fp))%N as [|q] eqn:Hq.
  { exfalso. apply N.pow_nonzero in Hq; [exact Hq | discriminate]. }
  destruct (number_of (ip ++ fp)) as [|p]; [exact I|].
  cbn [SFdiv xorb]. unfold SFdiv_core_binary.
  set (s := 0 - 0 - _).
  set (m' := match s with 0 => Z.pos p | Z.pos _ => Z.shiftl (Z.pos p) s | Z.neg _ => 0 end).
  assert (Hm' : 0 <= m').
  { subst m'. destruct s; [lia | apply Z.shiftl_nonneg; lia | lia]. }
  pose proof (Z_div_mod m' (Z.pos q) ltac:(lia)) as Hdiv.
  destruct (Z.div_eucl m' (Z.pos q)) as [qu r].
  apply binary_round_aux_unsigned. nia.
Qed.

Lemma float_add_unsigned (a b : float) : unsigned a -> unsigned b -> unsigned (float_add a b).
Proof.
  destruct a as [[|]|[|]| |[|] ma ea], b as [[|]|[|]| |[|] mb eb];
    cbn [unsigned]; try contradiction; intros _ _; try exact I.
  unfold float_add, SFadd. cbn [cond_Zopp].
  set (x := fst (shl_align ma ea _)). set (y := fst (shl_align mb eb _)).
  change (Z.pos x + Z.pos y) with (Z.pos (x + y)). cbn [binary_normalize].
  generalize (x + y)%positive (Z.min ea eb). clear. intros m e.
  unfold binary_round. destruct (shl_align m e _) as [mz ez].
  apply binary_round_aux_unsigned. lia.
Qed.

Lemma unsigned_le (x : float) : unsigned x -> float_le float_zero x = true.
Proof. destruct x as [[|]|[|]| |[|] m e]; cbn [unsigned]; try contradiction; reflexivity. Qed.

Lemma or_zero_unsigned (x : float) : unsigned x -> Scraper.or_zero (Some x) = x.
Proof. destruct x as [[|]|[|]| |[|] m e]; cbn [unsigned]; try contradiction; reflexivity. Qed.

(** [r and r > 0] is [r and True] for a float that is not negative. *)
Lemma truthy_and_not_negative (r : float) :
  float_le float_zero r = true -> float_truthy r = true -> float_pos r = true.
Proof. destruct r as [[|]|[|]| |[|] m e]; cbn; congruence. Qed.

End Floats.

(** ** The fare-line parser *)

Section FareLine.
Import Text Unicode Regex Py FareParser Spec.
Context {U : beyond_latin1}.

Lemma search_from_here (r : regex) (b : bool) (s : text) (m : found) :
  match_here r b s = Some m -> search_from r b s = Some m.
Proof. intros H. destruct s; cbn [search_from]; rewrite H; reflexivity. Qed.

(** *** The characters of a numeral *)

Lemma digit_cases (d : N) :
  d < 10 -> d = 0 \/ d = 1 \/ d = 2 \/ d = 3 \/ d = 4 \/ d = 5 \/ d = 6 \/ d = 7 \/
            d = 8 \/ d = 9.
Proof. lia. Qed.

Ltac each_digit d H :=
  destruct (digit_cases d H) as [-> | [-> | [-> | [-> | [-> | [-> | [-> | [-> | [-> | ->]]]]]]]]].

Lemma decimal_value_digit (d : N) : d < 10 -> decimal_value (48 + d) = Some d.
Proof. intros H. each_digit d H; reflexivity. Qed.

Lemma num_char_digit (d : N) : d < 10 -> num_char (48 + d) = true.
Proof. intros H. each_digit d H; reflexivity. Qed.

Lemma digit_is_no_stop (d : N) : d < 10 -> (48 + d =? 46) = false.
Proof. intros H. apply N.eqb_neq. lia. Qed.

Lemma digit_is_no_letter (c d : N) : 97 <= c <= 122 -> d < 10 -> same_letter c (48 + d) = false.
Proof.
  intros Hc H. unfold same_letter.
  assert (Hlow : to_lower (48 + d) = 48 + d) by (each_digit d H; reflexivity).
  rewrite Hlow.
  replace (48 + d =? c) with false by (symmetry; apply N.eqb_neq; lia).
  replace (48 + d =? 305) with false by (symmetry; apply N.eqb_neq; lia).
  replace (48 + d =? 383) with false by (symmetry; apply N.eqb_neq; lia).
  rewrite !andb_false_r. reflexivity.
Qed.

Lemma numeral_chars (ip fp : list N) :
  digits ip -> digits fp -> Forall (fun x => num_char x = true) (numeral ip fp).
Proof.
  intros Hip Hfp. unfold numeral, digit_chars. apply Forall_app. split.
  - induction Hip; constructor; [apply num_char_digit; assumption | assumption].
  - destruct fp as [|f fp]; [constructor|]. constructor; [reflexivity|].
    induction Hfp; constructor; [apply num_char_digit; assumption | assumption].
Qed.

Lemma numeral_no_letter (c : N) (ip fp : list N) :
  97 <= c <= 122 -> digits ip -> digits fp ->
  Forall (fun x => same_letter c x = false) (numeral ip fp).
Proof.
  intros Hc Hip Hfp. unfold numeral, digit_chars. apply Forall_app. split.
  - induction Hip; constructor; [apply digit_is_no_letter; assumption | assumption].
  - destruct fp as [|f fp]; [constructor|]. constructor.
    + unfold same_letter. change (to_lower 46) with 46.
      replace (46 =? c) with false by (symmetry; apply N.eqb_neq; lia).
      rewrite !andb_false_r. reflexivity.
    + induction Hfp; constructor; [apply digit_is_no_letter; assumption | assumption].
Qed.

Lemma numeral_starts (ip fp : list N) :
  ip <> [] -> exists x ds, numeral ip fp = x :: ds.
Proof.
  intros Hne. destruct ip as [|i ip]; [congruence|].
  eexists _, _. unfold numeral, digit_chars. cbn [map app]. reflexivity.
Qed.

(** *** [float] of a numeral *)

Lemma digits_of_digit_chars (ds : list N) : digits ds -> digits_of (digit_chars ds) = Some ds.
Proof.
  induction 1 as [|d ds Hd _ IH]; [reflexivity|].
  unfold digit_chars in *. cbn [map digits_of].
  rewrite (decimal_value_digit d Hd), IH. reflexivity.
Qed.

Lemma split_stop_digits (ds : list N) (rest : text) :
  digits ds ->
  split_stop (digit_chars ds ++ rest) =
    (digit_chars ds ++ fst (split_stop rest), snd (split_stop rest)).
Proof.
  induction 1 as [|d ds Hd _ IH]; cbn [digit_chars map app].
  - destruct (split_stop rest); reflexivity.
  - cbn [split_stop]. rewrite (digit_is_no_stop d Hd).
    unfold digit_chars in IH. rewrite IH. reflexivity.
Qed.

Lemma float_of_a_numeral (ip fp : list N) :
  ip <> [] -> digits ip -> digits fp ->
  float_of_numeral (numeral ip fp) = Some (ratio ip fp).
Proof.
  intros Hne Hip Hfp. unfold float_of_numeral, numeral.
  rewrite (split_stop_digits ip _ Hip).
  destruct fp as [|f fp].
  - cbn [split_stop fst snd default]. rewrite app_nil_r.
    rewrite (digits_of_digit_chars ip Hip). cbn [digits_of].
    destruct ip; [congruence | reflexivity].
  - cbn [split_stop N.eqb Pos.eqb fst snd default id]. rewrite app_nil_r.
    rewrite (digits_of_digit_chars ip Hip), (digits_of_digit_chars (f :: fp) Hfp).
    destruct ip; [congruence | reflexivity].
Qed.

(** *** What a match needs *)

Lemma spells_of_suffix (w pre s : text) :
  spells_here w s = true -> spells w (pre ++ s) = true.
Proof.
  intros H. induction pre as [|x pre IH]; cbn [app].
  - destruct s; cbn [spells]; rewrite H; reflexivity.
  - cbn [spells]. rewrite IH. apply orb_true_r.
Qed.

Lemma spells_skip (c : char) (w ds rest : text) :
  Forall (fun x => same_letter c x = false) ds ->
  spells (c :: w) (ds ++ rest) = spells (c :: w) rest.
Proof.
  induction 1 as [|x ds Hx _ IH]; [reflexivity|].
  cbn [app spells spells_here]. rewrite Hx. cbn [andb orb]. exact IH.
Qed.

(** A match of the distance pattern holds the letters of "mile". *)
Lemma mile_match_spells_mile (txt : text) (m : found) :
  search mile_re txt = Some m -> spells (str "mile") txt = true.
Proof.
  intros H. apply search_from_sound in H as (pre & t & -> & Hc).
  change mile_re with
    (Cat (Grp 1 (plus (One num_char)))
       (Cat (star ws)
          (Cat (Cat (letter 109) (Cat (letter 105) (Cat (letter 108) (letter 101))))
             (seq [ star ws; chr times_sign; star ws; chr 36;
                    Grp 2 (plus (One num_char)); chr 47; word (str "mile") ])))) in Hc.
  inversion Hc as [| | ? ? ? s1 ? Hg Hrest | | | | | | |]; subst.
  inversion Hrest as [| | ? ? ? s2 ? Hws Hm | | | | | | |]; subst.
  inversion Hm as [| | ? ? ? s3 ? Hword _ | | | | | | |]; subst.
  inversion Hword as [| | ? ? ? s4 ? H1 Hm1 | | | | | | |]; subst.
  inversion Hm1 as [| | ? ? ? s5 ? H2 Hm2 | | | | | | |]; subst.
  inversion Hm2 as [| | ? ? ? s6 ? H3 H4 | | | | | | |]; subst.
  inversion H1; inversion H2; inversion H3; inversion H4; subst.
  apply consumes_suffix in Hg as [w1 ->]. apply consumes_suffix in Hws as [w2 ->].
  rewrite !app_assoc. apply spells_of_suffix.
  change (str "mile") with [109; 105; 108; 101]. cbn [spells_here].
  repeat match goal with H : ?x = true |- _ => rewrite H; clear H end. reflexivity.
Qed.

(** A match of the time pattern holds the letters of "min". *)
Lemma minute_match_spells_min (txt : text) (m : found) :
  search minute_re txt = Some m -> spells (str "min") txt = true.
Proof.
  intros H. apply search_from_sound in H as (pre & t & -> & Hc).
  change minute_re with
    (Cat (Grp 1 (plus (One num_char)))
       (Cat (star ws)
          (Cat (Cat (letter 109) (Cat (letter 105) (letter 110)))
             (seq [ opt (word (str "ute")); star ws; chr times_sign; star ws; chr 36;
                    Grp 2 (plus (One num_char)); chr 47; word (str "min") ])))) in Hc.
  inversion Hc as [| | ? ? ? s1 ? Hg Hrest | | | | | | |]; subst.
  inversion Hrest as [| | ? ? ? s2 ? Hws Hm | | | | | | |]; subst.
  inversion Hm as [| | ? ? ? s3 ? Hword _ | | | | | | |]; subst.
  inversion Hword as [| | ? ? ? s4 ? H1 Hm1 | | | | | | |]; subst.
  inversion Hm1 as [| | ? ? ? s5 ? H2 H3 | | | | | | |]; subst.
  inversion H1; inversion H2; inversion H3; subst.
  apply consumes_suffix in Hg as [w1 ->]. apply consumes_suffix in Hws as [w2 ->].
  rewrite !app_assoc. apply spells_of_suffix.
  change (str "min") with [109; 105; 110]. cbn [spells_here].
  repeat match goal with H : ?x = true |- _ => rewrite H; clear H end. reflexivity.
Qed.

(** *** The distance line of the claim *)

Ltac cat :=
  match goal with
  | |- run (Cat ?r1 ?r2) ?k ?b ?s ?c = ?m => change (run r1 (run r2 k) b s c = m)
  end.

Ltac hit :=
  match goal with
  | |- run ?r ?k ?b (?x :: ?s) ?c = ?m =>
      let r' := eval cbv beta delta [letter chr] in r in
      change (run r' k b (x :: s) c = m)
  end;
  rewrite run_one_hit by reflexivity.

(** The distance pattern matches the line at its start, and the groups are the
    two numerals. *)
Lemma mile_line_match (ip fp ip' fp' : list N) :
  ip <> [] -> digits ip -> digits fp ->
  ip' <> [] -> digits ip' -> digits fp' ->
  search mile_re (mile_line (numeral ip fp) (numeral ip' fp')) =
    Some ([], [(2%nat, numeral ip' fp'); (1%nat, numeral ip fp)]).
Proof.
  intros Hne Hip Hfp Hne' Hip' Hfp'.
  pose proof (numeral_chars ip fp Hip Hfp) as Hn.
  pose proof (numeral_chars ip' fp' Hip' Hfp') as Hn'.
  destruct (numeral_starts ip fp Hne) as (x & ds & E).
  destruct (numeral_starts ip' fp' Hne') as (x' & ds' & E').
  rewrite E, E' in *.
  apply search_from_here. unfold match_here.
  change (mile_line (x :: ds) (x' :: ds')) with
    ((x :: ds) ++ [32] ++ 109 :: 105 :: 108 :: 101 :: [32] ++ 215 :: [32] ++ 36 ::
       (x' :: ds') ++ [47; 109; 105; 108; 101]).
  change mile_re with
    (Cat (Grp 1 (plus (One num_char)))
       (Cat (star (One is_space))
          (Cat (Cat (letter 109) (Cat (letter 105) (Cat (letter 108) (letter 101))))
             (Cat (star (One is_space))
                (Cat (chr 215)
                   (Cat (star (One is_space))
                      (Cat (chr 36)
                         (Cat (Grp 2 (plus (One num_char)))
                            (Cat (chr 47)
                               (Cat (letter 109)
                                  (Cat (letter 105) (Cat (letter 108) (letter 101))))))))))))).
  cat. apply run_group_of_class; [exact Hn | reflexivity |].
  cat. apply run_star_of_class_some; [repeat constructor | reflexivity |].
  cat. cat. hit. cat. hit. cat. hit. hit.
  cat. apply run_star_of_class_some; [repeat constructor | reflexivity |].
  cat. hit.
  cat. apply run_star_of_class_some; [repeat constructor | reflexivity |].
  cat. hit.
  cat. apply run_group_of_class; [exact Hn' | reflexivity |].
  cat. hit. cat. hit. cat. hit. cat. hit. hit.
  reflexivity.
Qed.

(** The time pattern does not match the distance line. *)
Lemma mile_line_has_no_min (ip fp ip' fp' : list N) :
  digits ip -> digits fp -> digits ip' -> digits fp' ->
  search minute_re (mile_line (numeral ip fp) (numeral ip' fp')) = None.
Proof.
  intros Hip Hfp Hip' Hfp'.
  destruct (search minute_re _) as [m|] eqn:E; [|reflexivity].
  apply minute_match_spells_min in E. exfalso. revert E.
  change (str "min") with [109; 105; 110].
  change (mile_line (numeral ip fp) (numeral ip' fp')) with
    (numeral ip fp ++ 32 :: 109 :: 105 :: 108 :: 101 :: 32 :: 215 :: 32 :: 36 ::
       numeral ip' fp' ++ [47; 109; 105; 108; 101]).
  rewrite (spells_skip 109 _ _ _ (numeral_no_letter 109 ip fp ltac:(lia) Hip Hfp)).
  cbn [spells spells_here].
  change (same_letter 109 32) with false. change (same_letter 109 109) with true.
  change (same_letter 105 105) with true. change (same_letter 110 108) with false.
  change (same_letter 109 105) with false. change (same_letter 109 108) with false.
  change (same_letter 109 101) with false. change (same_letter 109 215) with false.
  change (same_letter 109 36) with false.
  cbn [andb orb].
  rewrite (spells_skip 109 _ _ _ (numeral_no_letter 109 ip' fp' ltac:(lia) Hip' Hfp')).
  cbn [spells spells_here].
  change (same_letter 109 47) with false. change (same_letter 109 109) with true.
  change (same_letter 105 105) with true. change (same_letter 110 108) with false.
  change (same_letter 109 105) with false. change (same_letter 109 108) with false.
  change (same_letter 109 101) with false.
  cbn [andb orb]. discriminate.
Qed.

Lemma group_float (ip fp : list N) :
  ip <> [] -> digits ip -> digits fp ->
  float_of_group (Some (numeral ip fp)) = Returned (ratio ip fp).
Proof.
  intros Hne Hip Hfp. unfold float_of_group.
  rewrite (float_of_a_numeral ip fp Hne Hip Hfp). reflexivity.
Qed.

(** Parsing the distance line gives the two numbers, and nothing else. *)
Lemma parse_mile_line (item_label : text) (ip fp ip' fp' : list N) :
  ip <> [] -> digits ip -> digits fp ->
  ip' <> [] -> digits ip' -> digits fp' ->
  parse_fare_line item_label (mile_line (numeral ip fp) (numeral ip' fp')) =
    Returned (<["rate_per_mile"%string := ratio ip' fp']>
                (<["miles"%string := ratio ip fp]> ∅)).
Proof.
  intros Hne Hip Hfp Hne' Hip' Hfp'. unfold parse_fare_line.
  rewrite (mile_line_match ip fp ip' fp' Hne Hip Hfp Hne' Hip' Hfp').
  rewrite (mile_line_has_no_min ip fp ip' fp' Hip Hfp Hip' Hfp').
  cbn [group Nat.eqb].
  rewrite (group_float ip fp Hne Hip Hfp), (group_float ip' fp' Hne' Hip' Hfp').
  reflexivity.
Qed.

(** The two number groups of a match of either pattern are set. *)
Lemma fare_groups_are_set (re : regex) (txt rest : text) (c : caps) :
  re = mile_re \/ re = minute_re ->
  search re txt = Some (rest, c) ->
  exists s1 s2, group 1 c = Some s1 /\ group 2 c = Some s2.
Proof.
  intros Hre H.
  assert (H1 : is_Some (group 1 c)).
  { apply (search_sets_group 1 re txt rest c); [|exact H].
    destruct Hre as [-> | ->]; reflexivity. }
  assert (H2 : is_Some (group 2 c)).
  { apply (search_sets_group 2 re txt rest c); [|exact H].
    destruct Hre as [-> | ->]; reflexivity. }
  destruct H1 as [s1 H1], H2 as [s2 H2]. exists s1, s2. split; assumption.
Qed.

(** The two floats of a match: both read, or a ValueError for a group that is
    not a numeral. *)
Lemma fare_floats (re : regex) (txt rest : text) (c : caps) :
  re = mile_re \/ re = minute_re ->
  search re txt = Some (rest, c) ->
  (exists a b, float_of_group (group 1 c) = Returned a /\
               float_of_group (group 2 c) = Returned b /\ ~ unreadable re txt) \/
  ((float_of_group (group 1 c) = Raised ValueError \/
    exists a, float_of_group (group 1 c) = Returned a /\
              float_of_group (group 2 c) = Raised ValueError) /\
   unreadable re txt).
Proof.
  intros Hre H. destruct (fare_groups_are_set re txt rest c Hre H) as (s1 & s2 & H1 & H2).
  rewrite H1, H2. unfold float_of_group.
  destruct (float_of_numeral s1) as [a|] eqn:F1.
  - destruct (float_of_numeral s2) as [b|] eqn:F2.
    + left. exists a, b. split; [reflexivity|]. split; [reflexivity|].
      intros (rest' & c' & s & H' & Hs & Hbad). rewrite H in H'. inversion H'; subst.
      destruct Hs as [Hs | Hs]; congruence.
    + right. split; [right; exists a; split; reflexivity|].
      exists rest, c, s2. split; [exact H|]. split; [right; exact H2 | exact F2].
  - right. split; [left; reflexivity|].
    exists rest, c, s1. split; [exact H|]. split; [left; exact H1 | exact F1].
Qed.

Lemma no_match_is_readable (re : regex) (txt : text) : search re txt = None -> ~ unreadable re txt.
Proof. intros H (rest & c & s & H' & _). congruence. Qed.

(** When the parser raises, and what. *)
Lemma parse_fare_line_raises (item_label txt : text) :
  ((exists e, parse_fare_line item_label txt = Raised e) <->
   unreadable mile_re txt \/ unreadable minute_re txt) /\
  (forall e, parse_fare_line item_label txt = Raised e -> e = ValueError).
Proof.
  unfold parse_fare_line.
  assert (Hminute :
    forall result : gmap string float,
      ((exists e,
          match search minute_re txt with
          | Some (_, c) =>
              minutes <- float_of_group (group 1 c) ;;
              rate_per_minute <- float_of_group (group 2 c) ;;
              Returned (<["rate_per_minute"%string := rate_per_minute]>
                          (<["minutes"%string := minutes]> result))
          | None => Returned result
          end = Raised e) <-> unreadable minute_re txt) /\
      (forall e,
          match search minute_re txt with
          | Some (_, c) =>
              minutes <- float_of_group (group 1 c) ;;
              rate_per_minute <- float_of_group (group 2 c) ;;
              Returned (<["rate_per_minute"%string := rate_per_minute]>
                          (<["minutes"%string := minutes]> result))
          | None => Returned result
          end = Raised e -> e = ValueError)).
  { intros result. destruct (search minute_re txt) as [[rest c]|] eqn:E.
    - destruct (fare_floats minute_re txt rest c (or_intror eq_refl) E)
        as [(a & b & -> & -> & Hok) | [[-> | (a & -> & ->)] Hbad]]; cbn [bind].
      + split; [split; [intros [e He]; discriminate He | contradiction]|].
        intros e He. discriminate He.
      + split; [split; [intros _; exact Hbad | intros _; eexists; reflexivity]|].
        intros e He. inversion He. reflexivity.
      + split; [split; [intros _; exact Hbad | intros _; eexists; reflexivity]|].
        intros e He. inversion He. reflexivity.
    - pose proof (no_match_is_readable minute_re txt E) as Hok.
      split; [split; [intros [e He]; discriminate He | contradiction]|].
      intros e He. discriminate He. }
  destruct (search mile_re txt) as [[rest c]|] eqn:E.
  - destruct (fare_floats mile_re txt rest c (or_introl eq_refl) E)
      as [(a & b & -> & -> & Hok) | [[-> | (a & -> & ->)] Hbad]]; cbn [bind].
    + destruct (Hminute (<["rate_per_mile"%string := b]> (<["miles"%string := a]> ∅)))
        as [Hiff Hval].
      split; [rewrite Hiff; tauto | exact Hval].
    + split; [split; [intros _; left; exact Hbad | intros _; eexists; reflexivity]|].
      intros e He. inversion He. reflexivity.
    + split; [split; [intros _; left; exact Hbad | intros _; eexists; reflexivity]|].
      intros e He. inversion He. reflexivity.
  - pose proof (no_match_is_readable mile_re txt E) as Hok. cbn [bind].
    destruct (Hminute ∅) as [Hiff Hval].
    split; [rewrite Hiff; tauto | exact Hval].
Qed.

(** C1, as amended.  (a) For numerals [m] and [r] in positional notation (at
    least one digit before the full stop, any number after it, so in
    particular up to two), parsing "m mile × $r/mile" returns a dict whose
    miles is the float nearest to the number [m] writes and whose
    rate_per_mile is the float nearest to the number [r] writes.
    (b) When no four consecutive characters of the text read "mile" in any
    letter case, as [re.IGNORECASE] compares letters, a returned dict has no
    miles key.  (c) When neither pattern matches, the call returns the empty
    dict and raises nothing.  (d) The call raises exactly when the leftmost
    match of one of the two patterns has a number group that [float] does not
    read, and what it raises is ValueError. *)
Theorem fare_line_parser :
  (forall (item_label : text) (ip fp ip' fp' : list N),
      ip <> [] -> digits ip -> digits fp ->
      ip' <> [] -> digits ip' -> digits fp' ->
      exists d : gmap string float,
        parse_fare_line item_label (mile_line (numeral ip fp) (numeral ip' fp')) =
          Returned d /\
        d !! "miles"%string = Some (ratio ip fp) /\
        d !! "rate_per_mile"%string = Some (ratio ip' fp')) /\
  (forall (item_label txt : text) (d : gmap string float),
      spells (str "mile") txt = false ->
      parse_fare_line item_label txt = Returned d ->
      d !! "miles"%string = None) /\
  (forall item_label txt : text,
      search mile_re txt = None -> search minute_re txt = None ->
      parse_fare_line item_label txt = Returned ∅) /\
  (forall item_label txt : text,
      ((exists e, parse_fare_line item_label txt = Raised e) <->
       unreadable mile_re txt \/ unreadable minute_re txt) /\
      (forall e, parse_fare_line item_label txt = Raised e -> e = ValueError)).
Proof.
  split; [|split; [|split]].
  - intros item_label ip fp ip' fp' Hne Hip Hfp Hne' Hip' Hfp'.
    eexists. split; [apply parse_mile_line; assumption|]. split.
    + rewrite lookup_insert_ne by discriminate. apply lookup_insert_eq.
    + apply lookup_insert_eq.
  - intros item_label txt d Hno H. unfold parse_fare_line in H.
    destruct (search mile_re txt) as [m|] eqn:Emile.
    { apply mile_match_spells_mile in Emile. congruence. }
    cbn [bind] in H.
    destruct (search minute_re txt) as [[rest c]|]; [|inversion H; apply lookup_empty].
    destruct (float_of_group (group 1 c)); cbn [bind] in H; [|discriminate].
    destruct (float_of_group (group 2 c)); cbn [bind] in H; [|discriminate].
    inversion H; subst.
    rewrite !lookup_insert_ne by discriminate. apply lookup_empty.
  - intros item_label txt Hmile Hmin. unfold parse_fare_line.
    rewrite Hmile, Hmin. reflexivity.
  - exact parse_fare_line_raises.
Qed.

End FareLine.

(** The claim as stated fails in three ways.  The parser raises: a line whose
    number has two full stops matches the distance pattern, and [float]
    refuses the number.  An integer beyond 2**53 is not read back: the line of
    m = 9007199254740993 gives 9007199254740992 miles.  A float from 1e16 on
    is written with an exponent, of which the pattern reads the digits only:
    the line of m = 1e16, "1e+16 mile × $1/mile", gives 16 miles. *)
Lemma fare_line_parser_raises_and_rounds :
  @FareParser.parse_fare_line Unicode.latin1_only (Text.str "Distance")
    (Text.str "1.2.3 mile " ++ [Text.times_sign] ++ Text.str " $1/mile") =
    Py.Raised Py.ValueError /\
  (exists (d : gmap string Py.float) (miles : Py.float),
      @FareParser.parse_fare_line Unicode.latin1_only (Text.str "Distance")
        (Text.str "9007199254740993 mile " ++ [Text.times_sign] ++ Text.str " $1/mile") =
        Py.Returned d /\
      d !! "miles"%string = Some miles /\
      Py.exact miles = Some (9007199254740992 # 1)%Q) /\
  (exists (d : gmap string Py.float) (miles : Py.float),
      @FareParser.parse_fare_line Unicode.latin1_only (Text.str "Distance")
        (Text.str "1e+16 mile " ++ [Text.times_sign] ++ Text.str " $1/mile") =
        Py.Returned d /\
      d !! "miles"%string = Some miles /\
      Py.exact miles = Some (16 # 1)%Q).
Proof.
  split; [vm_compute; reflexivity|].
  split; eexists _, _; (split; [vm_compute; reflexivity|]);
    (split; [vm_compute; reflexivity|]); vm_compute; reflexivity.
Qed.

Lemma fare_line_parser_witness :
  Spec.digits [1] /\ Spec.digits [5] /\ Spec.digits [0] /\ Spec.digits [9; 9] /\
  exists d : gmap string Py.float,
    @FareParser.parse_fare_line Unicode.latin1_only (Text.str "Distance")
      (Text.str "1.5 mile " ++ [Text.times_sign] ++ Text.str " $0.99/mile") = Py.Returned d /\
    d !! "miles"%string = Some (Py.ldexp 3 (-1)) /\
    d !! "rate_per_mile"%string = Some (Py.ratio [0] [9; 9]).
Proof.
  assert (H1 : Spec.digits [1]) by (repeat constructor).
  assert (H5 : Spec.digits [5]) by (repeat constructor).
  assert (H0 : Spec.digits [0]) by (repeat constructor).
  assert (H99 : Spec.digits [9; 9]) by (repeat constructor).
  repeat (split; [assumption|]).
  exact (proj1 (@fare_line_parser Unicode.latin1_only) (Text.str "Distance")
           [1] [5] [0] [9; 9] ltac:(discriminate) H1 H5 ltac:(discriminate) H0 H99).
Defined.

(** ** The CSV ledger *)

Section CsvLedger.
Import Text Csv Trip Spec.

Lemma save_csv_nothing (path : text) (d : disk) : save_csv [] path d = d.
Proof. reflexivity. Qed.

(** On a file that exists, a call appends its rows and nothing else. *)
Lemma save_csv_existing (trips : list trip) (path : text) (d : disk) (f : list (list text)) :
  d !! path = Some f ->
  save_csv trips path d !! path = Some (f ++ map row_of trips).
Proof.
  intros Hf. destruct trips as [|t trips].
  - simpl. rewrite app_nil_r. exact Hf.
  - unfold save_csv. rewrite Hf. cbn [default].
    rewrite bool_decide_eq_true_2 by (eexists; reflexivity).
    apply lookup_insert_eq.
Qed.

(** On a file that does not exist, a call with rows writes the header first. *)
Lemma save_csv_absent (t : trip) (trips : list trip) (path : text) (d : disk) :
  d !! path = None ->
  save_csv (t :: trips) path d !! path = Some (HEADERS :: map row_of (t :: trips)).
Proof.
  intros Hf. unfold save_csv. rewrite Hf.
  rewrite bool_decide_eq_false_2 by (intros [x Hx]; discriminate).
  cbn [default app]. apply lookup_insert_eq.
Qed.

(** No call touches another path. *)
Lemma save_csv_frame (trips : list trip) (path other : text) (d : disk) :
  other <> path -> save_csv trips path d !! other = d !! other.
Proof.
  intros Hne. destruct trips; [reflexivity|].
  unfold save_csv. apply lookup_insert_ne. congruence.
Qed.

Lemma save_all_existing (calls : list (list trip)) (path : text) :
  forall (d : disk) (f : list (list text)),
    d !! path = Some f ->
    save_all calls path d !! path = Some (f ++ map row_of (concat calls)).
Proof.
  induction calls as [|trips calls IH]; intros d f Hf; simpl.
  - rewrite app_nil_r. exact Hf.
  - rewrite (IH _ _ (save_csv_existing trips path d f Hf)).
    rewrite map_app, app_assoc. reflexivity.
Qed.

Lemma save_all_absent (calls : list (list trip)) (path : text) :
  forall d : disk,
    d !! path = None ->
    save_all calls path d !! path =
      match concat calls with
      | [] => None
      | _ :: _ => Some (HEADERS :: map row_of (concat calls))
      end.
Proof.
  induction calls as [|trips calls IH]; intros d Hf; simpl.
  - exact Hf.
  - destruct trips as [|t trips].
    + simpl. apply IH. exact Hf.
    + rewrite (save_all_existing calls path _ _ (save_csv_absent t trips path d Hf)).
      simpl. rewrite map_app. reflexivity.
Qed.

Lemma row_of_length (t : trip) : length (row_of t) = 26%nat.
Proof. reflexivity. Qed.

(** C4, as amended.  With the file absent before the first call, calls of
    save_csv that persist N >= 1 trips in all, in any number of runs, leave one
    header record followed by the N records of the trips, in order; the header
    is the twenty-six columns of section 6 and every record has twenty-six
    fields; a call on an existing file appends its rows after what was there,
    and a call on an absent file writes the header before its rows. *)
Theorem csv_ledger_one_header_then_rows :
  forall (calls : list (list trip)) (path : text) (d : disk),
    d !! path = None ->
    (0 < length (concat calls))%nat ->
    (exists rows : list (list text),
        save_all calls path d !! path = Some (HEADERS :: rows) /\
        rows = map row_of (concat calls) /\
        length rows = length (concat calls) /\
        Forall (fun r => length r = 26%nat) rows) /\
    HEADERS = columns_of_section_6 /\
    length HEADERS = 26%nat /\
    (forall trips d' f, d' !! path = Some f ->
        save_csv trips path d' !! path = Some (f ++ map row_of trips)) /\
    (forall t trips d', d' !! path = None ->
        save_csv (t :: trips) path d' !! path = Some (HEADERS :: map row_of (t :: trips))).
Proof.
  intros calls path d Habsent Hsome.
  split; [|split; [reflexivity|split; [reflexivity|split]]].
  - exists (map row_of (concat calls)).
    rewrite (save_all_absent calls path d Habsent).
    destruct (concat calls) as [|t ts] eqn:E; [simpl in Hsome; lia|].
    repeat split.
    + apply length_map.
    + generalize (t :: ts). intros l.
      induction l as [|x l IHl]; simpl; constructor; [apply row_of_length | exact IHl].
  - intros trips d' f. apply save_csv_existing.
  - intros t trips d'. apply save_csv_absent.
Qed.

(** The claim as stated fails when the calls persist no trip at all: the file
    is never created, so it holds no header record either. *)
Lemma csv_ledger_no_trips_no_header :
  save_all [[]; []] Sample.output (∅ : disk) !! Sample.output = None /\
  save_all [[]; []] Sample.output (∅ : disk) !! Sample.output <> Some [HEADERS].
Proof. split; [reflexivity | discriminate]. Qed.

Lemma csv_ledger_one_header_then_rows_witness :
  (∅ : disk) !! Sample.output = None /\
  (0 < length (concat [[Sample.a_trip "Jul 1, 2024" "12.50"]; [];
                       [Sample.a_trip "Jul 2, 2024" "8.00";
                        Sample.a_trip "Jul 3, 2024" "9.75"]]))%nat /\
  exists rows : list (list text),
    save_all [[Sample.a_trip "Jul 1, 2024" "12.50"]; [];
              [Sample.a_trip "Jul 2, 2024" "8.00"; Sample.a_trip "Jul 3, 2024" "9.75"]]
             Sample.output ∅ !! Sample.output = Some (HEADERS :: rows) /\
    length rows = 3%nat.
Proof.
  split; [apply lookup_empty|]. split; [simpl; lia|].
  destruct (csv_ledger_one_header_then_rows
              [[Sample.a_trip "Jul 1, 2024" "12.50"]; [];
               [Sample.a_trip "Jul 2, 2024" "8.00"; Sample.a_trip "Jul 3, 2024" "9.75"]]
              Sample.output ∅ (lookup_empty _)) as [[rows [Hfile [_ [Hlen _]]]] _].
  - simpl. lia.
  - exists rows. split; [exact Hfile | exact Hlen].
Defined.

End CsvLedger.

(** ** The backward walk and its empty streak *)

Section EmptyStreak.
Import Text Unicode Py Csv Backward Spec.
Context {U : beyond_latin1}.

(** A round without trips, nothing going wrong: the streak grows, and the loop
    stops when it reaches three. *)
Lemma week_without_trips (output : text) (r : round) (st : state) :
  uneventful r [] ->
  week output r st =
    (if 3 <=? empty_streak st + 1 then Finished else Running,
     {| week_num := week_num st + 1; empty_streak := empty_streak st + 1;
        total := total st; files := files st |}).
Proof.
  intros (Hc & Hu & Ha & Hp).
  unfold week, try_week. cbn [week_num empty_streak total files].
  rewrite Hc, Hu. cbn [is_empty andb].
  destruct (3 <=? empty_streak st + 1); [reflexivity|].
  cbn [extracted is_empty]. rewrite Ha, Hp. reflexivity.
Qed.

(** A round with trips, nothing going wrong: the streak is reset, every link
    is tried, what was extracted is saved, and the loop goes on. *)
Lemma week_with_trips (output : text) (r : round) (st : state) (us : list text) :
  uneventful r us -> us <> [] ->
  week output r st =
    (Running,
     {| week_num := week_num st + 1; empty_streak := 0;
        total := total st + N.of_nat (length (extracted (visit r) us));
        files := save_csv (extracted (visit r) us) output (files st) |}).
Proof.
  intros (Hc & Hu & Ha & Hp) Hne.
  unfold week, try_week. cbn [week_num empty_streak total files].
  rewrite Hc, Hu. destruct us as [|u us]; [congruence|]. cbn [is_empty andb].
  destruct (extracted (visit r) (u :: us)) as [|t ts] eqn:E;
    cbn [is_empty week_num empty_streak total files]; rewrite Ha, Hp.
  - cbn [length N.of_nat]. rewrite N.add_0_r. reflexivity.
  - reflexivity.
Qed.

Lemma test_week_without_trips (r : round) (wn es : N) :
  uneventful r [] ->
  test_week r (wn, es) =
    (if 3 <=? es + 1 then Finished else Running, (wn + 1, es + 1)).
Proof.
  intros (Hc & Hu & Ha & Hp). unfold test_week. rewrite Hc, Hu. cbn [is_empty andb].
  destruct (3 <=? es + 1); [reflexivity|]. rewrite Hp. reflexivity.
Qed.

Lemma test_week_with_trips (r : round) (wn es : N) (us : list text) :
  uneventful r us -> us <> [] ->
  test_week r (wn, es) = (Running, (wn + 1, 0)).
Proof.
  intros (Hc & Hu & Ha & Hp) Hne. unfold test_week. rewrite Hc, Hu.
  destruct us as [|u us]; [congruence|]. cbn [is_empty andb]. rewrite Hp. reflexivity.
Qed.

Lemma five_is_some {A : Type} (l : list A) : length l = 5%nat -> l <> [].
Proof. destruct l; [discriminate | congruence]. Qed.

(** The trips of a week are what the links give that do not fail, in the
    order of the links. *)
Lemma extracted_is_omap (visit : text -> outcome Trip.trip) (us : list text) :
  extracted visit us =
    omap (fun u => match visit u with Returned t => Some t | Raised _ => None end) us.
Proof.
  induction us as [|u us IH]; [reflexivity|].
  cbn [extracted omap list_omap]. destruct (visit u); rewrite IH; reflexivity.
Qed.

Lemma omap_all {A B : Type} (g : A -> option B) (l : list A) (l' : list B) :
  Forall2 (fun x y => g x = Some y) l l' -> omap g l = l'.
Proof.
  induction 1 as [|x y l l' Hxy _ IH]; [reflexivity|].
  cbn [omap list_omap]. rewrite Hxy, IH. reflexivity.
Qed.

(** C5.  Weeks without exceptions, walked backward; [e1] to [e5] show no trip
    link and [f] shows five.  With trip counts 0, 0, 0, 5 the loop stops in the
    third round, nothing is counted or written, and the fourth week is never
    reached.  With 0, 0, 5, 0, 0, 0 the third week is processed: each of its
    five links is opened, the trips of the links that do not fail are counted
    and their rows appended to the file, after the header when the file is not
    there yet; when none of the five fails, that is five trips and five rows.
    The streak is 0 after that week, and the loop stops in the sixth round.
    The same holds of the navigation test. *)
Theorem empty_streak_of_three_stops_the_walk :
  forall (output : text) (rows : N) (d : disk) (e1 e2 e3 e4 e5 f : round)
         (us : list text),
    uneventful e1 [] -> uneventful e2 [] -> uneventful e3 [] ->
    uneventful e4 [] -> uneventful e5 [] ->
    uneventful f us -> length us = 5%nat ->
    let trips :=
      omap (fun u => match visit f u with Returned t => Some t | Raised _ => None end) us in
    let after_f :=
      {| week_num := 3; empty_streak := 0;
         total := rows + N.of_nat (length trips);
         files :=
           match trips with
           | [] => d
           | _ :: _ => <[output := default [HEADERS] (d !! output) ++ map row_of trips]> d
           end |} in
    (main_loop output [e1; e2; e3; f] (start rows d) =
       (Finished, {| week_num := 3; empty_streak := 3; total := rows; files := d |}, [f]) /\
     test_loop [e1; e2; e3; f] (0, 0) = (Finished, (3, 3), [f])) /\
    (main_loop output [e1; e2; f] (start rows d) = (Running, after_f, []) /\
     main_loop output [e1; e2; f; e3; e4; e5] (start rows d) =
       (Finished,
        {| week_num := 6; empty_streak := 3; total := total after_f;
           files := files after_f |}, []) /\
     test_loop [e1; e2; f] (0, 0) = (Running, (3, 0), []) /\
     test_loop [e1; e2; f; e3; e4; e5] (0, 0) = (Finished, (6, 3), [])) /\
    (forall ts : list Trip.trip,
        Forall2 (fun u t => visit f u = Returned t) us ts ->
        trips = ts /\
        total after_f = rows + 5 /\
        files after_f = <[output := default [HEADERS] (d !! output) ++ map row_of ts]> d).
Proof.
  intros output rows d e1 e2 e3 e4 e5 f us H1 H2 H3 H4 H5 Hf Hlen trips after_f.
  pose proof (five_is_some us Hlen) as Hne.
  assert (Hweek : forall st,
    week output f st =
      (Running,
       {| week_num := week_num st + 1; empty_streak := 0;
          total := total st + N.of_nat (length trips);
          files :=
            match trips with
            | [] => files st
            | _ :: _ =>
                <[output := default [HEADERS] (files st !! output) ++ map row_of trips]>
                  (files st)
            end |})).
  { intros st. rewrite (week_with_trips output f st us Hf Hne).
    rewrite (extracted_is_omap (visit f) us). fold trips.
    destruct trips as [|t ts]; [reflexivity|]. unfold save_csv.
    destruct (files st !! output) as [rows0|];
      [rewrite bool_decide_eq_true_2 by (eexists; reflexivity)
      |rewrite bool_decide_eq_false_2 by (intros [? Hx]; discriminate Hx)];
      reflexivity. }
  split; [split | split; [repeat split|]].
  - unfold start. cbn [main_loop].
    rewrite (week_without_trips output e1 _ H1). cbn -[week].
    rewrite (week_without_trips output e2 _ H2). cbn -[week].
    rewrite (week_without_trips output e3 _ H3). cbn -[week].
    reflexivity.
  - cbn [test_loop].
    rewrite (test_week_without_trips e1 _ _ H1). cbn -[test_week].
    rewrite (test_week_without_trips e2 _ _ H2). cbn -[test_week].
    rewrite (test_week_without_trips e3 _ _ H3). cbn -[test_week].
    reflexivity.
  - unfold start. cbn [main_loop].
    rewrite (week_without_trips output e1 _ H1). cbn -[week].
    rewrite (week_without_trips output e2 _ H2). cbn -[week].
    rewrite Hweek. reflexivity.
  - unfold start. cbn [main_loop].
    rewrite (week_without_trips output e1 _ H1). cbn -[week].
    rewrite (week_without_trips output e2 _ H2). cbn -[week].
    rewrite Hweek. cbn -[week].
    rewrite (week_without_trips output e3 _ H3). cbn -[week].
    rewrite (week_without_trips output e4 _ H4). cbn -[week].
    rewrite (week_without_trips output e5 _ H5). cbn -[week].
    reflexivity.
  - cbn [test_loop].
    rewrite (test_week_without_trips e1 _ _ H1). cbn -[test_week].
    rewrite (test_week_without_trips e2 _ _ H2). cbn -[test_week].
    rewrite (test_week_with_trips f _ _ us Hf Hne). cbn -[test_week].
    reflexivity.
  - cbn [test_loop].
    rewrite (test_week_without_trips e1 _ _ H1). cbn -[test_week].
    rewrite (test_week_without_trips e2 _ _ H2). cbn -[test_week].
    rewrite (test_week_with_trips f _ _ us Hf Hne). cbn -[test_week].
    rewrite (test_week_without_trips e3 _ _ H3). cbn -[test_week].
    rewrite (test_week_without_trips e4 _ _ H4). cbn -[test_week].
    rewrite (test_week_without_trips e5 _ _ H5). cbn -[test_week].
    reflexivity.
  - intros ts Hts.
    assert (Htrips : trips = ts).
    { apply omap_all. eapply Forall2_impl; [exact Hts|].
      intros u t Hu. cbn beta. rewrite Hu. reflexivity. }
    assert (Hfive : length ts = 5%nat).
    { rewrite <- (Forall2_length _ _ _ Hts). exact Hlen. }
    split; [exact Htrips|]. subst after_f. cbn [total files]. rewrite Htrips, Hfive.
    split; [reflexivity|]. destruct ts; [discriminate Hfive | reflexivity].
Qed.

End EmptyStreak.

Lemma uneventful_a_week (us : list Text.text) : Spec.uneventful (Sample.a_week us) us.
Proof. repeat split. Qed.

Lemma empty_streak_of_three_stops_the_walk_witness :
  Spec.uneventful (Sample.a_week []) [] /\
  Spec.uneventful (Sample.a_week Sample.five_links) Sample.five_links /\
  length Sample.five_links = 5%nat /\
  @Backward.main_loop Unicode.latin1_only Sample.output
    [Sample.a_week []; Sample.a_week []; Sample.a_week [];
     Sample.a_week Sample.five_links]
    (Backward.start 0 ∅) =
    (Backward.Finished,
     {| Backward.week_num := 3; Backward.empty_streak := 3; Backward.total := 0;
        Backward.files := ∅ |},
     [Sample.a_week Sample.five_links]) /\
  @Backward.main_loop Unicode.latin1_only Sample.output
    [Sample.a_week []; Sample.a_week []; Sample.a_week Sample.five_links;
     Sample.a_week []; Sample.a_week []; Sample.a_week []]
    (Backward.start 0 ∅) =
    (Backward.Finished,
     {| Backward.week_num := 6; Backward.empty_streak := 3; Backward.total := 5;
        Backward.files :=
          {[ Sample.output :=
               Csv.HEADERS ::
               replicate 5 (Csv.row_of (Sample.a_trip "Jul 1, 2024" "12.50")) ]} |},
     []).
Proof.
  split; [apply uneventful_a_week|]. split; [apply uneventful_a_week|].
  split; [reflexivity|].
  destruct (@empty_streak_of_three_stops_the_walk Unicode.latin1_only Sample.output 0 ∅
              (Sample.a_week []) (Sample.a_week []) (Sample.a_week [])
              (Sample.a_week []) (Sample.a_week [])
              (Sample.a_week Sample.five_links) Sample.five_links
              (uneventful_a_week []) (uneventful_a_week []) (uneventful_a_week [])
              (uneventful_a_week []) (uneventful_a_week [])
              (uneventful_a_week Sample.five_links) eq_refl)
    as [[Hmain _] [(_ & Hsix & _) Hall]].
  split; [exact Hmain|]. rewrite Hsix.
  destruct (Hall (replicate 5 (Sample.a_trip "Jul 1, 2024" "12.50")))
    as (_ & Htotal & Hfiles); [repeat constructor|].
  rewrite Htotal, Hfiles. reflexivity.
Defined.

(** ** The forward walk never works on a week ahead of the clock *)

Section FutureWeeks.
Import Text Unicode Py Csv Calendar Forward Spec.

Lemma visits_events (w : datetime) (visit : text -> outcome Trip.trip) (us : list text) :
  Forall (fun e => exists url, e = Visited w url) (snd (visits w visit us)).
Proof.
  induction us as [|url us IH]; simpl.
  - constructor.
  - destruct (visits w visit us) as [ts es]. simpl in IH.
    destruct (visit url); simpl; apply Forall_app; split;
      try exact IH; repeat constructor; eexists; reflexivity.
Qed.

Lemma navigate_to_week_log (browser : outcome unit) (st : state) :
  week_date (snd (navigate_to_week browser st)) = week_date st /\
  files (snd (navigate_to_week browser st)) = files st /\
  (log (snd (navigate_to_week browser st)) = log st \/
   log (snd (navigate_to_week browser st)) = Navigated (week_date st) :: log st).
Proof.
  unfold navigate_to_week. destruct (format_week_range (week_date st)); simpl; auto.
Qed.

(** What the body of [try] adds to the log when the cursor passed the check at
    the top of the round. *)
Lemma try_week_log (output : text) (r : round) (st : state) :
  gt (week_date st) (now_top r) = false ->
  exists new, log (snd (try_week output r st)) = new ++ log st /\
              Forall (not_ahead r) new.
Proof.
  intros Hnow. unfold try_week.
  (* the challenge branch: at most one navigation, to the cursor *)
  set (first := if challenge r then navigate_to_week (renavigate r) st else (Returned tt, st)).
  assert (Hfirst : week_date (snd first) = week_date st /\
                   exists n0, log (snd first) = n0 ++ log st /\ Forall (not_ahead r) n0).
  { subst first. destruct (challenge r).
    - destruct (navigate_to_week_log (renavigate r) st) as (Hw & _ & [Hl | Hl]).
      + split; [exact Hw|]. exists []. split; [exact Hl | constructor].
      + split; [exact Hw|]. exists [Navigated (week_date st)].
        split; [exact Hl|]. constructor; [|constructor]. simpl. left. exact Hnow.
    - split; [reflexivity|]. exists []. split; [reflexivity | constructor]. }
  destruct first as [[u | e] st1]; simpl in Hfirst;
    destruct Hfirst as (Hw1 & n0 & Hl1 & Hn0); simpl;
    [| exists n0; split; [exact Hl1 | exact Hn0]].
  destruct (urls r) as [us | e]; simpl;
    [| exists (Loaded (week_date st1) :: n0); split;
       [rewrite Hl1; reflexivity
       | constructor; [simpl; rewrite Hw1; exact Hnow | exact Hn0]]].
  destruct (Backward.is_empty us && (3 <=? (if Backward.is_empty us then empty st1 + 1 else 0))) eqn:Hstop; simpl.
  { exists (Loaded (week_date st1) :: n0). split; [rewrite Hl1; reflexivity|].
    constructor; [simpl; rewrite Hw1; exact Hnow | exact Hn0]. }
  pose proof (visits_events (week_date st1) (visit r) us) as Hvis.
  destruct (visits (week_date st1) (visit r) us) as [trips es]. simpl in Hvis.
  assert (Hes : Forall (not_ahead r) es).
  { eapply Forall_impl; [exact Hvis|]. intros e [url ->]. simpl. rewrite Hw1. exact Hnow. }
  set (saved := if Backward.is_empty trips then [] else [Saved (week_date st1) (length trips)]).
  assert (Hsaved : Forall (not_ahead r) saved).
  { subst saved. destruct (Backward.is_empty trips); constructor; [|constructor].
    simpl. rewrite Hw1. exact Hnow. }
  assert (Hgoal : forall st2 : state,
            week_date st2 = week_date st1 ->
            log st2 = saved ++ es ++ Loaded (week_date st1) :: n0 ++ log st ->
            exists new,
              log (snd (match add_days (week_date st2) 7 with
                        | Returned next =>
                            if gt (week_date (with_week_date st2 next)) (now_next r)
                            then (Returned true, with_week_date st2 next)
                            else
                              match navigate_to_week (navigate r) (with_week_date st2 next) with
                              | (Returned _, st) => (Returned false, st)
                              | (Raised e, st) => (Raised e, st)
                              end
                        | Raised e => (Raised e, st2)
                        end)) = new ++ log st /\ Forall (not_ahead r) new).
  { intros st2 Hw2 Hl2.
    assert (Hbase : Forall (not_ahead r) (saved ++ es ++ Loaded (week_date st1) :: n0)).
    { apply Forall_app; split; [exact Hsaved|]. apply Forall_app; split; [exact Hes|].
      constructor; [simpl; rewrite Hw1; exact Hnow | exact Hn0]. }
    destruct (add_days (week_date st2) 7) as [next | e]; simpl.
    - destruct (gt next (now_next r)) eqn:Hnext; simpl.
      + exists (saved ++ es ++ Loaded (week_date st1) :: n0).
        split; [rewrite Hl2, <- !app_assoc; reflexivity | exact Hbase].
      + destruct (navigate_to_week_log (navigate r) (with_week_date st2 next))
          as (_ & _ & Hl).
        destruct (navigate_to_week (navigate r) (with_week_date st2 next)) as [[u' | e'] st3];
          simpl in *; destruct Hl as [Hl | Hl]; rewrite Hl, Hl2.
        * exists (saved ++ es ++ Loaded (week_date st1) :: n0).
          split; [rewrite <- !app_assoc; reflexivity | exact Hbase].
        * exists (Navigated next :: saved ++ es ++ Loaded (week_date st1) :: n0).
          split; [simpl; rewrite <- !app_assoc; reflexivity|].
          constructor; [simpl; right; exact Hnext | exact Hbase].
        * exists (saved ++ es ++ Loaded (week_date st1) :: n0).
          split; [rewrite <- !app_assoc; reflexivity | exact Hbase].
        * exists (Navigated next :: saved ++ es ++ Loaded (week_date st1) :: n0).
          split; [simpl; rewrite <- !app_assoc; reflexivity|].
          constructor; [simpl; right; exact Hnext | exact Hbase].
    - exists (saved ++ es ++ Loaded (week_date st1) :: n0).
      split; [rewrite Hl2, <- !app_assoc; reflexivity | exact Hbase]. }
  subst saved. destruct (Backward.is_empty trips); apply Hgoal; simpl;
    try reflexivity; rewrite Hl1; reflexivity.
Qed.

(** When the body of [try] ends by going round again, the cursor has been
    advanced by seven days and was found not to be after the clock. *)
Lemma try_week_continue (output : text) (r : round) (st st' : state) :
  try_week output r st = (Returned false, st') ->
  add_days (week_date st) 7 = Returned (week_date st') /\
  gt (week_date st') (now_next r) = false.
Proof.
  unfold try_week.
  set (first := if challenge r then navigate_to_week (renavigate r) st else (Returned tt, st)).
  assert (Hfirst : week_date (snd first) = week_date st).
  { subst first. destruct (challenge r); [apply navigate_to_week_log | reflexivity]. }
  destruct first as [[u | e] st1]; simpl in Hfirst; [|discriminate].
  destruct (urls r) as [us | e]; [|discriminate].
  destruct (Backward.is_empty us && _); [discriminate|].
  destruct (visits _ (visit r) us) as [trips es].
  match goal with
  | |- context [add_days (week_date ?s) 7] =>
      set (st2 := s); assert (Hst2 : week_date st2 = week_date st)
  end.
  { subst st2. destruct (Backward.is_empty trips); simpl; exact Hfirst. }
  rewrite Hst2.
  destruct (add_days (week_date st) 7) as [next | e]; [|discriminate].
  cbn [with_week_date week_date].
  destruct (gt next (now_next r)) eqn:Hnext; [discriminate|].
  pose proof (navigate_to_week_log (navigate r) (with_week_date st2 next)) as (Hw & _).
  destruct (navigate_to_week (navigate r) (with_week_date st2 next)) as [[u' | e] st3];
    [|discriminate].
  intros H. inversion H; subst. simpl in Hw. rewrite Hw. split; [reflexivity | exact Hnext].
Qed.

Lemma week_log (output : text) (r : round) (st : state) :
  exists new, log (snd (week output r st)) = new ++ log st /\ Forall (not_ahead r) new.
Proof.
  unfold week.
  destruct (format_week_range (week_date (with_week_num st (week_num st + 1)))).
  2: { exists []. split; [reflexivity | constructor]. }
  destruct (gt (week_date (with_week_num st (week_num st + 1))) (now_top r)) eqn:Hnow.
  { exists []. split; [reflexivity | constructor]. }
  destruct (try_week_log output r _ Hnow) as (new & Hl & Hnew).
  destruct (try_week output r (with_week_num st (week_num st + 1))) as [[[|] | e] st1];
    simpl in Hl; simpl.
  - exists new. split; assumption.
  - exists new. split; assumption.
  - destruct (text_eqb (answer r) (str "stop")); simpl; [exists new; split; assumption|].
    destruct (text_eqb (answer r) (str "skip")); simpl.
    + destruct (add_days (week_date st1) 7); simpl; exists new; split; assumption.
    + exists new. split; assumption.
Qed.

(** C6.  In the forward walk a week whose cursor is after the clock is never
    worked on.  At the top of a round, a cursor after the reading of the clock
    ends the loop with nothing loaded, extracted or saved.  After the advance
    by seven days the body goes round again only if the new cursor is not
    after the reading taken then.  Every loading, extraction and saving of a
    round is done for a cursor that is not after the reading at the top of that
    round, and every navigation for a cursor that is not after one of the two
    readings; so it is for every round of a whole run. *)
Theorem forward_walk_never_works_on_a_future_week :
  forall (output : text) (r : round) (st : state),
    (gt (week_date st) (now_top r) = true ->
     exists s, week output r st = (s, with_week_num st (week_num st + 1)) /\
               s <> Running /\
               log (snd (week output r st)) = log st /\
               files (snd (week output r st)) = files st) /\
    (forall st', try_week output r st = (Returned false, st') ->
       add_days (week_date st) 7 = Returned (week_date st') /\
       gt (week_date st') (now_next r) = false) /\
    (exists new, log (snd (week output r st)) = new ++ log st /\
                 Forall (not_ahead r) new) /\
    (forall script,
       exists new, log (snd (fst (main_loop output script st))) = new ++ log st /\
                   Forall (fun e => exists r', In r' script /\ not_ahead r' e) new).
Proof.
  intros output r st. split; [|split; [|split]].
  - intros Hnow. unfold week.
    destruct (format_week_range (week_date (with_week_num st (week_num st + 1)))).
    + simpl in *. rewrite Hnow. exists Finished. repeat split. discriminate.
    + exists (Crashed e). repeat split. discriminate.
  - intros st'. apply try_week_continue.
  - apply week_log.
  - intros script. revert st.
    induction script as [|r' script IH]; intros st.
    + exists []. split; [reflexivity | constructor].
    + cbn [main_loop].
      destruct (week_log output r' st) as (new1 & Hl1 & Hnew1).
      destruct (week output r' st) as [s st1] eqn:Hweek. simpl in Hl1.
      assert (Hhere : Forall (fun e => exists r0, In r0 (r' :: script) /\ not_ahead r0 e) new1).
      { eapply Forall_impl; [exact Hnew1|]. intros e He. exists r'. split; [left; reflexivity | exact He]. }
      destruct s.
      * destruct (IH st1) as (new2 & Hl2 & Hnew2).
        exists (new2 ++ new1). split.
        -- rewrite Hl2, Hl1, app_assoc. reflexivity.
        -- apply Forall_app; split; [|exact Hhere].
           eapply Forall_impl; [exact Hnew2|].
           intros e (r0 & Hin & He). exists r0. split; [right; exact Hin | exact He].
      * exists new1. split; [exact Hl1 | exact Hhere].
      * exists new1. split; [exact Hl1 | exact Hhere].
Qed.

End FutureWeeks.

Lemma forward_walk_never_works_on_a_future_week_witness :
  Calendar.gt Sample.next_monday Sample.a_clock = true /\
  Forward.log (snd (Forward.week Sample.output
                      (Sample.a_forward_week Sample.a_clock Sample.five_links)
                      (Sample.a_start Sample.next_monday))) = [] /\
  Forward.files (snd (Forward.week Sample.output
                        (Sample.a_forward_week Sample.a_clock Sample.five_links)
                        (Sample.a_start Sample.next_monday))) = ∅.
Proof.
  split; [reflexivity|].
  destruct (proj1 (forward_walk_never_works_on_a_future_week Sample.output
                     (Sample.a_forward_week Sample.a_clock Sample.five_links)
                     (Sample.a_start Sample.next_monday)) eq_refl)
    as (s & _ & _ & Hlog & Hfiles).
  split; [exact Hlog | exact Hfiles].
Defined.

(** ** The calendar *)

Section CalendarFacts.
Import Text Py Calendar Spec.
Local Open Scope Z_scope.

(** The entries of the month tables at a given month, computed. *)
Ltac month_tables :=
  repeat match goal with
         | |- context [table ?t ?m] =>
             let v := eval vm_compute in (table t m) in change (table t m) with v
         | |- context [Z.ltb ?a ?b] =>
             let v := eval vm_compute in (Z.ltb a b) in change (Z.ltb a b) with v
         | |- context [Z.eqb ?a ?b] =>
             let v := eval vm_compute in (Z.eqb a b) in change (Z.eqb a b) with v
         end;
  cbn [andb].

Lemma month_day_table :
  forallb (fun k => month_day_ok false (Z.of_nat k) && month_day_ok true (Z.of_nat k))
          (seq 0 365) = true.
Proof. vm_compute. reflexivity. Qed.

Lemma month_day_correct (leapyear : bool) (n : Z) :
  0 <= n < 365 -> month_day_ok leapyear n = true.
Proof.
  intros Hn. pose proof month_day_table as H.
  rewrite forallb_forall in H.
  specialize (H (Z.to_nat n)). rewrite Z2Nat.id in H by lia.
  assert (Hin : In (Z.to_nat n) (seq 0 365)) by (apply in_seq; lia).
  apply H in Hin. apply andb_true_iff in Hin as [Hf Ht].
  destruct leapyear; assumption.
Qed.

Lemma is_leap_true (y : Z) :
  is_leap y = true <-> y mod 4 = 0 /\ (y mod 100 <> 0 \/ y mod 400 = 0).
Proof.
  unfold is_leap.
  rewrite andb_true_iff, orb_true_iff, negb_true_iff, !Z.eqb_eq, Z.eqb_neq.
  reflexivity.
Qed.

(** The leap-year flag ord2ymd computes from the position in the cycles is
    the leap year of the calendar. *)
Lemma is_leap_decomposed (a b c e : Z) :
  0 <= a -> 0 <= b <= 3 -> 0 <= c <= 24 -> 0 <= e <= 3 ->
  is_leap (400 * a + 100 * b + 4 * c + e + 1) =
    (e =? 3) && (negb (c =? 24) || (b =? 3)).
Proof.
  intros Ha Hb Hc He.
  apply eq_true_iff_eq. rewrite is_leap_true.
  rewrite andb_true_iff, orb_true_iff, negb_true_iff, Z.eqb_neq, !Z.eqb_eq.
  Z.div_mod_to_equations. lia.
Qed.

Lemma days_before_year_decomposed (a b c e : Z) :
  0 <= a -> 0 <= b <= 3 -> 0 <= c <= 24 -> 0 <= e <= 3 ->
  days_before_year (400 * a + 100 * b + 4 * c + e + 1) =
    146097 * a + 36524 * b + 1461 * c + 365 * e.
Proof.
  intros Ha Hb Hc He. unfold days_before_year.
  replace (400 * a + 100 * b + 4 * c + e + 1 - 1) with (400 * a + 100 * b + 4 * c + e) by lia.
  Z.div_mod_to_equations. lia.
Qed.

(** The last day of a leap year that closes a cycle of four years. *)
Lemma last_day_of_leap_year (y : Z) :
  1 <= y -> is_leap y = true ->
  ymd2ord y 12 31 = days_before_year y + 366.
Proof.
  intros Hy Hleap. unfold ymd2ord.
  replace (days_before_month y 12) with 335
    by (unfold days_before_month; rewrite Hleap; reflexivity).
  lia.
Qed.

(** ord2ymd is the inverse of ymd2ord on the ordinals of the calendar, and
    what it returns is a date the constructor accepts. *)
Lemma ord2ymd_correct (n : Z) :
  1 <= n <= MAXORDINAL ->
  let '(y, m, d) := ord2ymd n in
  valid_date y m d = true /\ ymd2ord y m d = n.
Proof.
  unfold MAXORDINAL. intros Hn. unfold ord2ymd. cbv zeta.
  remember (n - 1) as n0 eqn:En0.
  remember (n0 / 146097) as a eqn:Ea.
  remember (n0 mod 146097) as r400 eqn:Er400.
  remember (r400 / 36524) as b eqn:Eb.
  remember (r400 mod 36524) as r100 eqn:Er100.
  remember (r100 / 1461) as c eqn:Ec.
  remember (r100 mod 1461) as r4 eqn:Er4.
  remember (r4 / 365) as e eqn:Ee.
  remember (r4 mod 365) as r1 eqn:Er1.
  assert (Hdec : n0 = 146097 * a + 36524 * b + 1461 * c + 365 * e + r1 /\
                 0 <= a <= 24 /\ 0 <= b <= 4 /\ 0 <= c <= 24 /\ 0 <= e <= 4 /\
                 0 <= r1 < 365 /\
                 (b = 4 -> c = 0 /\ e = 0 /\ r1 = 0 /\ a <= 23) /\
                 (e = 4 -> r1 = 0 /\ c <= 23)).
  { subst a r400 b r100 c r4 e r1. Z.div_mod_to_equations. lia. }
  destruct Hdec as (Hn0 & Ha & Hb & Hc & He & Hr1 & Hb4 & He4).
  clear Ea Er400 Eb Er100 Ec Er4 Ee Er1.
  destruct ((e =? 4) || (b =? 4)) eqn:Hspecial.
  - (* the last day of a cycle: 31 December of a leap year *)
    apply orb_true_iff in Hspecial. rewrite !Z.eqb_eq in Hspecial.
    replace (a * 400 + 1 + b * 100 + c * 4 + e - 1) with (400 * a + 100 * b + 4 * c + e) by lia.
    assert (Hleap : is_leap (400 * a + 100 * b + 4 * c + e) = true).
    { apply is_leap_true. Z.div_mod_to_equations. lia. }
    split.
    + unfold valid_date, days_in_month, MINYEAR, MAXYEAR.
      change (table DAYS_IN_MONTH 12) with 31. cbn [Z.eqb andb Z.leb Z.compare].
      rewrite !andb_true_iff, !Z.leb_le. repeat split; try lia; discriminate.
    + rewrite last_day_of_leap_year by (assumption || lia).
      unfold days_before_year. Z.div_mod_to_equations. lia.
  - (* any other day: the year, then the month and day within it *)
    apply orb_false_iff in Hspecial. rewrite !Z.eqb_neq in Hspecial.
    replace (a * 400 + 1 + b * 100 + c * 4 + e) with (400 * a + 100 * b + 4 * c + e + 1) by lia.
    set (y := 400 * a + 100 * b + 4 * c + e + 1).
    assert (Hleap : (e =? 3) && (negb (c =? 24) || (b =? 3)) = is_leap y).
    { symmetry. apply is_leap_decomposed; lia. }
    rewrite Hleap.
    pose proof (month_day_correct (is_leap y) r1 Hr1) as Hmd.
    unfold month_day_ok, month_day in Hmd. cbv zeta in Hmd.
    assert (Hdby : days_before_year y = n0 - r1).
    { unfold y. rewrite days_before_year_decomposed by lia. lia. }
    assert (Hy : 1 <= y <= 9999) by (unfold y; lia).
    clearbody y.
    destruct (r1 <? _) in Hmd |- *;
      rewrite !andb_true_iff, !Z.leb_le, Z.eqb_eq in Hmd;
      destruct Hmd as ((((Hm1 & Hm2) & Hd1) & Hd2) & Hsum).
    + split.
      * unfold valid_date, days_in_month, MINYEAR, MAXYEAR.
        rewrite !andb_true_iff, !Z.leb_le. repeat split; lia.
      * unfold ymd2ord, days_before_month. rewrite Hdby. lia.
    + split.
      * unfold valid_date, days_in_month, MINYEAR, MAXYEAR.
        rewrite !andb_true_iff, !Z.leb_le. repeat split; lia.
      * unfold ymd2ord, days_before_month. rewrite Hdby. lia.
Qed.

(** The ordinal of a date the constructor accepts lies in the calendar. *)
Lemma ymd2ord_bounds (y m d : Z) :
  valid_date y m d = true -> 1 <= ymd2ord y m d <= MAXORDINAL.
Proof.
  unfold valid_date, MINYEAR, MAXYEAR, MAXORDINAL.
  rewrite !andb_true_iff, !Z.leb_le.
  intros (((((Hy1 & Hy2) & Hm1) & Hm2) & Hd1) & Hd2).
  assert (Hin : 0 <= days_before_month y m /\
                days_before_month y m + days_in_month y m <=
                  365 + (if is_leap y then 1 else 0)).
  { unfold days_before_month, days_in_month.
    assert (Hm : m = 1 \/ m = 2 \/ m = 3 \/ m = 4 \/ m = 5 \/ m = 6 \/
                 m = 7 \/ m = 8 \/ m = 9 \/ m = 10 \/ m = 11 \/ m = 12) by lia.
    destruct (is_leap y);
      repeat (destruct Hm as [-> | Hm]; [vm_compute; split; discriminate|]);
      subst m; vm_compute; split; discriminate. }
  assert (Hyear : 0 <= days_before_year y /\
                  days_before_year y + 365 + (if is_leap y then 1 else 0) <= 3652059).
  { destruct (is_leap y) eqn:Hleap.
    - apply is_leap_true in Hleap. unfold days_before_year.
      Z.div_mod_to_equations. lia.
    - unfold days_before_year. Z.div_mod_to_equations. lia. }
  unfold ymd2ord. lia.
Qed.

(** The days of a year before it ends: a date lies after the days before its
    year and not after the last day of that year. *)
Lemma month_part_bounds (y m d : Z) :
  1 <= m <= 12 -> 1 <= d <= days_in_month y m ->
  1 <= days_before_month y m + d <= 365 + (if is_leap y then 1 else 0).
Proof.
  intros Hm Hd. revert Hd. unfold days_before_month, days_in_month.
  assert (Hmm : m = 1 \/ m = 2 \/ m = 3 \/ m = 4 \/ m = 5 \/ m = 6 \/
                m = 7 \/ m = 8 \/ m = 9 \/ m = 10 \/ m = 11 \/ m = 12) by lia.
  destruct (is_leap y);
    repeat (destruct Hmm as [-> | Hmm]; [month_tables; lia|]);
    rewrite Hmm; month_tables; lia.
Qed.

Lemma days_before_next_year (y : Z) :
  days_before_year (y + 1) =
    days_before_year y + 365 + (if is_leap y then 1 else 0).
Proof.
  destruct (is_leap y) eqn:Hl.
  - apply is_leap_true in Hl. unfold days_before_year. Z.div_mod_to_equations. lia.
  - assert (Hn : ~ (y mod 4 = 0 /\ (y mod 100 <> 0 \/ y mod 400 = 0))).
    { rewrite <- is_leap_true. congruence. }
    unfold days_before_year. Z.div_mod_to_equations. lia.
Qed.

Lemma days_before_year_mono (y1 y2 : Z) :
  y1 <= y2 -> days_before_year y1 <= days_before_year y2.
Proof. intros H. unfold days_before_year. Z.div_mod_to_equations. lia. Qed.

Lemma ymd2ord_within_year (y m d : Z) :
  valid_date y m d = true ->
  days_before_year y + 1 <= ymd2ord y m d <= days_before_year (y + 1).
Proof.
  unfold valid_date. rewrite !andb_true_iff, !Z.leb_le.
  intros (((((Hy1 & Hy2) & Hm1) & Hm2) & Hd1) & Hd2).
  pose proof (month_part_bounds y m d (conj Hm1 Hm2) (conj Hd1 Hd2)).
  rewrite days_before_next_year. unfold ymd2ord. lia.
Qed.

(** A later date is not in an earlier year. *)
Lemma year_monotone (a b : datetime) :
  valid_date (year a) (month a) (day a) = true ->
  valid_date (year b) (month b) (day b) = true ->
  toordinal a <= toordinal b -> year a <= year b.
Proof.
  intros Ha Hb Hab.
  destruct (Z_le_gt_dec (year a) (year b)) as [Hok | Hbad]; [exact Hok|].
  exfalso.
  pose proof (ymd2ord_within_year _ _ _ Ha) as [Hlo _].
  pose proof (ymd2ord_within_year _ _ _ Hb) as [_ Hhi].
  pose proof (days_before_year_mono (year b + 1) (year a) ltac:(lia)).
  unfold toordinal in Hab. lia.
Qed.

Lemma weekday_range (a : datetime) : 0 <= weekday a < 7.
Proof. unfold weekday. apply Z.mod_pos_bound. lia. Qed.

(** Adding days, within the calendar: the ordinal moves by that much, the time
    of day stays, and the result is a date the constructor accepts. *)
Lemma add_days_correct (a : datetime) (k : Z) :
  1 <= toordinal a + k <= MAXORDINAL ->
  exists b, add_days a k = Returned b /\
            toordinal b = toordinal a + k /\
            tod b = tod a /\
            valid_date (year b) (month b) (day b) = true.
Proof.
  intros Hk. unfold add_days.
  replace ((0 <? toordinal a + k) && (toordinal a + k <=? MAXORDINAL)) with true
    by (symmetry; apply andb_true_iff; rewrite Z.ltb_lt, Z.leb_le; lia).
  pose proof (ord2ymd_correct (toordinal a + k) Hk) as Hord.
  destruct (ord2ymd (toordinal a + k)) as [[y m] d].
  destruct Hord as [Hvalid Hback].
  eexists. split; [reflexivity|]. unfold toordinal at 1. simpl. auto.
Qed.

(** Past the last day of the calendar the addition raises. *)
Lemma add_days_overflow (a : datetime) (k : Z) :
  MAXORDINAL < toordinal a + k -> add_days a k = Raised OverflowError.
Proof.
  intros Hk. unfold add_days.
  replace (toordinal a + k <=? MAXORDINAL) with false
    by (symmetry; apply Z.leb_gt; exact Hk).
  rewrite andb_false_r. reflexivity.
Qed.

Lemma valid_date_of_valid (a : datetime) :
  valid a = true -> valid_date (year a) (month a) (day a) = true.
Proof.
  unfold valid. rewrite !andb_true_iff. intros [[H _] _]. exact H.
Qed.

End CalendarFacts.

(** ** The week range of the absolute navigation *)

Section WeekRange.
Import Text Py Calendar Forward Spec.
Local Open Scope Z_scope.

Lemma four_digit_years_table :
  forallb (fun k => (length (decimal (N.of_nat k)) =? 4)%nat)
          (seq (N.to_nat 1000) (N.to_nat 9000)) = true.
Proof. vm_compute. reflexivity. Qed.

(** A year from 1000 to 9999 is written with four digits. *)
Lemma four_digit_year (y : Z) :
  1000 <= y <= 9999 -> length (decimal (Z.to_N y)) = 4%nat.
Proof.
  intros Hy. pose proof four_digit_years_table as H.
  rewrite forallb_forall in H.
  specialize (H (Z.to_nat y)).
  rewrite <- (Z_N_nat y) in H. rewrite N2Nat.id in H.
  apply Nat.eqb_eq, H, in_seq. lia.
Qed.

Lemma weekday_after_a_week (a b : datetime) :
  toordinal b = toordinal a + 7 -> weekday b = weekday a.
Proof.
  intros H. unfold weekday. rewrite H.
  replace (toordinal a + 7 + 6) with (toordinal a + 6 + 1 * 7) by lia.
  apply Z.mod_add. lia.
Qed.

(** C7, as amended.  For a Monday [monday] whose following Monday is still a
    date of the calendar (that is, up to 9999-12-20), format_week_range gives
    the abbreviated month, the day and the year of [monday], an en dash between
    blanks, and the same of the date seven days later, which is a Monday too;
    days and years are written without padding, a year from 1000 on with four
    digits.  For Monday 2024-07-01 the text is "Jul 1, 2024 - Jul 8, 2024" with
    an en dash. *)
Theorem week_range_of_a_monday :
  forall monday : datetime,
    valid_date (year monday) (month monday) (day monday) = true ->
    weekday monday = 0 ->
    toordinal monday + 7 <= MAXORDINAL ->
    (exists end_ : datetime,
        add_days monday 7 = Returned end_ /\
        toordinal end_ = toordinal monday + 7 /\
        weekday end_ = 0 /\
        valid_date (year end_) (month end_) (day end_) = true /\
        format_week_range monday =
          Returned (strftime_b monday ++ str " " ++ decimal (Z.to_N (day monday)) ++
                    str ", " ++ decimal (Z.to_N (year monday)) ++
                    str " " ++ [en_dash] ++ str " " ++
                    strftime_b end_ ++ str " " ++ decimal (Z.to_N (day end_)) ++
                    str ", " ++ decimal (Z.to_N (year end_))) /\
        (1000 <= year monday ->
           length (decimal (Z.to_N (year monday))) = 4%nat /\
           length (decimal (Z.to_N (year end_))) = 4%nat)) /\
    format_week_range {| year := 2024; month := 7; day := 1; tod := 0 |} =
      Returned (str "Jul 1, 2024 " ++ [en_dash] ++ str " Jul 8, 2024").
Proof.
  intros monday Hvalid Hmonday Hroom. split; [|vm_compute; reflexivity].
  pose proof (ymd2ord_bounds _ _ _ Hvalid) as Hord. fold (toordinal monday) in Hord.
  destruct (add_days_correct monday 7) as (end_ & Hadd & Hto & Htod & Hvalid');
    [lia|].
  exists end_. repeat split; try assumption.
  - rewrite (weekday_after_a_week monday end_ Hto). exact Hmonday.
  - unfold format_week_range. rewrite Hadd. cbn [bind]. unfold format_date.
    rewrite <- !app_assoc. reflexivity.
  - apply four_digit_year. unfold valid_date, MAXYEAR in Hvalid.
    rewrite !andb_true_iff, !Z.leb_le in Hvalid. lia.
  - apply four_digit_year.
    pose proof (year_monotone monday end_ Hvalid Hvalid' ltac:(lia)) as Hle.
    unfold valid_date, MAXYEAR in Hvalid'. rewrite !andb_true_iff, !Z.leb_le in Hvalid'.
    lia.
Qed.

(** The claim as stated fails for the last Monday of the calendar: the date
    seven days later does not exist and the addition raises. *)
Lemma week_range_of_the_last_monday :
  valid_date 9999 12 27 = true /\
  weekday {| year := 9999; month := 12; day := 27; tod := 0 |} = 0 /\
  format_week_range {| year := 9999; month := 12; day := 27; tod := 0 |} =
    Raised OverflowError.
Proof. repeat split; vm_compute; reflexivity. Qed.

Lemma week_range_of_a_monday_witness :
  valid_date 2024 7 1 = true /\
  weekday {| year := 2024; month := 7; day := 1; tod := 0 |} = 0 /\
  toordinal {| year := 2024; month := 7; day := 1; tod := 0 |} + 7 <= MAXORDINAL /\
  format_week_range {| year := 2024; month := 7; day := 1; tod := 0 |} =
    Returned (str "Jul 1, 2024 " ++ [en_dash] ++ str " Jul 8, 2024").
Proof.
  split; [reflexivity|]. split; [reflexivity|]. split; [vm_compute; discriminate|].
  apply (week_range_of_a_monday {| year := 2024; month := 7; day := 1; tod := 0 |});
    [reflexivity | reflexivity | vm_compute; discriminate].
Defined.

End WeekRange.

(** ** Aggregation over the fare items of a trip *)

Section Aggregation.
Import Text Unicode Regex Py FareParser Scraper Spec.
Context {U : beyond_latin1}.
Variable float_of_text : text -> option float.

(** One round of the loop, once the detail has been parsed. *)
Lemma fare_item_parsed (a : aggregates) (lbl val_str detail : text)
    (parsed : gmap string float) :
  parse_fare_line lbl detail = Returned parsed ->
  exists a',
    fare_item float_of_text a (lbl, val_str, detail) = Returned a' /\
    distance_miles a' =
      match parsed !! "miles"%string with
      | Some v => Some (float_add (or_zero (distance_miles a)) v)
      | None => distance_miles a
      end /\
    total_trip_minutes a' =
      match parsed !! "minutes"%string with
      | Some v => Some (float_add (or_zero (total_trip_minutes a)) v)
      | None => total_trip_minutes a
      end /\
    rate_per_mile a' =
      match parsed !! "rate_per_mile"%string with
      | Some r =>
          if float_truthy r && (bool_decide (rate_per_mile a = None) || float_pos r)
          then Some r else rate_per_mile a
      | None => rate_per_mile a
      end /\
    rate_per_minute a' =
      match parsed !! "rate_per_minute"%string with
      | Some r =>
          if float_truthy r && (bool_decide (rate_per_minute a = None) || float_pos r)
          then Some r else rate_per_minute a
      | None => rate_per_minute a
      end.
Proof.
  intros Hp. unfold fare_item. rewrite Hp. cbn [bind].
  eexists. split; [reflexivity|]. cbn. repeat split.
Qed.

(** A rate over two items: the last one that is not zero. *)
Lemma last_rate_that_is_not_zero (r1 r2 : float) :
  float_le float_zero r1 = true -> float_le float_zero r2 = true ->
  (let first := if float_truthy r1 && (bool_decide (@None float = None) || float_pos r1)
                then Some r1 else None in
   if float_truthy r2 && (bool_decide (first = None) || float_pos r2)
   then Some r2 else first) =
  (if float_truthy r2 then Some r2 else if float_truthy r1 then Some r1 else None).
Proof.
  intros H1 H2. cbv zeta.
  rewrite (bool_decide_eq_true_2 (@None float = None) eq_refl). cbn [orb].
  rewrite andb_true_r.
  destruct (float_truthy r2) eqn:T2; cbn [andb].
  - rewrite (truthy_and_not_negative r2 H2 T2), orb_true_r. reflexivity.
  - reflexivity.
Qed.

(** C2.  Two fare items of a trip, both parsed.  When both have miles, 1.5 and
    2.0, the trip's distance_miles is 3.5, and its rate_per_mile is the rate of
    the second item when that is not zero, else the rate of the first when that
    is not zero, else unset.  The same holds for minutes, total_trip_minutes
    and rate_per_minute.  The floats 1.5, 2.0 and 3.5 are 3 * 2**-1, 1 * 2**1
    and 7 * 2**-1; the rates are any floats with [0.0 <= r], as the parser
    returns them. *)
Theorem trip_aggregates_sum_and_last_rate :
  forall (lbl1 val1 det1 lbl2 val2 det2 : text) (d1 d2 : gmap string float),
    parse_fare_line lbl1 det1 = Returned d1 ->
    parse_fare_line lbl2 det2 = Returned d2 ->
    exists a : aggregates,
      fare_items float_of_text no_fares [(lbl1, val1, det1); (lbl2, val2, det2)] =
        Returned a /\
      (forall r1 r2 : float,
          d1 !! "miles"%string = Some (ldexp 3 (-1)) ->
          d2 !! "miles"%string = Some (ldexp 1 1) ->
          d1 !! "rate_per_mile"%string = Some r1 ->
          d2 !! "rate_per_mile"%string = Some r2 ->
          float_le float_zero r1 = true -> float_le float_zero r2 = true ->
          distance_miles a = Some (ldexp 7 (-1)) /\
          rate_per_mile a =
            (if float_truthy r2 then Some r2
             else if float_truthy r1 then Some r1 else None) /\
          (float_truthy r2 = true -> rate_per_mile a = Some r2)) /\
      (forall r1 r2 : float,
          d1 !! "minutes"%string = Some (ldexp 3 (-1)) ->
          d2 !! "minutes"%string = Some (ldexp 1 1) ->
          d1 !! "rate_per_minute"%string = Some r1 ->
          d2 !! "rate_per_minute"%string = Some r2 ->
          float_le float_zero r1 = true -> float_le float_zero r2 = true ->
          total_trip_minutes a = Some (ldexp 7 (-1)) /\
          rate_per_minute a =
            (if float_truthy r2 then Some r2
             else if float_truthy r1 then Some r1 else None) /\
          (float_truthy r2 = true -> rate_per_minute a = Some r2)).
Proof.
  intros lbl1 val1 det1 lbl2 val2 det2 d1 d2 Hp1 Hp2.
  destruct (fare_item_parsed no_fares lbl1 val1 det1 d1 Hp1)
    as (a1 & Ha1 & Hd1 & Ht1 & Hr1 & Hm1).
  destruct (fare_item_parsed a1 lbl2 val2 det2 d2 Hp2)
    as (a2 & Ha2 & Hd2 & Ht2 & Hr2 & Hm2).
  exists a2. split; [|split].
  - cbn [fare_items]. rewrite Ha1. cbn [bind]. rewrite Ha2. reflexivity.
  - intros r1 r2 M1 M2 R1 R2 N1 N2.
    rewrite M1 in Hd1. rewrite M2, Hd1 in Hd2.
    rewrite R1 in Hr1. rewrite R2, Hr1 in Hr2. cbn [rate_per_mile no_fares] in Hr2.
    assert (Hrate : rate_per_mile a2 =
                    if float_truthy r2 then Some r2
                    else if float_truthy r1 then Some r1 else None).
    { rewrite Hr2. apply (last_rate_that_is_not_zero r1 r2 N1 N2). }
    split; [exact Hd2|]. split; [exact Hrate|].
    intros T2. rewrite Hrate, T2. reflexivity.
  - intros r1 r2 M1 M2 R1 R2 N1 N2.
    rewrite M1 in Ht1. rewrite M2, Ht1 in Ht2.
    rewrite R1 in Hm1. rewrite R2, Hm1 in Hm2. cbn [rate_per_minute no_fares] in Hm2.
    assert (Hrate : rate_per_minute a2 =
                    if float_truthy r2 then Some r2
                    else if float_truthy r1 then Some r1 else None).
    { rewrite Hm2. apply (last_rate_that_is_not_zero r1 r2 N1 N2). }
    split; [exact Ht2|]. split; [exact Hrate|].
    intros T2. rewrite Hrate, T2. reflexivity.
Qed.

End Aggregation.

Lemma trip_aggregates_sum_and_last_rate_witness :
  @FareParser.parse_fare_line Unicode.latin1_only (Text.str "Distance")
    (Text.str "1.5 mile " ++ [Text.times_sign] ++ Text.str " $0.99/mile") =
    Py.Returned (<["rate_per_mile"%string := Py.ratio [0] [9; 9]]>
                   (<["miles"%string := Py.ldexp 3 (-1)]> ∅)) /\
  @FareParser.parse_fare_line Unicode.latin1_only (Text.str "Distance")
    (Text.str "2.0 mile " ++ [Text.times_sign] ++ Text.str " $1.10/mile") =
    Py.Returned (<["rate_per_mile"%string := Py.ratio [1] [1; 0]]>
                   (<["miles"%string := Py.ldexp 1 1]> ∅)) /\
  exists a : Scraper.aggregates,
    @Scraper.fare_items Unicode.latin1_only (fun _ => None) Scraper.no_fares
      [ (Text.str "Distance", Text.str "$1.49",
         Text.str "1.5 mile " ++ [Text.times_sign] ++ Text.str " $0.99/mile");
        (Text.str "Distance", Text.str "$2.20",
         Text.str "2.0 mile " ++ [Text.times_sign] ++ Text.str " $1.10/mile") ] =
      Py.Returned a /\
    Scraper.distance_miles a = Some (Py.ldexp 7 (-1)) /\
    option_bind _ _ Py.exact (Scraper.distance_miles a) = Some (7 # 2)%Q /\
    Scraper.rate_per_mile a = Some (Py.ratio [1] [1; 0]).
Proof.
  assert (H1 : @FareParser.parse_fare_line Unicode.latin1_only (Text.str "Distance")
                 (Text.str "1.5 mile " ++ [Text.times_sign] ++ Text.str " $0.99/mile") =
               Py.Returned (<["rate_per_mile"%string := Py.ratio [0] [9; 9]]>
                              (<["miles"%string := Py.ldexp 3 (-1)]> ∅)))
    by (vm_compute; reflexivity).
  assert (H2 : @FareParser.parse_fare_line Unicode.latin1_only (Text.str "Distance")
                 (Text.str "2.0 mile " ++ [Text.times_sign] ++ Text.str " $1.10/mile") =
               Py.Returned (<["rate_per_mile"%string := Py.ratio [1] [1; 0]]>
                              (<["miles"%string := Py.ldexp 1 1]> ∅)))
    by (vm_compute; reflexivity).
  split; [exact H1|]. split; [exact H2|].
  destruct (@trip_aggregates_sum_and_last_rate Unicode.latin1_only (fun _ => None)
              _ (Text.str "$1.49") _ _ (Text.str "$2.20") _ _ _ H1 H2)
    as (a & Ha & Hmiles & _).
  exists a. split; [exact Ha|].
  destruct (Hmiles (Py.ratio [0] [9; 9]) (Py.ratio [1] [1; 0])) as (Hd & _ & Hr);
    try (vm_compute; reflexivity).
  split; [exact Hd|]. split; [rewrite Hd; vm_compute; reflexivity|].
  apply Hr. vm_compute. reflexivity.
Defined.

(** ** The checkpoint of visited trips *)

Section Checkpoint.
Import Text Unicode Py FareParser Scraper Spec.
Context {U : beyond_latin1}.
Variable float_of_text : text -> option float.
Variable browse : text -> outcome page.

(** *** Reading the file back *)

Lemma universal_newlines_line (p : text) :
  forall f q,
    universal_newlines f ((p ++ [10]) ++ q) =
      universal_newlines f (p ++ [10]) ++ universal_newlines false q.
Proof.
  induction p as [|x p IH]; intros f q.
  - cbn [app universal_newlines N.eqb Pos.eqb]. destruct f; reflexivity.
  - cbn [app universal_newlines]. destruct (x =? 13).
    + cbn [app]. f_equal. apply IH.
    + destruct ((x =? 10) && f); [apply IH|]. cbn [app]. f_equal. apply IH.
Qed.

Lemma universal_newlines_ends (p : text) :
  forall f, p <> [] \/ f = false ->
    exists u, universal_newlines f (p ++ [10]) = u ++ [10].
Proof.
  induction p as [|x p IH]; intros f Hf.
  - destruct Hf as [Hf | ->]; [congruence|]. exists []. reflexivity.
  - cbn [app universal_newlines]. destruct (x =? 13).
    + destruct p as [|y p].
      * exists []. reflexivity.
      * destruct (IH true) as [u Hu]; [left; discriminate|].
        exists (10 :: u). rewrite Hu. reflexivity.
    + destruct ((x =? 10) && f).
      * apply IH. right. reflexivity.
      * destruct (IH false) as [u Hu]; [right; reflexivity|].
        exists (x :: u). rewrite Hu. reflexivity.
Qed.

Lemma universal_newlines_plain (x q : text) :
  Forall (fun c => c <> 10 /\ c <> 13) x ->
  universal_newlines false (x ++ q) = x ++ universal_newlines false q.
Proof.
  induction 1 as [|y x [Hy10 Hy13] _ IH]; [reflexivity|].
  cbn [app universal_newlines].
  replace (y =? 13) with false by (symmetry; apply N.eqb_neq; exact Hy13).
  rewrite andb_false_r, IH. reflexivity.
Qed.

Lemma lines_from_whole (u : text) :
  forall cur q,
    lines_from cur ((u ++ [10]) ++ q) = lines_from cur (u ++ [10]) ++ lines_from [] q.
Proof.
  induction u as [|x u IH]; intros cur q.
  - reflexivity.
  - cbn [app lines_from]. destruct (x =? 10).
    + cbn [app]. f_equal. apply IH.
    + apply IH.
Qed.

Lemma lines_from_one (x : text) :
  forall cur, Forall (fun c => c <> 10 /\ c <> 13) x ->
    lines_from cur (x ++ [10]) = [rev cur ++ x].
Proof.
  induction x as [|y x IH]; intros cur Hx.
  - cbn. rewrite app_nil_r. reflexivity.
  - inversion Hx as [|? ? [Hy _] Hx']; subst. cbn [app lines_from].
    replace (y =? 10) with false by (symmetry; apply N.eqb_neq; exact Hy).
    rewrite (IH (y :: cur) Hx'). cbn [rev]. rewrite <- app_assoc. reflexivity.
Qed.

(** Appending a plain identifier and a newline to whole lines adds one line. *)
Lemma lines_after_append (content x : text) :
  content = [] \/ (exists before, content = before ++ [10]) ->
  Forall (fun c => c <> 10 /\ c <> 13) x ->
  lines (content ++ x ++ [10]) = lines content ++ [x].
Proof.
  intros Hc Hx. unfold lines.
  assert (Hline : lines_from [] (universal_newlines false (x ++ [10])) = [x]).
  { rewrite (universal_newlines_plain x [10] Hx).
    change (universal_newlines false [10]) with [10].
    apply (lines_from_one x [] Hx). }
  destruct Hc as [-> | [before ->]].
  - exact Hline.
  - rewrite universal_newlines_line.
    destruct (universal_newlines_ends before false) as [u Hu]; [right; reflexivity|].
    rewrite Hu, lines_from_whole, Hline. reflexivity.
Qed.

Lemma fetch_visited_after_append (x : text) (fs : files) :
  plain_id x -> whole_lines fs ->
  fetch_visited (append_visited x fs) = fetch_visited fs ∪ {[ x ]}.
Proof.
  intros (Hne & Hstrip & Hplain) Hfs. unfold fetch_visited, append_visited, whole_lines in *.
  cbn [visited_jsonl].
  destruct (visited_jsonl fs) as [content|]; cbn [default id].
  - rewrite (lines_after_append content x Hfs Hplain), fold_left_app.
    cbn [fold_left]. rewrite Hstrip. destruct x; [congruence | reflexivity].
  - rewrite (lines_after_append [] x (or_introl eq_refl) Hplain).
    cbn [lines universal_newlines lines_from app fold_left]. rewrite Hstrip.
    destruct x; [congruence | reflexivity].
Qed.

(** Marking keeps the file in whole lines. *)
Lemma append_visited_whole_lines (x : text) (fs : files) :
  whole_lines (append_visited x fs).
Proof.
  unfold whole_lines, append_visited. cbn [visited_jsonl]. right.
  exists (default [] (visited_jsonl fs) ++ x). rewrite <- app_assoc. reflexivity.
Qed.

End Checkpoint.

(** ** Resuming: what a run does with trips already visited *)

Section Resume.
Import Text Unicode Py FareParser Scraper Spec.
Context {U : beyond_latin1}.
Variable float_of_text : text -> option float.
Variable browse : text -> outcome page.

Lemma scrape_trip_details_cases (trip_link : text) (visited : gset text) (fs : files) :
  scrape_trip_details float_of_text browse trip_link visited fs =
    if bool_decide (trip_id_of trip_link ∈ visited) then (Returned tt, visited, fs)
    else match scraped float_of_text browse trip_link with
         | Returned row =>
             (Returned tt, visited,
              append_visited (trip_id_of trip_link) (append_trip_row row fs))
         | Raised e => (Raised e, visited, fs)
         end.
Proof. reflexivity. Qed.

(** A call leaves the in-memory set as it was. *)
Lemma scrape_trip_details_keeps_set (trip_link : text) (visited : gset text) (fs : files) :
  snd (fst (scrape_trip_details float_of_text browse trip_link visited fs)) = visited.
Proof.
  rewrite scrape_trip_details_cases.
  destruct (bool_decide _); [reflexivity|]. destruct (scraped _ _ trip_link); reflexivity.
Qed.

(** A call for a visited trip does nothing. *)
Lemma scrape_trip_details_visited (trip_link : text) (visited : gset text) (fs : files) :
  trip_id_of trip_link ∈ visited ->
  scrape_trip_details float_of_text browse trip_link visited fs = (Returned tt, visited, fs).
Proof.
  intros Hin. rewrite scrape_trip_details_cases, bool_decide_eq_true_2 by exact Hin.
  reflexivity.
Qed.

(** A call for a trip that is not in the set, whose page loads and parses,
    appends the row and then the checkpoint line. *)
Lemma scrape_trip_details_fresh (trip_link : text) (visited : gset text) (fs : files)
    (row : list cell) :
  trip_id_of trip_link ∉ visited ->
  scraped float_of_text browse trip_link = Returned row ->
  scrape_trip_details float_of_text browse trip_link visited fs =
    (Returned tt, visited, append_visited (trip_id_of trip_link) (append_trip_row row fs)).
Proof.
  intros Hout Hrow.
  rewrite scrape_trip_details_cases, (bool_decide_eq_false_2 _ Hout), Hrow. reflexivity.
Qed.

(** The first cell of a row is the trip identifier. *)
Lemma scraped_row_id (trip_link : text) (row : list cell) :
  scraped float_of_text browse trip_link = Returned row ->
  head row = Some (CStr (trip_id_of trip_link)).
Proof.
  unfold scraped. destruct (browse trip_link) as [pg|]; [|discriminate]. cbn [bind].
  destruct (fare_items _ _ _) as [a|]; [|discriminate]. cbn [bind].
  intros H. inversion H. reflexivity.
Qed.

(** What a call adds to the CSV file: nothing, or one row of a trip that is
    not in the set. *)
Lemma scrape_trip_details_rows (trip_link : text) (visited : gset text) (fs : files) :
  exists new,
    records (snd (scrape_trip_details float_of_text browse trip_link visited fs)) =
      records fs ++ new /\
    Forall (fun row => exists id, head row = Some (CStr id) /\ id ∉ visited) new.
Proof.
  rewrite scrape_trip_details_cases.
  destruct (bool_decide (trip_id_of trip_link ∈ visited)) eqn:Hin.
  - exists []. rewrite app_nil_r. split; [reflexivity | constructor].
  - apply bool_decide_eq_false in Hin.
    destruct (scraped float_of_text browse trip_link) as [row|] eqn:Hrow.
    + exists [row]. split; [reflexivity|]. constructor; [|constructor].
      exists (trip_id_of trip_link). split; [exact (scraped_row_id _ _ Hrow) | exact Hin].
    + exists []. rewrite app_nil_r. split; [reflexivity | constructor].
Qed.

Lemma scrape_links_rows (links : list text) :
  forall (visited : gset text) (fs : files),
    fst (scrape_links float_of_text browse links visited fs) = visited /\
    exists new,
      records (snd (scrape_links float_of_text browse links visited fs)) =
        records fs ++ new /\
      Forall (fun row => exists id, head row = Some (CStr id) /\ id ∉ visited) new.
Proof.
  induction links as [|link links IH]; intros visited fs; cbn [scrape_links].
  - split; [reflexivity|]. exists []. rewrite app_nil_r. split; [reflexivity | constructor].
  - pose proof (scrape_trip_details_keeps_set link visited fs) as Hset.
    destruct (scrape_trip_details_rows link visited fs) as (new1 & Hrec1 & Hnew1).
    destruct (scrape_trip_details float_of_text browse link visited fs) as [[r v1] fs1].
    cbn [fst snd] in *. subst v1.
    destruct (IH visited fs1) as (Hv & new2 & Hrec2 & Hnew2).
    split; [exact Hv|]. exists (new1 ++ new2). split.
    + rewrite Hrec2, Hrec1, app_assoc. reflexivity.
    + apply Forall_app. split; assumption.
Qed.

Lemma scrape_weeks_rows (weeks : list (list text)) :
  forall (visited : gset text) (fs : files),
    fst (scrape_weeks float_of_text browse weeks visited fs) = visited /\
    exists new,
      records (snd (scrape_weeks float_of_text browse weeks visited fs)) =
        records fs ++ new /\
      Forall (fun row => exists id, head row = Some (CStr id) /\ id ∉ visited) new.
Proof.
  induction weeks as [|links weeks IH]; intros visited fs; cbn [scrape_weeks].
  - split; [reflexivity|]. exists []. rewrite app_nil_r. split; [reflexivity | constructor].
  - destruct (scrape_links_rows links visited fs) as (Hv1 & new1 & Hrec1 & Hnew1).
    destruct (scrape_links float_of_text browse links visited fs) as [v1 fs1].
    cbn [fst snd] in *. subst v1.
    destruct (IH visited fs1) as (Hv & new2 & Hrec2 & Hnew2).
    split; [exact Hv|]. exists (new1 ++ new2). split.
    + rewrite Hrec2, Hrec1, app_assoc. reflexivity.
    + apply Forall_app. split; assumption.
Qed.

(** C3, as amended.  Marking a trip identifier that is not empty, has no white
    space at either end and no line break inside, in a checkpoint file that is
    absent, empty or ends with a newline, makes it a member of the set
    fetch_visited loads.  A run appends no CSV row for an identifier that is in
    the set loaded at its start: scrape_trip_details returns without writing
    for it, and every row the run appends is the row of another trip. *)
Theorem marked_trips_are_not_scraped_again :
  (forall (x : text) (fs : files),
      plain_id x -> whole_lines fs ->
      x ∈ fetch_visited (append_visited x fs) /\
      whole_lines (append_visited x fs)) /\
  (forall (trip_link : text) (visited : gset text) (fs : files),
      trip_id_of trip_link ∈ visited ->
      scrape_trip_details float_of_text browse trip_link visited fs =
        (Returned tt, visited, fs)) /\
  (forall (weeks : list (list text)) (fs : files) (x : text),
      x ∈ fetch_visited fs ->
      exists new,
        records (scrape_all_trips float_of_text browse weeks fs) =
          records (write_csv_header_if_needed fs) ++ new /\
        Forall (fun row => head row <> Some (CStr x)) new).
Proof.
  split; [|split].
  - intros x fs Hx Hfs. split; [|apply append_visited_whole_lines].
    rewrite (fetch_visited_after_append x fs Hx Hfs). set_solver.
  - apply scrape_trip_details_visited.
  - intros weeks fs x Hx. unfold scrape_all_trips.
    destruct (scrape_weeks_rows weeks (fetch_visited fs) (write_csv_header_if_needed fs))
      as (_ & new & Hrec & Hnew).
    exists new. split; [exact Hrec|].
    eapply Forall_impl; [exact Hnew|].
    intros row (id & Hhead & Hid) Hbad. rewrite Hhead in Hbad.
    inversion Hbad; subst. exact (Hid Hx).
Qed.

(** C10.  scrape_trip_details leaves the in-memory set it is given as it was.
    So two calls in one run with the same link, whose identifier is not in the
    set and whose page loads and parses, append one CSV row and one checkpoint
    line each. *)
Theorem the_set_in_memory_is_never_updated :
  (forall (trip_link : text) (visited : gset text) (fs : files),
      snd (fst (scrape_trip_details float_of_text browse trip_link visited fs)) = visited) /\
  (forall (trip_link : text) (visited : gset text) (fs : files) (row : list cell),
      trip_id_of trip_link ∉ visited ->
      scraped float_of_text browse trip_link = Returned row ->
      let trip_id := trip_id_of trip_link in
      let once := snd (scrape_links float_of_text browse [trip_link] visited fs) in
      let twice := snd (scrape_links float_of_text browse [trip_link; trip_link] visited fs) in
      fst (scrape_links float_of_text browse [trip_link; trip_link] visited fs) = visited /\
      uber_trips_csv once = Some (records fs ++ [row]) /\
      visited_jsonl once = Some (default [] (visited_jsonl fs) ++ trip_id ++ [10]) /\
      uber_trips_csv twice = Some (records fs ++ [row; row]) /\
      visited_jsonl twice =
        Some (default [] (visited_jsonl fs) ++ trip_id ++ [10] ++ trip_id ++ [10])).
Proof.
  split; [apply scrape_trip_details_keeps_set|].
  intros trip_link visited fs row Hout Hrow trip_id once twice.
  subst once twice trip_id. cbn [scrape_links].
  rewrite (scrape_trip_details_fresh trip_link visited fs row Hout Hrow).
  rewrite (scrape_trip_details_fresh trip_link visited _ row Hout Hrow).
  unfold append_visited, append_trip_row, records.
  cbn [fst snd uber_trips_csv visited_jsonl default id].
  repeat split.
  - rewrite <- app_assoc. reflexivity.
  - rewrite <- !app_assoc. reflexivity.
Qed.

End Resume.

(** The claim as stated fails for the empty identifier, which a trip link that
    ends with a slash has: marking it writes a blank line, which fetch_visited
    skips, so it is no member after being marked, and a second run appends a
    second row for it. *)
Lemma an_empty_identifier_is_scraped_again :
  Scraper.trip_id_of Sample.a_link_without_id = [] /\
  bool_decide
    ([] ∈ @Scraper.fetch_visited Unicode.latin1_only
            (Scraper.append_visited [] Sample.no_files)) = false /\
  map (@head Scraper.cell)
    (Spec.records
       (@Scraper.scrape_all_trips Unicode.latin1_only Sample.plain_float Sample.a_browser
          [[Sample.a_link_without_id]]
          (@Scraper.scrape_all_trips Unicode.latin1_only Sample.plain_float Sample.a_browser
             [[Sample.a_link_without_id]] Sample.no_files))) =
    [ Some (Scraper.CStr (Text.str "ride_id")); Some (Scraper.CStr []);
      Some (Scraper.CStr []) ].
Proof. repeat split; vm_compute; reflexivity. Qed.

Lemma plain_id_abc : @Spec.plain_id Unicode.latin1_only (Text.str "abc-123").
Proof.
  split; [discriminate|]. split; [reflexivity|].
  repeat (constructor; [split; discriminate|]). constructor.
Qed.

Lemma marked_trips_are_not_scraped_again_witness :
  @Spec.plain_id Unicode.latin1_only (Text.str "abc-123") /\
  Spec.whole_lines Sample.no_files /\
  Text.str "abc-123" ∈
    @Scraper.fetch_visited Unicode.latin1_only
      (Scraper.append_visited (Text.str "abc-123") Sample.no_files).
Proof.
  split; [exact plain_id_abc|]. split; [exact I|].
  exact (proj1 (proj1 (@marked_trips_are_not_scraped_again Unicode.latin1_only
                         Sample.plain_float Sample.a_browser)
                  (Text.str "abc-123") Sample.no_files plain_id_abc I)).
Defined.

Lemma the_set_in_memory_is_never_updated_witness :
  (Scraper.trip_id_of Sample.a_link = Text.str "abc-123") /\
  (Scraper.trip_id_of Sample.a_link ∉ (∅ : gset (list N))) /\
  exists row : list Scraper.cell,
    @Scraper.scraped Unicode.latin1_only Sample.plain_float Sample.a_browser Sample.a_link =
      Py.Returned row /\
    Scraper.uber_trips_csv
      (snd (@Scraper.scrape_links Unicode.latin1_only Sample.plain_float Sample.a_browser
              [Sample.a_link; Sample.a_link] ∅ Sample.no_files)) = Some [row; row] /\
    Scraper.visited_jsonl
      (snd (@Scraper.scrape_links Unicode.latin1_only Sample.plain_float Sample.a_browser
              [Sample.a_link; Sample.a_link] ∅ Sample.no_files)) =
      Some (Text.str "abc-123" ++ [10] ++ Text.str "abc-123" ++ [10]).
Proof.
  split; [reflexivity|]. split; [apply not_elem_of_empty|].
  destruct (@Scraper.scraped Unicode.latin1_only Sample.plain_float Sample.a_browser
              Sample.a_link) as [row|e] eqn:Hrow; [|vm_compute in Hrow; discriminate].
  exists row. split; [reflexivity|].
  destruct (proj2 (@the_set_in_memory_is_never_updated Unicode.latin1_only
                     Sample.plain_float Sample.a_browser)
              Sample.a_link ∅ Sample.no_files row (not_elem_of_empty _) Hrow)
    as (_ & _ & _ & Hcsv & Hfile).
  split; [exact Hcsv | exact Hfile].
Defined.

(** ** The start-date prompt *)

Section StartDate.
Import Text Unicode Regex Py Calendar Forward Spec.
Context {U : beyond_latin1}.
Local Open Scope Z_scope.

(** get_monday gives the Monday of the week of its argument. *)
Lemma get_monday_correct (d : datetime) :
  valid_date (year d) (month d) (day d) = true ->
  exists monday,
    get_monday d = Returned monday /\
    weekday monday = 0 /\
    toordinal monday = toordinal d - weekday d /\
    tod monday = tod d /\
    valid_date (year monday) (month monday) (day monday) = true.
Proof.
  intros Hvalid. pose proof (ymd2ord_bounds _ _ _ Hvalid) as Hord.
  fold (toordinal d) in Hord. pose proof (weekday_range d) as Hwd.
  assert (Hroom : 1 <= toordinal d + - weekday d <= MAXORDINAL).
  { unfold weekday in *. Z.div_mod_to_equations. lia. }
  destruct (add_days_correct d (- weekday d) Hroom) as (m & Hadd & Hto & Htod & Hv).
  exists m. split; [exact Hadd|]. split; [|split; [lia|split; assumption]].
  unfold weekday at 1. rewrite Hto. unfold weekday. Z.div_mod_to_equations. lia.
Qed.

Ltac each_part :=
  repeat match goal with
         | |- context [match ?x with Some _ => _ | None => _ end] =>
             destruct x; try discriminate
         end.

(** What strptime returns is a date the constructor accepted, at midnight. *)
Lemma strptime_valid (s fmt : text) (p : datetime) :
  strptime s fmt = Returned p ->
  valid_date (year p) (month p) (day p) = true /\ tod p = 0.
Proof.
  unfold strptime. destruct (match_here _ true s) as [[[|x rest] cs]|]; try discriminate.
  cbv zeta. each_part.
  all: unfold make;
    match goal with |- context [valid_date ?y ?m ?d] => destruct (valid_date y m d) eqn:Hv end;
    try discriminate; intros H; inversion H; subst; split; [exact Hv | reflexivity].
Qed.

(** A format without a year directive parses into the year 1900. *)
Lemma strptime_without_year (s fmt : text) (p : datetime) :
  has_group 89 (format_regex false fmt) = false ->
  has_group 121 (format_regex false fmt) = false ->
  strptime s fmt = Returned p -> year p = 1900.
Proof.
  intros HY Hy. unfold strptime.
  destruct (match_here _ true s) as [[[|x rest] cs]|] eqn:Hm; try discriminate.
  pose proof (match_here_keeps_group 89 _ _ _ _ HY Hm) as H89.
  pose proof (match_here_keeps_group 121 _ _ _ _ Hy Hm) as H121.
  cbn [snd] in H89, H121. unfold group_of.
  change (N.to_nat 89) with 89%nat. change (N.to_nat 121) with 121%nat.
  rewrite H89, H121. cbv zeta iota. each_part.
  all: unfold make;
    match goal with |- context [valid_date ?y ?m ?d] => destruct (valid_date y m d) end;
    try discriminate; intros H; inversion H; reflexivity.
Qed.

(** A date of 1900 is a date of every year. *)
Lemma valid_in_every_year (y m d : Z) :
  MINYEAR <= y <= MAXYEAR -> valid_date 1900 m d = true -> valid_date y m d = true.
Proof.
  unfold valid_date, MINYEAR, MAXYEAR. intros Hy.
  rewrite !andb_true_iff, !Z.leb_le.
  intros (((((_ & _) & Hm1) & Hm2) & Hd1) & Hd2).
  repeat split; try lia.
  revert Hd2. unfold days_in_month.
  change (is_leap 1900) with false. rewrite andb_false_r.
  destruct ((m =? 2) && is_leap y) eqn:Hfeb; [|tauto].
  apply andb_true_iff in Hfeb as [Hfeb _]. apply Z.eqb_eq in Hfeb. subst m.
  change (table DAYS_IN_MONTH 2) with 28. lia.
Qed.

Lemma year_of_valid (now : datetime) :
  valid now = true -> MINYEAR <= year now <= MAXYEAR.
Proof.
  intros H. apply valid_date_of_valid in H. unfold valid_date in H.
  rewrite !andb_true_iff, !Z.leb_le in H. lia.
Qed.

(** The loop over the formats returns the first that parses. *)
Lemma try_formats_is_first (inp : text) (now : datetime) (fmts : list text) :
  valid now = true ->
  Forall (fun fmt => has_year fmt = false ->
                     has_group 89 (format_regex false fmt) = false /\
                     has_group 121 (format_regex false fmt) = false) fmts ->
  try_formats fmts inp now None = first_that_parses fmts inp now.
Proof.
  intros Hnow. induction 1 as [|fmt fmts Hfmt _ IH]; [reflexivity|].
  cbn [try_formats first_that_parses].
  destruct (strptime inp fmt) as [p|] eqn:Hp; [|exact IH].
  unfold has_year in *. rewrite <- negb_orb.
  destruct (includes (str "%Y") fmt || includes (str "%y") fmt); [reflexivity|].
  cbn [negb]. destruct (Hfmt eq_refl) as [HY Hy].
  pose proof (strptime_without_year inp fmt p HY Hy Hp) as H1900.
  destruct (strptime_valid inp fmt p Hp) as [Hv _]. rewrite H1900 in Hv.
  unfold replace_year, make.
  rewrite (valid_in_every_year _ _ _ (year_of_valid now Hnow) Hv). reflexivity.
Qed.

Lemma formats_without_year :
  Forall (fun fmt => has_year fmt = false ->
                     has_group 89 (format_regex false fmt) = false /\
                     has_group 121 (format_regex false fmt) = false) formats.
Proof.
  unfold formats. cbn [map].
  repeat (constructor; [first [ intros H; vm_compute in H; discriminate
                              | intros _; split; reflexivity ]|]).
  constructor.
Qed.

Lemma try_formats_valid (inp : text) (now : datetime) (fmts : list text) :
  forall parsed p,
    (forall q, parsed = Some q -> valid_date (year q) (month q) (day q) = true) ->
    try_formats fmts inp now parsed = Some p ->
    valid_date (year p) (month p) (day p) = true.
Proof.
  induction fmts as [|fmt fmts IH]; intros parsed p Hparsed H; cbn [try_formats] in H.
  - exact (Hparsed p H).
  - destruct (strptime inp fmt) as [p0|] eqn:Hp0; [|exact (IH parsed p Hparsed H)].
    destruct (strptime_valid inp fmt p0 Hp0) as [Hv0 _].
    destruct (negb _ && negb _).
    + unfold replace_year, make in H.
      destruct (valid_date (year now) (month p0) (day p0)) eqn:Hv.
      * inversion H; subst. exact Hv.
      * apply (IH (Some p0) p); [|exact H]. intros q Hq. inversion Hq; subst. exact Hv0.
    + inversion H; subst. exact Hv0.
Qed.

Lemma start_date_valid (inp : text) (now : datetime) :
  valid now = true ->
  valid_date (year (start_date inp now)) (month (start_date inp now))
             (day (start_date inp now)) = true.
Proof.
  intros Hnow. pose proof (valid_date_of_valid now Hnow) as Hv.
  unfold start_date. destruct inp as [|c inp]; [exact Hv|].
  destruct (try_formats formats _ now None) as [p|] eqn:Hp; [|exact Hv].
  refine (try_formats_valid _ _ _ None p _ Hp). intros q Hq. discriminate Hq.
Qed.

Lemma start_date_is_first (inp : text) (now : datetime) :
  valid now = true ->
  start_date inp now =
    match inp with
    | [] => now
    | _ :: _ => default now (first_that_parses formats (strip is_space inp) now)
    end.
Proof.
  intros Hnow. unfold start_date. destruct inp as [|c inp]; [reflexivity|].
  rewrite (try_formats_is_first _ now formats Hnow formats_without_year).
  destruct (first_that_parses _ _ _); reflexivity.
Qed.

Ltac example now Hnow :=
  rewrite (start_date_is_first _ now Hnow); vm_compute; reflexivity.

(** C9.  What the start-date prompt does.  It tries the seven formats in the
    order of the source and takes the first that parses, with the year of the
    clock for the one format that has no year; text that none of them parses,
    and no text, give the date of the clock; the date is then snapped to the
    Monday of its week by get_monday.  Where the code departs from the claim:
    "Feb 29" gives the date of the clock in every year, leap years included,
    although Feb 29 of the clock's year is a date then.  strptime reads a text
    without year in the year 1900, which has no Feb 29, and raises before the
    year of the clock is put in. *)
Theorem start_date_prompt :
  forall (inp : text) (now : datetime),
    valid now = true ->
    formats = map str [ "%b %d, %Y"; "%b %d %Y"; "%b %d"; "%Y-%m-%d";
                        "%m/%d/%Y"; "%m/%d/%y"; "%m-%d-%Y" ]%string /\
    start_date inp now =
      match inp with
      | [] => now
      | _ :: _ => default now (first_that_parses formats (strip is_space inp) now)
      end /\
    (exists monday,
        start_week inp now = Returned monday /\
        get_monday (start_date inp now) = Returned monday /\
        weekday monday = 0 /\
        toordinal monday <= toordinal (start_date inp now) < toordinal monday + 7 /\
        tod monday = tod (start_date inp now)) /\
    start_date (str "Jul 1, 2024") now = {| year := 2024; month := 7; day := 1; tod := 0 |} /\
    start_date (str "Jul 2 2024") now = {| year := 2024; month := 7; day := 2; tod := 0 |} /\
    start_date (str "Jul 3") now = {| year := year now; month := 7; day := 3; tod := 0 |} /\
    start_date (str "2024-07-04") now = {| year := 2024; month := 7; day := 4; tod := 0 |} /\
    start_date (str "07/05/2024") now = {| year := 2024; month := 7; day := 5; tod := 0 |} /\
    start_date (str "07/06/24") now = {| year := 2024; month := 7; day := 6; tod := 0 |} /\
    start_date (str "07-07-2024") now = {| year := 2024; month := 7; day := 7; tod := 0 |} /\
    start_date (str "1 July 2024") now = now /\
    start_date (str "Feb 29") now = now /\
    (is_leap (year now) = true ->
     make (year now) 2 29 0 =
       Returned {| year := year now; month := 2; day := 29; tod := 0 |}) /\
    start_date [] now = now.
Proof.
  intros inp now Hnow.
  split; [reflexivity|]. split; [apply start_date_is_first; exact Hnow|]. split.
  - destruct (get_monday_correct _ (start_date_valid inp now Hnow))
      as (monday & Hget & Hwd & Hto & Htod & _).
    pose proof (weekday_range (start_date inp now)) as Hrange.
    exists monday. repeat split; try assumption; lia.
  - repeat split; try (example now Hnow).
    intros Hleap. pose proof (valid_date_of_valid now Hnow) as Hv.
    unfold make, valid_date, days_in_month in *. rewrite Hleap.
    repeat (apply andb_true_iff in Hv as [Hv ?]).
    rewrite Hv. replace (year now <=? MAXYEAR) with true by (symmetry; assumption).
    reflexivity.
Qed.

End StartDate.

Lemma start_date_prompt_witness :
  Calendar.valid Sample.a_clock = true /\
  @Forward.start_week Unicode.latin1_only (Text.str "Jul 3, 2024") Sample.a_clock =
    Py.Returned {| Calendar.year := 2024; Calendar.month := 7; Calendar.day := 1;
                   Calendar.tod := 0 |} /\
  @Forward.start_date Unicode.latin1_only (Text.str "Jul 3") Sample.a_clock =
    {| Calendar.year := 2026; Calendar.month := 7; Calendar.day := 3; Calendar.tod := 0 |} /\
  Calendar.valid {| Calendar.year := 2028; Calendar.month := 2; Calendar.day := 10;
                    Calendar.tod := 0 |} = true /\
  @Forward.start_date Unicode.latin1_only (Text.str "Feb 29")
    {| Calendar.year := 2028; Calendar.month := 2; Calendar.day := 10; Calendar.tod := 0 |} =
    {| Calendar.year := 2028; Calendar.month := 2; Calendar.day := 10; Calendar.tod := 0 |} /\
  Calendar.make 2028 2 29 0 =
    Py.Returned {| Calendar.year := 2028; Calendar.month := 2; Calendar.day := 29;
                   Calendar.tod := 0 |}.
Proof.
  split; [reflexivity|]. split; [vm_compute; reflexivity|].
  pose proof (@start_date_prompt Unicode.latin1_only (Text.str "Jul 3") Sample.a_clock
                eq_refl) as (_ & _ & _ & _ & _ & H & _).
  split; [exact H|]. split; [reflexivity|].
  pose proof (@start_date_prompt Unicode.latin1_only (Text.str "Feb 29")
                {| Calendar.year := 2028; Calendar.month := 2; Calendar.day := 10;
                   Calendar.tod := 0 |} eq_refl)
    as (_ & _ & _ & _ & _ & _ & _ & _ & _ & _ & _ & Hfeb & Hleap & _).
  split; [exact Hfeb | exact (Hleap eq_refl)].
Defined.

(** ** The extraction script *)

Section Extraction.
Import Text Regex Py Trip Extract Spec.

Lemma js_match_none (r : regex) (s : text) : matches r s = false -> js_match r s = None.
Proof. unfold matches, js_match. destruct (search r s); [discriminate | reflexivity]. Qed.

Lemma group_or_none (dflt : text) (i : nat) (r : regex) (s : text) :
  matches r s = false -> group_or dflt i (js_match r s) = dflt.
Proof. intros H. rewrite (js_match_none r s H). reflexivity. Qed.

(** A pattern without anchors that the trimmed text has, the text has. *)
Lemma matches_of_trimmed (r : regex) (s : text) :
  anchor_free r = true -> matches r s = false -> matches r (trim s) = false.
Proof.
  intros Hfree. unfold matches, search, trim.
  destruct (strip_inside js_space s) as (before & after & Hs).
  pose proof (search_from_extends r Hfree before (strip js_space s) after true true) as H.
  rewrite <- Hs in H.
  destruct (search_from r true (strip js_space s)); [|reflexivity].
  destruct (search_from r true s); [discriminate|].
  exfalso. apply H; [discriminate | reflexivity].
Qed.

Lemma find_some_forall {A : Type} (f : A -> bool) (Q : A -> Prop) (l : list A) (x : A) :
  find f l = Some x -> Forall Q l -> f x = true /\ Q x.
Proof.
  induction l as [|y l IH]; cbn [find]; [discriminate|].
  intros Hfind Hall. inversion Hall as [|? ? Hy Hl]; subst.
  destruct (f y) eqn:Hfy.
  - inversion Hfind; subst. split; assumption.
  - apply IH; assumption.
Qed.

Lemma find_no_leaf (P : text -> bool) (l : list element) :
  Forall (fun el => is_leaf el = true -> P (textContent el) = false) l ->
  find (fun el => P (textContent el) && is_leaf el) l = None.
Proof.
  induction 1 as [|el l Hel _ IH]; cbn [find]; [reflexivity|].
  destruct (is_leaf el); [rewrite (Hel eq_refl)|rewrite andb_false_r]; exact IH.
Qed.

Lemma filter_no_leaf (P : text -> bool) (l : list element) :
  Forall (fun el => is_leaf el = true -> P (textContent el) = false) l ->
  filter (fun el => P (textContent el) && is_leaf el) l = [].
Proof.
  induction 1 as [|el l Hel _ IH]; [reflexivity|].
  rewrite filter_cons. destruct (decide _) as [Hyes|_]; [|exact IH].
  exfalso. apply Is_true_true in Hyes. apply andb_true_iff in Hyes as [HP Hleaf].
  rewrite (Hel Hleaf) in HP. discriminate.
Qed.

(** The text of a points element starts with a digit, so the number pattern
    finds its first group there. *)
Lemma points_number (txt : text) :
  matches points_re txt = true ->
  exists c g, js_match number_re txt = Some c /\ group 1 c = Some g.
Proof.
  unfold matches. change points_re with (Cat Bol (seq (tail
    [ Bol; plus d; star ws; lit (str "point"); opt (chr 115); star ws;
      lit (str "earned"); Eol ]))).
  rewrite search_bol. intros H.
  assert (Hd : exists x s, txt = x :: s /\ ascii_digit x = true).
  { destruct txt as [|x s]; [discriminate H|].
    exists x, s. split; [reflexivity|].
    cbn in H. destruct (ascii_digit x); [reflexivity | discriminate H]. }
  destruct Hd as (x & s & -> & Hx).
  destruct (class_prefix ascii_digit s) as (ds & rest & -> & Hds & Hrest).
  exists [(1%nat, x :: ds)], (x :: ds). split; [|reflexivity].
  unfold js_match, search. cbn [search_from].
  change (match_here number_re true (x :: ds ++ rest))
    with (run (Grp 1 (plus (One ascii_digit))) accept true ((x :: ds) ++ rest) []).
  rewrite (run_group_of_class 1 ascii_digit accept x ds rest true []
             (rest, [(1%nat, x :: ds)])); [reflexivity | | exact Hrest | reflexivity].
  constructor; assumption.
Qed.

(** A line item changes only the fields whose words it shows. *)
Lemma fold_item_keeps (field : items -> text) (words : text -> bool) :
  (forall v txt, words txt = false -> field (item v txt) = field v) ->
  forall l v, Forall (fun t => words t = false) l -> field (fold_left item l v) = field v.
Proof.
  intros Hitem. induction l as [|txt l IH]; intros v Hl; [reflexivity|].
  inversion Hl as [|? ? Htxt Hl']; subst. cbn [fold_left].
  rewrite (IH _ Hl'). apply Hitem. exact Htxt.
Qed.

Ltac keeps :=
  let v := fresh "v" in let txt := fresh "txt" in let H := fresh "H" in
  intros v txt H; unfold item; cbn - [has matches js_match]; rewrite ?H; reflexivity.

Lemma fare_head_has_fare (txt : text) :
  has "Fare" txt = false -> matches fare_head_re txt = false.
Proof.
  intros H.
  assert (Hs : starts_with (str "Fare") txt = false).
  { unfold has in H. destruct txt; cbn [includes] in H;
      apply orb_false_iff in H; tauto. }
  clear H. unfold matches.
  change fare_head_re with (Cat Bol (seq [lit (str "Fare"); star ws; chr 36])).
  rewrite search_bol. revert Hs.
  destruct txt as [|a [|b [|c [|e rest]]]]; cbn;
    repeat match goal with
           | |- context [char_eqb ?x ?y] => destruct (char_eqb x y)
           end;
    cbn; try (intros _; reflexivity); intros Hs; discriminate Hs.
Qed.

Ltac item_field field words Hno :=
  rewrite (fold_item_keeps field words ltac:(keeps) _ _ Hno).

Lemma fare_keeps (v : items) (txt : text) :
  has "Fare" txt = false -> i_fare (item v txt) = i_fare v.
Proof.
  intros H. unfold item. cbn [i_fare].
  rewrite (fare_head_has_fare txt H), H. reflexivity.
Qed.

(** C8.  extract_trip_data returns a record for every page.  Where no
    childless element carries the duration pattern, durationMin is '0'; where
    none carries the points pattern, points is '0'; and so for every other
    field: when the page does not show what the field is read from, the field
    is left empty (the texts) or '0' (the amounts). *)
Theorem extraction_leaves_defaults :
  forall (minutes_to_fixed : text -> text -> text) (doc : document),
  exists t : trip,
    extract_trip_data minutes_to_fixed doc = Returned t /\
    (no_leaf (matches duration_re) doc -> durationMin t = zero) /\
    (no_leaf (matches points_re) doc -> points t = zero) /\
    (matches header_re (default [] (header_span doc)) = false ->
     rideType t = [] /\ date t = [] /\ time t = []) /\
    (no_leaf (matches distance_re) doc -> distance t = []) /\
    (no_leaf (has ", US") doc -> pickup t = [] /\ dropoff t = [] /\ city t = []) /\
    (matches (per_re (str "mile")) (innerText doc) = false -> perMile t = zero) /\
    (matches (per_re (str "min")) (innerText doc) = false -> perMin t = zero) /\
    (matches (fee_re (lit (str "Region or City Fee"))) (innerText doc) = false ->
     regionFee t = zero) /\
    (matches (fee_re (lit (str "Airport Fee"))) (innerText doc) = false ->
     airportFee t = zero) /\
    (matches (fee_re (lit_i (str "insurance and operational"))) (innerText doc) = false ->
     insuranceFee t = zero) /\
    (matches (charge_re (str "Uber Service Fee")) (innerText doc) = false ->
     uberFee t = zero) /\
    (matches (charge_re (str "Total customer fare")) (innerText doc) = false ->
     customerFare t = zero) /\
    (no_item (has "Base") doc -> base t = zero) /\
    (no_item (has "Distance") doc -> distancePay t = zero) /\
    (no_item (has "Time") doc -> timePay t = zero) /\
    (no_item (has "Surge") doc -> surge t = zero) /\
    (no_item (has "Promotion") doc -> promotion t = zero) /\
    (no_item (has "Minimum Fare") doc -> minFare t = zero) /\
    (no_item (has "Wait Time") doc -> waitTime t = zero) /\
    (no_item (has "Fare") doc -> fare t = zero) /\
    (no_item (has "Your earnings") doc -> has "$" (default [] (heading doc)) = false ->
     totalEarnings t = zero) /\
    (no_item (has "Tip") doc -> matches tip_included_re (innerText doc) = false ->
     tip t = zero).
Proof.
  intros minutes_to_fixed doc. unfold extract_trip_data. cbv zeta.
  assert (Hp : exists g,
             match find (fun el => matches points_re (textContent el) && is_leaf el)
                        (all doc) with
             | Some el =>
                 match js_match number_re (textContent el) with
                 | Some c => match group 1 c with
                             | Some g => Returned g
                             | None => Raised ScriptError
                             end
                 | None => Raised ScriptError
                 end
             | None => Returned zero
             end = Returned g /\
             (no_leaf (matches points_re) doc -> g = zero)).
  { destruct (find _ (all doc)) as [el|] eqn:Hfind.
    - pose proof Hfind as Hel. apply find_some in Hel as [_ Hel].
      apply andb_true_iff in Hel as [Hm _].
      destruct (points_number _ Hm) as (c & g & -> & ->).
      exists g. split; [reflexivity|]. intros Hno.
      rewrite (find_no_leaf _ _ Hno) in Hfind. discriminate Hfind.
    - exists zero. split; reflexivity. }
  destruct Hp as (g & -> & Hg). cbn [bind].
  eexists. split; [reflexivity|].
  cbn [durationMin points rideType date time distance pickup dropoff city perMile perMin
       regionFee airportFee insuranceFee uberFee customerFare base distancePay timePay
       surge promotion minFare waitTime fare totalEarnings tip].
  split.
  { intros Hno.
    destruct (find _ (all doc)) as [el|] eqn:Hd; [|reflexivity].
    destruct (find_some_forall _ _ _ _ Hd Hno) as [Hf Hq].
    apply andb_true_iff in Hf as [_ Hleaf].
    rewrite (js_match_none _ _ (matches_of_trimmed duration_re _ eq_refl (Hq Hleaf))).
    reflexivity. }
  split; [exact Hg|].
  split.
  { intros H. rewrite (js_match_none _ _ H). repeat split; reflexivity. }
  split.
  { intros Hno. rewrite (find_no_leaf _ _ Hno). reflexivity. }
  split.
  { intros Hno. rewrite (filter_no_leaf _ _ Hno). repeat split; reflexivity. }
  do 7 (split; [intros H; apply group_or_none; exact H|]).
  split; [intros Hno; item_field i_base (has "Base") Hno; reflexivity|].
  split; [intros Hno; item_field i_distancePay (has "Distance") Hno; reflexivity|].
  split; [intros Hno; item_field i_timePay (has "Time") Hno; reflexivity|].
  split; [intros Hno; item_field i_surge (has "Surge") Hno; reflexivity|].
  split; [intros Hno; item_field i_promotion (has "Promotion") Hno; reflexivity|].
  split; [intros Hno; item_field i_minFare (has "Minimum Fare") Hno; reflexivity|].
  split; [intros Hno; item_field i_waitTime (has "Wait Time") Hno; reflexivity|].
  split.
  { intros Hno. rewrite (fold_item_keeps i_fare (has "Fare") fare_keeps _ _ Hno).
    reflexivity. }
  split.
  { intros Hno Hh. item_field i_totalEarnings (has "Your earnings") Hno.
    destruct (heading doc) as [h|]; [|reflexivity].
    cbn [default id] in Hh. rewrite Hh. reflexivity. }
  intros Hno Hm. item_field i_tip (has "Tip") Hno.
  rewrite (js_match_none _ _ Hm). reflexivity.
Qed.

End Extraction.

Lemma extraction_leaves_defaults_witness :
  exists t,
    Extract.extract_trip_data Sample.fixed Sample.a_bare_page = Py.Returned t /\
    Trip.durationMin t = Extract.zero /\ Trip.points t = Extract.zero /\
    Trip.rideType t = Text.str "UberX" /\ Trip.city t = Text.str "Portland" /\
    Trip.base t = Text.str "2.00".
Proof.
  destruct (extraction_leaves_defaults Sample.fixed Sample.a_bare_page)
    as (t & Ht & Hduration & Hpoints & _).
  exists t. split; [exact Ht|].
  split; [apply Hduration; repeat constructor; try discriminate; reflexivity|].
  split; [apply Hpoints; repeat constructor; try discriminate; reflexivity|].
  vm_compute in Ht. inversion Ht. repeat split; reflexivity.
Defined.


(* ===================================================================== *)
(** * Part III: further properties of the code                            *)
(* ===================================================================== *)

(** ** The trip identifier of a link *)

Section TripId.
Import Text Scraper.

Lemma first_segment_keeps (P : char -> Prop) (sep : char) (s : text) :
  Forall P s -> Forall P (first_segment sep s).
Proof.
  induction 1 as [|x s Hx _ IH]; cbn [first_segment]; [constructor|].
  destruct (char_eqb sep x); constructor; assumption.
Qed.

Lemma first_segment_free (sep : char) (s : text) :
  Forall (fun c => c <> sep) (first_segment sep s).
Proof.
  induction s as [|x s IH]; cbn [first_segment]; [constructor|].
  destruct (char_eqb sep x) eqn:Hx; constructor; [|exact IH].
  unfold char_eqb in Hx. apply N.eqb_neq in Hx. congruence.
Qed.

Lemma existsb_free (sep : char) (s : text) :
  existsb (char_eqb sep) s = false <-> Forall (fun c => c <> sep) s.
Proof.
  induction s as [|x s IH]; cbn [existsb].
  - split; [constructor | reflexivity].
  - rewrite orb_false_iff, IH. unfold char_eqb. rewrite N.eqb_neq. split.
    + intros [Hx Hs]. constructor; [congruence | exact Hs].
    + intros H. inversion H; subst. split; [congruence | assumption].
Qed.

Lemma last_segment_free (sep : char) (s : text) :
  Forall (fun c => c <> sep) (last_segment sep s).
Proof.
  induction s as [|x s IH]; cbn [last_segment]; [constructor|].
  destruct (existsb (char_eqb sep) (x :: s)) eqn:Hx; [exact IH|].
  apply existsb_free. exact Hx.
Qed.

Lemma last_segment_plain (sep : char) (s : text) :
  Forall (fun c => c <> sep) s -> last_segment sep s = s.
Proof.
  intros H. apply existsb_free in H. destruct s as [|x s]; [reflexivity|].
  cbn [last_segment]. rewrite H. reflexivity.
Qed.

Lemma last_segment_after (sep : char) (base tail : text) :
  Forall (fun c => c <> sep) tail ->
  last_segment sep (base ++ sep :: tail) = tail.
Proof.
  intros Htail. induction base as [|x base IH].
  - cbn [app last_segment existsb]. unfold char_eqb at 1. rewrite N.eqb_refl.
    cbn [orb]. apply last_segment_plain. exact Htail.
  - cbn [app last_segment].
    replace (existsb (char_eqb sep) (x :: base ++ sep :: tail)) with true; [exact IH|].
    symmetry. cbn [existsb]. rewrite existsb_app. cbn [existsb].
    unfold char_eqb at 3. rewrite N.eqb_refl, !orb_true_r. reflexivity.
Qed.

Lemma first_segment_plain (sep : char) (s : text) :
  Forall (fun c => c <> sep) s -> first_segment sep s = s.
Proof.
  induction 1 as [|x s Hx _ IH]; [reflexivity|]. cbn [first_segment].
  replace (char_eqb sep x) with false
    by (symmetry; apply N.eqb_neq; congruence).
  rewrite IH. reflexivity.
Qed.

Lemma first_segment_before (sep : char) (s rest : text) :
  Forall (fun c => c <> sep) s -> first_segment sep (s ++ sep :: rest) = s.
Proof.
  induction 1 as [|x s Hx _ IH]; cbn [app first_segment].
  - unfold char_eqb. rewrite N.eqb_refl. reflexivity.
  - replace (char_eqb sep x) with false
      by (symmetry; apply N.eqb_neq; congruence).
    rewrite IH. reflexivity.
Qed.

(** X1.  The identifier scrape_trip_details takes from a trip link is what
    follows the last slash, up to the first question mark there: it holds
    neither character, it is the last path segment of a link with or without a
    query, and a slash inside the query moves it into the query. *)
Theorem trip_id_is_the_last_segment :
  (forall link : text, Forall (fun c => c <> 47 /\ c <> 63) (trip_id_of link)) /\
  (forall base tail : text,
      Forall (fun c => c <> 47) tail ->
      trip_id_of (base ++ [47] ++ tail) = first_segment 63 tail) /\
  (forall base id : text,
      Forall (fun c => c <> 47 /\ c <> 63) id ->
      trip_id_of (base ++ [47] ++ id) = id) /\
  (forall base id query : text,
      Forall (fun c => c <> 47 /\ c <> 63) id ->
      Forall (fun c => c <> 47) query ->
      trip_id_of (base ++ [47] ++ id ++ [63] ++ query) = id) /\
  (forall base id query after : text,
      Forall (fun c => c <> 47 /\ c <> 63) after ->
      trip_id_of (base ++ [47] ++ id ++ [63] ++ query ++ [47] ++ after) = after).
Proof.
  assert (Hslash : forall s : text,
             Forall (fun c => c <> 47 /\ c <> 63) s -> Forall (fun c => c <> 47) s).
  { intros s H. eapply Forall_impl; [exact H|]. intros c [Hc _]. exact Hc. }
  assert (Hmark : forall s : text,
             Forall (fun c => c <> 47 /\ c <> 63) s -> Forall (fun c => c <> 63) s).
  { intros s H. eapply Forall_impl; [exact H|]. intros c [_ Hc]. exact Hc. }
  assert (Htail : forall base tail : text,
             Forall (fun c => c <> 47) tail ->
             trip_id_of (base ++ [47] ++ tail) = first_segment 63 tail).
  { intros base tail H. unfold trip_id_of. cbn [app].
    rewrite (last_segment_after 47 base tail H). reflexivity. }
  split; [|split; [exact Htail|split; [|split]]].
  - intros link. unfold trip_id_of.
    pose proof (first_segment_keeps _ 63 _ (last_segment_free 47 link)) as H47.
    pose proof (first_segment_free 63 (last_segment 47 link)) as H63.
    revert H47 H63. generalize (first_segment 63 (last_segment 47 link)).
    induction l as [|x l IH]; intros H47 H63; [constructor|].
    inversion H47; inversion H63; subst. constructor; [split; assumption|].
    apply IH; assumption.
  - intros base id Hid. rewrite (Htail base id (Hslash id Hid)).
    apply first_segment_plain, Hmark, Hid.
  - intros base id query Hid Hq.
    rewrite (Htail base (id ++ [63] ++ query)).
    + apply first_segment_before, Hmark, Hid.
    + apply Forall_app. split; [apply Hslash, Hid|].
      constructor; [discriminate | exact Hq].
  - intros base id query after Hafter.
    replace (base ++ [47] ++ id ++ [63] ++ query ++ [47] ++ after)
      with ((base ++ [47] ++ id ++ [63] ++ query) ++ [47] ++ after)
      by (rewrite <- !app_assoc; reflexivity).
    rewrite (Htail _ after (Hslash after Hafter)).
    apply first_segment_plain, Hmark, Hafter.
Qed.

End TripId.

(** ** The checkpoint file *)

Section Ledger.
Import Text Unicode Py FareParser Scraper Spec Rows Shape.
Context {U : beyond_latin1}.
Variable float_of_text : text -> option float.
Variable browse : text -> outcome page.

Lemma lstrip_bare (sp : char -> bool) (s : text) : bare_head sp (lstrip sp s).
Proof.
  induction s as [|x s IH]; cbn [lstrip]; [exact I|].
  destruct (sp x) eqn:Hx; [exact IH | exact Hx].
Qed.

Lemma lstrip_of_bare (sp : char -> bool) (s : text) : bare_head sp s -> lstrip sp s = s.
Proof. destruct s as [|x s]; [reflexivity|]. cbn. intros ->. reflexivity. Qed.

Lemma lstrip_suffix (sp : char -> bool) (s : text) : exists before, s = before ++ lstrip sp s.
Proof.
  induction s as [|x s [before IH]]; [exists []; reflexivity|].
  cbn [lstrip]. destruct (sp x).
  - exists (x :: before). cbn [app]. congruence.
  - exists []. reflexivity.
Qed.

(** Stripping twice is stripping once. *)
Lemma strip_strip (sp : char -> bool) (s : text) : strip sp (strip sp s) = strip sp s.
Proof.
  unfold strip. set (t := lstrip sp s).
  assert (Ht : bare_head sp t) by apply lstrip_bare.
  set (u := lstrip sp (rev t)).
  assert (Hu : bare_head sp u) by apply lstrip_bare.
  destruct (lstrip_suffix sp (rev t)) as [before Hbefore]. fold u in Hbefore.
  assert (Hr : bare_head sp (rev u)).
  { assert (Hsplit : t = rev u ++ rev before).
    { rewrite <- rev_app_distr, <- Hbefore, rev_involutive. reflexivity. }
    destruct (rev u) as [|y r]; [exact I|].
    rewrite Hsplit in Ht. exact Ht. }
  rewrite (lstrip_of_bare sp (rev u) Hr), rev_involutive, (lstrip_of_bare sp u Hu).
  reflexivity.
Qed.

Lemma strip_keeps (P : char -> Prop) (sp : char -> bool) (s : text) :
  Forall P s -> Forall P (strip sp s).
Proof.
  intros H. destruct (strip_inside sp s) as (before & after & Hs).
  rewrite Hs in H. apply Forall_app in H as [_ H]. apply Forall_app in H as [H _].
  exact H.
Qed.

Lemma universal_newlines_no_cr (s : text) :
  forall f, Forall (fun c => c <> 13) (universal_newlines f s).
Proof.
  induction s as [|x s IH]; intros f; cbn [universal_newlines]; [constructor|].
  destruct (x =? 13) eqn:Hx.
  - constructor; [discriminate | apply IH].
  - destruct ((x =? 10) && f); [apply IH|].
    constructor; [apply N.eqb_neq; exact Hx | apply IH].
Qed.

Lemma lines_from_plain (s : text) :
  forall cur,
    Forall (fun c => c <> 10 /\ c <> 13) cur ->
    Forall (fun c => c <> 13) s ->
    Forall (Forall (fun c => c <> 10 /\ c <> 13)) (lines_from cur s).
Proof.
  induction s as [|x s IH]; intros cur Hcur Hs; cbn [lines_from].
  - destruct cur; [constructor|]. constructor; [|constructor].
    apply Forall_rev. exact Hcur.
  - inversion Hs as [|? ? Hx Hs']; subst. destruct (x =? 10) eqn:Hnl.
    + constructor; [apply Forall_rev; exact Hcur|]. apply IH; [constructor | exact Hs'].
    + apply IH; [|exact Hs']. constructor; [|exact Hcur].
      split; [apply N.eqb_neq; exact Hnl | exact Hx].
Qed.

Lemma lines_plain (content : text) :
  Forall (Forall (fun c => c <> 10 /\ c <> 13)) (lines content).
Proof.
  unfold lines. apply lines_from_plain; [constructor | apply universal_newlines_no_cr].
Qed.

(** What the loop of fetch_visited adds to the set, line by line. *)
Lemma fetch_fold_members (ls : list text) :
  forall (visited : gset text) (x : text),
    x ∈ fold_left
          (fun (visited : gset text) line =>
             match strip is_space line with
             | [] => visited
             | _ :: _ => visited ∪ {[ strip is_space line ]}
             end) ls visited ->
    x ∈ visited \/ (x <> [] /\ exists line, In line ls /\ x = strip is_space line).
Proof.
  induction ls as [|line ls IH]; intros visited x Hx; cbn [fold_left] in Hx.
  - left. exact Hx.
  - apply IH in Hx as [Hx | (Hne & l & Hl & ->)].
    + destruct (strip is_space line) as [|c id] eqn:Hid; [left; exact Hx|].
      apply elem_of_union in Hx as [Hx | Hx]; [left; exact Hx|].
      apply elem_of_singleton in Hx. right. split; [congruence|].
      exists line. split; [left; reflexivity | congruence].
    + right. split; [exact Hne|]. exists l. split; [right; exact Hl | reflexivity].
Qed.

(** X2.  Every identifier fetch_visited loads is a line of the file with the
    white space at its ends removed: it is not empty, has no white space at
    either end and holds no line break. *)
Theorem fetch_visited_loads_plain_identifiers :
  forall (fs : files) (x : text), x ∈ fetch_visited fs -> plain_id x.
Proof.
  intros fs x Hx. unfold fetch_visited in Hx.
  destruct (visited_jsonl fs) as [content|]; [|set_solver].
  apply fetch_fold_members in Hx as [Hx | (Hne & line & Hline & ->)]; [set_solver|].
  split; [exact Hne|]. split; [apply strip_strip|].
  apply strip_keeps.
  pose proof (lines_plain content) as Hall.
  rewrite List.Forall_forall in Hall. apply Hall. exact Hline.
Qed.

(** X3.  What marking does to the set fetch_visited loads.  On a file that is
    absent, empty or ends with a newline, marking an identifier without line
    breaks adds that identifier with the white space at its ends removed, and
    nothing when only white space is left; every earlier member stays.  On a
    file that holds whole lines and after them a last line without newline,
    the identifier is glued to that line: the glued line is what is loaded for
    the two. *)
Theorem marking_adds_the_stripped_identifier :
  (forall (x : text) (fs : files),
      Forall (fun c => c <> 10 /\ c <> 13) x -> whole_lines fs ->
      fetch_visited (append_visited x fs) =
        fetch_visited fs ∪
        match strip is_space x with
        | [] => ∅
        | _ :: _ => {[ strip is_space x ]}
        end) /\
  (forall (before last x : text) (csv : option (list (list cell))),
      Forall (fun c => c <> 10 /\ c <> 13) last ->
      Forall (fun c => c <> 10 /\ c <> 13) x ->
      fetch_visited
        (append_visited x {| visited_jsonl := Some ((before ++ [10]) ++ last);
                             uber_trips_csv := csv |}) =
        fetch_visited {| visited_jsonl := Some (before ++ [10]); uber_trips_csv := csv |} ∪
        match strip is_space (last ++ x) with
        | [] => ∅
        | _ :: _ => {[ strip is_space (last ++ x) ]}
        end).
Proof.
  assert (Hstep : forall (content x : text),
             content = [] \/ (exists before, content = before ++ [10]) ->
             Forall (fun c => c <> 10 /\ c <> 13) x ->
             fold_left
               (fun (visited : gset text) line =>
                  match strip is_space line with
                  | [] => visited
                  | _ :: _ => visited ∪ {[ strip is_space line ]}
                  end) (lines (content ++ x ++ [10])) ∅ =
             fold_left
               (fun (visited : gset text) line =>
                  match strip is_space line with
                  | [] => visited
                  | _ :: _ => visited ∪ {[ strip is_space line ]}
                  end) (lines content) ∅ ∪
             match strip is_space x with
             | [] => ∅
             | _ :: _ => {[ strip is_space x ]}
             end).
  { intros content x Hc Hx.
    rewrite (lines_after_append content x Hc Hx), fold_left_app. cbn [fold_left].
    destruct (strip is_space x); [rewrite (right_id_L ∅ (∪))|]; reflexivity. }
  split.
  - intros x fs Hx Hfs. unfold fetch_visited, append_visited, whole_lines in *.
    cbn [visited_jsonl].
    destruct (visited_jsonl fs) as [content|]; cbn [default id].
    + apply Hstep; assumption.
    + rewrite (Hstep [] x (or_introl eq_refl) Hx). reflexivity.
  - intros before last x csv Hlast Hx. unfold fetch_visited, append_visited.
    cbn [visited_jsonl default id].
    rewrite <- (app_assoc (before ++ [10]) last (x ++ [10])), (app_assoc last x [10]).
    apply Hstep; [right; exists before; reflexivity | apply Forall_app; split; assumption].
Qed.

(** What a call leaves behind, by the answers of the environment. *)
Lemma failing_call_cases (trip_link : text) (w : Failing.answers) (visited : gset text)
    (fs : files) :
  let result := Failing.scrape_trip_details float_of_text browse trip_link w visited fs in
  snd (fst result) = visited /\
  ((snd result = fs /\
    (fst (fst result) = Returned tt -> trip_id_of trip_link ∈ visited)) \/
   (exists row,
       scraped float_of_text browse trip_link = Returned row /\
       Failing.open_visited w = Returned tt /\
       snd result = append_visited (trip_id_of trip_link) (append_trip_row row fs) /\
       fst (fst result) = Failing.finally (Failing.printed w) (Failing.closed w)) \/
   (exists row e,
       scraped float_of_text browse trip_link = Returned row /\
       Failing.open_visited w = Raised e /\
       snd result = append_trip_row row fs /\
       fst (fst result) <> Returned tt)).
Proof.
  unfold Failing.scrape_trip_details, Failing.tried.
  destruct (bool_decide (trip_id_of trip_link ∈ visited)) eqn:Hin.
  { cbn [fst snd]. split; [reflexivity|]. left. split; [reflexivity|].
    intros _. apply bool_decide_eq_true_1 in Hin. exact Hin. }
  destruct (Failing.new_page w) as [[]|e0].
  2:{ cbn [fst snd]. split; [reflexivity|]. left. split; [reflexivity | discriminate]. }
  destruct (scraped float_of_text browse trip_link) as [row|e1].
  2:{ cbn [fst snd]. split; [reflexivity|]. left. split; [reflexivity|].
      unfold Failing.finally. destruct (Failing.closed w); discriminate. }
  destruct (Failing.open_csv w) as [[]|e2].
  2:{ cbn [fst snd]. split; [reflexivity|]. left. split; [reflexivity|].
      unfold Failing.finally. destruct (Failing.closed w); discriminate. }
  destruct (Failing.open_visited w) as [[]|e3]; cbn [fst snd]; (split; [reflexivity|]).
  - right. left. exists row. repeat split.
  - right. right. exists row, e3. repeat split.
    unfold Failing.finally. destruct (Failing.closed w); discriminate.
Qed.

Lemma row_and_its_mark (trip_link : text) (row : list cell) (fs : files) :
  scraped float_of_text browse trip_link = Returned row ->
  ride_id row = trip_id_of trip_link /\
  records (append_visited (trip_id_of trip_link) (append_trip_row row fs)) =
    records fs ++ [row] /\
  checkpoint (append_visited (trip_id_of trip_link) (append_trip_row row fs)) =
    checkpoint fs ++ checkpoint_line row /\
  records (append_trip_row row fs) = records fs ++ [row] /\
  checkpoint (append_trip_row row fs) = checkpoint fs.
Proof.
  intros Hrow.
  pose proof (scraped_row_id float_of_text browse trip_link row Hrow) as Hid.
  destruct row as [|[id| |] row]; try discriminate Hid.
  cbn [head] in Hid. inversion Hid; subst. repeat split.
Qed.

Lemma rows_and_marks_of_a_call (trip_link : text) (w : Failing.answers) (visited : gset text)
    (fs : files) :
  Failing.open_visited w = Returned tt ->
  snd (fst (Failing.scrape_trip_details float_of_text browse trip_link w visited fs)) =
    visited /\
  exists new,
    records (snd (Failing.scrape_trip_details float_of_text browse trip_link w visited fs)) =
      records fs ++ new /\
    checkpoint (snd (Failing.scrape_trip_details float_of_text browse trip_link w visited fs)) =
      checkpoint fs ++ concat (map checkpoint_line new).
Proof.
  intros Hopen.
  destruct (failing_call_cases trip_link w visited fs)
    as [Hset [[Hfs _] | [(row & Hrow & _ & Hfs & _) | (row & e & _ & Hraise & _)]]];
    [| |congruence]; (split; [exact Hset|]).
  - exists []. rewrite Hfs. cbn [map concat]. rewrite !app_nil_r. split; reflexivity.
  - exists [row]. rewrite Hfs. cbn [map concat]. rewrite app_nil_r.
    destruct (row_and_its_mark trip_link row fs Hrow) as (_ & Hr & Hc & _).
    split; assumption.
Qed.

Lemma rows_and_marks_of_links (links : list (text * Failing.answers)) (visited : gset text) :
  Forall (fun lw => Failing.open_visited (snd lw) = Returned tt) links ->
  forall fs : files,
    fst (Failing.scrape_links float_of_text browse links visited fs) = visited /\
    exists new,
      records (snd (Failing.scrape_links float_of_text browse links visited fs)) =
        records fs ++ new /\
      checkpoint (snd (Failing.scrape_links float_of_text browse links visited fs)) =
        checkpoint fs ++ concat (map checkpoint_line new).
Proof.
  induction 1 as [|[link w] links Hw _ IH]; intros fs; cbn [Failing.scrape_links].
  - split; [reflexivity|]. exists []. cbn [snd map concat]. rewrite !app_nil_r.
    split; reflexivity.
  - cbn [snd] in Hw.
    destruct (rows_and_marks_of_a_call link w visited fs Hw) as (Hset & new1 & Hr1 & Hc1).
    destruct (Failing.scrape_trip_details float_of_text browse link w visited fs)
      as [[r v1] fs1].
    cbn [fst snd] in *. subst v1.
    destruct (IH fs1) as (Hv & new2 & Hr2 & Hc2).
    split; [exact Hv|]. exists (new1 ++ new2).
    rewrite Hr2, Hr1, Hc2, Hc1, map_app, concat_app, !app_assoc. split; reflexivity.
Qed.

(** X4.  The CSV file and the checkpoint file move in step as long as the
    checkpoint file can be opened.  (1) A call of scrape_trip_details never
    changes the set in memory, and it leaves the two files in one of three
    states: as they were (the identifier is in the set, or the call raised
    before the row was written); with the row and its line appended (the call
    returned, or print or page.close raised afterwards); or with the row
    appended and no line (the checkpoint file could not be opened, and the
    call raised).  (2) A call in which only print or page.close fails raises
    with the row and the line written.  (3) Over a whole run in which the
    checkpoint file can be opened at every call, the checkpoint file gets
    exactly one line for every row the CSV file gets, in the same order, the
    line being the row's ride_id; nothing that either file held is changed.
    (4) In an environment where nothing but the page fails, the call is
    [Scraper.scrape_trip_details]. *)
Theorem rows_and_marks_move_in_step :
  (forall (trip_link : text) (w : Failing.answers) (visited : gset text) (fs : files),
      let result := Failing.scrape_trip_details float_of_text browse trip_link w visited fs in
      snd (fst result) = visited /\
      ((snd result = fs /\
        (fst (fst result) = Returned tt -> trip_id_of trip_link ∈ visited)) \/
       (exists row,
           ride_id row = trip_id_of trip_link /\
           records (snd result) = records fs ++ [row] /\
           checkpoint (snd result) = checkpoint fs ++ checkpoint_line row /\
           fst (fst result) = Failing.finally (Failing.printed w) (Failing.closed w)) \/
       (exists row e,
           ride_id row = trip_id_of trip_link /\
           Failing.open_visited w = Raised e /\
           records (snd result) = records fs ++ [row] /\
           checkpoint (snd result) = checkpoint fs /\
           fst (fst result) <> Returned tt))) /\
  (forall (trip_link : text) (w : Failing.answers) (visited : gset text) (fs : files)
          (row : list cell) (e : exn),
      trip_id_of trip_link ∉ visited ->
      scraped float_of_text browse trip_link = Returned row ->
      Failing.new_page w = Returned tt -> Failing.open_csv w = Returned tt ->
      Failing.open_visited w = Returned tt ->
      Failing.finally (Failing.printed w) (Failing.closed w) = Raised e ->
      Failing.scrape_trip_details float_of_text browse trip_link w visited fs =
        (Raised e, visited, append_visited (trip_id_of trip_link) (append_trip_row row fs))) /\
  (forall (weeks : list (list (text * Failing.answers))) (fs : files),
      Failing.marks_can_be_written weeks ->
      exists new,
        records (Failing.scrape_all_trips float_of_text browse weeks fs) =
          records (write_csv_header_if_needed fs) ++ new /\
        checkpoint (Failing.scrape_all_trips float_of_text browse weeks fs) =
          checkpoint fs ++ concat (map checkpoint_line new)) /\
  (forall (trip_link : text) (visited : gset text) (fs : files),
      Failing.scrape_trip_details float_of_text browse trip_link Failing.working visited fs =
        scrape_trip_details float_of_text browse trip_link visited fs).
Proof.
  split; [|split; [|split]].
  - intros trip_link w visited fs result.
    destruct (failing_call_cases trip_link w visited fs)
      as [Hset [Hfs | [(row & Hrow & _ & Hfs & Hres) | (row & e & Hrow & He & Hfs & Hres)]]];
      fold result in Hset |- *; (split; [exact Hset|]).
    + left. exact Hfs.
    + right. left. exists row. fold result in Hfs, Hres. rewrite Hfs.
      destruct (row_and_its_mark trip_link row fs Hrow) as (Hid & Hr & Hc & _).
      repeat split; assumption.
    + right. right. exists row, e. fold result in Hfs, Hres. rewrite Hfs.
      destruct (row_and_its_mark trip_link row fs Hrow) as (Hid & _ & _ & Hr & Hc).
      repeat split; assumption.
  - intros trip_link w visited fs row e Hout Hrow Hpage Hcsv Hmark Hlate.
    unfold Failing.scrape_trip_details, Failing.tried.
    rewrite (bool_decide_eq_false_2 _ Hout), Hpage, Hrow, Hcsv, Hmark, Hlate. reflexivity.
  - intros weeks fs Hweeks. unfold Failing.scrape_all_trips.
    assert (Hck : checkpoint (write_csv_header_if_needed fs) = checkpoint fs).
    { unfold checkpoint, write_csv_header_if_needed.
      destruct (uber_trips_csv fs); reflexivity. }
    rewrite <- Hck. clear Hck.
    generalize (write_csv_header_if_needed fs). generalize (fetch_visited fs).
    induction Hweeks as [|links weeks Hlinks _ IH]; intros visited fs1;
      cbn [Failing.scrape_weeks].
    + exists []. cbn [snd map concat]. rewrite !app_nil_r. split; reflexivity.
    + destruct (rows_and_marks_of_links links visited Hlinks fs1) as (Hv & new1 & Hr1 & Hc1).
      destruct (Failing.scrape_links float_of_text browse links visited fs1) as [v1 fs2].
      cbn [fst snd] in *. subst v1.
      destruct (IH visited fs2) as (new2 & Hr2 & Hc2).
      exists (new1 ++ new2).
      rewrite Hr2, Hr1, Hc2, Hc1, map_app, concat_app, !app_assoc. split; reflexivity.
  - intros trip_link visited fs.
    unfold Failing.scrape_trip_details, Failing.tried, scrape_trip_details.
    destruct (bool_decide (trip_id_of trip_link ∈ visited)); [reflexivity|].
    cbn [Failing.new_page Failing.working Failing.open_csv Failing.open_visited
         Failing.printed Failing.closed].
    destruct (scraped float_of_text browse trip_link); reflexivity.
Qed.


End Ledger.

Lemma fetch_visited_loads_plain_identifiers_witness :
  @Spec.plain_id Unicode.latin1_only (Text.str "abc-123").
Proof.
  apply (@fetch_visited_loads_plain_identifiers Unicode.latin1_only
           {| Scraper.visited_jsonl := Some (Text.str " abc-123 " ++ [13; 10]);
              Scraper.uber_trips_csv := None |}).
  vm_compute. set_solver.
Defined.

(** ** What the fare parser returns *)

Section ParsedFares.
Import Text Unicode Regex Py FareParser Spec.
Context {U : beyond_latin1}.

Lemma float_of_group_unsigned (g : option text) (q : float) :
  float_of_group g = Returned q -> unsigned q.
Proof.
  unfold float_of_group, float_of_numeral. destruct g as [s|]; [|discriminate].
  destruct (split_stop s) as [a b].
  destruct (digits_of a) as [ip|]; [|discriminate].
  destruct (digits_of (default [] b)) as [fp|]; [|discriminate].
  destruct ip, fp; try discriminate; intros H; inversion H; apply ratio_unsigned.
Qed.

(** The four shapes of a returned dict. *)
Lemma parse_fare_line_shapes (item_label txt : text) (d : gmap string float) :
  parse_fare_line item_label txt = Returned d ->
  exists (mile minute : option (float * float)),
    d = (match minute with
         | Some (m, r) => fun e => <["rate_per_minute"%string := r]> (<["minutes"%string := m]> e)
         | None => fun e => e
         end)
          (match mile with
           | Some (m, r) => <["rate_per_mile"%string := r]> (<["miles"%string := m]> ∅)
           | None => ∅
           end) /\
    (is_Some mile <-> is_Some (search mile_re txt)) /\
    (is_Some minute <-> is_Some (search minute_re txt)) /\
    (forall m r, mile = Some (m, r) \/ minute = Some (m, r) ->
                 unsigned m /\ unsigned r).
Proof.
  unfold parse_fare_line.
  assert (Hno : forall A (x : A), ~ is_Some (@None A) /\ is_Some (Some x)).
  { intros A x. split; [intros [y Hy]; discriminate | exists x; reflexivity]. }
  destruct (search mile_re txt) as [[rest1 c1]|].
  - destruct (float_of_group (group 1 c1)) as [m1|] eqn:Hm1; [|discriminate].
    destruct (float_of_group (group 2 c1)) as [r1|] eqn:Hr1; [|discriminate].
    cbn [bind].
    destruct (search minute_re txt) as [[rest2 c2]|].
    + destruct (float_of_group (group 1 c2)) as [m2|] eqn:Hm2; [|discriminate].
      destruct (float_of_group (group 2 c2)) as [r2|] eqn:Hr2; [|discriminate].
      cbn [bind]. intros H. inversion H; subst.
      exists (Some (m1, r1)), (Some (m2, r2)).
      split; [reflexivity|]. split; [split; intros _; apply Hno|].
      split; [split; intros _; apply Hno|].
      intros m r [Heq | Heq]; inversion Heq; subst;
        eauto using float_of_group_unsigned.
    + intros H. inversion H; subst. exists (Some (m1, r1)), None.
      split; [reflexivity|]. split; [split; intros _; apply Hno|].
      split; [split; intros [? Hx]; discriminate Hx|].
      intros m r [Heq | Heq]; inversion Heq; subst;
        eauto using float_of_group_unsigned.
  - cbn [bind]. destruct (search minute_re txt) as [[rest2 c2]|].
    + destruct (float_of_group (group 1 c2)) as [m2|] eqn:Hm2; [|discriminate].
      destruct (float_of_group (group 2 c2)) as [r2|] eqn:Hr2; [|discriminate].
      cbn [bind]. intros H. inversion H; subst.
      exists None, (Some (m2, r2)).
      split; [reflexivity|]. split; [split; intros [? Hx]; discriminate Hx|].
      split; [split; intros _; apply Hno|].
      intros m r [Heq | Heq]; inversion Heq; subst;
        eauto using float_of_group_unsigned.
    + intros H. inversion H; subst. exists None, None.
      split; [reflexivity|]. split; [split; intros [? Hx]; discriminate Hx|].
      split; [split; intros [? Hx]; discriminate Hx|].
      intros m r [Heq | Heq]; discriminate Heq.
Qed.

Ltac lookups :=
  repeat first [ rewrite lookup_insert_eq
               | rewrite lookup_insert_ne by discriminate
               | rewrite lookup_empty ].

(** X5.  A dict that parse_fare_line returns has miles exactly when it has
    rate_per_mile, and exactly when the mile pattern is found; minutes exactly
    when it has rate_per_minute, and exactly when the minute pattern is found;
    it has no other key, and none of its values is negative or nan: each is
    [0.0], a positive float or [inf], so [0.0 <= v] holds of it. *)
Theorem parsed_fares_come_in_pairs :
  forall (item_label txt : text) (d : gmap string float),
    parse_fare_line item_label txt = Returned d ->
    (is_Some (d !! "miles"%string) <-> is_Some (search mile_re txt)) /\
    (is_Some (d !! "rate_per_mile"%string) <-> is_Some (search mile_re txt)) /\
    (is_Some (d !! "minutes"%string) <-> is_Some (search minute_re txt)) /\
    (is_Some (d !! "rate_per_minute"%string) <-> is_Some (search minute_re txt)) /\
    (forall (k : string) (v : float),
        d !! k = Some v ->
        In k ["miles"; "rate_per_mile"; "minutes"; "rate_per_minute"]%string /\
        unsigned v /\ float_le float_zero v = true).
Proof.
  intros item_label txt d Hd.
  destruct (parse_fare_line_shapes item_label txt d Hd)
    as (mile & minute & -> & Hmile & Hminute & Hsign).
  assert (Hnone : forall A, is_Some (@None A) <-> False).
  { intros A. split; [intros [y Hy]; discriminate | contradiction]. }
  assert (Hsome : forall A (x : A), is_Some (Some x) <-> True).
  { intros A x. split; [trivial | intros _; exists x; reflexivity]. }
  rewrite <- Hmile, <- Hminute.
  destruct mile as [[m1 r1]|], minute as [[m2 r2]|];
    try pose proof (Hsign _ _ (or_introl eq_refl)) as [? ?];
    try pose proof (Hsign _ _ (or_intror eq_refl)) as [? ?];
    (split; [lookups; rewrite ?Hnone, ?Hsome; tauto|]);
    (split; [lookups; rewrite ?Hnone, ?Hsome; tauto|]);
    (split; [lookups; rewrite ?Hnone, ?Hsome; tauto|]);
    (split; [lookups; rewrite ?Hnone, ?Hsome; tauto|]);
    intros k v Hk;
    repeat (apply lookup_insert_Some in Hk as [[<- <-] | [_ Hk]];
            [split; [cbn; tauto | split; [assumption | apply unsigned_le; assumption]] |]);
    rewrite lookup_empty in Hk; discriminate Hk.
Qed.

End ParsedFares.

Lemma parsed_fares_come_in_pairs_witness :
  is_Some ((<["rate_per_mile"%string := Py.ratio [0] [9; 9]]>
              (<["miles"%string := Py.ldexp 3 (-1)]> (∅ : gmap string Py.float)))
             !! "miles"%string) <->
  is_Some (Regex.search (@FareParser.mile_re Unicode.latin1_only)
             (Text.str "1.5 mile " ++ [Text.times_sign] ++ Text.str " $0.99/mile")).
Proof.
  refine (proj1 (@parsed_fares_come_in_pairs Unicode.latin1_only (Text.str "Distance")
                   (Text.str "1.5 mile " ++ [Text.times_sign] ++ Text.str " $0.99/mile")
                   _ _)).
  vm_compute. reflexivity.
Defined.

(** ** Texts as keys *)

Section Keys.
Import Text Scraper Totals.

Lemma text_eqb_eq (a b : text) : text_eqb a b = true <-> a = b.
Proof.
  revert b. induction a as [|x a IH]; intros [|y b]; cbn [text_eqb];
    try (split; [discriminate | discriminate]); [tauto|].
  unfold char_eqb. rewrite andb_true_iff, N.eqb_eq, IH. split.
  - intros [-> ->]. reflexivity.
  - intros H. inversion H. tauto.
Qed.

Lemma text_eqb_refl (a : text) : text_eqb a a = true.
Proof. apply text_eqb_eq. reflexivity. Qed.

Lemma text_eqb_neq (a b : text) : text_eqb a b = false <-> a <> b.
Proof.
  rewrite <- text_eqb_eq. destruct (text_eqb a b); split; congruence.
Qed.

(** A dict kept as a list: what is set is what is got, the other keys keep
    their entries, and no key comes twice. *)
Lemma dict_get_set {V : Type} (k k2 : text) (v : V) (d : list (text * V)) :
  dict_get k2 (dict_set k v d) = if text_eqb k2 k then Some v else dict_get k2 d.
Proof.
  induction d as [|[k' v'] d IH]; cbn [dict_set dict_get]; [reflexivity|].
  destruct (text_eqb k k') eqn:Hk; cbn [dict_get].
  - apply text_eqb_eq in Hk. subst k'. destruct (text_eqb k2 k); reflexivity.
  - rewrite IH. destruct (text_eqb k2 k') eqn:H2; [|reflexivity].
    apply text_eqb_eq in H2. subst k'.
    destruct (text_eqb k2 k) eqn:H3; [|reflexivity].
    apply text_eqb_eq in H3. subst k2. rewrite text_eqb_refl in Hk. discriminate Hk.
Qed.

Lemma dict_set_keys {V : Type} (k : text) (v : V) (d : list (text * V)) :
  (forall k', k' ∈ map fst (dict_set k v d) <-> k' = k \/ k' ∈ map fst d) /\
  (NoDup (map fst d) -> NoDup (map fst (dict_set k v d))).
Proof.
  induction d as [|[k1 v1] d [IHin IHnd]]; cbn [dict_set map fst].
  - split.
    + intros k'. rewrite elem_of_cons, elem_of_nil. tauto.
    + intros _. apply NoDup_singleton.
  - destruct (text_eqb k k1) eqn:Hk; cbn [map fst].
    + apply text_eqb_eq in Hk. subst k1. split; [|tauto].
      intros k'. rewrite !elem_of_cons. tauto.
    + apply text_eqb_neq in Hk. split.
      * intros k'. rewrite !elem_of_cons, IHin. tauto.
      * rewrite !NoDup_cons, IHin. intros [Hout Hd]. split; [|exact (IHnd Hd)].
        intros [Heq | Hin]; [congruence | exact (Hout Hin)].
Qed.

End Keys.

(** ** The loop over the fare items *)

Section FareItems.
Import Text Unicode Regex Py FareParser Scraper Spec Totals.
Context {U : beyond_latin1}.
Variable float_of_text : text -> option float.
Variable browse : text -> outcome page.

Lemma or_zero_of_unsigned (prev : option float) :
  unsigned_or_none prev -> unsigned (or_zero prev).
Proof.
  destruct prev as [x|]; cbn [unsigned_or_none]; [|intros _; exact I].
  intros Hx. rewrite (or_zero_unsigned x Hx). exact Hx.
Qed.

(** One more float added in front. *)
Lemma added_step (prev : option float) (v : float) (ms : list float) :
  unsigned_or_none prev -> unsigned v ->
  added (Some (float_add (or_zero prev) v)) ms = added prev (v :: ms).
Proof.
  intros Hprev Hv. unfold added. destruct ms as [|m ms]; [reflexivity|].
  rewrite (or_zero_unsigned _ (float_add_unsigned _ _ (or_zero_of_unsigned prev Hprev) Hv)).
  reflexivity.
Qed.

(** One round of the loop, with the signs of the rates used. *)
Lemma fare_item_round (a : aggregates) (item : text * text * text) (d : gmap string float) :
  parses item d ->
  unsigned_or_none (distance_miles a) -> unsigned_or_none (total_trip_minutes a) ->
  exists a',
    fare_item float_of_text a item = Returned a' /\
    unsigned_or_none (distance_miles a') /\ unsigned_or_none (total_trip_minutes a') /\
    (forall ms, added (distance_miles a') ms =
                added (distance_miles a) (collect "miles" [d] ++ ms)) /\
    (forall ms, added (total_trip_minutes a') ms =
                added (total_trip_minutes a) (collect "minutes" [d] ++ ms)) /\
    rate_per_mile a' = last_not_zero (collect "rate_per_mile" [d]) (rate_per_mile a) /\
    rate_per_minute a' = last_not_zero (collect "rate_per_minute" [d]) (rate_per_minute a) /\
    total_fare a' = float_sum (total_fare a) (fare_values float_of_text [item]).
Proof.
  destruct item as [[lbl val_str] detail]. unfold parses. cbn [fst snd]. intros Hd Hmi Hmn.
  destruct (parse_fare_line_shapes lbl detail d Hd) as (mile & minute & Hshape & _ & _ & Hsign).
  destruct (fare_item_parsed float_of_text a lbl val_str detail d Hd)
    as (a' & Ha' & Hmiles & Hminutes & Hrm & Hrn).
  exists a'. split; [exact Ha'|].
  assert (Htotal : total_fare a' =
                   float_sum (total_fare a) (fare_values float_of_text [(lbl, val_str, detail)])).
  { unfold fare_item in Ha'. rewrite Hd in Ha'. cbn [bind] in Ha'. inversion Ha'.
    cbn [total_fare fare_values]. unfold fare_value. cbn [fst snd].
    destruct (strip is_space _) as [|c s]; [reflexivity|].
    destruct (float_of_text (c :: s)) as [v|]; reflexivity. }
  assert (Hvalue : forall (k : string) (v : float), d !! k = Some v -> unsigned v).
  { intros k v Hk. subst d. destruct mile as [[m1 r1]|], minute as [[m2 r2]|];
      try pose proof (Hsign _ _ (or_introl eq_refl)) as [? ?];
      try pose proof (Hsign _ _ (or_intror eq_refl)) as [? ?];
      repeat (apply lookup_insert_Some in Hk as [[_ <-] | [_ Hk]]; [assumption|]);
      rewrite lookup_empty in Hk; discriminate Hk. }
  assert (Hrate : forall (k : string) (r : float) (prev : option float),
             d !! k = Some r ->
             (if float_truthy r && (bool_decide (prev = None) || float_pos r)
              then Some r else prev) = (if float_truthy r then Some r else prev)).
  { intros k r prev Hk. destruct (float_truthy r) eqn:Ht; [|reflexivity].
    rewrite (truthy_and_not_negative r (unsigned_le r (Hvalue k r Hk)) Ht), orb_true_r.
    reflexivity. }
  cbn [collect last_not_zero]. repeat split.
  - rewrite Hmiles. destruct (d !! "miles"%string) as [v|] eqn:Hk; [|exact Hmi].
    cbn [unsigned_or_none].
    apply float_add_unsigned; [apply or_zero_of_unsigned, Hmi | exact (Hvalue _ v Hk)].
  - rewrite Hminutes. destruct (d !! "minutes"%string) as [v|] eqn:Hk; [|exact Hmn].
    cbn [unsigned_or_none].
    apply float_add_unsigned; [apply or_zero_of_unsigned, Hmn | exact (Hvalue _ v Hk)].
  - intros ms. rewrite Hmiles.
    destruct (d !! "miles"%string) as [v|] eqn:Hk; cbn [app]; [|reflexivity].
    apply added_step; [exact Hmi | exact (Hvalue _ v Hk)].
  - intros ms. rewrite Hminutes.
    destruct (d !! "minutes"%string) as [v|] eqn:Hk; cbn [app]; [|reflexivity].
    apply added_step; [exact Hmn | exact (Hvalue _ v Hk)].
  - rewrite Hrm. destruct (d !! "rate_per_mile"%string) as [r|] eqn:Hk; [|reflexivity].
    cbn [last_not_zero]. apply (Hrate _ r _ Hk).
  - rewrite Hrn. destruct (d !! "rate_per_minute"%string) as [r|] eqn:Hk; [|reflexivity].
    cbn [last_not_zero]. apply (Hrate _ r _ Hk).
  - exact Htotal.
Qed.

Lemma collect_cons (k : string) (d : gmap string float) (ds : list (gmap string float)) :
  collect k (d :: ds) = collect k [d] ++ collect k ds.
Proof. cbn [collect]. destruct (d !! k); reflexivity. Qed.

Lemma last_not_zero_app (rs rs' : list float) :
  forall prev, last_not_zero (rs ++ rs') prev = last_not_zero rs' (last_not_zero rs prev).
Proof. induction rs as [|r rs IH]; intros prev; [reflexivity|]. cbn. apply IH. Qed.

Lemma fare_values_cons (item : text * text * text) (items : list (text * text * text)) :
  fare_values float_of_text (item :: items) =
    fare_values float_of_text [item] ++ fare_values float_of_text items.
Proof. cbn [fare_values]. destruct (fare_value _ item); reflexivity. Qed.

Lemma fare_items_rounds (items : list (text * text * text)) (ds : list (gmap string float)) :
  Forall2 parses items ds ->
  forall a,
    unsigned_or_none (distance_miles a) -> unsigned_or_none (total_trip_minutes a) ->
    exists a',
      fare_items float_of_text a items = Returned a' /\
      distance_miles a' = added (distance_miles a) (collect "miles" ds) /\
      total_trip_minutes a' = added (total_trip_minutes a) (collect "minutes" ds) /\
      rate_per_mile a' = last_not_zero (collect "rate_per_mile" ds) (rate_per_mile a) /\
      rate_per_minute a' = last_not_zero (collect "rate_per_minute" ds) (rate_per_minute a) /\
      total_fare a' = float_sum (total_fare a) (fare_values float_of_text items).
Proof.
  induction 1 as [|item d items ds Hd _ IH]; intros a Hmi Hmn.
  - exists a. cbn [fare_items collect last_not_zero fare_values added].
    repeat split.
  - destruct (fare_item_round a item d Hd Hmi Hmn)
      as (a1 & Ha1 & Hmi1 & Hmn1 & Hm & Hn & Hrm & Hrn & Ht).
    destruct (IH a1 Hmi1 Hmn1) as (a' & Ha' & Hm' & Hn' & Hrm' & Hrn' & Ht').
    exists a'. cbn [fare_items]. rewrite Ha1. cbn [bind].
    split; [exact Ha'|].
    rewrite !(collect_cons _ d ds), !last_not_zero_app, <- Hrm, <- Hrn.
    split; [rewrite Hm', Hm; reflexivity|]. split; [rewrite Hn', Hn; reflexivity|].
    split; [exact Hrm'|]. split; [exact Hrn'|].
    rewrite Ht', Ht, (fare_values_cons item items). unfold float_sum.
    rewrite fold_left_app. reflexivity.
Qed.

(** X6.  For any number of fare items whose details parse, the loop of
    scrape_trip_details returns; distance_miles is None when no item has miles,
    else the miles of the items added one after the other from 0.0, each sum
    rounded to the nearest float; so is total_trip_minutes for the minutes;
    rate_per_mile and rate_per_minute are the last rate that is not zero, None
    when there is none; total_fare is the values that read as a float, added
    one after the other from 0.0. *)
Theorem aggregates_over_all_fare_items :
  forall (items : list (text * text * text)) (ds : list (gmap string float)),
    Forall2 parses items ds ->
    exists a,
      fare_items float_of_text no_fares items = Returned a /\
      distance_miles a = summed (collect "miles" ds) /\
      total_trip_minutes a = summed (collect "minutes" ds) /\
      rate_per_mile a = last_not_zero (collect "rate_per_mile" ds) None /\
      rate_per_minute a = last_not_zero (collect "rate_per_minute" ds) None /\
      total_fare a = float_sum float_zero (fare_values float_of_text items).
Proof.
  intros items ds H.
  destruct (fare_items_rounds items ds H no_fares I I) as (a & Ha & Hm & Hn & Hrm & Hrn & Ht).
  exists a. repeat (split; [assumption|]). exact Ht.
Qed.

Lemma fare_item_breakdown (a a' : aggregates) (item : text * text * text) :
  fare_item float_of_text a item = Returned a' ->
  fare_breakdown a' =
    dict_set (fst (fst item)) (fare_value float_of_text item, snd item) (fare_breakdown a).
Proof.
  destruct item as [[lbl val_str] detail]. unfold fare_item.
  destruct (parse_fare_line lbl detail); [|discriminate]. cbn [bind].
  intros H. inversion H. reflexivity.
Qed.

Lemma fare_items_breakdown (items : list (text * text * text)) :
  forall a a',
    fare_items float_of_text a items = Returned a' ->
    (NoDup (map fst (fare_breakdown a)) -> NoDup (map fst (fare_breakdown a'))) /\
    (forall lbl,
        dict_get lbl (fare_breakdown a') =
          match last_with_label lbl items with
          | Some item => Some (fare_value float_of_text item, snd item)
          | None => dict_get lbl (fare_breakdown a)
          end) /\
    (length (fare_breakdown a') <= length (fare_breakdown a) + length items)%nat.
Proof.
  induction items as [|item items IH]; intros a a' H; cbn [fare_items] in H.
  - inversion H; subst. cbn [last_with_label length]. repeat split; [tauto | lia].
  - destruct (fare_item float_of_text a item) as [a1|] eqn:H1; [|discriminate].
    cbn [bind] in H. destruct (IH a1 a' H) as (Hnd & Hget & Hlen).
    pose proof (fare_item_breakdown a a1 item H1) as Hb.
    split; [|split].
    + intros Ha. apply Hnd. rewrite Hb. apply dict_set_keys. exact Ha.
    + intros lbl. rewrite Hget. cbn [last_with_label].
      destruct (last_with_label lbl items); [reflexivity|].
      rewrite Hb, dict_get_set. destruct (text_eqb lbl (fst (fst item))); reflexivity.
    + assert (Hone : forall (V : Type) k (v : V) d,
                 (length (dict_set k v d) <= S (length d))%nat).
      { intros V k v d. induction d as [|[k1 v1] d IHd]; cbn [dict_set length]; [lia|].
        destruct (text_eqb k k1); cbn [length]; lia. }
      rewrite Hb in Hlen. cbn [length].
      pose proof (Hone _ (fst (fst item)) (fare_value float_of_text item, snd item)
                    (fare_breakdown a)).
      lia.
Qed.

(** X7.  The fare breakdown written to the CSV holds one entry for every
    label, with the value and the detail of the last item of that label: an
    earlier item of the same label is overwritten there. *)
Theorem breakdown_keeps_the_last_item_of_a_label :
  forall (items : list (text * text * text)) (a : aggregates),
    fare_items float_of_text no_fares items = Returned a ->
    NoDup (map fst (fare_breakdown a)) /\
    (forall lbl,
        dict_get lbl (fare_breakdown a) =
          option_map (fun item => (fare_value float_of_text item, snd item))
                     (last_with_label lbl items)) /\
    (length (fare_breakdown a) <= length items)%nat.
Proof.
  intros items a H. destruct (fare_items_breakdown items no_fares a H) as (Hnd & Hget & Hlen).
  split; [apply Hnd; constructor|]. split; [|exact Hlen].
  intros lbl. rewrite Hget. destruct (last_with_label lbl items); reflexivity.
Qed.


Lemma zip3_length {A B C : Type} (la : list A) :
  forall (lb : list B) (lc : list C),
    length (zip3 la lb lc) = Nat.min (length la) (Nat.min (length lb) (length lc)).
Proof.
  induction la as [|a la IH]; intros [|b lb] [|c lc]; cbn [zip3 length Nat.min];
    try reflexivity.
  rewrite IH. reflexivity.
Qed.

Lemma zip3_more {A B C : Type} (la : list A) :
  forall (lb : list B) (lc : list C) (more_a : list A) (more_b : list B),
    length la = length lc -> length lb = length lc ->
    zip3 (la ++ more_a) (lb ++ more_b) lc = zip3 la lb lc.
Proof.
  induction la as [|a la IH]; intros [|b lb] [|c lc] more_a more_b Ha Hb;
    try discriminate.
  - cbn [app zip3]. destruct more_a, more_b; reflexivity.
  - cbn [app zip3]. injection Ha as Ha. injection Hb as Hb.
    rewrite (IH lb lc more_a more_b Ha Hb). reflexivity.
Qed.

(** X8.  The fare items are the labels, values and details paired by
    position, as many as the shortest of the three lists has: what the longer
    lists hold beyond that is not read, and a page without any details element
    gives a row without fares, whatever labels and values it shows. *)
Theorem fare_items_stop_at_the_shortest_list :
  (forall labels values details : list text,
      length (zip3 labels values details) =
        Nat.min (length labels) (Nat.min (length values) (length details))) /\
  (forall labels values details more_labels more_values : list text,
      length labels = length details -> length values = length details ->
      zip3 (labels ++ more_labels) (values ++ more_values) details =
        zip3 labels values details) /\
  (forall (trip_link : text) (pg : page),
      browse trip_link = Returned pg ->
      fare_item_details pg = [] ->
      scraped float_of_text browse trip_link =
        Returned (trip_row (trip_id_of trip_link) pg no_fares)).
Proof.
  split; [exact zip3_length|]. split; [exact zip3_more|].
  intros trip_link pg Hpg Hnone. unfold scraped. rewrite Hpg. cbn [bind]. rewrite Hnone.
  replace (zip3 (fare_item_labels pg) (fare_item_values pg) [])
    with (@nil (text * text * text)); [reflexivity|].
  destruct (fare_item_labels pg), (fare_item_values pg); reflexivity.
Qed.


End FareItems.

Lemma aggregates_over_all_fare_items_witness :
  exists a,
    @Scraper.fare_items Unicode.latin1_only Sample.plain_float Scraper.no_fares
      Sample2.two_fare_items = Py.Returned a /\
    Scraper.distance_miles a = Some (Py.ldexp 7 (-1)) /\
    Scraper.rate_per_mile a = Some (Py.ratio [1] [1; 0]) /\
    Scraper.total_fare a = Py.float_add (Py.ratio [1] [4; 9]) (Py.ratio [2] [2; 0]) /\
    Scraper.total_fare a = Py.ratio [3] [6; 9; 0; 0; 0; 0; 0; 0; 0; 0; 0; 0; 0; 0; 0; 4] /\
    Scraper.total_fare a <> Py.ratio [3] [6; 9].
Proof.
  destruct (@aggregates_over_all_fare_items Unicode.latin1_only Sample.plain_float
              Sample2.two_fare_items
              [ Sample2.distance_dict (Py.ldexp 3 (-1)) (Py.ratio [0] [9; 9]);
                Sample2.distance_dict (Py.ldexp 1 1) (Py.ratio [1] [1; 0]) ])
    as (a & Ha & Hmiles & _ & Hrate & _ & Htotal).
  - repeat constructor; vm_compute; reflexivity.
  - exists a. split; [exact Ha|]. split; [rewrite Hmiles; vm_compute; reflexivity|].
    split; [rewrite Hrate; vm_compute; reflexivity|].
    rewrite Htotal. split; [vm_compute; reflexivity|].
    split; [vm_compute; reflexivity | vm_compute; discriminate].
Defined.

Lemma breakdown_keeps_the_last_item_of_a_label_witness :
  exists a,
    @Scraper.fare_items Unicode.latin1_only Sample.plain_float Scraper.no_fares
      Sample2.two_fare_items = Py.Returned a /\
    Totals.dict_get (Text.str "Distance") (Scraper.fare_breakdown a) =
      Some (Some (Py.ratio [2] [2; 0]),
            Text.str "2.0 mile " ++ [Text.times_sign] ++ Text.str " $1.10/mile") /\
    length (Scraper.fare_breakdown a) = 1%nat.
Proof.
  destruct (@Scraper.fare_items Unicode.latin1_only Sample.plain_float Scraper.no_fares
              Sample2.two_fare_items) as [a|e] eqn:Ha; [|vm_compute in Ha; discriminate Ha].
  exists a. split; [reflexivity|].
  destruct (@breakdown_keeps_the_last_item_of_a_label Unicode.latin1_only
              Sample.plain_float Sample2.two_fare_items a Ha) as (_ & Hget & _).
  split; [rewrite Hget; vm_compute; reflexivity|].
  vm_compute in Ha. inversion Ha. reflexivity.
Defined.

(** ** The time line of the fare breakdown *)

Section MinuteLine.
Import Text Unicode Regex Py FareParser Spec Shape.
Context {U : beyond_latin1}.

Lemma run_alt_hit (r1 r2 : regex) (k : cont) (b : bool) (s : text) (c : caps) (m : found) :
  run r1 k b s c = Some m -> run (Alt r1 r2) k b s c = Some m.
Proof. intros H. cbn [run]. rewrite H. reflexivity. Qed.

Lemma run_alt_miss (r1 r2 : regex) (k : cont) (b : bool) (s : text) (c : caps) :
  run r1 k b s c = None -> run (Alt r1 r2) k b s c = run r2 k b s c.
Proof. intros H. cbn [run]. rewrite H. reflexivity. Qed.

Ltac step_cat :=
  match goal with
  | |- run (Cat ?r1 ?r2) ?k ?b ?s ?c = ?m => change (run r1 (run r2 k) b s c = m)
  end.

Ltac step_hit :=
  match goal with
  | |- run ?r ?k ?b (?x :: ?s) ?c = ?m =>
      let r' := eval cbv beta delta [letter chr] in r in
      change (run r' k b (x :: s) c = m)
  end;
  rewrite run_one_hit by reflexivity.

Ltac letters :=
  repeat match goal with
         | |- context [same_letter ?c ?x] =>
             let v := eval vm_compute in (same_letter c x) in
             match v with
             | true => change (same_letter c x) with true
             | false => change (same_letter c x) with false
             end
         end.

(** The time pattern matches either time line at its start, and the groups
    are the two numerals. *)
Lemma minute_line_match (ip fp ip' fp' : list N) :
  ip <> [] -> digits ip -> digits fp ->
  ip' <> [] -> digits ip' -> digits fp' ->
  search minute_re (minute_line (numeral ip fp) (numeral ip' fp')) =
    Some ([], [(2%nat, numeral ip' fp'); (1%nat, numeral ip fp)]) /\
  search minute_re (long_minute_line (numeral ip fp) (numeral ip' fp')) =
    Some ([], [(2%nat, numeral ip' fp'); (1%nat, numeral ip fp)]).
Proof.
  intros Hne Hip Hfp Hne' Hip' Hfp'.
  pose proof (numeral_chars ip fp Hip Hfp) as Hn.
  pose proof (numeral_chars ip' fp' Hip' Hfp') as Hn'.
  destruct (numeral_starts ip fp Hne) as (x & ds & E).
  destruct (numeral_starts ip' fp' Hne') as (x' & ds' & E').
  rewrite E, E' in *.
  change minute_re with
    (Cat (Grp 1 (plus (One num_char)))
       (Cat (star (One is_space))
          (Cat (Cat (letter 109) (Cat (letter 105) (letter 110)))
             (Cat (Alt (Cat (letter 117) (Cat (letter 116) (letter 101))) Eps)
                (Cat (star (One is_space))
                   (Cat (chr 215)
                      (Cat (star (One is_space))
                         (Cat (chr 36)
                            (Cat (Grp 2 (plus (One num_char)))
                               (Cat (chr 47)
                                  (Cat (letter 109) (Cat (letter 105) (letter 110))))))))))))).
  split.
  - apply search_from_here. unfold match_here.
    change (minute_line (x :: ds) (x' :: ds')) with
      ((x :: ds) ++ [32] ++ 109 :: 105 :: 110 :: [32] ++ 215 :: [32] ++ 36 ::
         (x' :: ds') ++ [47; 109; 105; 110]).
    step_cat. apply run_group_of_class; [exact Hn | reflexivity |].
    step_cat. apply run_star_of_class_some; [repeat constructor | reflexivity |].
    step_cat. step_cat. step_hit. step_cat. step_hit. step_hit.
    step_cat. rewrite run_alt_miss.
    2: { step_cat. apply run_one_miss. reflexivity. }
    change (run Eps ?k ?b ?s ?c) with (k b s c).
    step_cat. apply run_star_of_class_some; [repeat constructor | reflexivity |].
    step_cat. step_hit.
    step_cat. apply run_star_of_class_some; [repeat constructor | reflexivity |].
    step_cat. step_hit.
    step_cat. apply run_group_of_class; [exact Hn' | reflexivity |].
    step_cat. step_hit. step_cat. step_hit. step_cat. step_hit. step_hit.
    reflexivity.
  - apply search_from_here. unfold match_here.
    change (long_minute_line (x :: ds) (x' :: ds')) with
      ((x :: ds) ++ [32] ++ 109 :: 105 :: 110 :: 117 :: 116 :: 101 :: [32] ++ 215 ::
         [32] ++ 36 :: (x' :: ds') ++ [47; 109; 105; 110]).
    step_cat. apply run_group_of_class; [exact Hn | reflexivity |].
    step_cat. apply run_star_of_class_some; [repeat constructor | reflexivity |].
    step_cat. step_cat. step_hit. step_cat. step_hit. step_hit.
    step_cat. apply run_alt_hit.
    step_cat. step_hit. step_cat. step_hit. step_hit.
    step_cat. apply run_star_of_class_some; [repeat constructor | reflexivity |].
    step_cat. step_hit.
    step_cat. apply run_star_of_class_some; [repeat constructor | reflexivity |].
    step_cat. step_hit.
    step_cat. apply run_group_of_class; [exact Hn' | reflexivity |].
    step_cat. step_hit. step_cat. step_hit. step_cat. step_hit. step_hit.
    reflexivity.
Qed.

(** The distance pattern matches neither time line. *)
Lemma minute_line_has_no_mile (ip fp ip' fp' : list N) :
  digits ip -> digits fp -> digits ip' -> digits fp' ->
  search mile_re (minute_line (numeral ip fp) (numeral ip' fp')) = None /\
  search mile_re (long_minute_line (numeral ip fp) (numeral ip' fp')) = None.
Proof.
  intros Hip Hfp Hip' Hfp'.
  pose proof (numeral_no_letter 109 ip fp ltac:(lia) Hip Hfp) as Hm.
  pose proof (numeral_no_letter 109 ip' fp' ltac:(lia) Hip' Hfp') as Hm'.
  split.
  - destruct (search mile_re _) as [m|] eqn:E; [|reflexivity].
    apply mile_match_spells_mile in E. exfalso. revert E.
    change (str "mile") with [109; 105; 108; 101].
    change (minute_line (numeral ip fp) (numeral ip' fp')) with
      (numeral ip fp ++ 32 :: 109 :: 105 :: 110 :: 32 :: 215 :: 32 :: 36 ::
         numeral ip' fp' ++ [47; 109; 105; 110]).
    rewrite (spells_skip 109 _ _ _ Hm). cbn [spells spells_here]. letters.
    cbn [andb orb]. rewrite (spells_skip 109 _ _ _ Hm'). cbn [spells spells_here]. letters.
    cbn [andb orb]. discriminate.
  - destruct (search mile_re _) as [m|] eqn:E; [|reflexivity].
    apply mile_match_spells_mile in E. exfalso. revert E.
    change (str "mile") with [109; 105; 108; 101].
    change (long_minute_line (numeral ip fp) (numeral ip' fp')) with
      (numeral ip fp ++ 32 :: 109 :: 105 :: 110 :: 117 :: 116 :: 101 :: 32 :: 215 ::
         32 :: 36 :: numeral ip' fp' ++ [47; 109; 105; 110]).
    rewrite (spells_skip 109 _ _ _ Hm). cbn [spells spells_here]. letters.
    cbn [andb orb]. rewrite (spells_skip 109 _ _ _ Hm'). cbn [spells spells_here]. letters.
    cbn [andb orb]. discriminate.
Qed.

(** X9.  For numerals m and r in positional notation, parsing the time line
    "m min × $r/min", or the same with the unit written "minute", returns a
    dict with two keys and no other: minutes, the float nearest to the number
    m writes, and rate_per_minute, the float nearest to the number r writes
    (ties to even, [inf] beyond the range of floats, [0.0] below it). *)
Theorem time_line_parser :
  forall (item_label : text) (ip fp ip' fp' : list N),
    ip <> [] -> digits ip -> digits fp ->
    ip' <> [] -> digits ip' -> digits fp' ->
    parse_fare_line item_label (minute_line (numeral ip fp) (numeral ip' fp')) =
      Returned (<["rate_per_minute"%string := ratio ip' fp']>
                  (<["minutes"%string := ratio ip fp]> ∅)) /\
    parse_fare_line item_label (long_minute_line (numeral ip fp) (numeral ip' fp')) =
      Returned (<["rate_per_minute"%string := ratio ip' fp']>
                  (<["minutes"%string := ratio ip fp]> ∅)).
Proof.
  intros item_label ip fp ip' fp' Hne Hip Hfp Hne' Hip' Hfp'.
  destruct (minute_line_match ip fp ip' fp' Hne Hip Hfp Hne' Hip' Hfp') as [Hshort Hlong].
  destruct (minute_line_has_no_mile ip fp ip' fp' Hip Hfp Hip' Hfp') as [Hshort' Hlong'].
  unfold parse_fare_line.
  rewrite Hshort, Hlong, Hshort', Hlong'. cbn [bind group Nat.eqb].
  rewrite (group_float ip fp Hne Hip Hfp), (group_float ip' fp' Hne' Hip' Hfp').
  split; reflexivity.
Qed.

End MinuteLine.

Lemma time_line_parser_witness :
  @FareParser.parse_fare_line Unicode.latin1_only (Text.str "Time")
    (Text.str "12.5 minute " ++ [Text.times_sign] ++ Text.str " $0.25/min") =
    Py.Returned (<["rate_per_minute"%string := Py.ldexp 1 (-2)]>
                   (<["minutes"%string := Py.ldexp 25 (-1)]> ∅)) /\
  @FareParser.parse_fare_line Unicode.latin1_only (Text.str "Time")
    (Text.str "9007199254740993 min " ++ [Text.times_sign] ++ Text.str " $0.1/min") =
    Py.Returned (<["rate_per_minute"%string := Py.ldexp 3602879701896397 (-55)]>
                   (<["minutes"%string := Py.ldexp 9007199254740992 0]> ∅)).
Proof.
  assert (H12 : Spec.digits [1; 2]) by (repeat constructor).
  assert (H5 : Spec.digits [5]) by (repeat constructor).
  assert (H0 : Spec.digits [0]) by (repeat constructor).
  assert (H25 : Spec.digits [2; 5]) by (repeat constructor).
  assert (H1 : Spec.digits [1]) by (repeat constructor).
  assert (Hnil : Spec.digits []) by constructor.
  assert (Hbig : Spec.digits [9; 0; 0; 7; 1; 9; 9; 2; 5; 4; 7; 4; 0; 9; 9; 3])
    by (repeat constructor).
  split.
  - exact (proj2 (@time_line_parser Unicode.latin1_only (Text.str "Time")
                    [1; 2] [5] [0] [2; 5]
                    ltac:(discriminate) H12 H5 ltac:(discriminate) H0 H25)).
  - exact (proj1 (@time_line_parser Unicode.latin1_only (Text.str "Time")
                    [9; 0; 0; 7; 1; 9; 9; 2; 5; 4; 7; 4; 0; 9; 9; 3] [] [0] [1]
                    ltac:(discriminate) Hbig Hnil ltac:(discriminate) H0 H1)).
Defined.

(** ** Dates and their ordinals *)

Section Ordinals.
Import Text Py Calendar Forward.
Local Open Scope Z_scope.

Ltac tables :=
  repeat match goal with
         | |- context [table ?t ?m] =>
             let v := eval vm_compute in (table t m) in change (table t m) with v
         | |- context [Z.ltb ?a ?b] =>
             let v := eval vm_compute in (Z.ltb a b) in change (Z.ltb a b) with v
         | |- context [Z.eqb ?a ?b] =>
             let v := eval vm_compute in (Z.eqb a b) in change (Z.eqb a b) with v
         end;
  cbn [andb].

(** Within a year the months follow one another. *)
Lemma days_before_next_month (y m : Z) :
  1 <= m <= 11 ->
  days_before_month y (m + 1) = days_before_month y m + days_in_month y m.
Proof.
  intros Hm. unfold days_before_month, days_in_month.
  assert (Hmm : m = 1 \/ m = 2 \/ m = 3 \/ m = 4 \/ m = 5 \/ m = 6 \/
                m = 7 \/ m = 8 \/ m = 9 \/ m = 10 \/ m = 11) by lia.
  destruct (is_leap y);
    repeat (destruct Hmm as [-> | Hmm]; [tables; lia|]);
    rewrite Hmm; tables; lia.
Qed.

Lemma days_before_month_mono (y m m' : Z) :
  1 <= m -> m < m' <= 12 ->
  days_before_month y m + days_in_month y m <= days_before_month y m'.
Proof.
  intros Hm Hm'.
  assert (Hstep : forall k : nat,
             m + 1 + Z.of_nat k <= 12 ->
             days_before_month y m + days_in_month y m <=
               days_before_month y (m + 1 + Z.of_nat k)).
  { induction k as [|k IH]; intros Hk.
    - rewrite Z.add_0_r, days_before_next_month by lia. lia.
    - replace (m + 1 + Z.of_nat (S k)) with (m + 1 + Z.of_nat k + 1) by lia.
      rewrite days_before_next_month by lia.
      assert (0 <= days_in_month y (m + 1 + Z.of_nat k)).
      { pose proof (month_part_bounds y (m + 1 + Z.of_nat k) 1 ltac:(lia)) as Hb.
        unfold days_in_month in *. destruct ((m + 1 + Z.of_nat k =? 2) && is_leap y); [lia|].
        assert (Hmm : m + 1 + Z.of_nat k = 1 \/ m + 1 + Z.of_nat k = 2 \/
                      m + 1 + Z.of_nat k = 3 \/ m + 1 + Z.of_nat k = 4 \/
                      m + 1 + Z.of_nat k = 5 \/ m + 1 + Z.of_nat k = 6 \/
                      m + 1 + Z.of_nat k = 7 \/ m + 1 + Z.of_nat k = 8 \/
                      m + 1 + Z.of_nat k = 9 \/ m + 1 + Z.of_nat k = 10 \/
                      m + 1 + Z.of_nat k = 11 \/ m + 1 + Z.of_nat k = 12) by lia.
        repeat (destruct Hmm as [-> | Hmm]; [tables; lia|]). rewrite Hmm. tables. lia. }
      specialize (IH ltac:(lia)). lia. }
  specialize (Hstep (Z.to_nat (m' - m - 1))).
  replace (m + 1 + Z.of_nat (Z.to_nat (m' - m - 1))) with m' in Hstep by lia.
  apply Hstep. lia.
Qed.

(** Two dates with the same ordinal are the same date. *)
Lemma ymd2ord_injective (y m d y' m' d' : Z) :
  valid_date y m d = true -> valid_date y' m' d' = true ->
  ymd2ord y m d = ymd2ord y' m' d' -> y = y' /\ m = m' /\ d = d'.
Proof.
  intros Hv Hv' Heq.
  assert (Hy : y = y').
  { pose proof (year_monotone {| year := y; month := m; day := d; tod := 0 |}
                  {| year := y'; month := m'; day := d'; tod := 0 |} Hv Hv') as H1.
    pose proof (year_monotone {| year := y'; month := m'; day := d'; tod := 0 |}
                  {| year := y; month := m; day := d; tod := 0 |} Hv' Hv) as H2.
    unfold toordinal in H1, H2. cbn [year month day] in H1, H2. lia. }
  subst y'. split; [reflexivity|].
  unfold valid_date in Hv, Hv'. rewrite !andb_true_iff, !Z.leb_le in Hv, Hv'.
  unfold ymd2ord in Heq.
  destruct (Z.lt_trichotomy m m') as [Hlt | [-> | Hgt]].
  - pose proof (days_before_month_mono y m m' ltac:(lia) ltac:(lia)). lia.
  - split; [reflexivity | lia].
  - pose proof (days_before_month_mono y m' m ltac:(lia) ltac:(lia)). lia.
Qed.

(** The date of the ordinal of a date is that date. *)
Lemma ord2ymd_of_date (a : datetime) :
  valid_date (year a) (month a) (day a) = true ->
  ord2ymd (toordinal a) = (year a, month a, day a).
Proof.
  intros Hv. pose proof (ymd2ord_bounds _ _ _ Hv) as Hb. fold (toordinal a) in Hb.
  pose proof (ord2ymd_correct (toordinal a) Hb) as Hc.
  destruct (ord2ymd (toordinal a)) as [[y m] d]. destruct Hc as [Hv' Heq].
  destruct (ymd2ord_injective y m d _ _ _ Hv' Hv Heq) as (-> & -> & ->). reflexivity.
Qed.

(** Going back to the ordinal of a date gives that date, at the time of day
    one started with. *)
Lemma add_days_back (a b : datetime) (k : Z) :
  valid_date (year b) (month b) (day b) = true ->
  toordinal a + k = toordinal b ->
  add_days a k =
    Returned {| year := year b; month := month b; day := day b; tod := tod a |}.
Proof.
  intros Hv Hk. pose proof (ymd2ord_bounds _ _ _ Hv) as Hb. fold (toordinal b) in Hb.
  unfold add_days. rewrite Hk.
  replace ((0 <? toordinal b) && (toordinal b <=? MAXORDINAL)) with true
    by (symmetry; apply andb_true_iff; rewrite Z.ltb_lt, Z.leb_le; lia).
  rewrite (ord2ymd_of_date b Hv). reflexivity.
Qed.

(** X10.  get_monday snaps every day of a week to the same Monday: for a date
    the datetime constructor accepts it returns a Monday, that Monday is its
    own Monday, and each of the seven days from it on is snapped back to it
    (the time of day is kept throughout). *)
Theorem get_monday_is_the_same_for_a_whole_week :
  forall d : datetime,
    valid_date (year d) (month d) (day d) = true ->
    exists monday,
      get_monday d = Returned monday /\
      weekday monday = 0 /\
      get_monday monday = Returned monday /\
      (forall (k : Z) (later : datetime),
          0 <= k < 7 -> add_days monday k = Returned later ->
          weekday later = k /\ get_monday later = Returned monday).
Proof.
  intros d Hd.
  destruct (get_monday_correct d Hd) as (monday & Hget & Hwd & Hto & Htod & Hv).
  exists monday. split; [exact Hget|]. split; [exact Hwd|].
  assert (Hself : forall a : datetime,
             toordinal a - weekday a = toordinal monday -> tod a = tod monday ->
             get_monday a = Returned monday).
  { intros a Ha Ht. unfold get_monday.
    rewrite (add_days_back a monday (- weekday a) Hv ltac:(lia)), Ht.
    destruct monday; reflexivity. }
  split; [apply Hself; [lia | reflexivity]|].
  intros k later Hk Hlater.
  pose proof (ymd2ord_bounds _ _ _ Hv) as Hb. fold (toordinal monday) in Hb.
  assert (Hroom : toordinal monday + k <= MAXORDINAL).
  { unfold add_days in Hlater.
    destruct ((0 <? toordinal monday + k) && (toordinal monday + k <=? MAXORDINAL)) eqn:Hin;
      [|discriminate Hlater].
    apply andb_true_iff in Hin as [_ Hin]. apply Z.leb_le in Hin. exact Hin. }
  destruct (add_days_correct monday k ltac:(lia)) as (b & Hadd & Hbto & Hbtod & _).
  rewrite Hadd in Hlater. inversion Hlater; subst b.
  assert (Hwk : weekday later = k).
  { unfold weekday in *. rewrite Hbto. Z.div_mod_to_equations. lia. }
  split; [exact Hwk|]. apply Hself; [lia | exact Hbtod].
Qed.

End Ordinals.

Lemma get_monday_is_the_same_for_a_whole_week_witness :
  Forward.get_monday Sample.a_clock =
    Py.Returned {| Calendar.year := 2026; Calendar.month := 11; Calendar.day := 2;
                   Calendar.tod := 3600000000 |} /\
  Forward.get_monday {| Calendar.year := 2026; Calendar.month := 11; Calendar.day := 2;
                        Calendar.tod := 3600000000 |} =
    Py.Returned {| Calendar.year := 2026; Calendar.month := 11; Calendar.day := 2;
                   Calendar.tod := 3600000000 |}.
Proof.
  destruct (get_monday_is_the_same_for_a_whole_week Sample.a_clock eq_refl)
    as (monday & Hget & _ & Hself & _).
  assert (Hm : Py.Returned monday =
               Py.Returned {| Calendar.year := 2026; Calendar.month := 11; Calendar.day := 2;
                              Calendar.tod := 3600000000 |}).
  { rewrite <- Hget. vm_compute. reflexivity. }
  inversion Hm; subst monday. split; [exact Hget | exact Hself].
Defined.

(** ** The digits of a number *)

Section Digits.
Import Text Spec.

Lemma number_of_snoc (ds : list N) (x : N) :
  number_of (ds ++ [x]) = (10 * number_of ds + x)%N.
Proof. unfold number_of. rewrite fold_left_app. reflexivity. Qed.

Lemma digits_fuel_digits (fuel : nat) :
  forall (n : N) (acc : text),
    (n < 10 ^ N.of_nat fuel)%N ->
    exists ds, digits ds /\ number_of ds = n /\
               digits_fuel fuel n acc = digit_chars ds ++ acc.
Proof.
  induction fuel as [|fuel IH]; intros n acc Hn.
  - exists []. split; [constructor|]. split; [|reflexivity].
    cbn in Hn. unfold number_of. cbn. lia.
  - cbn [digits_fuel]. destruct (n <? 10)%N eqn:Hsmall.
    + apply N.ltb_lt in Hsmall. exists [n]. split; [repeat constructor; exact Hsmall|].
      split; [unfold number_of; cbn; lia|].
      cbn [digit_chars map app]. rewrite N.mod_small by exact Hsmall. reflexivity.
    + apply N.ltb_ge in Hsmall.
      destruct (IH (n / 10)%N ((48 + n mod 10)%N :: acc)) as (ds & Hds & Hval & Heq).
      { apply N.Div0.div_lt_upper_bound.
        replace (10 * 10 ^ N.of_nat fuel)%N with (10 ^ N.of_nat (S fuel))%N; [exact Hn|].
        rewrite Nat2N.inj_succ, N.pow_succ_r'. reflexivity. }
      exists (ds ++ [n mod 10])%N. split; [|split].
      * apply Forall_app. split; [exact Hds|]. repeat constructor.
        apply N.mod_lt. discriminate.
      * rewrite number_of_snoc, Hval. symmetry. apply N.div_mod. discriminate.
      * rewrite Heq. unfold digit_chars. rewrite map_app, <- app_assoc. reflexivity.
Qed.

(** The decimal rendering of a number is its digits. *)
Lemma decimal_digits (n : N) :
  exists ds, digits ds /\ number_of ds = n /\ decimal n = digit_chars ds.
Proof.
  unfold decimal.
  destruct (digits_fuel_digits (S (N.to_nat (N.log2 n))) n []) as (ds & Hds & Hval & Heq).
  - destruct (N.eq_dec n 0) as [-> | Hpos]; [cbn; lia|].
    pose proof (N.log2_spec n ltac:(lia)) as [_ Hhi].
    rewrite Nat2N.inj_succ, N2Nat.id.
    eapply N.lt_le_trans; [exact Hhi|].
    apply N.pow_le_mono_l. lia.
  - exists ds. rewrite Heq, app_nil_r. repeat split; assumption.
Qed.

End Digits.

(** ** Dates written and read back *)

Section DatesAsText.
Import Text Unicode Regex Py Calendar Forward Spec Shape Dates.
Context {U : beyond_latin1}.
Local Open Scope Z_scope.

Lemma directive_shapes :
  directive 98 = dgroup 98 month_pattern /\
  directive 100 = dgroup 100 day_pattern /\
  directive 89 = dgroup 89 year_pattern.
Proof. repeat split; reflexivity. Qed.

Lemma run_dgroup (i : char) (r1 : regex) (k : cont) (b : bool) (s : text) (c : caps) :
  run (dgroup i r1) k b s c =
    run r1 (fun b' s' c' => k b' s' ((N.to_nat i, consumed s s') :: c')) b s c.
Proof. reflexivity. Qed.

Lemma month_alternatives (m : Z) :
  1 <= m <= 12 ->
  forall (k : cont) (b : bool) (c : caps) (rest : text),
    run month_pattern k b (str (nth (Z.to_nat (m - 1)) month_abbr ""%string) ++ rest) c =
      match k false rest c with Some x => Some x | None => None end.
Proof.
  intros Hm k b c rest.
  assert (Hmm : m = 1 \/ m = 2 \/ m = 3 \/ m = 4 \/ m = 5 \/ m = 6 \/
                m = 7 \/ m = 8 \/ m = 9 \/ m = 10 \/ m = 11 \/ m = 12) by lia.
  repeat (destruct Hmm as [-> | Hmm]; [vm_compute; reflexivity|]).
  subst m. vm_compute. destruct (k false rest c); reflexivity.
Qed.

Lemma day_cases (d : Z) :
  1 <= d <= 31 ->
  d = 1 \/ d = 2 \/ d = 3 \/ d = 4 \/ d = 5 \/ d = 6 \/ d = 7 \/ d = 8 \/ d = 9 \/
  d = 10 \/ d = 11 \/ d = 12 \/ d = 13 \/ d = 14 \/ d = 15 \/ d = 16 \/ d = 17 \/
  d = 18 \/ d = 19 \/ d = 20 \/ d = 21 \/ d = 22 \/ d = 23 \/ d = 24 \/ d = 25 \/
  d = 26 \/ d = 27 \/ d = 28 \/ d = 29 \/ d = 30 \/ d = 31.
Proof. lia. Qed.

(** The day, as an f-string and as strftime write it, before a comma. *)
Lemma day_alternatives (d : Z) :
  1 <= d <= 31 ->
  forall (k : cont) (b : bool) (c : caps) (rest : text) (r : found),
    k false (44%N :: rest) c = Some r ->
    run day_pattern k b (decimal (Z.to_N d) ++ 44%N :: rest) c = Some r /\
    run day_pattern k b (two_digits d ++ 44%N :: rest) c = Some r.
Proof.
  intros Hd k b c rest r Hk. apply day_cases in Hd.
  repeat (destruct Hd as [-> | Hd]; [split; vm_compute; rewrite Hk; reflexivity|]).
  subst d. split; vm_compute; rewrite Hk; reflexivity.
Qed.

Lemma year_digits (y : Z) :
  1000 <= y <= 9999 ->
  exists a b c e : N,
    (a < 10 /\ b < 10 /\ c < 10 /\ e < 10)%N /\
    decimal (Z.to_N y) = [48 + a; 48 + b; 48 + c; 48 + e]%N /\
    number_of [a; b; c; e] = Z.to_N y.
Proof.
  intros Hy. pose proof (four_digit_year y Hy) as Hlen.
  destruct (decimal_digits (Z.to_N y)) as (ds & Hds & Hval & Heq).
  rewrite Heq in Hlen. unfold digit_chars in Hlen. rewrite length_map in Hlen.
  destruct ds as [|a [|b [|c [|e [|f ds]]]]]; try discriminate Hlen.
  inversion Hds as [|? ? Ha Hds1]; subst. inversion Hds1 as [|? ? Hb Hds2]; subst.
  inversion Hds2 as [|? ? Hc Hds3]; subst. inversion Hds3 as [|? ? He _]; subst.
  exists a, b, c, e. repeat split; assumption.
Qed.


Lemma digit_is_no_space (a : N) : (a < 10)%N -> is_space (48 + a)%N = false.
Proof.
  intros H.
  destruct (digit_cases a H) as [-> | [-> | [-> | [-> | [-> | [-> | [-> | [-> | [-> | ->]]]]]]]]];
    reflexivity.
Qed.

Lemma digit_is_decimal (a : N) : (a < 10)%N -> is_decimal (48 + a)%N = true.
Proof. intros H. unfold is_decimal. rewrite (decimal_value_digit a H). reflexivity. Qed.

Ltac one_cat :=
  match goal with
  | |- run (Cat ?r1 ?r2) ?k ?b ?s ?c = ?m => change (run r1 (run r2 k) b s c = m)
  end.

(** The comma, the blank and the four digits of the year, to the end. *)
Lemma year_part (a b c e : N) (cs : caps) :
  (a < 10)%N -> (b < 10)%N -> (c < 10)%N -> (e < 10)%N ->
  run (Cat (chr 44) (Cat (plus ws) (Cat (directive 89) Eps))) accept false
      (44 :: 32 :: [48 + a; 48 + b; 48 + c; 48 + e])%N cs =
    Some ([], (89%nat, [48 + a; 48 + b; 48 + c; 48 + e]%N) :: cs).
Proof.
  intros Ha Hb Hc He.
  one_cat. unfold chr at 1. rewrite run_one_hit by reflexivity.
  one_cat. change (plus ws) with (Cat (One is_space) (star (One is_space))).
  one_cat. rewrite run_one_hit by reflexivity.
  change ([48 + a; 48 + b; 48 + c; 48 + e]%N)
    with ([] ++ [48 + a; 48 + b; 48 + c; 48 + e]%N) at 1.
  apply run_star_of_class; [constructor | apply digit_is_no_space; exact Ha |].
  cbn [app]. one_cat.
  rewrite (proj2 (proj2 directive_shapes)), run_dgroup.
  change year_pattern with (Cat (One is_decimal) (Cat (One is_decimal)
                              (Cat (One is_decimal) (One is_decimal)))).
  one_cat. rewrite run_one_hit by (apply digit_is_decimal; exact Ha).
  one_cat. rewrite run_one_hit by (apply digit_is_decimal; exact Hb).
  one_cat. rewrite run_one_hit by (apply digit_is_decimal; exact Hc).
  rewrite run_one_hit by (apply digit_is_decimal; exact He).
  reflexivity.
Qed.

Lemma day_text_head (d : Z) (dd : text) :
  1 <= d <= 31 -> dd = decimal (Z.to_N d) \/ dd = two_digits d ->
  exists x tl, dd = x :: tl /\ is_space x = false /\ int_of dd = Some d.
Proof.
  intros Hd Hdd. apply day_cases in Hd.
  repeat (destruct Hd as [-> | Hd];
          [destruct Hdd as [-> | ->]; eexists _, _;
           (split; [vm_compute; reflexivity | split; reflexivity])|]).
  subst d. destruct Hdd as [-> | ->]; eexists _, _;
    (split; [vm_compute; reflexivity | split; reflexivity]).
Qed.

(** The blanks before the day, and the day. *)
Lemma day_part (d : Z) (dd : text) :
  1 <= d <= 31 -> dd = decimal (Z.to_N d) \/ dd = two_digits d ->
  forall (k : cont) (c : caps) (rest : text) (r : found),
    k false (44%N :: rest) ((100%nat, dd) :: c) = Some r ->
    run (star (One is_space)) (run (directive 100) k) false (dd ++ 44%N :: rest) c = Some r.
Proof.
  intros Hd Hdd k c rest r Hk.
  destruct (day_text_head d dd Hd Hdd) as (x & tl & Hshape & Hx & _).
  change (dd ++ 44%N :: rest) with ([] ++ dd ++ 44%N :: rest).
  apply run_star_of_class; [constructor | rewrite Hshape; exact Hx |].
  cbn [app]. rewrite (proj1 (proj2 directive_shapes)), run_dgroup.
  assert (Hin : (fun (b' : bool) (s' : text) (c' : caps) =>
                   k b' s' ((N.to_nat 100, consumed (dd ++ 44%N :: rest) s') :: c'))
                  false (44%N :: rest) c = Some r).
  { cbv beta. rewrite consumed_app. exact Hk. }
  destruct Hdd as [-> | ->]; apply (day_alternatives d Hd _ false c rest r Hin).
Qed.

(** A date written "Mon D, YYYY", the day with or without a leading zero,
    matches the format to its end. *)
Lemma date_text_match (a : datetime) (dd : text) :
  valid_date (year a) (month a) (day a) = true -> 1000 <= year a ->
  dd = decimal (Z.to_N (day a)) \/ dd = two_digits (day a) ->
  match_here (format_regex false (str "%b %d, %Y")) true
    (strftime_b a ++ str " " ++ dd ++ str ", " ++ decimal (Z.to_N (year a))) =
    Some ([], [ (89%nat, decimal (Z.to_N (year a))); (100%nat, dd);
                (98%nat, strftime_b a) ]).
Proof.
  intros Hv Hy Hdd.
  unfold valid_date, MINYEAR, MAXYEAR in Hv. rewrite !andb_true_iff, !Z.leb_le in Hv.
  destruct Hv as (((((_ & Hy2) & Hm1) & Hm2) & Hd1) & Hd2).
  assert (Hd31 : 1 <= day a <= 31).
  { pose proof (month_part_bounds (year a) (month a) (day a) ltac:(lia) ltac:(lia)).
    unfold days_in_month in Hd2.
    assert (Htab : table DAYS_IN_MONTH (month a) <= 31).
    { assert (Hmm : month a = 1 \/ month a = 2 \/ month a = 3 \/ month a = 4 \/
                    month a = 5 \/ month a = 6 \/ month a = 7 \/ month a = 8 \/
                    month a = 9 \/ month a = 10 \/ month a = 11 \/ month a = 12) by lia.
      repeat (destruct Hmm as [-> | Hmm]; [vm_compute; discriminate|]).
      rewrite Hmm. vm_compute. discriminate. }
    destruct ((month a =? 2) && is_leap (year a)); lia. }
  destruct (year_digits (year a) ltac:(lia)) as (y1 & y2 & y3 & y4 & (H1 & H2 & H3 & H4) & Hyd & _).
  rewrite Hyd. unfold match_here.
  change (format_regex false (str "%b %d, %Y")) with
    (Cat (directive 98)
       (Cat (plus ws)
          (Cat (directive 100) (Cat (chr 44) (Cat (plus ws) (Cat (directive 89) Eps)))))).
  one_cat. rewrite (proj1 directive_shapes), run_dgroup. unfold strftime_b.
  rewrite (month_alternatives (month a) (conj Hm1 Hm2)).
  match goal with
  | |- match ?x with Some _ => _ | None => _ end = Some ?r =>
      assert (Hk : x = Some r); [|rewrite Hk; reflexivity]
  end.
  cbv beta. rewrite consumed_app.
  one_cat. change (plus ws) with (Cat (One is_space) (star (One is_space))).
  one_cat. change (str " " ++ ?x) with (32%N :: x). rewrite run_one_hit by reflexivity.
  change (str ", " ++ ?x) with (44%N :: 32%N :: x).
  apply (day_part (day a) dd Hd31 Hdd).
  apply year_part; assumption.
Qed.


Lemma strip_of_bare (sp : char -> bool) (s : text) :
  bare_head sp s -> bare_head sp (rev s) -> strip sp s = s.
Proof.
  intros Hs Hr. unfold strip.
  rewrite (lstrip_of_bare sp s Hs), (lstrip_of_bare sp (rev s) Hr). apply rev_involutive.
Qed.

Lemma int_of_year (y : Z) :
  1000 <= y <= 9999 -> int_of (decimal (Z.to_N y)) = Some y.
Proof.
  intros Hy.
  destruct (year_digits y Hy) as (a & b & c & e & (Ha & Hb & Hc & He) & Hyd & Hval).
  rewrite Hyd. unfold int_of.
  rewrite strip_of_bare.
  - change [48 + a; 48 + b; 48 + c; 48 + e]%N with (digit_chars [a; b; c; e]).
    rewrite digits_of_digit_chars by (repeat constructor; assumption).
    cbn [digit_chars map option_map]. rewrite Hval. f_equal. lia.
  - cbn [bare_head]. apply digit_is_no_space. exact Ha.
  - cbn [rev app bare_head]. apply digit_is_no_space. exact He.
Qed.

Lemma month_of_its_name (m : Z) :
  1 <= m <= 12 ->
  index_of (map to_lower (str (nth (Z.to_nat (m - 1)) month_abbr ""%string)))
           month_names 1 = Some m.
Proof.
  intros Hm.
  assert (Hmm : m = 1 \/ m = 2 \/ m = 3 \/ m = 4 \/ m = 5 \/ m = 6 \/
                m = 7 \/ m = 8 \/ m = 9 \/ m = 10 \/ m = 11 \/ m = 12) by lia.
  repeat (destruct Hmm as [-> | Hmm]; [vm_compute; reflexivity|]).
  subst m. vm_compute. reflexivity.
Qed.

(** Reading the text of a date gives the date, at midnight. *)
Lemma strptime_of_date_text (a : datetime) (dd : text) :
  valid_date (year a) (month a) (day a) = true -> 1000 <= year a ->
  dd = decimal (Z.to_N (day a)) \/ dd = two_digits (day a) ->
  strptime (strftime_b a ++ str " " ++ dd ++ str ", " ++ decimal (Z.to_N (year a)))
           (str "%b %d, %Y") = Returned (at_midnight a).
Proof.
  intros Hv Hy Hdd. unfold strptime.
  rewrite (date_text_match a dd Hv Hy Hdd). cbv zeta.
  pose proof Hv as Hv'.
  unfold valid_date, MINYEAR, MAXYEAR in Hv'. rewrite !andb_true_iff, !Z.leb_le in Hv'.
  destruct Hv' as (((((_ & Hy2) & Hm1) & Hm2) & Hd1) & Hd2).
  assert (Hd31 : 1 <= day a <= 31).
  { unfold days_in_month in Hd2.
    assert (Htab : table DAYS_IN_MONTH (month a) <= 31).
    { assert (Hmm : month a = 1 \/ month a = 2 \/ month a = 3 \/ month a = 4 \/
                    month a = 5 \/ month a = 6 \/ month a = 7 \/ month a = 8 \/
                    month a = 9 \/ month a = 10 \/ month a = 11 \/ month a = 12) by lia.
      repeat (destruct Hmm as [-> | Hmm]; [vm_compute; discriminate|]).
      rewrite Hmm. vm_compute. discriminate. }
    destruct ((month a =? 2) && is_leap (year a)); lia. }
  destruct (day_text_head (day a) dd Hd31 Hdd) as (_ & _ & _ & _ & Hday).
  change (group_of 89 ?cs) with (Some (decimal (Z.to_N (year a)))).
  change (group_of 109 ?cs) with (@None text).
  change (group_of 98 ?cs) with (Some (strftime_b a)).
  change (group_of 100 ?cs) with (Some dd).
  cbv beta iota.
  rewrite (int_of_year (year a) ltac:(lia)), Hday. unfold strftime_b.
  rewrite (month_of_its_name (month a) (conj Hm1 Hm2)).
  unfold make. rewrite Hv. reflexivity.
Qed.


Lemma month_name_head (m : Z) (rest : text) :
  1 <= m <= 12 ->
  bare_head is_space (str (nth (Z.to_nat (m - 1)) month_abbr ""%string) ++ rest).
Proof.
  intros Hm.
  assert (Hmm : m = 1 \/ m = 2 \/ m = 3 \/ m = 4 \/ m = 5 \/ m = 6 \/
                m = 7 \/ m = 8 \/ m = 9 \/ m = 10 \/ m = 11 \/ m = 12) by lia.
  repeat (destruct Hmm as [-> | Hmm]; [reflexivity|]).
  subst m. reflexivity.
Qed.

(** The text of a date has no white space at either end. *)
Lemma date_text_is_stripped (a : datetime) (dd : text) :
  valid_date (year a) (month a) (day a) = true -> 1000 <= year a ->
  strip is_space (strftime_b a ++ str " " ++ dd ++ str ", " ++ decimal (Z.to_N (year a))) =
    strftime_b a ++ str " " ++ dd ++ str ", " ++ decimal (Z.to_N (year a)).
Proof.
  intros Hv Hy.
  unfold valid_date, MINYEAR, MAXYEAR in Hv. rewrite !andb_true_iff, !Z.leb_le in Hv.
  destruct Hv as (((((_ & Hy2) & Hm1) & Hm2) & _) & _).
  destruct (year_digits (year a) ltac:(lia)) as (y1 & y2 & y3 & y4 & (H1 & H2 & H3 & H4) & Hyd & _).
  rewrite Hyd. apply strip_of_bare.
  - unfold strftime_b. apply month_name_head. lia.
  - rewrite !app_assoc, rev_app_distr. cbn [rev app bare_head].
    apply digit_is_no_space. exact H4.
Qed.

(** X11.  What format_week_range prints for a date is read back by the
    start-date prompt: for a date of the years 1000 to 9999, the text
    "Mon D, YYYY" parses under the first format of the prompt to that date at
    midnight, and entering it at the prompt gives that date. *)
Theorem printed_dates_are_read_back :
  forall a : datetime,
    valid_date (year a) (month a) (day a) = true ->
    1000 <= year a ->
    strptime (format_date a) (str "%b %d, %Y") = Returned (at_midnight a) /\
    (forall now : datetime,
        valid now = true -> start_date (format_date a) now = at_midnight a).
Proof.
  intros a Hv Hy.
  assert (Hparse : strptime (format_date a) (str "%b %d, %Y") = Returned (at_midnight a)).
  { apply (strptime_of_date_text a _ Hv Hy). left. reflexivity. }
  split; [exact Hparse|].
  intros now Hnow. rewrite (start_date_is_first _ now Hnow).
  pose proof (date_text_is_stripped a (decimal (Z.to_N (day a))) Hv Hy) as Hstrip.
  fold (format_date a) in Hstrip. rewrite Hstrip.
  destruct (format_date a) as [|x tl] eqn:Hshape.
  - exfalso. unfold format_date, strftime_b in Hshape.
    unfold valid_date in Hv. rewrite !andb_true_iff, !Z.leb_le in Hv.
    pose proof (month_name_head (month a)
                  (str " " ++ decimal (Z.to_N (day a)) ++ str ", " ++
                   decimal (Z.to_N (year a))) ltac:(lia)) as Hhead.
    apply (f_equal (@length N)) in Hshape. rewrite !length_app in Hshape.
    cbn [str length list_ascii_of_string map] in Hshape. lia.
  - change formats with (str "%b %d, %Y" :: tail formats).
    cbn [first_that_parses]. rewrite Hparse. reflexivity.
Qed.


End DatesAsText.

Lemma printed_dates_are_read_back_witness :
  @Forward.strptime Unicode.latin1_only
    (Forward.format_date
       {| Calendar.year := 2024; Calendar.month := 7; Calendar.day := 1;
          Calendar.tod := 3600000000 |})
    (Text.str "%b %d, %Y") =
    Py.Returned {| Calendar.year := 2024; Calendar.month := 7; Calendar.day := 1;
                   Calendar.tod := 0 |}.
Proof.
  exact (proj1 (@printed_dates_are_read_back Unicode.latin1_only
                  {| Calendar.year := 2024; Calendar.month := 7; Calendar.day := 1;
                     Calendar.tod := 3600000000 |}
                  eq_refl ltac:(vm_compute; discriminate))).
Defined.

(** ** The running total and the rows of the CSV file *)

Section RunningTotal.
Import Text Unicode Regex Py Calendar Csv Trip LastDate.
Context {U : beyond_latin1}.
Variable short_year : Z -> text.

(** The file is absent, or holds at least the record that names the fields. *)
Lemma has_header_after_save (trips : list trip) (path : text) (d : disk) :
  d !! path = None \/ (exists h f, d !! path = Some (h :: f)) ->
  save_csv trips path d !! path = None \/
  (exists h f, save_csv trips path d !! path = Some (h :: f)).
Proof.
  intros [Hnone | (h & f & Hsome)].
  - destruct trips as [|t trips]; [left; exact Hnone|].
    right. rewrite (save_csv_absent t trips path d Hnone). eauto.
  - right. rewrite (save_csv_existing trips path d _ Hsome). cbn [app]. eauto.
Qed.





(** *** The backward walk *)



(** *** The forward walk *)

Lemma forward_try_week_saves (output : text) (r : Forward.round) (st : Forward.state) :
  exists trips,
    Forward.files (snd (Forward.try_week output r st)) =
      save_csv trips output (Forward.files st) /\
    Forward.total (snd (Forward.try_week output r st)) =
      Forward.total st + N.of_nat (length trips) /\
    Forward.week_num (snd (Forward.try_week output r st)) = Forward.week_num st /\
    (Forward.week_date (snd (Forward.try_week output r st)) = Forward.week_date st \/
     add_days (Forward.week_date st) 7 =
       Returned (Forward.week_date (snd (Forward.try_week output r st)))).
Proof.
  unfold Forward.try_week.
  set (first := if Forward.challenge r
                then Forward.navigate_to_week (Forward.renavigate r) st
                else (Returned tt, st)).
  assert (Hfirst : Forward.files (snd first) = Forward.files st /\
                   Forward.total (snd first) = Forward.total st /\
                   Forward.week_num (snd first) = Forward.week_num st /\
                   Forward.week_date (snd first) = Forward.week_date st).
  { subst first. destruct (Forward.challenge r); [|repeat split].
    unfold Forward.navigate_to_week.
    destruct (Forward.format_week_range (Forward.week_date st)); repeat split. }
  destruct first as [[u|e] st1]; cbn [snd] in Hfirst;
    destruct Hfirst as (Hf1 & Ht1 & Hn1 & Hw1).
  2: { exists []. cbn [snd save_csv length]. repeat split; [assumption | lia | assumption |].
       left. assumption. }
  assert (Hnone : forall st' : Forward.state,
             Forward.files st' = Forward.files st1 ->
             Forward.total st' = Forward.total st1 ->
             Forward.week_num st' = Forward.week_num st1 ->
             Forward.week_date st' = Forward.week_date st1 ->
             exists trips,
               Forward.files st' = save_csv trips output (Forward.files st) /\
               Forward.total st' = Forward.total st + N.of_nat (length trips) /\
               Forward.week_num st' = Forward.week_num st /\
               (Forward.week_date st' = Forward.week_date st \/
                add_days (Forward.week_date st) 7 = Returned (Forward.week_date st'))).
  { intros st' Hf Ht Hn Hw. exists []. cbn [save_csv length].
    repeat split; [congruence | lia | congruence | left; congruence]. }
  destruct (Forward.urls r) as [us|]; [|apply Hnone; reflexivity].
  cbv zeta.
  destruct (Backward.is_empty us && _); [apply Hnone; reflexivity|].
  destruct (Forward.visits _ (Forward.visit r) us) as [trips es].
  match goal with
  | |- context [add_days (Forward.week_date ?s) 7] =>
      set (st2 := s);
      assert (Hst2 : Forward.files st2 = save_csv trips output (Forward.files st) /\
                     Forward.total st2 = Forward.total st + N.of_nat (length trips) /\
                     Forward.week_num st2 = Forward.week_num st /\
                     Forward.week_date st2 = Forward.week_date st)
  end.
  { subst st2. destruct trips as [|t trips]; cbn [Backward.is_empty].
    - cbn [save_csv length Forward.with_log Forward.files Forward.total
           Forward.week_num Forward.week_date].
      repeat split; [assumption | lia | assumption | assumption].
    - cbn [Forward.with_log Forward.files Forward.total Forward.week_num
           Forward.week_date].
      rewrite Hf1, Ht1. repeat split; assumption. }
  destruct Hst2 as (Hf2 & Ht2 & Hn2 & Hw2). clearbody st2.
  exists trips.
  destruct (add_days (Forward.week_date st2) 7) as [next|e] eqn:Hnext; cbn [snd].
  2: { repeat split; [assumption | assumption | assumption | left; assumption]. }
  rewrite Hw2 in Hnext.
  destruct (gt _ (Forward.now_next r)); cbn [snd].
  { repeat split; try assumption. right. exact Hnext. }
  unfold Forward.navigate_to_week.
  destruct (Forward.format_week_range _); cbn [snd]; [|repeat split; try assumption; right; exact Hnext].
  destruct (Forward.navigate r); cbn [snd]; repeat split; try assumption; right; exact Hnext.
Qed.


Lemma forward_week_saves (output : text) (r : Forward.round) (st : Forward.state) :
  exists trips,
    Forward.files (snd (Forward.week output r st)) =
      save_csv trips output (Forward.files st) /\
    Forward.total (snd (Forward.week output r st)) =
      Forward.total st + N.of_nat (length trips) /\
    (Forward.week_date (snd (Forward.week output r st)) = Forward.week_date st \/
     add_days (Forward.week_date st) 7 =
       Returned (Forward.week_date (snd (Forward.week output r st))) \/
     exists mid,
       add_days (Forward.week_date st) 7 = Returned mid /\
       add_days mid 7 = Returned (Forward.week_date (snd (Forward.week output r st)))).
Proof.
  assert (Hnone : forall st' : Forward.state,
             Forward.files st' = Forward.files st ->
             Forward.total st' = Forward.total st ->
             Forward.week_date st' = Forward.week_date st ->
             exists trips,
               Forward.files st' = save_csv trips output (Forward.files st) /\
               Forward.total st' = Forward.total st + N.of_nat (length trips) /\
               (Forward.week_date st' = Forward.week_date st \/
                add_days (Forward.week_date st) 7 = Returned (Forward.week_date st') \/
                exists mid,
                  add_days (Forward.week_date st) 7 = Returned mid /\
                  add_days mid 7 = Returned (Forward.week_date st'))).
  { intros st' Hf Ht Hw. exists []. cbn [save_csv length].
    repeat split; [assumption | lia | left; assumption]. }
  unfold Forward.week. cbv zeta.
  destruct (Forward.format_week_range _); [|apply Hnone; reflexivity].
  destruct (gt _ (Forward.now_top r)); [apply Hnone; reflexivity|].
  match goal with
  | |- context [Forward.try_week output r ?s] =>
      destruct (forward_try_week_saves output r s) as (trips & Hf & Ht & _ & Hw);
      destruct (Forward.try_week output r s) as [[[|]|e] st1]
  end;
    cbn [snd Forward.files Forward.total Forward.week_date Forward.with_week_num] in Hf, Ht, Hw;
    exists trips.
  - cbn [snd]. repeat split; [assumption | assumption |].
    destruct Hw as [Hw | Hw]; [left | right; left]; exact Hw.
  - cbn [snd]. repeat split; [assumption | assumption |].
    destruct Hw as [Hw | Hw]; [left | right; left]; exact Hw.
  - destruct (text_eqb (Forward.answer r) (str "stop")); cbn [snd].
    { repeat split; [assumption | assumption |].
      destruct Hw as [Hw | Hw]; [left | right; left]; exact Hw. }
    destruct (text_eqb (Forward.answer r) (str "skip")); cbn [snd].
    + destruct (add_days (Forward.week_date st1) 7) as [next|e'] eqn:Hnext; cbn [snd].
      * cbn [Forward.with_week_date Forward.files Forward.total Forward.week_date].
        repeat split; [assumption | assumption |].
        destruct Hw as [Hw | Hw].
        -- right. left. rewrite <- Hw. exact Hnext.
        -- right. right. exists (Forward.week_date st1). split; assumption.
      * repeat split; [assumption | assumption |].
        destruct Hw as [Hw | Hw]; [left | right; left]; exact Hw.
    + cbn [Forward.with_week_num Forward.files Forward.total Forward.week_date].
      repeat split; [assumption | assumption |].
      destruct Hw as [Hw | Hw]; [left | right; left]; exact Hw.
Qed.

(** *** The calls of a whole walk *)



(** *** Calls one after the other *)






Lemma has_header_after_save_all (calls : list (list trip)) (path : text) :
  forall d,
    d !! path = None \/ (exists h f, d !! path = Some (h :: f)) ->
    save_all calls path d !! path = None \/
    (exists h f, save_all calls path d !! path = Some (h :: f)).
Proof.
  induction calls as [|c calls IH]; intros d Hd; [exact Hd|].
  cbn [save_all]. apply IH, has_header_after_save, Hd.
Qed.






End RunningTotal.


(** ** The week cursor of the forward walk *)

Section ForwardCursor.
Import Text Unicode Py Calendar Csv Trip Forward.
Local Open Scope Z_scope.

(** What [a + timedelta(days=k)] returns when it returns. *)
Lemma add_days_returned (a b : datetime) (k : Z) :
  add_days a k = Returned b ->
  toordinal b = toordinal a + k /\ tod b = tod a /\
  valid_date (year b) (month b) (day b) = true /\
  1 <= toordinal a + k <= MAXORDINAL.
Proof.
  intros H.
  assert (Hroom : 1 <= toordinal a + k <= MAXORDINAL).
  { unfold add_days in H.
    destruct ((0 <? toordinal a + k) && (toordinal a + k <=? MAXORDINAL)) eqn:Hin;
      [|discriminate H].
    apply andb_true_iff in Hin. rewrite Z.ltb_lt, Z.leb_le in Hin. lia. }
  destruct (add_days_correct a k Hroom) as (b' & Hb & Ho & Ht & Hv).
  rewrite Hb in H. inversion H; subst b'. auto.
Qed.

(** It raises OverflowError, and only when the day is off the calendar. *)
Lemma add_days_raised (a : datetime) (k : Z) (e : exn) :
  add_days a k = Raised e ->
  e = OverflowError /\ ~ (1 <= toordinal a + k <= MAXORDINAL).
Proof.
  intros H. split.
  - unfold add_days in H.
    destruct ((0 <? toordinal a + k) && (toordinal a + k <=? MAXORDINAL)).
    + destruct (ord2ymd (toordinal a + k)) as [[y m] d]. discriminate H.
    + inversion H. reflexivity.
  - intros Hroom. destruct (add_days_correct a k Hroom) as (b & Hb & _).
    rewrite Hb in H. discriminate H.
Qed.

Lemma valid_parts (a : datetime) :
  valid a = true <->
  valid_date (year a) (month a) (day a) = true /\ 0 <= tod a < 86400000000.
Proof.
  unfold valid. rewrite !andb_true_iff, Z.leb_le, Z.ltb_lt. tauto.
Qed.

Lemma a_week_later (a b : datetime) :
  valid a = true -> add_days a 7 = Returned b ->
  valid b = true /\ weekday b = weekday a /\ tod b = tod a /\
  toordinal b = toordinal a + 7.
Proof.
  intros Hv Hb. apply valid_parts in Hv. destruct Hv as [Hd Ht].
  destruct (add_days_returned a b 7 Hb) as (Ho & Htod & Hvb & _).
  split; [apply valid_parts; split; [exact Hvb | rewrite Htod; exact Ht]|].
  split; [apply weekday_after_a_week; exact Ho|]. split; assumption.
Qed.

(** One round moves the cursor by no week, by one or by two. *)
Lemma forward_week_cursor (output : text) (r : round) (st : state) :
  valid (week_date st) = true ->
  valid (week_date (snd (week output r st))) = true /\
  weekday (week_date (snd (week output r st))) = weekday (week_date st) /\
  tod (week_date (snd (week output r st))) = tod (week_date st) /\
  (toordinal (week_date (snd (week output r st))) = toordinal (week_date st) \/
   toordinal (week_date (snd (week output r st))) = toordinal (week_date st) + 7 \/
   toordinal (week_date (snd (week output r st))) = toordinal (week_date st) + 14).
Proof.
  intros Hv.
  destruct (forward_week_saves output r st) as (trips & _ & _ & [Hw | [Hw | (mid & Hmid & Hw)]]).
  - rewrite Hw. repeat split; try assumption. left. reflexivity.
  - destruct (a_week_later _ _ Hv Hw) as (Hv' & Hwd & Htod & Ho).
    repeat split; try assumption. right. left. exact Ho.
  - destruct (a_week_later _ _ Hv Hmid) as (Hv1 & Hwd1 & Htod1 & Ho1).
    destruct (a_week_later _ _ Hv1 Hw) as (Hv2 & Hwd2 & Htod2 & Ho2).
    repeat split; [assumption | congruence | congruence |].
    right. right. lia.
Qed.

(** X13.  The week cursor of the forward walk stays on its weekday.  From a
    cursor that is a date and time datetime can hold, after any number of
    rounds the cursor is again such a date, on the same day of the week (a
    Monday stays a Monday) and at the same time of day; it never moves back,
    and a round moves it by at most two weeks. *)
Theorem the_cursor_keeps_its_weekday :
  forall (output : text) (script : list round) (st : state),
    valid (week_date st) = true ->
    valid (week_date (snd (fst (main_loop output script st)))) = true /\
    weekday (week_date (snd (fst (main_loop output script st)))) = weekday (week_date st) /\
    tod (week_date (snd (fst (main_loop output script st)))) = tod (week_date st) /\
    toordinal (week_date st) <=
      toordinal (week_date (snd (fst (main_loop output script st)))) <=
      toordinal (week_date st) + 14 * Z.of_nat (length script).
Proof.
  intros output script. induction script as [|r script IH]; intros st Hv.
  - cbn [main_loop fst snd length]. repeat split; [assumption | lia | lia].
  - cbn [main_loop].
    destruct (forward_week_cursor output r st Hv) as (Hv1 & Hwd1 & Htod1 & Ho1).
    destruct (week output r st) as [[| |e] st1]; cbn [fst snd] in *.
    + destruct (IH st1 Hv1) as (Hv2 & Hwd2 & Htod2 & Ho2).
      repeat split; [assumption | congruence | congruence | lia |].
      cbn [length]. rewrite Nat2Z.inj_succ. lia.
    + repeat split; [assumption | assumption | assumption | lia |].
      cbn [length]. rewrite Nat2Z.inj_succ. lia.
    + repeat split; [assumption | assumption | assumption | lia |].
      cbn [length]. rewrite Nat2Z.inj_succ. lia.
Qed.

Lemma forward_try_week_cursor (output : text) (r : round) (st : state) :
  week_date (snd (try_week output r st)) = week_date st \/
  add_days (week_date st) 7 = Returned (week_date (snd (try_week output r st))).
Proof.
  destruct (forward_try_week_saves output r st) as (trips & _ & _ & _ & Hw). exact Hw.
Qed.

(** An exception leaves a round only from date arithmetic at the end of the
    calendar. *)
Lemma forward_week_crash (output : text) (r : round) (st : state) (e : exn) :
  valid (week_date st) = true ->
  fst (week output r st) = Crashed e ->
  e = OverflowError /\
  MAXORDINAL < toordinal (week_date (snd (week output r st))) + 7.
Proof.
  intros Hv. apply valid_parts in Hv. destruct Hv as [Hd Ht].
  pose proof (ymd2ord_bounds _ _ _ Hd) as Hb. fold (toordinal (week_date st)) in Hb.
  unfold week. cbv zeta.
  unfold format_week_range. cbn [with_week_num week_date].
  destruct (add_days (week_date st) 7) as [end_|e0] eqn:Hend; cbn [bind fst snd].
  2: { intros H. inversion H; subst e0.
       destruct (add_days_raised _ _ _ Hend) as [-> Hout].
       split; [reflexivity|]. cbn [snd with_week_num week_date]. lia. }
  destruct (gt _ (now_top r)); cbn [fst]; [discriminate|].
  match goal with
  | |- context [try_week output r ?s] =>
      pose proof (forward_try_week_cursor output r s) as Hw;
      destruct (try_week output r s) as [[[|]|e1] st1]
  end; cbn [fst snd]; try discriminate.
  cbn [snd with_week_num week_date] in Hw.
  destruct (text_eqb (answer r) (str "stop")); cbn [fst]; [discriminate|].
  destruct (text_eqb (answer r) (str "skip")); cbn [fst]; [|discriminate].
  destruct (add_days (week_date st1) 7) as [next|e2] eqn:Hnext; cbn [fst snd]; [discriminate|].
  intros H. inversion H; subst e2.
  destruct (add_days_raised _ _ _ Hnext) as [-> Hout].
  split; [reflexivity|].
  destruct Hw as [Hw | Hw].
  - rewrite Hw in Hout |- *. lia.
  - destruct (add_days_returned _ _ _ Hw) as (Ho & _). lia.
Qed.

(** X14.  The forward walk is left by an exception only at the end of the
    calendar.  Whatever the browser raises inside [try] is caught; when a
    run of rounds that started on a date datetime can hold ends in an
    exception, the exception is the OverflowError of [week_date +
    timedelta(days=7)], raised by the header line of a round or by the skip
    branch, and the cursor is then in the last week before 9999-12-31. *)
Theorem only_the_end_of_the_calendar_stops_main :
  forall (output : text) (script : list round) (st : state) (e : exn),
    valid (week_date st) = true ->
    fst (fst (main_loop output script st)) = Crashed e ->
    e = OverflowError /\
    MAXORDINAL < toordinal (week_date (snd (fst (main_loop output script st)))) + 7.
Proof.
  intros output script. induction script as [|r script IH]; intros st e Hv.
  - cbn [main_loop fst]. discriminate.
  - cbn [main_loop].
    destruct (forward_week_cursor output r st Hv) as (Hv1 & _).
    pose proof (forward_week_crash output r st) as Hcrash.
    destruct (week output r st) as [[| |e1] st1]; cbn [fst snd] in *.
    + apply IH. exact Hv1.
    + discriminate.
    + intros H. inversion H; subst e1. apply Hcrash; [exact Hv | reflexivity].
Qed.

End ForwardCursor.

Lemma the_cursor_keeps_its_weekday_witness :
  Calendar.valid Sample.next_monday = true /\
  Calendar.weekday
    (Forward.week_date
       (snd (fst (Forward.main_loop Sample.output
                    [Sample.a_forward_week Sample.next_monday Sample.five_links]
                    (Sample.a_start Sample.next_monday))))) =
    Calendar.weekday Sample.next_monday.
Proof.
  split; [reflexivity|].
  apply (the_cursor_keeps_its_weekday Sample.output
           [Sample.a_forward_week Sample.next_monday Sample.five_links]
           (Sample.a_start Sample.next_monday) eq_refl).
Defined.

Lemma only_the_end_of_the_calendar_stops_main_witness :
  Py.OverflowError = Py.OverflowError /\
  (Calendar.MAXORDINAL <
     Calendar.toordinal
       (Forward.week_date
          (snd (fst (Forward.main_loop Sample.output
                       [Sample.a_forward_week Sample.a_clock Sample.five_links]
                       (Sample.a_start
                          {| Calendar.year := 9999; Calendar.month := 12;
                             Calendar.day := 27; Calendar.tod := 0 |}))))) + 7)%Z.
Proof.
  apply (only_the_end_of_the_calendar_stops_main Sample.output
           [Sample.a_forward_week Sample.a_clock Sample.five_links]
           (Sample.a_start
              {| Calendar.year := 9999; Calendar.month := 12;
                 Calendar.day := 27; Calendar.tod := 0 |})
           Py.OverflowError).
  - vm_compute. reflexivity.
  - vm_compute. reflexivity.
Defined.

(** ** The error branch of the backward walk *)

Section BackwardErrors.
Import Text Unicode Py Csv Trip Backward.
Context {U : beyond_latin1}.

Lemma backward_week_crash (output : text) (r : round) (st : state) (e : exn) :
  fst (week output r st) = Crashed e ->
  answer r = str "skip" /\ recover r = Raised e.
Proof.
  unfold week.
  destruct (try_week output r _) as [[[|]|e1] st1]; cbn [fst]; try discriminate.
  destruct (text_eqb (answer r) (str "stop")); cbn [fst]; [discriminate|].
  destruct (text_eqb (answer r) (str "skip")) eqn:Hskip; cbn [fst]; [|discriminate].
  destruct (recover r) as [u|e2]; cbn [fst]; [discriminate|].
  intros H. inversion H; subst e2. split; [|reflexivity].
  apply text_eqb_eq. exact Hskip.
Qed.

(** X15.  The backward walk is left by an exception only from its skip
    branch.  Every exception of the body of a round is caught by [except
    Exception]; a run of rounds ends in an exception only in a round whose
    prompt was answered with skip and in whose skip branch page.goto, or the
    wait for the page after it, raised that exception. *)
Theorem only_the_skip_branch_stops_main :
  forall (output : text) (script : list round) (st : state) (e : exn),
    fst (fst (main_loop output script st)) = Crashed e ->
    exists r : round, In r script /\ answer r = str "skip" /\ recover r = Raised e.
Proof.
  intros output script. induction script as [|r script IH]; intros st e.
  - cbn [main_loop fst]. discriminate.
  - cbn [main_loop].
    pose proof (backward_week_crash output r st) as Hcrash.
    destruct (week output r st) as [[| |e1] st1]; cbn [fst snd] in *.
    + intros H. destruct (IH st1 e H) as (r' & Hin & Hr'). exists r'.
      split; [right; exact Hin | exact Hr'].
    + discriminate.
    + intros H. inversion H; subst e1. exists r. split; [left; reflexivity|].
      apply Hcrash. reflexivity.
Qed.

Lemma extracted_of_none (visit : text -> outcome trip) (us : list text) :
  extracted visit us <> [] -> us <> [].
Proof. intros H ->. apply H. reflexivity. Qed.

(** X16.  A week retried after its trips were saved is saved twice.  When
    the body of a round raises after save_csv (going back to the activities
    page fails) and the prompt is answered with neither stop nor skip, the
    round ends with the trips in the file and counted and the week number
    taken back; when the next round then finds the same trips on the page,
    it appends them and counts them a second time. *)
Theorem a_retried_week_is_saved_twice :
  forall (output : text) (r again : round) (st : state) (us : list text) (e : exn),
    (if challenge r then reload r else Returned tt) = Returned tt ->
    urls r = Returned us ->
    extracted (visit r) us <> [] ->
    activities r = Raised e ->
    answer r <> str "stop" -> answer r <> str "skip" ->
    Spec.uneventful again us -> visit again = visit r ->
    week output r st =
      (Running,
       {| week_num := week_num st; empty_streak := 0;
          total := total st + N.of_nat (length (extracted (visit r) us));
          files := save_csv (extracted (visit r) us) output (files st) |}) /\
    main_loop output [r; again] st =
      (Running,
       {| week_num := week_num st + 1; empty_streak := 0;
          total := total st + N.of_nat (length (extracted (visit r) us))
                   + N.of_nat (length (extracted (visit r) us));
          files := save_csv (extracted (visit r) us) output
                     (save_csv (extracted (visit r) us) output (files st)) |},
       []) /\
    (forall f : list (list text),
        files st !! output = Some f ->
        files (snd (fst (main_loop output [r; again] st))) !! output =
          Some (f ++ map row_of (extracted (visit r) us)
                  ++ map row_of (extracted (visit r) us))).
Proof.
  intros output r again st us e Hc Hu Htrips Ha Hstop Hskip Hagain Hvisit.
  pose proof (extracted_of_none _ _ Htrips) as Hus.
  assert (Hweek : week output r st =
            (Running,
             {| week_num := week_num st; empty_streak := 0;
                total := total st + N.of_nat (length (extracted (visit r) us));
                files := save_csv (extracted (visit r) us) output (files st) |})).
  { unfold week, try_week. cbn [week_num empty_streak total files].
    rewrite Hc, Hu. destruct us as [|u us]; [congruence|]. cbn [is_empty andb].
    destruct (extracted (visit r) (u :: us)) as [|t ts] eqn:E; [congruence|].
    cbn [is_empty week_num empty_streak total files]. rewrite Ha.
    destruct (text_eqb (answer r) (str "stop")) eqn:E1;
      [apply text_eqb_eq in E1; congruence|].
    destruct (text_eqb (answer r) (str "skip")) eqn:E2;
      [apply text_eqb_eq in E2; congruence|].
    cbn [week_num empty_streak total files].
    rewrite N.add_sub. reflexivity. }
  assert (Hloop : main_loop output [r; again] st =
            (Running,
             {| week_num := week_num st + 1; empty_streak := 0;
                total := total st + N.of_nat (length (extracted (visit r) us))
                         + N.of_nat (length (extracted (visit r) us));
                files := save_csv (extracted (visit r) us) output
                           (save_csv (extracted (visit r) us) output (files st)) |},
             [])).
  { cbn [main_loop]. rewrite Hweek.
    rewrite (week_with_trips output again _ us Hagain Hus), Hvisit.
    reflexivity. }
  split; [exact Hweek|]. split; [exact Hloop|].
  intros f Hf. rewrite Hloop. cbn [fst snd files].
  rewrite (save_csv_existing _ output _ (f ++ map row_of (extracted (visit r) us))).
  - rewrite <- app_assoc. reflexivity.
  - apply save_csv_existing. exact Hf.
Qed.

End BackwardErrors.

Lemma only_the_skip_branch_stops_main_witness :
  exists r : Backward.round,
    In r [Sample2.a_failed_week "skip" (Py.Raised Py.BrowserError)] /\
    Backward.answer r = Text.str "skip" /\
    Backward.recover r = Py.Raised Py.BrowserError.
Proof.
  apply (only_the_skip_branch_stops_main (U := Unicode.latin1_only) Sample.output
           [Sample2.a_failed_week "skip" (Py.Raised Py.BrowserError)]
           (Backward.start 0 ∅) Py.BrowserError).
  vm_compute. reflexivity.
Defined.

Lemma a_retried_week_is_saved_twice_witness :
  Backward.total
    (snd (fst (Backward.main_loop (U := Unicode.latin1_only) Sample.output
                 [Sample2.a_week_lost_after_saving Sample.five_links;
                  Sample.a_week Sample.five_links]
                 (Backward.start 0 ∅)))) = 10.
Proof.
  destruct (a_retried_week_is_saved_twice (U := Unicode.latin1_only) Sample.output
              (Sample2.a_week_lost_after_saving Sample.five_links)
              (Sample.a_week Sample.five_links) (Backward.start 0 ∅)
              Sample.five_links Py.BrowserError)
    as (_ & Hloop & _).
  - reflexivity.
  - reflexivity.
  - vm_compute. discriminate.
  - reflexivity.
  - vm_compute. discriminate.
  - vm_compute. discriminate.
  - repeat split.
  - reflexivity.
  - rewrite Hloop. vm_compute. reflexivity.
Defined.

(** ** The skip branch of the forward walk *)

Section ForwardSkip.
Import Text Unicode Py Calendar Csv Trip Forward.
Local Open Scope Z_scope.

Ltac fields :=
  cbn [with_log with_week_num with_week_date week_date week_num empty total files log].

(** X17.  In the forward walk, skip steps over the week the cursor is on when
    the error is caught.  When loading the trips raises, that is the week
    that failed: the cursor ends one week on.  When the week was scraped and
    saved and only typing the next week into the page raised, the cursor has
    already advanced: skip moves it once more, so the round ends two weeks
    on and the week in between is never loaded. *)
Theorem skip_steps_over_the_week_of_the_cursor :
  forall (output : text) (r : round) (st : state) (next after : datetime),
    add_days (week_date st) 7 = Returned next ->
    add_days next 7 = Returned after ->
    gt (week_date st) (now_top r) = false ->
    challenge r = false ->
    answer r = str "skip" ->
    (forall e : exn,
        urls r = Raised e ->
        fst (week output r st) = Running /\
        week_date (snd (week output r st)) = next /\
        files (snd (week output r st)) = files st) /\
    (forall (us : list text) (e : exn),
        urls r = Returned us -> us <> [] ->
        gt next (now_next r) = false ->
        navigate r = Raised e ->
        fst (week output r st) = Running /\
        week_date (snd (week output r st)) = after /\
        files (snd (week output r st)) =
          save_csv (fst (visits (week_date st) (visit r) us)) output (files st) /\
        exists es : list event,
          log (snd (week output r st)) = es ++ log st /\
          ~ In (Loaded next) es).
Proof.
  intros output r st next after Hnext Hafter Htop Hc Hskip.
  assert (Hstop : text_eqb (answer r) (str "stop") = false).
  { rewrite Hskip. vm_compute. reflexivity. }
  assert (Hsk : text_eqb (answer r) (str "skip") = true).
  { rewrite Hskip. vm_compute. reflexivity. }
  split.
  - intros e Hu. unfold week, try_week. cbv zeta.
    unfold format_week_range. fields.
    rewrite Hnext. cbn [bind]. rewrite Htop, Hc, Hu, Hstop, Hsk.
    fields. rewrite Hnext. cbn [fst snd]. fields.
    repeat split.
  - intros us e Hu Hus Hnow Hnav.
    assert (Hne : week_date st <> next).
    { intros Heq. destruct (add_days_returned _ _ _ Hnext) as (Ho & _).
      rewrite <- Heq in Ho. lia. }
    unfold week, try_week. cbv zeta.
    unfold format_week_range. fields.
    rewrite Hnext. cbn [bind]. rewrite Htop, Hc, Hu.
    destruct us as [|u us]; [congruence|]. cbn [Backward.is_empty andb]. fields.
    destruct (visits (week_date st) (visit r) (u :: us)) as [trips es] eqn:Hvisits.
    assert (Hes : ~ In (Loaded next) es).
    { clear -Hvisits. revert trips es Hvisits. generalize (u :: us) as l.
      induction l as [|x l IH]; intros trips es Hvisits; cbn [visits] in Hvisits.
      - inversion Hvisits. intros [].
      - destruct (visits (week_date st) (visit r) l) as [ts es'].
        specialize (IH ts es' eq_refl).
        assert (Hes : es = es' ++ [Visited (week_date st) x])
          by (destruct (visit r x); inversion Hvisits; reflexivity).
        rewrite Hes. intros Hin. apply in_app_or in Hin.
        destruct Hin as [Hin | [Hin | []]]; [exact (IH Hin) | discriminate Hin]. }
    cbn [fst].
    destruct trips as [|t trips]; cbn [Backward.is_empty]; fields;
      rewrite Hnext; fields; rewrite Hnow;
      unfold navigate_to_week, format_week_range; fields;
      rewrite Hafter; cbn [bind]; rewrite Hnav, Hstop, Hsk;
      fields; rewrite Hafter; cbn [fst snd]; fields.
    + repeat split.
      exists (Navigated next :: es ++ [Loaded (week_date st)]).
      split; [cbn [app]; rewrite <- app_assoc; reflexivity|].
      intros [Hin | Hin]; [discriminate Hin|].
      apply in_app_or in Hin.
      destruct Hin as [Hin | [Hin | []]]; [exact (Hes Hin)|].
      inversion Hin. congruence.
    + repeat split.
      exists (Navigated next :: Saved (week_date st) (length (t :: trips))
                :: es ++ [Loaded (week_date st)]).
      split; [cbn [app]; rewrite <- app_assoc; reflexivity|].
      intros [Hin | [Hin | Hin]]; [discriminate Hin | discriminate Hin |].
      apply in_app_or in Hin.
      destruct Hin as [Hin | [Hin | []]]; [exact (Hes Hin)|].
      inversion Hin. congruence.
Qed.

End ForwardSkip.

Lemma skip_steps_over_the_week_of_the_cursor_witness :
  Forward.week_date
    (snd (Forward.week Sample.output
            (Sample2.a_forward_week_lost Sample.a_clock Sample.five_links)
            (Sample.a_start Sample2.a_monday))) = Sample2.two_mondays_later.
Proof.
  destruct (skip_steps_over_the_week_of_the_cursor Sample.output
              (Sample2.a_forward_week_lost Sample.a_clock Sample.five_links)
              (Sample.a_start Sample2.a_monday)
              Sample2.a_monday_later Sample2.two_mondays_later)
    as (_ & Hlost).
  - vm_compute. reflexivity.
  - vm_compute. reflexivity.
  - vm_compute. reflexivity.
  - reflexivity.
  - reflexivity.
  - destruct (Hlost Sample.five_links Py.BrowserError) as (_ & Hw & _).
    + reflexivity.
    + vm_compute. discriminate.
    + vm_compute. reflexivity.
    + reflexivity.
    + exact Hw.
Defined.

(** ** The last date of the CSV file *)

Section LastDates.
Import Text Unicode Regex Py Calendar Forward Csv Trip Dates LastDate.
Context {U : beyond_latin1}.
Variable short_year : Z -> text.
Local Open Scope Z_scope.

(** [>] on datetimes is the order of the components, the year first. *)
Lemma gt_lex (a b : datetime) :
  gt a b = true <->
  year b < year a \/
  (year a = year b /\
   (month b < month a \/
    (month a = month b /\
     (day b < day a \/ (day a = day b /\ tod b < tod a))))).
Proof.
  unfold gt.
  destruct (Z.compare_spec (year a) (year b));
    [destruct (Z.compare_spec (month a) (month b));
       [destruct (Z.compare_spec (day a) (day b)); [rewrite Z.ltb_lt|..]|..]|..];
    split; intros; try discriminate; try reflexivity; lia.
Qed.

Lemma gt_false (a b : datetime) :
  gt a b = false <->
  ~ (year b < year a \/
     (year a = year b /\
      (month b < month a \/
       (month a = month b /\
        (day b < day a \/ (day a = day b /\ tod b < tod a)))))).
Proof.
  rewrite <- gt_lex. destruct (gt a b); split; intros; try discriminate; try reflexivity.
  exfalso. auto.
Qed.

Lemma gt_irrefl (a : datetime) : gt a a = false.
Proof. apply gt_false. lia. Qed.

Lemma gt_below (x best y : datetime) :
  gt x best = false -> gt y best = true -> gt x y = false.
Proof. rewrite !gt_false, gt_lex. lia. Qed.

(** [max] returns one of the dates, and none is after it. *)
Lemma latest_is_greatest (dts : list datetime) (dt : datetime) :
  In (latest dt dts) (dt :: dts) /\
  forall x, In x (dt :: dts) -> gt x (latest dt dts) = false.
Proof.
  unfold latest.
  assert (Hgen : forall (seen : list datetime) (best : datetime),
             In best seen -> (forall x, In x seen -> gt x best = false) ->
             In (fold_left (fun best x => if gt x best then x else best) dts best)
                (seen ++ dts) /\
             forall x, In x (seen ++ dts) ->
                       gt x (fold_left (fun best x => if gt x best then x else best) dts best)
                       = false).
  { induction dts as [|y dts IH]; intros seen best Hin Hmax.
    - cbn [fold_left]. rewrite app_nil_r. split; assumption.
    - cbn [fold_left].
      replace (seen ++ y :: dts) with ((seen ++ [y]) ++ dts)
        by (rewrite <- app_assoc; reflexivity).
      destruct (gt y best) eqn:Hy; apply IH.
      + apply in_or_app. right. left. reflexivity.
      + intros x Hx. apply in_app_or in Hx. destruct Hx as [Hx | [<- | []]].
        * apply (gt_below x best y); [apply Hmax; exact Hx | exact Hy].
        * apply gt_irrefl.
      + apply in_or_app. left. exact Hin.
      + intros x Hx. apply in_app_or in Hx. destruct Hx as [Hx | [<- | []]].
        * apply Hmax. exact Hx.
        * exact Hy. }
  apply (Hgen [dt] dt).
  - left. reflexivity.
  - intros x [<- | []]. apply gt_irrefl.
Qed.

Lemma read_row_date (fieldnames row : list text) (dates : list datetime) (count : N) :
  fst (read_row fieldnames (dates, count) row) =
    dates ++ match date_of fieldnames row with Some dt => [dt] | None => [] end.
Proof.
  unfold read_row, date_of. destruct row as [|v row].
  - cbn [fst]. destruct fieldnames as [|f fieldnames]; cbn [row_get].
    + rewrite app_nil_r. reflexivity.
    + destruct (existsb _ _); rewrite app_nil_r; reflexivity.
  - destruct (row_get (str "Date") fieldnames (v :: row) None) as [[|c s]|];
      cbn [fst]; try (rewrite app_nil_r; reflexivity).
    destruct (strptime (c :: s) (str "%b %d, %Y")); cbn [fst];
      [reflexivity | rewrite app_nil_r; reflexivity].
Qed.

Lemma read_rows_dates (fieldnames : list text) (rows : list (list text))
      (acc : list datetime * N) :
  forall x : datetime,
    In x (fst (fold_left (read_row fieldnames) rows acc)) <->
    In x (fst acc) \/ exists row, In row rows /\ date_of fieldnames row = Some x.
Proof.
  revert acc. induction rows as [|row rows IH]; intros [dates count] x.
  - cbn [fold_left fst]. split; [auto|]. intros [H | (row & [] & _)]. exact H.
  - cbn [fold_left]. rewrite IH.
    pose proof (read_row_date fieldnames row dates count) as Hrow.
    destruct (read_row fieldnames (dates, count) row) as [dates' count'].
    cbn [fst] in *. subst dates'. rewrite in_app_iff. split.
    + intros [[H | H] | (r & Hr & Hd)].
      * left. exact H.
      * right. exists row. split; [left; reflexivity|].
        destruct (date_of fieldnames row) as [dt|]; [|destruct H].
        destruct H as [<- | []]. reflexivity.
      * right. exists r. split; [right; exact Hr | exact Hd].
    + intros [H | (r & [<- | Hr] & Hd)].
      * left. left. exact H.
      * left. right. rewrite Hd. left. reflexivity.
      * right. exists r. split; assumption.
Qed.

Lemma date_of_parsed (fieldnames row : list text) (dt : datetime) :
  date_of fieldnames row = Some dt ->
  valid_date (year dt) (month dt) (day dt) = true /\ at_midnight dt = dt.
Proof.
  unfold date_of.
  destruct (row_get _ _ _ _) as [[|c s]|]; try discriminate.
  destruct (strptime (c :: s) _) as [p|] eqn:Hp; try discriminate.
  intros H. inversion H; subst p.
  destruct (strptime_valid _ _ _ Hp) as [Hv Ht]. split; [exact Hv|].
  destruct dt as [y m d' t]. cbn in Ht. subst t. reflexivity.
Qed.

(** X18.  What get_last_date reports as the last date.  For a file with a
    first record, the result has no date exactly when no record has a Date
    field that strptime reads with "%b %d, %Y"; otherwise it is the date of
    one of the records, no record has a later one, and it is written by
    strftime: the day with two digits, so "Jul 1, 2024" in the file is
    reported as "Jul 01, 2024".  From the year 1000 on, strptime with the
    same format reads the reported text back as that date. *)
Theorem the_last_date_is_the_latest_that_parses :
  forall (path : text) (d : disk) (fieldnames : list text) (rows : list (list text)),
    d !! path = Some (fieldnames :: rows) ->
    (fst (get_last_date short_year path d) = None <->
     forall row, In row rows -> date_of fieldnames row = None) /\
    (forall s : text,
        fst (get_last_date short_year path d) = Some s ->
        exists row dt,
          In row rows /\ date_of fieldnames row = Some dt /\
          s = strftime_b_d_Y short_year dt /\
          (forall row' x, In row' rows -> date_of fieldnames row' = Some x ->
                          gt x dt = false) /\
          (1000 <= year dt -> strptime s (str "%b %d, %Y") = Returned dt)).
Proof.
  intros path d fieldnames rows Hd. unfold get_last_date. rewrite Hd.
  pose proof (read_rows_dates fieldnames rows ([], 0%N)) as Hdates.
  destruct (fold_left (read_row fieldnames) rows ([], 0%N)) as [dates count].
  cbn [fst] in Hdates. destruct dates as [|dt dts]; cbn [fst].
  - split.
    + split; [|reflexivity]. intros _ row Hrow.
      destruct (date_of fieldnames row) as [x|] eqn:Hx; [|reflexivity].
      exfalso. apply (proj2 (Hdates x)). right. exists row. split; assumption.
    + intros s Hs. discriminate Hs.
  - split.
    + split; [discriminate|]. intros Hnone. exfalso.
      destruct (proj1 (Hdates dt) (or_introl eq_refl)) as [[] | (row & Hrow & Hx)].
      rewrite (Hnone row Hrow) in Hx. discriminate Hx.
    + intros s Hs. inversion Hs as [Hs']. clear Hs.
      destruct (latest_is_greatest dts dt) as [Hin Hmax].
      destruct (proj1 (Hdates (latest dt dts)) Hin) as [[] | (row & Hrow & Hx)].
      exists row, (latest dt dts).
      split; [exact Hrow|]. split; [exact Hx|]. split; [reflexivity|].
      split.
      * intros row' x Hrow' Hx'. apply Hmax. apply (proj2 (Hdates x)).
        right. exists row'. split; assumption.
      * intros Hy. destruct (date_of_parsed _ _ _ Hx) as [Hv Hmid].
        unfold strftime_b_d_Y.
        replace (1000 <=? year (latest dt dts)) with true
          by (symmetry; apply Z.leb_le; exact Hy).
        rewrite (strptime_of_date_text (latest dt dts) (two_digits (day (latest dt dts)))
                   Hv Hy (or_intror eq_refl)).
        rewrite Hmid. reflexivity.
Qed.

End LastDates.

Lemma the_last_date_is_the_latest_that_parses_witness :
  exists dt : Calendar.datetime,
    Text.str "Jul 01, 2024" =
      LastDate.strftime_b_d_Y (fun _ => []) dt.
Proof.
  destruct (the_last_date_is_the_latest_that_parses (U := Unicode.latin1_only)
              (fun _ => []) Sample.output
              (Csv.save_csv [Sample.a_trip "Jul 1, 2024" "12.50"] Sample.output ∅)
              Csv.HEADERS [Csv.row_of (Sample.a_trip "Jul 1, 2024" "12.50")])
    as (_ & Hlast).
  - apply save_csv_absent. apply lookup_empty.
  - destruct (Hlast (Text.str "Jul 01, 2024")) as (row & dt & _ & _ & Hs & _).
    + vm_compute. reflexivity.
    + exists dt. exact Hs.
Defined.

(** ** The trip list and the addresses of a trip *)

Section FirstOccurrences.
Import Text Regex Py Extract Pages.

Lemma existsb_text_eqb (v : text) (seen : list text) :
  existsb (text_eqb v) seen = true <-> In v seen.
Proof.
  rewrite existsb_exists. split.
  - intros (x & Hx & Heq). apply text_eqb_eq in Heq. subst x. exact Hx.
  - intros Hin. exists v. split; [exact Hin | apply text_eqb_eq; reflexivity].
Qed.

Lemma dedup_from_members (l seen : list text) (v : text) :
  In v (dedup_from seen l) <-> In v l /\ ~ In v seen.
Proof.
  revert seen. induction l as [|x l IH]; intros seen; cbn [dedup_from].
  - split; [intros [] | intros [[] _]].
  - destruct (existsb (text_eqb x) seen) eqn:Hx.
    + apply existsb_text_eqb in Hx. rewrite IH. split.
      * intros [Hl Hs]. split; [right; exact Hl | exact Hs].
      * intros [[-> | Hl] Hs]; [contradiction | split; assumption].
    + assert (Hnot : ~ In x seen).
      { intros Hin. apply existsb_text_eqb in Hin. congruence. }
      cbn [In]. rewrite IH. cbn [In]. split.
      * intros [<- | [Hl Hs]]; [split; [left; reflexivity | exact Hnot]|].
        split; [right; exact Hl | tauto].
      * intros [[-> | Hl] Hs]; [left; reflexivity|].
        destruct (text_eqb x v) eqn:Hxv; [apply text_eqb_eq in Hxv; left; exact Hxv|].
        right. split; [exact Hl|]. intros [Heq | Hin]; [|contradiction].
        apply text_eqb_eq in Heq. congruence.
Qed.

Lemma dedup_from_nodup (l seen : list text) : List.NoDup (dedup_from seen l).
Proof.
  revert seen. induction l as [|x l IH]; intros seen; cbn [dedup_from].
  - constructor.
  - destruct (existsb (text_eqb x) seen); [apply IH|].
    constructor; [|apply IH].
    rewrite dedup_from_members. intros [_ Hnot]. apply Hnot. left. reflexivity.
Qed.

(** A list without repetitions is left as it is. *)
Lemma dedup_from_of_nodup (l seen : list text) :
  List.NoDup l -> (forall v, In v l -> ~ In v seen) -> dedup_from seen l = l.
Proof.
  intros Hnd. revert seen. induction Hnd as [|x l Hx Hnd IH]; intros seen Hseen.
  - reflexivity.
  - cbn [dedup_from].
    destruct (existsb (text_eqb x) seen) eqn:Hex.
    + apply existsb_text_eqb in Hex. exfalso.
      exact (Hseen x (or_introl eq_refl) Hex).
    + f_equal. apply IH. intros v Hv [<- | Hin].
      * contradiction.
      * exact (Hseen v (or_intror Hv) Hin).
Qed.

(** X19.  The trip links of a week and the addresses of a trip are first
    occurrences.  get_trip_urls returns every link of the page once: no link
    twice, no link lost, none made up, and a list without repetitions as it
    is.  The same filter makes the address list of extract_trip_data, so a
    drop-off address, when there is one, differs from the pick-up address: a
    trip that ends where it began has an empty drop-off. *)
Theorem links_and_addresses_are_first_occurrences :
  (forall hrefs : list text,
      List.NoDup (get_trip_urls hrefs) /\
      (forall u, In u (get_trip_urls hrefs) <-> In u hrefs) /\
      (List.NoDup hrefs -> get_trip_urls hrefs = hrefs)) /\
  (forall (minutes_to_fixed : text -> text -> text) (doc : document) (t : Trip.trip),
      extract_trip_data minutes_to_fixed doc = Returned t ->
      Trip.dropoff t <> [] -> Trip.pickup t <> Trip.dropoff t).
Proof.
  split.
  - intros hrefs. unfold get_trip_urls. split; [apply dedup_from_nodup|]. split.
    + intros u. rewrite dedup_from_members. cbn [In]. tauto.
    + intros Hnd. apply dedup_from_of_nodup; [exact Hnd|]. intros v _ [].
  - intros minutes_to_fixed doc t. unfold extract_trip_data. cbv zeta.
    match goal with
    | |- context [dedup_from [] ?l] =>
        pose proof (dedup_from_nodup l []) as Hnd; destruct (dedup_from [] l) as [|a [|b rest]]
    end;
      (match goal with
       | |- bind ?p _ = _ -> _ => destruct p as [pts|e]; cbn [bind]; [|discriminate]
       end);
      intros H; inversion H; subst t; cbn [Trip.pickup Trip.dropoff nth].
    + intros Hd. congruence.
    + intros Hd. congruence.
    + intros _ Heq. subst b. inversion Hnd as [|? ? Hnot _]. apply Hnot. left. reflexivity.
Qed.

End FirstOccurrences.

(** ** The amounts of a trip *)

Section Amounts.
Import Text Regex Py Extract Pages.

Lemma rounds_captures (Q : nat -> text -> Prop) (step : cont -> cont) (r : regex)
      (greedy : bool) (k : cont) :
  (forall k' b s c m, step k' b s c = Some m ->
     exists b' s' c', consumes r s s' /\ k' b' s' c' = Some m /\
                      (caps_hold Q c -> caps_hold Q c')) ->
  forall fuel b s c m,
    rounds step greedy k fuel b s c = Some m ->
    exists b' s' c', consumes (Rep greedy r) s s' /\ k b' s' c' = Some m /\
                     (caps_hold Q c -> caps_hold Q c').
Proof.
  intros Hstep. induction fuel as [|fuel IH]; intros b s c m H.
  - simpl in H. exists b, s, c. split; [constructor | split; [exact H | auto]].
  - cbn [rounds] in H.
    assert (Hagain : forall m',
      step (fun b' s' c' =>
              if (length s' <? length s)%nat
              then rounds step greedy k fuel b' s' c' else None) b s c = Some m' ->
      exists b' s' c', consumes (Rep greedy r) s s' /\ k b' s' c' = Some m' /\
                       (caps_hold Q c -> caps_hold Q c')).
    { intros m' Hm'. apply Hstep in Hm' as (b1 & s1 & c1 & Hc1 & Hk1 & Hq1).
      destruct (length s1 <? length s)%nat; [|discriminate].
      apply IH in Hk1 as (b2 & s2 & c2 & Hc2 & Hk2 & Hq2).
      exists b2, s2, c2. split; [|split; [exact Hk2 | auto]].
      eapply consumes_rep_more; eassumption. }
    destruct greedy.
    + destruct (step _ b s c) as [m1|] eqn:E.
      * inversion H; subst. apply Hagain. reflexivity.
      * exists b, s, c. split; [constructor | split; [exact H | auto]].
    + destruct (k b s c) as [m1|] eqn:E.
      * inversion H; subst. exists b, s, c. split; [constructor | split; [exact E | auto]].
      * apply Hagain. exact H.
Qed.

(** Matching records only what the groups of the pattern consume. *)
Lemma run_captures (Q : nat -> text -> Prop) (r : regex) :
  groups_hold Q r ->
  forall k b s c m,
    run r k b s c = Some m ->
    exists b' s' c', consumes r s s' /\ k b' s' c' = Some m /\
                     (caps_hold Q c -> caps_hold Q c').
Proof.
  induction r as [| p | r1 IH1 r2 IH2 | r1 IH1 r2 IH2 | g r1 IH1 | i r1 IH1 | |];
    cbn [groups_hold]; intros Hg k b s c m H; cbn [run] in H.
  - exists b, s, c. split; [constructor | split; [exact H | auto]].
  - destruct s as [|x s]; [discriminate|].
    destruct (p x) eqn:Hp; [|discriminate].
    exists false, s, c. split; [constructor; exact Hp | split; [exact H | auto]].
  - destruct Hg as [Hg1 Hg2].
    apply (IH1 Hg1) in H as (b1 & s1 & c1 & Hc1 & H & Hq1).
    apply (IH2 Hg2) in H as (b2 & s2 & c2 & Hc2 & H & Hq2).
    exists b2, s2, c2. split; [econstructor; eassumption | split; [exact H | auto]].
  - destruct Hg as [Hg1 Hg2].
    destruct (run r1 k b s c) as [m1|] eqn:E.
    + inversion H; subst. apply (IH1 Hg1) in E as (b1 & s1 & c1 & Hc1 & E & Hq1).
      exists b1, s1, c1. split; [apply consumes_alt_l; exact Hc1 | split; [exact E | auto]].
    + apply (IH2 Hg2) in H as (b1 & s1 & c1 & Hc1 & H & Hq1).
      exists b1, s1, c1. split; [apply consumes_alt_r; exact Hc1 | split; [exact H | auto]].
  - eapply rounds_captures; [|exact H]. intros k' b0 s0 c0 m0. apply (IH1 Hg).
  - destruct Hg as [Hg1 Hgrp].
    apply (IH1 Hg1) in H as (b1 & s1 & c1 & Hc1 & H & Hq1).
    exists b1, s1, ((i, consumed s s1) :: c1).
    split; [constructor; exact Hc1 | split; [exact H|]].
    intros Hq j g [Heq | Hin].
    + inversion Heq; subst j g. apply Hgrp. exact Hc1.
    + exact (Hq1 Hq j g Hin).
  - destruct b; [|discriminate]. exists true, s, c.
    split; [constructor | split; [exact H | auto]].
  - destruct s; [|discriminate]. exists b, [], c.
    split; [constructor | split; [exact H | auto]].
Qed.

Lemma search_from_captures (Q : nat -> text -> Prop) (r : regex) :
  groups_hold Q r ->
  forall s b m, search_from r b s = Some m -> caps_hold Q (snd m).
Proof.
  intros Hg.
  assert (Hhere : forall b s m, match_here r b s = Some m -> caps_hold Q (snd m)).
  { intros b s m H. unfold match_here in H.
    apply (run_captures Q r Hg) in H as (b' & s' & c' & _ & Hacc & Hq).
    inversion Hacc; subst m. cbn [snd]. apply Hq. intros i g []. }
  induction s as [|x s IH]; intros b m H; cbn [search_from] in H.
  - destruct (match_here r b []) as [m1|] eqn:E; [|discriminate].
    inversion H; subst. exact (Hhere _ _ _ E).
  - destruct (match_here r b (x :: s)) as [m1|] eqn:E.
    + inversion H; subst. exact (Hhere _ _ _ E).
    + exact (IH _ _ H).
Qed.

Lemma group_is_recorded (i : nat) (c : caps) (g : text) :
  group i c = Some g -> In (i, g) c.
Proof.
  induction c as [|[j w] c IH]; cbn [group]; [discriminate|].
  destruct (i =? j)%nat eqn:Hij.
  - intros H. inversion H; subst. apply Nat.eqb_eq in Hij. subst j. left. reflexivity.
  - intros H. right. exact (IH H).
Qed.

(** What a repetition of a class consumes is of the class. *)
Lemma consumes_class_star (g : bool) (p : char -> bool) (s s' : text) :
  consumes (Rep g (One p)) s s' ->
  exists w, s = w ++ s' /\ Forall (fun x => p x = true) w.
Proof.
  intros H. remember (Rep g (One p)) as r eqn:Er.
  induction H as [s | q x s Hq | r1 r2 s s1 s2 _ _ _ _
                 | r1 r2 s s' _ _ | r1 r2 s s' _ _ | g' r s
                 | g' r s s1 s2 H1 _ H2 IH2 | i r s s' _ _ | s | s];
    try discriminate Er.
  - exists []. split; [reflexivity | constructor].
  - inversion Er; subst g' r. destruct (IH2 eq_refl) as (w & -> & Hw).
    inversion H1; subst. exists (x :: w). split; [reflexivity|].
    constructor; assumption.
Qed.

Lemma skip_digits_app (ds rest : text) :
  Forall (fun x => ascii_digit x = true) ds ->
  skip_digits (ds ++ rest) = skip_digits rest.
Proof.
  induction 1 as [|x ds Hx _ IH]; [reflexivity|].
  cbn [app skip_digits]. rewrite Hx. exact IH.
Qed.

Lemma skip_digits_all (ds : text) :
  Forall (fun x => ascii_digit x = true) ds -> skip_digits ds = [].
Proof.
  intros H. rewrite <- (app_nil_r ds). rewrite (skip_digits_app ds [] H). reflexivity.
Qed.

Lemma is_amount_parts (x : char) (ds stop ds' : text) :
  ascii_digit x = true ->
  Forall (fun x => ascii_digit x = true) ds ->
  stop = [] \/ stop = [46] ->
  Forall (fun x => ascii_digit x = true) ds' ->
  is_amount (x :: ds ++ stop ++ ds') = true.
Proof.
  intros Hx Hds Hstop Hds'. unfold is_amount. rewrite Hx. cbn [andb].
  change (x :: ds ++ stop ++ ds') with ((x :: ds) ++ stop ++ ds').
  rewrite (skip_digits_app (x :: ds)) by (constructor; assumption).
  destruct Hstop as [-> | ->]; cbn [app].
  - rewrite (skip_digits_all ds' Hds'). reflexivity.
  - cbn [skip_digits]. change (ascii_digit 46) with false. cbv beta iota.
    rewrite N.eqb_refl. cbn [andb]. apply forallb_forall.
    intros y Hy. exact (proj1 (List.Forall_forall _ _) Hds' y Hy).
Qed.

(** [\d+\.?\d*] consumes an amount. *)
Lemma amount_body (s s' : text) :
  consumes (seq [plus d; opt (chr 46); star d]) s s' -> is_amount (consumed s s') = true.
Proof.
  cbn [seq]. unfold plus, opt, star.
  intros H. inversion H as [| |? ? ? s1 ? H1 H2| | | | | | |]; subst.
  inversion H1 as [| |? ? ? s0 ? Hd Hds| | | | | | |]; subst.
  inversion Hd as [|? x ? Hx| | | | | | | |]; subst.
  destruct (consumes_class_star _ _ _ _ Hds) as (ds & -> & Hdigits).
  inversion H2 as [| |? ? ? s2 ? Hstop Hrest| | | | | | |]; subst.
  destruct (consumes_class_star _ _ _ _ Hrest) as (ds' & -> & Hdigits').
  inversion Hstop as [| | |? ? ? ? Hone|? ? ? ? Heps| | | | |]; subst.
  - inversion Hone as [|? y ? Hy| | | | | | | |]; subst.
    unfold char_eqb in Hy. apply N.eqb_eq in Hy. subst y.
    replace (x :: ds ++ 46 :: ds' ++ s') with ((x :: ds ++ [46] ++ ds') ++ s')
      by (cbn [app]; rewrite <- !app_assoc; reflexivity).
    rewrite consumed_app. apply is_amount_parts; auto.
  - inversion Heps; subst.
    replace (x :: ds ++ ds' ++ s') with ((x :: ds ++ [] ++ ds') ++ s')
      by (cbn [app]; rewrite <- !app_assoc; reflexivity).
    rewrite consumed_app. apply is_amount_parts; auto.
Qed.

(** [\d+\.\d+] consumes an amount. *)
Lemma rate_body (s s' : text) :
  consumes (seq [plus d; chr 46; plus d]) s s' -> is_amount (consumed s s') = true.
Proof.
  cbn [seq]. unfold plus.
  intros H. inversion H as [| |? ? ? s1 ? H1 H2| | | | | | |]; subst.
  inversion H1 as [| |? ? ? s0 ? Hd Hds| | | | | | |]; subst.
  inversion Hd as [|? x ? Hx| | | | | | | |]; subst.
  destruct (consumes_class_star _ _ _ _ Hds) as (ds & -> & Hdigits).
  inversion H2 as [| |? ? ? s2 ? Hstop Hrest| | | | | | |]; subst.
  inversion Hstop as [|? y ? Hy| | | | | | | |]; subst.
  unfold char_eqb in Hy. apply N.eqb_eq in Hy. subst y.
  inversion Hrest as [| |? ? ? s3 ? Hd' Hds'| | | | | | |]; subst.
  inversion Hd' as [|? x' ? Hx'| | | | | | | |]; subst.
  destruct (consumes_class_star _ _ _ _ Hds') as (ds' & -> & Hdigits').
  replace (x :: ds ++ 46 :: x' :: ds' ++ s') with ((x :: ds ++ [46] ++ x' :: ds') ++ s')
    by (cbn [app]; rewrite <- !app_assoc; reflexivity).
  rewrite consumed_app. apply is_amount_parts; auto.
Qed.

(** [\d+] consumes an amount. *)
Lemma number_body (s s' : text) :
  consumes (plus d) s s' -> is_amount (consumed s s') = true.
Proof.
  unfold plus.
  intros H. inversion H as [| |? ? ? s0 ? Hd Hds| | | | | | |]; subst.
  inversion Hd as [|? x ? Hx| | | | | | | |]; subst.
  destruct (consumes_class_star _ _ _ _ Hds) as (ds & -> & Hdigits).
  replace (x :: ds ++ s') with ((x :: ds ++ [] ++ []) ++ s')
    by (cbn [app]; rewrite app_nil_r; reflexivity).
  rewrite consumed_app. apply is_amount_parts; auto.
Qed.

Lemma groups_hold_seq (Q : nat -> text -> Prop) (rs : list regex) :
  Forall (groups_hold Q) rs -> groups_hold Q (seq rs).
Proof.
  induction 1 as [|r rs Hr Hrs IH]; [exact I|].
  destruct rs as [|r' rs]; [exact Hr|].
  change (seq (r :: r' :: rs)) with (Cat r (seq (r' :: rs))).
  split; [exact Hr | exact IH].
Qed.

Lemma groups_hold_classes (Q : nat -> text -> Prop) (ps : list (char -> bool)) :
  groups_hold Q (seq (map One ps)).
Proof.
  apply groups_hold_seq. induction ps as [|p ps IH]; constructor; [exact I | exact IH].
Qed.

Lemma groups_hold_lit (Q : nat -> text -> Prop) (s : text) : groups_hold Q (lit s).
Proof.
  unfold lit, chr. rewrite <- (map_map char_eqb One). apply groups_hold_classes.
Qed.

Lemma groups_hold_lit_i (Q : nat -> text -> Prop) (s : text) : groups_hold Q (lit_i s).
Proof.
  unfold lit_i. apply groups_hold_seq.
  induction s as [|c s IH]; constructor; [|exact IH].
  destruct (ascii_lower c); exact I.
Qed.

Lemma groups_hold_amount : groups_hold amount_in_group_1 amount.
Proof.
  unfold amount. apply groups_hold_seq. repeat constructor.
  intros s s' H _. exact (amount_body s s' H).
Qed.

Lemma zero_is_amount : is_amount zero = true.
Proof. reflexivity. Qed.

(** The amount a pattern finds, or the default. *)
Lemma found_amount (r : regex) (s dflt : text) :
  groups_hold amount_in_group_1 r -> is_amount dflt = true ->
  is_amount (match js_match r s with
             | Some c => default dflt (group 1 c)
             | None => dflt
             end) = true.
Proof.
  intros Hg Hd. unfold js_match, search.
  destruct (search_from r true s) as [m|] eqn:Hm; cbn [option_map]; [|exact Hd].
  pose proof (search_from_captures _ r Hg s true m Hm) as Hq.
  destruct (group 1 (snd m)) as [g|] eqn:Hgrp; cbn [default]; [|exact Hd].
  exact (Hq 1%nat g (group_is_recorded _ _ _ Hgrp) eq_refl).
Qed.

Lemma group_or_amount (r : regex) (s : text) :
  groups_hold amount_in_group_1 r ->
  is_amount (group_or zero 1 (js_match r s)) = true.
Proof.
  intros Hg. exact (found_amount r s zero Hg zero_is_amount).
Qed.

Lemma groups_hold_fare : groups_hold amount_in_group_1 fare_re.
Proof.
  unfold fare_re. apply groups_hold_seq.
  constructor; [apply groups_hold_lit|]. repeat constructor.
  intros s s' H _. exact (amount_body s s' H).
Qed.

Lemma groups_hold_fee (label : regex) :
  groups_hold amount_in_group_1 label -> groups_hold amount_in_group_1 (fee_re label).
Proof.
  intros Hl. unfold fee_re. apply groups_hold_seq.
  constructor; [exact Hl|]. constructor; [exact I|]. constructor; [exact I|].
  constructor; [exact groups_hold_amount | constructor].
Qed.

Lemma groups_hold_charge (label : text) : groups_hold amount_in_group_1 (charge_re label).
Proof.
  unfold charge_re. apply groups_hold_seq.
  constructor; [apply groups_hold_lit|]. constructor; [exact I|].
  constructor; [exact groups_hold_amount | constructor].
Qed.

Lemma groups_hold_tip_included : groups_hold amount_in_group_1 tip_included_re.
Proof.
  unfold tip_included_re. apply groups_hold_seq.
  constructor; [exact groups_hold_amount|]. constructor; [exact I|].
  constructor; [apply groups_hold_lit | constructor].
Qed.

Lemma groups_hold_per (unit : text) : groups_hold amount_in_group_1 (per_re unit).
Proof.
  unfold per_re. apply groups_hold_seq.
  constructor; [exact I|]. constructor.
  - split; [repeat constructor|]. intros s s' H _. exact (rate_body s s' H).
  - constructor; [exact I|]. constructor; [apply groups_hold_lit | constructor].
Qed.

Lemma groups_hold_number : groups_hold amount_in_group_1 number_re.
Proof.
  unfold number_re. split; [repeat constructor|].
  intros s s' H _. exact (number_body s s' H).
Qed.

(** One call of the callback keeps every variable an amount. *)
Lemma item_amounts (v : items) (txt : text) :
  Forall (fun g => is_amount g = true) (items_of v) ->
  Forall (fun g => is_amount g = true) (items_of (item v txt)).
Proof.
  unfold items_of. intros Hv.
  repeat match goal with
         | H : Forall _ (_ :: _) |- _ => inversion H; subst; clear H
         end.
  pose proof (group_or_amount amount txt groups_hold_amount) as Hvalue.
  pose proof (found_amount fare_re txt (i_fare v) groups_hold_fare) as Hfare.
  unfold item. cbv zeta. cbn [i_base i_distancePay i_timePay i_surge i_promotion
                              i_minFare i_waitTime i_fare i_totalEarnings i_tip].
  repeat constructor;
    repeat match goal with
           | |- context [if ?b then _ else _] => destruct b
           end;
    auto.
Qed.

Lemma items_amounts (l : list text) (v : items) :
  Forall (fun g => is_amount g = true) (items_of v) ->
  Forall (fun g => is_amount g = true) (items_of (fold_left item l v)).
Proof.
  revert v. induction l as [|txt l IH]; intros v Hv; cbn [fold_left]; [exact Hv|].
  apply IH. apply item_amounts. exact Hv.
Qed.

(** X20.  Every amount of an extracted trip is a plain number.  The eighteen
    columns that hold money, rates and points are each of the shape digits,
    then possibly a full stop and digits: never empty, and never with a
    currency sign, a minus sign, a thousands separator or a blank.  A column
    whose line is not on the page is "0". *)
Theorem extracted_amounts_are_plain_numbers :
  forall (minutes_to_fixed : text -> text -> text) (doc : document) (t : Trip.trip),
    extract_trip_data minutes_to_fixed doc = Returned t ->
    Forall (fun g => is_amount g = true) (amounts_of t).
Proof.
  intros minutes_to_fixed doc t. unfold extract_trip_data. cbv zeta.
  pose proof (items_amounts (li doc) no_items ltac:(repeat constructor)) as Hv.
  set (v := fold_left item (li doc) no_items) in *.
  unfold items_of in Hv.
  repeat match goal with
         | H : Forall _ (_ :: _) |- _ => inversion H; subst; clear H
         end.
  assert (Hpoints : forall el pts,
            match js_match number_re (textContent el) with
            | Some c => match group 1 c with
                        | Some g => Returned g
                        | None => Raised ScriptError
                        end
            | None => Raised ScriptError
            end = Returned pts -> is_amount pts = true).
  { intros el pts. unfold js_match, search.
    destruct (search_from number_re true (textContent el)) as [m|] eqn:Hm;
      cbn [option_map]; [|discriminate].
    destruct (group 1 (snd m)) as [g|] eqn:Hg; [|discriminate].
    intros H. inversion H; subst pts.
    exact (search_from_captures _ _ groups_hold_number _ _ _ Hm 1%nat g
             (group_is_recorded _ _ _ Hg) eq_refl). }
  match goal with
  | |- bind ?p _ = _ -> _ =>
      assert (Hpts : forall pts, p = Returned pts -> is_amount pts = true);
      [|destruct p as [pts|e]; cbn [bind]; [|discriminate]]
  end.
  { intros pts.
    destruct (find _ (all doc)) as [el|]; [apply Hpoints|].
    intros H. inversion H. reflexivity. }
  specialize (Hpts pts eq_refl).
  intros H. inversion H; subst t. clear H. unfold amounts_of.
  cbn [Trip.distancePay Trip.timePay Trip.surge Trip.promotion Trip.base Trip.fare
       Trip.tip Trip.minFare Trip.waitTime Trip.regionFee Trip.airportFee
       Trip.insuranceFee Trip.uberFee Trip.points Trip.perMile Trip.perMin
       Trip.totalEarnings Trip.customerFare].
  repeat constructor; try assumption.
  - destruct (text_eqb (i_tip v) zero); [|assumption].
    apply found_amount; [exact groups_hold_tip_included | assumption].
  - apply group_or_amount. apply groups_hold_fee. apply groups_hold_lit.
  - apply group_or_amount. apply groups_hold_fee. apply groups_hold_lit.
  - apply group_or_amount. apply groups_hold_fee. apply groups_hold_lit_i.
  - apply group_or_amount. apply groups_hold_charge.
  - apply group_or_amount. apply groups_hold_per.
  - apply group_or_amount. apply groups_hold_per.
  - destruct (heading doc) as [h|]; [|assumption].
    destruct (has "$" h); [|assumption].
    apply found_amount; [exact groups_hold_amount | assumption].
  - apply group_or_amount. apply groups_hold_charge.
Qed.

End Amounts.

Lemma extracted_amounts_are_plain_numbers_witness :
  exists t : Trip.trip,
    Extract.extract_trip_data Sample.fixed Sample.a_bare_page = Py.Returned t /\
    Forall (fun g => Pages.is_amount g = true) (Pages.amounts_of t).
Proof.
  eexists. split; [vm_compute; reflexivity|].
  apply (extracted_amounts_are_plain_numbers Sample.fixed Sample.a_bare_page).
  vm_compute. reflexivity.
Defined.

Lemma links_and_addresses_are_first_occurrences_witness :
  exists t : Trip.trip,
    Extract.extract_trip_data Sample.fixed Sample2.a_page_of_a_ride = Py.Returned t /\
    Trip.pickup t <> Trip.dropoff t.
Proof.
  eexists. split; [vm_compute; reflexivity|].
  apply (proj2 links_and_addresses_are_first_occurrences Sample.fixed Sample2.a_page_of_a_ride).
  - vm_compute. reflexivity.
  - vm_compute. discriminate.
Defined.

(** ** The header of a trip page *)

Section Header.
Import Text Regex Py Extract Pages Shape.

Lemma run_cat (r1 r2 : regex) (k : cont) : run (Cat r1 r2) k = run r1 (run r2 k).
Proof. reflexivity. Qed.

Lemma rounds_lazy_step (step : cont -> cont) (k : cont) (fuel : nat)
    (b : bool) (s : text) (c : caps) :
  rounds step false k (S fuel) b s c =
    match k b s c with
    | Some m => Some m
    | None =>
        step (fun b' s' c' =>
                if (length s' <? length s)%nat
                then rounds step false k fuel b' s' c' else None) b s c
    end.
Proof. reflexivity. Qed.

(** A greedy run over a class fails when what follows fails wherever the run
    may stop. *)
Lemma rounds_greedy_class_none (p : char -> bool) (k : cont) (rest : text) (c : caps) :
  match rest with [] => True | y :: _ => p y = false end ->
  forall ds fuel b,
    Forall (fun x => p x = true) ds ->
    (forall b' i, k b' (drop i ds ++ rest) c = None) ->
    rounds (run (One p)) true k fuel b (ds ++ rest) c = None.
Proof.
  intros Hrest. induction ds as [|x ds IH]; intros fuel b Hds Hk.
  - pose proof (Hk b 0%nat) as H0. cbn [drop app] in H0 |- *.
    destruct fuel as [|fuel]; [exact H0|].
    rewrite rounds_greedy_step, (run_one_miss p _ b rest c Hrest). exact H0.
  - inversion Hds as [|? ? Hx Hds']; subst.
    pose proof (Hk b 0%nat) as H0. cbn [drop app] in H0 |- *.
    destruct fuel as [|fuel]; [exact H0|].
    rewrite rounds_greedy_step, (run_one_hit p _ b x _ c Hx).
    destruct (length (ds ++ rest) <? length (x :: ds ++ rest))%nat; [|exact H0].
    rewrite (IH fuel false Hds'); [exact H0|].
    intros b' i. exact (Hk b' (S i)).
Qed.

Lemma miss_after_drop (q : char -> bool) (rest : text) :
  match rest with [] => True | y :: _ => q y = false end ->
  forall ds i,
    Forall (fun x => q x = false) ds ->
    match drop i ds ++ rest with [] => True | y :: _ => q y = false end.
Proof.
  intros Hrest. induction ds as [|x ds IH]; intros i Hds.
  - destruct i; exact Hrest.
  - inversion Hds as [|? ? Hx Hds']; subst. destruct i as [|i]; cbn [drop app].
    + exact Hx.
    + apply IH. exact Hds'.
Qed.

(** White space and then a character the subject does not have there. *)
Lemma star_then_miss (p q : char -> bool) (R : cont) (ds rest : text) (b : bool) (c : caps) :
  Forall (fun x => p x = true) ds ->
  match rest with [] => True | y :: _ => p y = false end ->
  Forall (fun x => q x = false) ds ->
  match rest with [] => True | y :: _ => q y = false end ->
  run (star (One p)) (run (One q) R) b (ds ++ rest) c = None.
Proof.
  intros Hp Hrest Hq Hqrest.
  change (run (star (One p)) (run (One q) R) b (ds ++ rest) c)
    with (rounds (run (One p)) true (run (One q) R) (length (ds ++ rest)) b (ds ++ rest) c).
  apply rounds_greedy_class_none; [exact Hrest | exact Hp|].
  intros b' i. apply run_one_miss. apply miss_after_drop; assumption.
Qed.

(** A lazy run over a class stops at the first place where what follows
    succeeds. *)
Lemma rounds_lazy_class (p : char -> bool) (k : cont) (rest : text) (c : caps) (m : found) :
  (forall b', k b' rest c = Some m) ->
  forall w fuel b,
    Forall (fun x => p x = true) w ->
    (length w <= fuel)%nat ->
    (forall b' i, (i < length w)%nat -> k b' (drop i w ++ rest) c = None) ->
    rounds (run (One p)) false k fuel b (w ++ rest) c = Some m.
Proof.
  intros Hk. induction w as [|x w IH]; intros fuel b Hw Hfuel Hmiss.
  - cbn [app]. destruct fuel as [|fuel]; [apply Hk|].
    rewrite rounds_lazy_step, Hk. reflexivity.
  - inversion Hw as [|? ? Hx Hw']; subst.
    destruct fuel as [|fuel]; [simpl in Hfuel; lia|].
    pose proof (Hmiss b 0%nat ltac:(simpl; lia)) as H0. cbn [drop app] in H0 |- *.
    rewrite rounds_lazy_step, H0, (run_one_hit p _ b x _ c Hx).
    replace (length (w ++ rest) <? length (x :: w ++ rest))%nat with true
      by (symmetry; apply Nat.ltb_lt; simpl; lia).
    apply IH; [exact Hw' | simpl in Hfuel; lia|].
    intros b' i Hi. apply (Hmiss b' (S i)). simpl. lia.
Qed.

Lemma forallb_Forall (p : char -> bool) (s : text) :
  forallb p s = true <-> Forall (fun x => p x = true) s.
Proof.
  induction s as [|x s IH]; cbn [forallb].
  - split; [constructor | reflexivity].
  - rewrite andb_true_iff, IH. split.
    + intros [Hx Hs]. constructor; assumption.
    + intros H. inversion H; subst. split; assumption.
Qed.

(** A text that ends with no white space has a character that is none, after
    white space only. *)
Lemma first_bare_char (g : text) :
  starts_bare (rev g) = true ->
  exists ds x post,
    g = ds ++ x :: post /\ Forall (fun y => js_space y = true) ds /\ js_space x = false.
Proof.
  intros Hlast.
  destruct (class_prefix js_space g) as (ds & r & Hg & Hds & Hr).
  destruct r as [|x post].
  - exfalso. rewrite app_nil_r in Hg. subst g.
    destruct (rev ds) as [|z l] eqn:Hrev; [discriminate Hlast|].
    assert (Hz : In z ds).
    { apply in_rev. rewrite Hrev. left. reflexivity. }
    pose proof (proj1 (List.Forall_forall _ _) Hds z Hz) as Hsp.
    cbn [starts_bare] in Hlast. rewrite Hsp in Hlast. discriminate Hlast.
  - exists ds, x, post. split; [exact Hg|]. split; assumption.
Qed.

(** What is left of a field from any place inside it still ends with no
    white space. *)
Lemma drop_ends_bare (f : text) (i : nat) :
  (i < length f)%nat -> starts_bare (rev f) = true -> starts_bare (rev (drop i f)) = true.
Proof.
  intros Hi Hlast.
  rewrite <- (take_drop i f) in Hlast. rewrite rev_app_distr in Hlast.
  destruct (rev (drop i f)) as [|z l] eqn:Hrev; [|exact Hlast].
  exfalso. apply (f_equal (@length char)) in Hrev.
  rewrite length_rev, length_drop in Hrev. cbn in Hrev. lia.
Qed.

Lemma inner_char_no_bullet (x : char) : inner_char x = true -> char_eqb bullet x = false.
Proof.
  unfold inner_char, char_eqb. rewrite andb_true_iff, negb_true_iff.
  intros [_ H]. rewrite N.eqb_sym. exact H.
Qed.

(** Before the end of a field, white space and a bullet are not found. *)
Lemma no_bullet_inside (R : cont) (f rest : text) (i : nat) (b : bool) (c : caps) :
  (i < length f)%nat ->
  starts_bare (rev f) = true ->
  Forall (fun x => inner_char x = true) f ->
  run (star ws) (run (chr bullet) R) b (drop i f ++ rest) c = None.
Proof.
  intros Hi Hlast Hinner.
  destruct (first_bare_char (drop i f) (drop_ends_bare f i Hi Hlast))
    as (ds & x & post & Hg & Hds & Hx).
  assert (Hin : Forall (fun y => char_eqb bullet y = false) (ds ++ x :: post)).
  { rewrite <- Hg. apply List.Forall_forall. intros y Hy.
    apply inner_char_no_bullet.
    apply (proj1 (List.Forall_forall _ _) Hinner y).
    rewrite <- (take_drop i f). apply in_or_app. right. exact Hy. }
  rewrite Hg, <- app_assoc. cbn [app].
  apply Forall_app in Hin as [Hin1 Hin2]. inversion Hin2 as [|? ? Hbx _]; subst.
  apply star_then_miss; [exact Hds | exact Hx | exact Hin1 | exact Hbx].
Qed.

(** A lazy group before white space and a bullet takes the field. *)
Lemma lazy_field (i : nat) (R : cont) (f rest : text) (b : bool) (c : caps) (m : found) :
  is_field f = true ->
  (forall b', run (star ws) (run (chr bullet) R) b' rest ((i, f) :: c) = Some m) ->
  run (Grp i (lazy_plus dot)) (run (star ws) (run (chr bullet) R)) b (f ++ rest) c = Some m.
Proof.
  unfold is_field. rewrite !andb_true_iff. intros [[Hhead Hlast] Hinner] Hk.
  apply forallb_Forall in Hinner.
  destruct f as [|x f]; [discriminate Hhead|].
  set (K := run (star ws) (run (chr bullet) R)) in *.
  change (run (Grp i (lazy_plus dot)) K b ((x :: f) ++ rest) c)
    with (run (One js_dot)
            (run (Rep false (One js_dot))
               (fun b' s' c' => K b' s' ((i, consumed ((x :: f) ++ rest) s') :: c')))
            b (x :: f ++ rest) c).
  assert (Hdots : Forall (fun y => js_dot y = true) (x :: f)).
  { apply List.Forall_forall. intros y Hy.
    pose proof (proj1 (List.Forall_forall _ _) Hinner y Hy) as H.
    unfold inner_char in H. apply andb_true_iff in H. exact (proj1 H). }
  inversion Hdots as [|? ? Hx Hf]; subst.
  rewrite (run_one_hit js_dot _ b x _ c Hx).
  change (run (Rep false (One js_dot)) ?k0 false (f ++ rest) c)
    with (rounds (run (One js_dot)) false k0 (length (f ++ rest)) false (f ++ rest) c).
  apply rounds_lazy_class.
  - intros b'. cbv beta. rewrite consumed_app. apply Hk.
  - exact Hf.
  - rewrite length_app. lia.
  - intros b' j Hj. cbv beta. unfold K.
    change (drop j f) with (drop (S j) (x :: f)).
    apply no_bullet_inside; [simpl; lia | exact Hlast | exact Hinner].
Qed.

Lemma bare_start (f rest : text) :
  starts_bare f = true ->
  match f ++ rest with [] => True | y :: _ => js_space y = false end.
Proof.
  destruct f as [|x f]; [discriminate|]. cbn [starts_bare app].
  intros H. apply negb_true_iff in H. exact H.
Qed.

(** The header pattern on a header line: the three fields. *)
Lemma header_match (ty sp1 sp2 dt sp3 sp4 tm : text) :
  is_field ty = true -> is_field dt = true -> is_last_field tm = true ->
  forallb js_space sp1 = true -> forallb js_space sp2 = true ->
  forallb js_space sp3 = true -> forallb js_space sp4 = true ->
  js_match header_re (header_line ty sp1 sp2 dt sp3 sp4 tm) =
    Some [(3%nat, tm); (2%nat, dt); (1%nat, ty)].
Proof.
  intros Hty Hdt Htm H1 H2 H3 H4.
  apply forallb_Forall in H1, H2, H3, H4.
  pose proof Hdt as Hdt'. unfold is_field in Hdt'. rewrite !andb_true_iff in Hdt'.
  destruct Hdt' as [[Hdt_head _] _].
  unfold is_last_field in Htm. rewrite andb_true_iff in Htm. destruct Htm as [Htm_head Htm_dot].
  apply forallb_Forall in Htm_dot.
  unfold js_match, search.
  rewrite (search_from_here header_re true _ ([], [(3%nat, tm); (2%nat, dt); (1%nat, ty)]));
    [reflexivity|].
  unfold match_here, header_re, header_line. cbn [seq]. rewrite !run_cat.
  apply lazy_field; [exact Hty|]. intros b1.
  apply run_star_of_class; [exact H1 | reflexivity|].
  cbn [app]. unfold chr at 1. rewrite run_one_hit by reflexivity.
  apply run_star_of_class; [exact H2 | apply bare_start; exact Hdt_head|].
  apply lazy_field; [exact Hdt|]. intros b2.
  apply run_star_of_class; [exact H3 | reflexivity|].
  cbn [app]. unfold chr at 1. rewrite run_one_hit by reflexivity.
  rewrite <- (app_nil_r tm) at 1.
  rewrite app_assoc, app_nil_r.
  apply run_star_of_class;
    [exact H4 | rewrite <- (app_nil_r tm); apply bare_start; exact Htm_head|].
  destruct tm as [|x tm]; [discriminate Htm_head|].
  rewrite <- (app_nil_r (x :: tm)) at 1.
  apply run_group_of_class; [exact Htm_dot | exact I | reflexivity].
Qed.

Lemma field_is_trimmed (f : text) : is_field f = true -> trim f = f.
Proof.
  unfold is_field. rewrite !andb_true_iff. intros [[Hhead Hlast] _].
  unfold trim. apply strip_of_bare.
  - destruct f as [|x f]; [exact I|]. cbn [starts_bare] in Hhead.
    apply negb_true_iff in Hhead. exact Hhead.
  - destruct (rev f) as [|x l]; [exact I|]. cbn [starts_bare] in Hlast.
    apply negb_true_iff in Hlast. exact Hlast.
Qed.

(** X21.  The header of a trip page is split at its two bullets.  When the
    header shows three fields with a bullet between them, white space around
    the bullets, no bullet and no line break inside the first two fields and
    no line break in the third, the record has the first field as rideType,
    the second as date and the third, trimmed, as time. *)
Theorem the_header_is_split_at_its_bullets :
  forall (minutes_to_fixed : text -> text -> text) (doc : document) (t : Trip.trip)
         (ty sp1 sp2 dt sp3 sp4 tm : text),
    is_field ty = true -> is_field dt = true -> is_last_field tm = true ->
    forallb js_space sp1 = true -> forallb js_space sp2 = true ->
    forallb js_space sp3 = true -> forallb js_space sp4 = true ->
    header_span doc = Some (header_line ty sp1 sp2 dt sp3 sp4 tm) ->
    extract_trip_data minutes_to_fixed doc = Returned t ->
    Trip.rideType t = ty /\ Trip.date t = dt /\ Trip.time t = trim tm.
Proof.
  intros minutes_to_fixed doc t ty sp1 sp2 dt sp3 sp4 tm Hty Hdt Htm H1 H2 H3 H4 Hspan.
  unfold extract_trip_data. cbv zeta. rewrite Hspan.
  change (default [] (Some (header_line ty sp1 sp2 dt sp3 sp4 tm)))
    with (header_line ty sp1 sp2 dt sp3 sp4 tm).
  rewrite (header_match ty sp1 sp2 dt sp3 sp4 tm Hty Hdt Htm H1 H2 H3 H4).
  match goal with
  | |- bind ?p _ = _ -> _ => destruct p as [pts|e]; cbn [bind]; [|discriminate]
  end.
  intros H. inversion H; subst t. cbn [Trip.rideType Trip.date Trip.time].
  unfold group_or. cbn [group Nat.eqb default].
  rewrite (field_is_trimmed ty Hty), (field_is_trimmed dt Hdt). repeat split.
Qed.

End Header.

Lemma the_header_is_split_at_its_bullets_witness :
  exists t : Trip.trip,
    Extract.extract_trip_data Sample.fixed Sample.a_bare_page = Py.Returned t /\
    Trip.rideType t = Text.str "UberX" /\ Trip.date t = Text.str "Jul 1, 2024" /\
    Trip.time t = Extract.trim (Text.str "3:15 PM").
Proof.
  eexists. split; [vm_compute; reflexivity|].
  apply (the_header_is_split_at_its_bullets Sample.fixed Sample.a_bare_page _
           (Text.str "UberX") (Text.str " ") (Text.str " ") (Text.str "Jul 1, 2024")
           (Text.str " ") (Text.str " ") (Text.str "3:15 PM"));
    vm_compute; reflexivity.
Defined.

(** ** A header without its bullets *)

Section HeaderWithoutBullets.
Import Text Regex Py Extract Pages.

Lemma consumes_a_bullet (s s' : text) :
  consumes (chr bullet) s s' -> s = bullet :: s'.
Proof.
  unfold chr. intros H. inversion H as [|? x ? Hx| | | | | | | |]; subst.
  unfold char_eqb in Hx. apply N.eqb_eq in Hx. subst x. reflexivity.
Qed.

(** A text the header pattern matches has two bullets. *)
Lemma header_needs_two_bullets (s : text) (m : found) :
  search header_re s = Some m ->
  exists a b c, s = a ++ bullet :: b ++ bullet :: c.
Proof.
  unfold search. intros H.
  apply search_from_sound in H as (pre & t & -> & H).
  unfold header_re in H. cbn [seq] in H.
  inversion H as [| |? ? ? s1 ? G1 X1| | | | | | |]; subst.
  inversion X1 as [| |? ? ? s2 ? W1 X2| | | | | | |]; subst.
  inversion X2 as [| |? ? ? s3 ? B1 X3| | | | | | |]; subst.
  inversion X3 as [| |? ? ? s4 ? W2 X4| | | | | | |]; subst.
  inversion X4 as [| |? ? ? s5 ? G2 X5| | | | | | |]; subst.
  inversion X5 as [| |? ? ? s6 ? W3 X6| | | | | | |]; subst.
  inversion X6 as [| |? ? ? s7 ? B2 X7| | | | | | |]; subst.
  apply consumes_suffix in G1 as [w1 ->].
  apply consumes_suffix in W1 as [w2 ->].
  apply consumes_a_bullet in B1 as ->.
  apply consumes_suffix in W2 as [w3 ->].
  apply consumes_suffix in G2 as [w4 ->].
  apply consumes_suffix in W3 as [w5 ->].
  apply consumes_a_bullet in B2 as ->.
  exists (pre ++ w1 ++ w2), (w3 ++ w4 ++ w5), s7.
  rewrite <- !app_assoc. reflexivity.
Qed.

Lemma two_bullets_counted (a b c : text) :
  (2 <= length (List.filter (char_eqb bullet) (a ++ bullet :: b ++ bullet :: c)))%nat.
Proof.
  rewrite List.filter_app, length_app. cbn [List.filter].
  change (char_eqb bullet bullet) with true. cbv iota. cbn [length].
  rewrite List.filter_app, length_app. cbn [List.filter].
  change (char_eqb bullet bullet) with true. cbv iota. cbn [length]. lia.
Qed.

(** X22.  A header without two bullets gives no ride type, date or time.
    When the header element is missing, or its text has fewer than two
    bullets, the three fields of the record are empty; nothing else of the
    header is kept. *)
Theorem a_header_without_two_bullets_is_dropped :
  forall (minutes_to_fixed : text -> text -> text) (doc : document) (t : Trip.trip),
    (length (List.filter (char_eqb bullet) (default [] (header_span doc))) < 2)%nat ->
    extract_trip_data minutes_to_fixed doc = Returned t ->
    Trip.rideType t = [] /\ Trip.date t = [] /\ Trip.time t = [].
Proof.
  intros minutes_to_fixed doc t Hfew.
  assert (Hnone : js_match header_re (default [] (header_span doc)) = None).
  { unfold js_match.
    destruct (search header_re (default [] (header_span doc))) as [m|] eqn:Hm;
      [|reflexivity].
    exfalso. apply header_needs_two_bullets in Hm as (a & b & c & Heq).
    rewrite Heq in Hfew. pose proof (two_bullets_counted a b c). lia. }
  unfold extract_trip_data. cbv zeta. rewrite Hnone.
  match goal with
  | |- bind ?p _ = _ -> _ => destruct p as [pts|e]; cbn [bind]; [|discriminate]
  end.
  intros H. inversion H; subst t. cbn [Trip.rideType Trip.date Trip.time group_or].
  repeat split.
Qed.

End HeaderWithoutBullets.

Lemma a_header_without_two_bullets_is_dropped_witness :
  exists t : Trip.trip,
    Extract.extract_trip_data Sample.fixed Sample2.a_page_of_a_ride_without_time
      = Py.Returned t /\
    Trip.rideType t = [] /\ Trip.date t = [] /\ Trip.time t = [].
Proof.
  eexists. split; [vm_compute; reflexivity|].
  apply (a_header_without_two_bullets_is_dropped Sample.fixed
           Sample2.a_page_of_a_ride_without_time).
  - vm_compute. lia.
  - vm_compute. reflexivity.
Defined.

(** ** The city of an address *)

Section City.
Import Text Regex Py Extract Pages.

(** The search passes over characters the pattern cannot start with. *)
Lemma search_from_skip (p : char -> bool) (r : regex) (t : text) :
  forall pre b,
    Forall (fun x => p x = false) pre ->
    search_from (Cat (One p) r) b (pre ++ t) =
      search_from (Cat (One p) r) (match pre with [] => b | _ :: _ => false end) t.
Proof.
  induction pre as [|x pre IH]; intros b Hpre; [reflexivity|].
  inversion Hpre as [|? ? Hx Hpre']; subst.
  cbn [app search_from]. unfold match_here. rewrite run_cat.
  rewrite (run_one_miss p _ b (x :: pre ++ t) [] Hx).
  rewrite (IH false Hpre'). destruct pre; reflexivity.
Qed.

Lemma upper_is_no_space (x : char) : ascii_upper x = true -> js_space x = false.
Proof.
  unfold ascii_upper, js_space, in_range.
  rewrite andb_true_iff, !N.leb_le. intros [Hlo Hhi].
  repeat match goal with
         | |- context [(?a <=? ?b)] => destruct (N.leb_spec a b)
         | |- context [(?a =? ?b)] => destruct (N.eqb_spec a b)
         end; try reflexivity; lia.
Qed.

(** The city pattern at the first comma of an address. *)
Lemma city_match (sp1 city sp2 : text) (a b : char) (sp3 tail : text) (whole : bool) :
  is_city city = true ->
  forallb js_space sp1 = true -> forallb js_space sp2 = true ->
  forallb js_space sp3 = true ->
  ascii_upper a = true -> ascii_upper b = true ->
  match_here city_re whole
    (str "," ++ sp1 ++ city ++ str "," ++ sp2 ++ [a; b] ++ str "," ++ sp3 ++ str "US" ++ tail)
  = Some (tail, [(1%nat, city)]).
Proof.
  unfold is_city, no_comma. rewrite !andb_true_iff. intros [[Hhead Hlast] Hcommas].
  intros H1 H2 H3 Ha Hb.
  apply forallb_Forall in H1, H2, H3, Hcommas.
  unfold match_here, city_re. cbn [seq].
  change (lit (str "US")) with (Cat (chr 85) (chr 83)).
  repeat change (str "," ++ ?x) with (44 :: x).
  change (str "US" ++ tail) with (85 :: 83 :: tail).
  rewrite !run_cat. unfold chr at 1. rewrite run_one_hit by reflexivity.
  apply run_star_of_class; [exact H1 | apply bare_start; exact Hhead|].
  destruct city as [|x city]; [discriminate Hhead|].
  apply run_group_of_class; [exact Hcommas | reflexivity|].
  unfold chr at 1. rewrite run_one_hit by reflexivity.
  apply run_star_of_class; [exact H2 | cbn [app]; apply upper_is_no_space; exact Ha|].
  cbn [app]. rewrite (run_one_hit ascii_upper _ _ a _ _ Ha).
  rewrite (run_one_hit ascii_upper _ _ b _ _ Hb).
  unfold chr at 1. rewrite run_one_hit by reflexivity.
  apply run_star_of_class; [exact H3 | reflexivity|].
  unfold chr. rewrite run_one_hit by reflexivity. rewrite run_one_hit by reflexivity.
  reflexivity.
Qed.

Lemma city_is_trimmed (c : text) : is_city c = true -> trim c = c.
Proof.
  unfold is_city. rewrite !andb_true_iff. intros [[Hhead Hlast] _].
  unfold trim. apply strip_of_bare.
  - destruct c as [|x c]; [exact I|]. cbn [starts_bare] in Hhead.
    apply negb_true_iff in Hhead. exact Hhead.
  - destruct (rev c) as [|x l]; [exact I|]. cbn [starts_bare] in Hlast.
    apply negb_true_iff in Hlast. exact Hlast.
Qed.

(** X23.  The city of a trip is read off its pick-up address.  When the
    pick-up address is a street without a comma, then a comma, the city, a
    comma, two capital letters, a comma and US, with or without white space
    after the commas, the city column is that city.  Without an address the
    city is empty. *)
Theorem the_city_is_read_off_the_pickup_address :
  forall (minutes_to_fixed : text -> text -> text) (doc : document) (t : Trip.trip),
    extract_trip_data minutes_to_fixed doc = Returned t ->
    (forall (street sp1 city sp2 : text) (a b : char) (sp3 tail : text),
        no_comma street = true -> is_city city = true ->
        forallb js_space sp1 = true -> forallb js_space sp2 = true ->
        forallb js_space sp3 = true ->
        ascii_upper a = true -> ascii_upper b = true ->
        Trip.pickup t = address_line street sp1 city sp2 a b sp3 tail ->
        Trip.city t = city) /\
    (Trip.pickup t = [] -> Trip.city t = []).
Proof.
  intros minutes_to_fixed doc t. unfold extract_trip_data. cbv zeta.
  match goal with
  | |- bind ?p _ = _ -> _ => destruct p as [pts|e]; cbn [bind]; [|discriminate]
  end.
  intros H. inversion H; subst t. clear H. cbn [Trip.pickup Trip.city].
  split.
  - intros street sp1 city sp2 a b sp3 tail Hstreet Hcity H1 H2 H3 Ha Hb ->.
    unfold js_match, search, address_line.
    unfold no_comma in Hstreet. apply forallb_Forall in Hstreet.
    unfold city_re at 1. cbn [seq].
    rewrite (search_from_skip (char_eqb 44) _ _ street true).
    + fold (seq [star ws; Grp 1 (plus (other_than 44)); chr 44; star ws;
                 One ascii_upper; One ascii_upper; chr 44; star ws; lit (str "US")]).
      change (Cat (One (char_eqb 44)) ?r) with city_re.
      rewrite (search_from_here city_re _ _ _
                 (city_match sp1 city sp2 a b sp3 tail _ Hcity H1 H2 H3 Ha Hb)).
      cbn [option_map snd group_or group Nat.eqb].
      change (default [] (Some city)) with city. apply city_is_trimmed. exact Hcity.
    + apply List.Forall_forall. intros x Hx.
      pose proof (proj1 (List.Forall_forall _ _) Hstreet x Hx) as Hne.
      cbv beta in Hne. unfold char_eqb. rewrite N.eqb_sym.
      apply negb_true_iff. exact Hne.
  - intros ->. reflexivity.
Qed.

End City.

Lemma the_city_is_read_off_the_pickup_address_witness :
  exists t : Trip.trip,
    Extract.extract_trip_data Sample.fixed Sample2.a_page_of_a_ride = Py.Returned t /\
    Trip.city t = Text.str "Portland".
Proof.
  eexists. split; [vm_compute; reflexivity|].
  apply (proj1 (the_city_is_read_off_the_pickup_address Sample.fixed
                  Sample2.a_page_of_a_ride _ ltac:(vm_compute; reflexivity))
           (Text.str "123 Main St") (Text.str " ") (Text.str "Portland") (Text.str " ")
           79%N 82%N (Text.str " ") []);
    vm_compute; reflexivity.
Defined.

(** ** The distance of a trip *)

Section Distance.
Import Text Regex Py Extract Pages Shape.

Lemma find_first {A : Type} (P : A -> bool) (before : list A) (x : A) (after : list A) :
  forallb (fun e => negb (P e)) before = true -> P x = true ->
  find P (before ++ x :: after) = Some x.
Proof.
  intros Hbefore Hx. induction before as [|e before IH]; cbn [app find].
  - rewrite Hx. reflexivity.
  - cbn [forallb] in Hbefore. apply andb_true_iff in Hbefore as [He Hrest].
    apply negb_true_iff in He. rewrite He. exact (IH Hrest).
Qed.

Lemma digit_is_no_js_space (x : char) : ascii_digit x = true -> js_space x = false.
Proof.
  unfold ascii_digit, js_space, in_range.
  rewrite andb_true_iff, !N.leb_le. intros [Hlo Hhi].
  repeat match goal with
         | |- context [(?a <=? ?b)] => destruct (N.leb_spec a b)
         | |- context [(?a =? ?b)] => destruct (N.eqb_spec a b)
         end; try reflexivity; lia.
Qed.

Lemma js_space_is_no_digit (x : char) : js_space x = true -> ascii_digit x = false.
Proof.
  intros Hx. destruct (ascii_digit x) eqn:Hd; [|reflexivity].
  rewrite (digit_is_no_js_space x Hd) in Hx. discriminate Hx.
Qed.

Lemma js_space_is_no_m (x : char) : js_space x = true -> x <> 109.
Proof. intros Hx ->. discriminate Hx. Qed.

Lemma digits_parts (s : text) :
  is_digits s = true ->
  exists x ds, s = x :: ds /\ Forall (fun y => ascii_digit y = true) (x :: ds).
Proof.
  destruct s as [|x ds]; [discriminate|]. unfold is_digits.
  intros H. apply forallb_Forall in H. exists x, ds. split; [reflexivity | exact H].
Qed.

(** The text of a distance has the pattern of a distance. *)
Lemma distance_text_matches (ip fp sp : text) :
  is_digits ip = true -> is_digits fp = true -> forallb js_space sp = true ->
  matches distance_re (distance_text ip fp sp) = true.
Proof.
  intros Hip Hfp Hsp.
  destruct (digits_parts ip Hip) as (x & ds & -> & Hds).
  destruct (digits_parts fp Hfp) as (y & es & -> & Hes).
  apply forallb_Forall in Hsp.
  unfold matches, search.
  rewrite (search_from_here distance_re true _ ([], [])); [reflexivity|].
  unfold match_here, distance_re, distance_text. cbn [seq].
  change (lit (str "mi")) with (Cat (chr 109) (chr 105)).
  change (str "." ++ ?r) with (46 :: r).
  change (str "mi") with [109; 105].
  unfold plus. rewrite !run_cat. cbn [run]. cbv iota.
  inversion Hds as [|? ? Hx Hds']; subst. inversion Hes as [|? ? Hy Hes']; subst.
  cbn [app]. unfold d at 1. rewrite (run_one_hit ascii_digit _ _ x _ _ Hx).
  apply run_star_of_class; [exact Hds' | reflexivity|].
  unfold chr at 1. rewrite run_one_hit by reflexivity.
  unfold d at 1. rewrite (run_one_hit ascii_digit _ _ y _ _ Hy).
  apply run_star_of_class; [exact Hes'| |].
  { destruct sp as [|z sp]; [reflexivity|]. cbn [app].
    inversion Hsp; subst. apply js_space_is_no_digit. assumption. }
  apply run_star_of_class; [exact Hsp | reflexivity|].
  unfold chr. rewrite run_one_hit by reflexivity. rewrite run_one_hit by reflexivity.
  reflexivity.
Qed.

(** [replace(' mi', '')] where the unit comes after a blank. *)
Lemma remove_first_unit (pre post : text) :
  Forall (fun x => x <> 109) pre ->
  remove_first (str " mi") (pre ++ str " mi" ++ post) = pre ++ post.
Proof.
  intros Hpre. induction Hpre as [|x pre Hx Hpre IH].
  - reflexivity.
  - cbn [app]. cbn [remove_first].
    replace (starts_with (str " mi") (x :: pre ++ str " mi" ++ post)) with false.
    + f_equal. exact IH.
    + symmetry. change (str " mi") with [32; 109; 105].
      cbn [starts_with]. unfold char_eqb.
      destruct (N.eqb_spec 32 x) as [<- | Hne]; [|reflexivity]. cbn [andb].
      destruct pre as [|y pre]; [reflexivity|]. cbn [app].
      inversion Hpre as [|? ? Hy _]; subst.
      destruct (N.eqb_spec 109 y) as [<- | Hne']; [congruence | reflexivity].
Qed.

(** [replace(' mi', '')] where the unit comes after no blank. *)
Lemma remove_first_no_unit (pre : text) :
  Forall (fun x => x <> 109) pre ->
  (forall pre', pre <> pre' ++ [32]) ->
  remove_first (str " mi") (pre ++ str "mi") = pre ++ str "mi".
Proof.
  intros Hpre. induction Hpre as [|x pre Hx Hpre IH]; intros Hlast.
  - reflexivity.
  - cbn [app]. cbn [remove_first].
    replace (starts_with (str " mi") (x :: pre ++ str "mi")) with false.
    + f_equal. apply IH. intros pre' Heq. apply (Hlast (x :: pre')).
      rewrite Heq. reflexivity.
    + symmetry. change (str " mi") with [32; 109; 105].
      cbn [starts_with]. unfold char_eqb.
      destruct (N.eqb_spec 32 x) as [<- | Hne]; [|reflexivity]. cbn [andb].
      destruct pre as [|y pre].
      * exfalso. apply (Hlast []). reflexivity.
      * cbn [app]. inversion Hpre as [|? ? Hy _]; subst.
        destruct (N.eqb_spec 109 y) as [<- | Hne']; [congruence | reflexivity].
Qed.

Lemma lstrip_class (sp : char -> bool) (w r : text) :
  Forall (fun x => sp x = true) w -> lstrip sp (w ++ r) = lstrip sp r.
Proof.
  induction 1 as [|x w Hx _ IH]; [reflexivity|].
  cbn [app lstrip]. rewrite Hx. exact IH.
Qed.

(** Trimming removes the white space after a text that ends with none. *)
Lemma strip_trailing (sp : char -> bool) (s w : text) :
  s <> [] -> bare_head sp s -> bare_head sp (rev s) ->
  Forall (fun x => sp x = true) w ->
  strip sp (s ++ w) = s.
Proof.
  intros Hs Hhead Hlast Hw. unfold strip.
  rewrite (lstrip_of_bare sp (s ++ w)) by (destruct s; [congruence | exact Hhead]).
  rewrite rev_app_distr, lstrip_class.
  - rewrite (lstrip_of_bare sp (rev s) Hlast). apply rev_involutive.
  - apply List.Forall_forall. intros x Hx. apply in_rev in Hx.
    exact (proj1 (List.Forall_forall _ _) Hw x Hx).
Qed.

Lemma Forall_digits_last (x : char) (ds : text) :
  Forall (fun y => ascii_digit y = true) (x :: ds) ->
  bare_head js_space (rev (x :: ds)).
Proof.
  intros H. destruct (rev (x :: ds)) as [|z l] eqn:Hrev; [exact I|].
  cbn [bare_head]. apply digit_is_no_js_space.
  apply (proj1 (List.Forall_forall _ _) H z). apply in_rev. rewrite Hrev. left. reflexivity.
Qed.

Lemma digits_last (y : char) (es : text) :
  Forall (fun z => ascii_digit z = true) (y :: es) ->
  exists es0 w, y :: es = es0 ++ [w] /\ ascii_digit w = true.
Proof.
  intros H.
  destruct (exists_last (l := y :: es) ltac:(discriminate)) as (es0 & w & Heq).
  exists es0, w. split; [exact Heq|].
  apply (proj1 (List.Forall_forall _ _) H w). rewrite Heq.
  apply in_or_app. right. left. reflexivity.
Qed.

(** X24.  The distance of a trip keeps its unit unless a blank comes before
    it.  For the first childless element whose text is a number with a full
    stop, then white space or none, then "mi": when a blank is right before
    the unit, the distance column is the number; otherwise ("3.42mi", or a
    tab or a no-break space before the unit) replace(' mi', '') finds nothing
    and the column is the whole text, unit included. *)
Theorem the_distance_keeps_its_unit_without_a_blank :
  forall (minutes_to_fixed : text -> text -> text) (doc : document) (t : Trip.trip)
         (before : list element) (el : element) (after : list element)
         (ip fp sp : text),
    all doc = before ++ el :: after ->
    forallb (fun e => negb (is_distance_element e)) before = true ->
    is_leaf el = true ->
    textContent el = distance_text ip fp sp ->
    is_digits ip = true -> is_digits fp = true -> forallb js_space sp = true ->
    extract_trip_data minutes_to_fixed doc = Returned t ->
    (forall sp', sp = sp' ++ [32] -> Trip.distance t = ip ++ str "." ++ fp) /\
    ((forall sp', sp <> sp' ++ [32]) -> Trip.distance t = distance_text ip fp sp).
Proof.
  intros minutes_to_fixed doc t before el after ip fp sp Hall Hbefore Hleaf Htext
         Hip Hfp Hsp.
  assert (Hel : is_distance_element el = true).
  { unfold is_distance_element. rewrite Htext, Hleaf.
    rewrite (distance_text_matches ip fp sp Hip Hfp Hsp). reflexivity. }
  unfold extract_trip_data. cbv zeta.
  change (find (fun el0 => matches distance_re (textContent el0) && is_leaf el0) (all doc))
    with (find is_distance_element (all doc)).
  rewrite Hall, (find_first is_distance_element before el after Hbefore Hel), Htext.
  match goal with
  | |- bind ?p _ = _ -> _ => destruct p as [pts|e]; cbn [bind]; [|discriminate]
  end.
  intros H. inversion H; subst t. clear H. cbn [Trip.distance].
  destruct (digits_parts ip Hip) as (x & ds & -> & Hds).
  destruct (digits_parts fp Hfp) as (y & es & -> & Hes).
  pose proof Hsp as Hsp'. apply forallb_Forall in Hsp'.
  assert (Hhead : bare_head js_space ((x :: ds) ++ str "." ++ y :: es)).
  { cbn [app bare_head]. inversion Hds; subst. apply digit_is_no_js_space. assumption. }
  assert (Hnum : Forall (fun z => z <> 109) ((x :: ds) ++ str "." ++ y :: es)).
  { apply Forall_app. split; [|change (str "." ++ y :: es) with (46 :: y :: es);
                                constructor; [discriminate|]];
      (apply List.Forall_forall; intros z Hz Heq; subst z;
       match goal with
       | H : Forall (fun y => ascii_digit y = true) ?l, Hz : In 109 ?l |- _ =>
           pose proof (proj1 (List.Forall_forall _ _) H _ Hz) as Hd; discriminate Hd
       end). }
  split.
  - intros sp0 ->. unfold distance_text.
    replace ((x :: ds) ++ str "." ++ (y :: es) ++ (sp0 ++ [32]) ++ str "mi")
      with (((x :: ds) ++ str "." ++ (y :: es) ++ sp0) ++ str " mi" ++ [])
      by (rewrite <- !app_assoc; reflexivity).
    apply Forall_app in Hsp' as [Hsp0 _].
    rewrite remove_first_unit.
    + rewrite app_nil_r.
      replace ((x :: ds) ++ str "." ++ (y :: es) ++ sp0)
        with (((x :: ds) ++ str "." ++ y :: es) ++ sp0)
        by (rewrite <- !app_assoc; reflexivity).
      unfold trim. apply strip_trailing; [discriminate | exact Hhead | | exact Hsp0].
      rewrite rev_app_distr.
      change (str "." ++ y :: es) with ([46] ++ y :: es). rewrite rev_app_distr.
      pose proof (Forall_digits_last y es Hes) as Hl.
      destruct (rev (y :: es)) as [|z l] eqn:Hrev; [|exact Hl].
      apply (f_equal (@length char)) in Hrev. rewrite length_rev in Hrev. discriminate Hrev.
    + replace ((x :: ds) ++ str "." ++ (y :: es) ++ sp0)
        with (((x :: ds) ++ str "." ++ y :: es) ++ sp0)
        by (rewrite <- !app_assoc; reflexivity).
      apply Forall_app. split; [exact Hnum|].
      apply List.Forall_forall. intros z Hz.
      apply js_space_is_no_m. exact (proj1 (List.Forall_forall _ _) Hsp0 z Hz).
  - intros Hlast. unfold distance_text.
    replace ((x :: ds) ++ str "." ++ (y :: es) ++ sp ++ str "mi")
      with ((((x :: ds) ++ str "." ++ y :: es) ++ sp) ++ str "mi")
      by (rewrite <- !app_assoc; reflexivity).
    rewrite remove_first_no_unit.
    + unfold trim. apply strip_of_bare.
      * reflexivity || (cbn [app bare_head]; inversion Hds; subst;
                        apply digit_is_no_js_space; assumption).
      * rewrite rev_app_distr. reflexivity.
    + apply Forall_app. split; [exact Hnum|].
      apply List.Forall_forall. intros z Hz.
      apply js_space_is_no_m. exact (proj1 (List.Forall_forall _ _) Hsp' z Hz).
    + intros pre' Heq.
      assert (Hcases : sp = [] \/ exists sp0 z, sp = sp0 ++ [z]).
      { clear. induction sp as [|z sp0 _] using rev_ind; [left; reflexivity|].
        right. exists sp0, z. reflexivity. }
      destruct Hcases as [-> | (sp0 & z & ->)].
      * rewrite app_nil_r in Heq.
        destruct (digits_last y es Hes) as (es0 & w & Hy & Hw).
        rewrite Hy in Heq.
        change (str "." ++ es0 ++ [w]) with (46 :: es0 ++ [w]) in Heq.
        replace ((x :: ds) ++ 46 :: es0 ++ [w]) with (((x :: ds) ++ 46 :: es0) ++ [w]) in Heq
          by (rewrite <- app_assoc; reflexivity).
        apply app_inj_tail in Heq as [_ ->]. discriminate Hw.
      * rewrite app_assoc in Heq. apply app_inj_tail in Heq as [_ ->].
        exact (Hlast sp0 eq_refl).
Qed.

End Distance.

Lemma the_distance_keeps_its_unit_without_a_blank_witness :
  exists t : Trip.trip,
    Extract.extract_trip_data Sample.fixed Sample2.a_page_of_a_short_ride = Py.Returned t /\
    Trip.distance t = Pages.distance_text (Text.str "3") (Text.str "42") [].
Proof.
  eexists. split; [vm_compute; reflexivity|].
  apply (proj2 (the_distance_keeps_its_unit_without_a_blank Sample.fixed
                  Sample2.a_page_of_a_short_ride _
                  [ {| Extract.textContent := Text.str "Trip 3.42mi"; Extract.children := 1 |} ]
                  {| Extract.textContent := Text.str "3.42mi"; Extract.children := 0 |}
                  [] (Text.str "3") (Text.str "42") []
                  eq_refl ltac:(vm_compute; reflexivity) eq_refl eq_refl eq_refl eq_refl
                  eq_refl ltac:(vm_compute; reflexivity))).
  intros sp' H. destruct sp'; discriminate H.
Defined.

(** ** The line items of a trip *)

Section LineItems.
Import Text Regex Py Extract Pages.

(** A variable that every call of the callback either sets to the amount of
    the item or leaves alone ends as the amount of the last item that set
    it. *)
Lemma last_item_wins (get : items -> text) (test : text -> bool) :
  (forall v txt, get (item v txt) = if test txt then value_of txt else get v) ->
  forall l v, get (fold_left item l v) = last_value test (get v) l.
Proof.
  intros Hitem l. unfold last_value.
  induction l as [|txt l IH] using rev_ind; intros v.
  - reflexivity.
  - rewrite fold_left_app. cbn [fold_left]. rewrite Hitem.
    rewrite rev_app_distr. cbn [rev app find].
    destruct (test txt); [reflexivity | apply IH].
Qed.

Lemma last_items (l : list text) :
  i_base (fold_left item l no_items) =
    last_value (fun t => has "Base" t && negb (has "Fare" t)) zero l /\
  i_distancePay (fold_left item l no_items) =
    last_value (fun t => has "Distance" t && has "mile" t) zero l /\
  i_timePay (fold_left item l no_items) =
    last_value (fun t => has "Time" t && has "minute" t) zero l /\
  i_surge (fold_left item l no_items) = last_value (has "Surge") zero l /\
  i_promotion (fold_left item l no_items) = last_value (has "Promotion") zero l /\
  i_minFare (fold_left item l no_items) = last_value (has "Minimum Fare") zero l /\
  i_waitTime (fold_left item l no_items) = last_value (has "Wait Time") zero l.
Proof.
  repeat split;
    match goal with
    | |- ?get (fold_left item l no_items) = last_value ?test zero l =>
        exact (last_item_wins get test (fun v txt => eq_refl) l no_items)
    end.
Qed.

(** X25.  Of several line items of a kind, the last one counts.  The columns
    base, distance pay, time pay, surge, promotion, minimum fare and wait
    time are each the first amount of the last li of the page that has the
    words of that kind; the column is "0" when that li shows no amount, and
    when no li has the words. *)
Theorem the_last_line_item_of_a_kind_counts :
  forall (minutes_to_fixed : text -> text -> text) (doc : document) (t : Trip.trip),
    extract_trip_data minutes_to_fixed doc = Returned t ->
    Trip.base t = last_value (fun t => has "Base" t && negb (has "Fare" t)) zero (li doc) /\
    Trip.distancePay t =
      last_value (fun t => has "Distance" t && has "mile" t) zero (li doc) /\
    Trip.timePay t = last_value (fun t => has "Time" t && has "minute" t) zero (li doc) /\
    Trip.surge t = last_value (has "Surge") zero (li doc) /\
    Trip.promotion t = last_value (has "Promotion") zero (li doc) /\
    Trip.minFare t = last_value (has "Minimum Fare") zero (li doc) /\
    Trip.waitTime t = last_value (has "Wait Time") zero (li doc).
Proof.
  intros minutes_to_fixed doc t. unfold extract_trip_data. cbv zeta.
  match goal with
  | |- bind ?p _ = _ -> _ => destruct p as [pts|e]; cbn [bind]; [|discriminate]
  end.
  intros H. inversion H; subst t. clear H.
  cbn [Trip.base Trip.distancePay Trip.timePay Trip.surge Trip.promotion Trip.minFare
       Trip.waitTime].
  exact (last_items (li doc)).
Qed.

End LineItems.

Lemma the_last_line_item_of_a_kind_counts_witness :
  exists t : Trip.trip,
    Extract.extract_trip_data Sample.fixed Sample2.a_page_with_two_surges = Py.Returned t /\
    Trip.surge t = Text.str "0".
Proof.
  eexists. split; [vm_compute; reflexivity|].
  destruct (the_last_line_item_of_a_kind_counts Sample.fixed Sample2.a_page_with_two_surges _
              ltac:(vm_compute; reflexivity)) as (_ & _ & _ & Hs & _).
  rewrite Hs. vm_compute. reflexivity.
Defined.

(** ** Instances *)

Lemma trip_id_is_the_last_segment_witness :
  Scraper.trip_id_of
    (Text.str "https://drivers.uber.com/earnings/trips" ++ [47] ++ Text.str "abc-123?x=1") =
  Scraper.first_segment 63 (Text.str "abc-123?x=1").
Proof.
  apply (proj1 (proj2 trip_id_is_the_last_segment)).
  vm_compute. repeat constructor; discriminate.
Defined.

Lemma marking_adds_the_stripped_identifier_witness :
  @Scraper.fetch_visited Unicode.latin1_only
    (Scraper.append_visited (Text.str " abc-123 ") Sample.no_files) =
  @Scraper.fetch_visited Unicode.latin1_only Sample.no_files ∪
  match Text.strip (@Unicode.is_space Unicode.latin1_only) (Text.str " abc-123 ") with
  | [] => ∅
  | _ :: _ => {[ Text.strip (@Unicode.is_space Unicode.latin1_only) (Text.str " abc-123 ") ]}
  end.
Proof.
  apply (proj1 (@marking_adds_the_stripped_identifier Unicode.latin1_only)).
  - vm_compute. repeat constructor; discriminate.
  - exact I.
Defined.

Lemma rows_and_marks_move_in_step_witness :
  @Failing.scrape_trip_details Unicode.latin1_only Sample.plain_float Sample.a_browser
    Sample.a_link
    {| Failing.new_page := Py.Returned tt; Failing.open_csv := Py.Returned tt;
       Failing.open_visited := Py.Returned tt; Failing.printed := Py.Returned tt;
       Failing.closed := Py.Raised Py.BrowserError |}
    ∅ Sample.no_files =
  (Py.Raised Py.BrowserError, ∅,
   Scraper.append_visited (@Scraper.trip_id_of Sample.a_link)
     (Scraper.append_trip_row
        (default [] (match @Scraper.scraped Unicode.latin1_only Sample.plain_float
                             Sample.a_browser Sample.a_link with
                     | Py.Returned row => Some row
                     | Py.Raised _ => None
                     end))
        Sample.no_files)).
Proof.
  apply (proj1 (proj2 (@rows_and_marks_move_in_step Unicode.latin1_only Sample.plain_float
                         Sample.a_browser))).
  - vm_compute. set_solver.
  - vm_compute. reflexivity.
  - reflexivity.
  - reflexivity.
  - reflexivity.
  - reflexivity.
Defined.

Lemma fare_items_stop_at_the_shortest_list_witness :
  Scraper.zip3 ([Text.str "Distance"] ++ [Text.str "Time"]) ([Text.str "$1.49"] ++ [])
               [Text.str "1.5 mile"] =
  Scraper.zip3 [Text.str "Distance"] [Text.str "$1.49"] [Text.str "1.5 mile"].
Proof.
  apply (proj1 (proj2 (@fare_items_stop_at_the_shortest_list Unicode.latin1_only
                         Sample.plain_float Sample.a_browser))).
  - reflexivity.
  - reflexivity.
Defined.

